(* ===== verification/_CoqProject ===== *)
-Q . S2P
Prelude.v
Text.v
Bytes.v
Wire.v
Regions.v
Handshake.v
Frame.v
FrameFacts.v
FrameTheorems.v
Dispatch.v
Transport.v
Driver.v
DriverFacts.v
DriverTheorems.v
Command.v
Connection.v
ConnectionTheorems.v
Client.v
ClientTheorems.v
EndToEnd.v
Lifecycle.v
System.v
SystemFacts.v
SystemTheorems.v
SystemLiveness.v
Harness.v
HarnessTheorems.v
Display.v
Host.v
Json.v
JsonTheorems.v
Calendar.v
CalendarTheorems.v
Identity.v
Segment.v
SegmentTheorems.v
Record.v
RecordTheorems.v
Campaigns.v
CampaignTheorems.v
Runner.v
RunnerTheorems.v
WireTests.v
Fixtures.v
Corpus.v
ConnectionTests.v
DispatchTests.v
RunnerTests.v
UnitTests.v
