(* ===== verification/Prelude.v ===== *)
(** * RP-1 Rust client: verification development

    The program is a multiplexing client for the RP-1 binary protocol
    ([src/src], about 2,500 lines of code without its tests). Bytes come from a
    transport ([transport/mod.rs]); [protocol.rs] decodes and encodes frames and
    handshake payloads as pure functions; [connection/mod.rs] runs the handshake,
    and then a driver task ([connection/driver.rs]) owns the transport: it writes
    submitted requests, reads chunks, and hands terminal frames to the callers that
    wait for them, by request id. [connection/dispatch.rs] allocates request ids and
    tracks those in flight; [command.rs] encodes the payloads of the five operations
    and interprets their answers.

    The repository also carries the tool its releases rest on, the validation runner
    ([src/tools/validation-runner/src], about 1,900 lines without tests): it runs a
    catalogue of segments (builds, tests, audits) as child processes, records every
    attempt with its evidence in a run record on disk, reuses results recorded under
    the same evidence identity, and decides whether the record seals. Its exit code is
    the gate.

    ** Files

    - [Prelude]: results and the [?] operator as notations, machine integers with
      their widths written out, slices as lists with checked ranges, the tactics
      [breflect], [zbool], [inv_ok], [literal_offsets], and the shared lemmas.
    - [Text]: Rust strings as lists of characters; trimming, lines, UTF-8, decimal
      and hexadecimal numbers and their parsers.
    - [Bytes]: little-endian fields ([read_u16_le], [read_u32_le], [read_u64_le]).
    - [Wire]: constants, enumerations and failures of [protocol.rs]; the class
      [WireEnum] states what an enumeration promises to the codec.
    - [Regions]: [MetadataRegion], [CapabilityEntries] and their ordering checks.
    - [Handshake]: [HandshakeOffer], [HandshakeRequest], [HandshakeResponse].
    - [Frame]: [decode], [encode_with_max] and all they call ([admit] is named
      [admit_frame]); [FrameFacts]: the reference description of a frame
      ([frame_bytes], [frame_wf]) and the lemmas; [FrameTheorems]: the properties.
    - [Dispatch]: [RequestIdAllocator] and [InFlightRegistry].
    - [Transport]: the [Transport] trait as a class, its laws as the class
      [LawfulTransport], the in-memory transport and the union with TCP as
      instances, [read_chunk] and [write_all].
    - [Driver]: [drain_frames], [fail_all], [mark_state] and the loop of
      [run_driver], one step per [select!] branch; [DriverFacts] and
      [DriverTheorems]: its lemmas and properties.
    - [Command]: payloads and interpretation ([command.rs]).
    - [Connection]: configuration, handshake exchange, [establish], [connect];
      [ConnectionTheorems]: their properties.
    - [Client]: [CommandError], [execute], [decode_own] and the five operations;
      [ClientTheorems]: their properties.
    - [EndToEnd]: callers, driver and transport composed.
    - [Lifecycle]: [close] and its callees, one step per lock section, interleaved
      with the driver's changes of the shared state; dropping the connection.
    - [System]: one session with everybody on it: any number of callers of [execute], each
      advancing one lock section or [await] at a time and possibly dropped at an [await],
      the admission semaphore, the submit channel, closing handles and the driver, as a
      step relation; [SystemFacts]: its invariants (permits, channels, ids, admission
      gate); [SystemTheorems]: its properties; [SystemLiveness]: schedules, the driver's
      preferences among the branches of [select!], and what a fair schedule brings about.
    - [Harness]: the dispatcher of the multiplexing tests ([dispatch.rs]), its callers
      and its driver interleaved; [HarnessTheorems]: its agreement with the driver and
      its books.
    - [Display]: the messages and sources of the client's errors.
    - [Host]: the world the runner acts on: the records directory, the clock, child
      processes, and a monad of system calls that may each fail ([error.rs],
      [process.rs]).
    - [Json], [JsonTheorems]: the records' object builder and reader ([json.rs]).
    - [Calendar], [CalendarTheorems]: clock values to dates ([time.rs]).
    - [Identity]: the evidence identity and its digest, revision and tree state
      ([identity.rs], [repo.rs]).
    - [Segment], [SegmentTheorems]: one attempt of a segment ([segment.rs]).
    - [Record], [RecordTheorems]: run records and their journal ([record.rs]).
    - [Campaigns], [CampaignTheorems]: the catalogue, reuse, sealing and the campaign
      itself ([campaign.rs]).
    - [Runner], [RunnerTheorems]: the command line and the whole run ([main.rs]).
    - [WireTests], [ConnectionTests], [DispatchTests], [RunnerTests]: the unit tests of the
      sources, one boolean per test function; [UnitTests] runs them on the model. [WireTests]
      also has the fuzz target ([fuzz/fuzz_targets/frame_decode.rs]), [RunnerTests] the
      temporary directories of the runner's tests ([testing.rs]).
    - [Fixtures], [Corpus]: the conformance checker of [tests/spec_fixtures.rs] and the 107
      fixtures of the specification it reads, run on the model.

    Modules carry the names of the source's types, records their fields,
    inductive types their variants; [Opaque_] stands for the variant [Opaque],
    [exists_] for the method [exists].

    ** What the theorems show

    - Codec: the decoder accepts exactly the reference frames, more bytes never
      change its answer, it waits on every strict prefix of a frame, its failures
      are classified and bounded, and it and the encoder invert each other in both
      directions; the encoder's errors are characterised completely. The handshake
      payload codecs are exact in the same sense.
    - Driver: frames reach their waiters in any arrival order; the outcome does not
      depend on chunking; over whole runs every completion channel is answered
      exactly once; the buffer is bounded; no enabled turn gets stuck.
    - Connection: the handshake terminates on every lawful transport, succeeds only
      within contract and completes however the response is fragmented; requests are
      handed over exactly when they may be sent and are frames a server accepts;
      answers reach the caller unchanged. End to end, any number of concurrent calls are
      answered, each by its own frame, in any order and fragmentation.
    - Lifecycle: a connection never becomes usable again under any interleaving of
      closing handles and driver, and no driver outlives its connection.
    - Session: under every interleaving of callers, cancellations, closing handles and
      driver, a call gets its own answer or an outcome the atomic [execute] has, the driver
      never refuses a submission, a call waits only for a permit, for room or for an
      answer that is owed to it, once the driver has ended every call can return with its permit,
      and the requests in flight are bounded by the maximum and the abandoned calls. A turn
      of [System] that is not interrupted is the turn of [Driver], and what [establish]
      returns over TCP is the state the interleavings start from. Under a fair schedule a
      session that some handle closes comes to an end for everybody.
    - Validation of the model: the codec conforms to every fixture of the specification's
      corpus, and the model passes the unit tests of the repository.
    - Test dispatcher: it answers as the driver does, its live ids are exactly those of
      the requests under way, no channel is answered twice and no caller is left behind.
    - Runner: records are written and read back exactly; dates are the calendar's; an
      attempt is a run of its steps up to the first failure, and ends; a record is fresh,
      its journal only grows and its evidence is kept; every reused entry has a pass
      behind it; a record seals exactly when it should; and the exit code of a gate run
      means that every required segment passed under the run's identity.
    - Some theorems record where the code departs from its documentation:
      [fatal_error_frame_delivered], [fatal_failure_not_ambiguous],
      [terminal_state_overwritten], [second_close_too_early],
      [failed_shutdown_stays_closed], [idle_disconnect_unnoticed],
      [harness_diverges], [dirty_evidence_sealed], [torn_entry_lost],
      [trailing_text_ignored], [abandoned_unbounded], [always_need_passes_tests].

    ** Modelling choices

    - An unsigned integer is a [Z]; its width appears where the code relies on it
      ([try_from], [checked_add], [wrapping_add], [*_typed] hypotheses). [usize] is
      64 bits. A [u8] slice is a [list byte].
    - Loops have fuel: the region parsers use the length of the region (each round
      takes four bytes), [write_all] the number of bytes (each round writes one),
      [drain_frames] the length of the buffer (each round removes a header; the loop
      equation [drain_frames_unfold] has no fuel), [read_handshake_response] the
      buffer bound (each round adds a byte). That the fuel suffices is proved.
    - [HashMap] and [HashSet] are [gmap] and [gset]; the unspecified order of
      [live_ids] does not matter ([decode_in_flight_set]).
    - A oneshot channel is a number and sending appends to a log. Which [select!]
      branch is ready, what the semaphore grants and what a submission becomes are
      arguments or events. The operating system's TCP stream is a type with the
      operations of [Transport]; theorems that need its behaviour take
      [LawfulTransport], which the in-memory transport discharges.
    - In [System] a turn of the driver that goes on is one step, since nothing it does in
      between is visible to others; a turn that ends the session is cut where it changes the
      shared state. A handle exists throughout, so the submit channel is closed only by the
      driver's end; the semaphore is a number of permits and any waiter may be woken.
    - The unit tests run on an in-memory transport, as in the source. The multiplexing tests
      run under one schedule; what a started program does in the runner's tests is the host's.
    - A poll of the driver completes the turn it starts. In the source the driver does not look
      at the shutdown signal while it writes, so a transport that never accepts the bytes of a
      submission would keep it there; [close_ends_session] says nothing about that case.
    - The runner's effects are a state monad over [World]: the files of every record
      and a count of interactions with the system. A [Host] answers each interaction
      (which calls fail and how much they wrote, what the clocks read, what a process spawned
      with given arguments does at each poll on the disk it finds, what a captured program
      prints); theorems quantify over it, and those about completion assume that calls
      succeed ([quiet]) and processes answer. A record directory holds its manifest, journal, summary and evidence files; the
      topic is one path component; child processes are not told their working
      directory. A seconds text is computed with binary floating point as in the source.
    - The JSON reader's loops have the length of the text as fuel, each round taking a
      character; the poll loop has the budget divided by the poll interval
      ([attempt_ends], and the fuel lemmas of [JsonTheorems]).
    - Lock poisoning is recovered by the source ([into_inner]) and has no effect.

    ** Not modelled

    The accessors that only return a field; the re-exports of [lib.rs]; four tests of the
    runner's campaigns: three count runs by the lines a started program appends to a file, one
    runs the check of local paths on a source tree (started programs do not change the disk
    here); the JSON reader of the fixture test (the fixtures are written out as data). The
    other integration tests under [src/tests] drive the same operations over sockets, or put
    sampled inputs to the codec where [FrameTheorems] has the statement for every input. *)

From Stdlib Require Export ssreflect.
From stdpp Require Export base list gmap.
From Stdlib Require Export ZArith Lia.
From Stdlib Require Import Strings.Byte.

Declare Scope rust_scope.
Delimit Scope rust_scope with rust.
Open Scope rust_scope.
Open Scope Z_scope.

(** ** Result values

    Rust's [Result<T, E>]; [Option<T>] is Rocq's [option]. *)
Inductive result (A E : Type) : Type :=
| Ok (a : A)
| Err (e : E).
Arguments Ok {A E} a.
Arguments Err {A E} e.

(** The [?] operator on an [Option] and on a [Result], and [let ... else]. *)
Notation "'let?' x ':=' e 'in' k" :=
  (match e with Some x => k | None => None end)
  (at level 10, x pattern, e at level 200, k at level 200) : rust_scope.
Notation "'let?' x ':=' e 'else' r 'in' k" :=
  (match e with Some x => k | None => r end)
  (at level 10, x pattern, e at level 200, r at level 200, k at level 200) : rust_scope.
Notation "'let!' x ':=' e 'in' k" :=
  (match e with Ok x => k | Err err => Err err end)
  (at level 10, x pattern, e at level 200, k at level 200) : rust_scope.

(** [Option::ok_or] (and [ok_or_else] on a pure closure). *)
Definition ok_or {A E} (o : option A) (e : E) : result A E :=
  match o with Some a => Ok a | None => Err e end.

(** [Result::map_err]. *)
Definition map_err {A E F} (f : E → F) (r : result A E) : result A F :=
  match r with Ok a => Ok a | Err e => Err (f e) end.

(** [Result::is_err]. *)
Definition is_err {A E} (r : result A E) : bool :=
  match r with Ok _ => false | Err _ => true end.

(** [Option::unwrap_or]. *)
Definition unwrap_or {A} (o : option A) (d : A) : A :=
  match o with Some a => a | None => d end.

(** ** Machine integers

    An unsigned [w]-bit integer is a [Z]; the bounds are written out where the
    code relies on them. [usize] is 64 bits wide. *)
Definition U8_MAX : Z := 255.
Definition U16_MAX : Z := 65535.
Definition U32_MAX : Z := 4294967295.
Definition U64_MAX : Z := 18446744073709551615.
Definition USIZE_MAX : Z := U64_MAX.

(** The values an unsigned type of maximum [m] holds. *)
Definition fits (m z : Z) : bool := (0 <=? z) && (z <=? m).

(** [checked_add] of the unsigned type whose maximum is [m]. *)
Definition checked_add (m a b : Z) : option Z :=
  if a + b <=? m then Some (a + b) else None.

(** [T::try_from] into the unsigned type whose maximum is [m]. *)
Definition try_from (m z : Z) : option Z :=
  if fits m z then Some z else None.

(** [wrapping_add] of the unsigned type whose maximum is [m]. *)
Definition wrapping_add (m a b : Z) : Z := (a + b) mod (m + 1).

(** ** Slices *)

(** [slice.len()]. *)
Definition len {A} (l : list A) : Z := Z.of_nat (length l).

(** [slice.is_empty()]. *)
Definition is_empty {A} (l : list A) : bool :=
  match l with [] => true | _ => false end.

(** [slice.get(a..b)]: [None] when the range is reversed or runs past the end. *)
Definition slice_get {A} (l : list A) (a b : Z) : option (list A) :=
  if (a <=? b) && (b <=? len l)
  then Some (take (Z.to_nat (b - a)) (drop (Z.to_nat a) l))
  else None.

(** [slice.get(a..)]. *)
Definition slice_from {A} (l : list A) (a : Z) : option (list A) :=
  slice_get l a (len l).

(** [slice.get(i)]. *)
Definition get_at {A} (l : list A) (i : Z) : option A := l !! Z.to_nat i.

(** [Vec::drain(..n)]: the bytes that stay. *)
Definition drain_front {A} (n : Z) (l : list A) : list A := drop (Z.to_nat n) l.

(** ** Automation *)

Create HintDb rp1.

#[global] Instance byte_eq_dec : EqDecision byte.
Proof. intros x y. destruct (Byte.byte_eq_dec x y); [left | right]; done. Defined.

(** Turns the boolean comparisons of a hypothesis or the goal into propositions. *)
Ltac breflect :=
  repeat match goal with
  | H : context [?a && ?b] |- _ =>
      match type of H with
      | a && b = true => apply andb_true_iff in H; destruct H
      | a && b = false => apply andb_false_iff in H
      end
  | H : (_ <=? _) = true |- _ => apply Z.leb_le in H
  | H : (_ <=? _) = false |- _ => apply Z.leb_gt in H
  | H : (_ <? _) = true |- _ => apply Z.ltb_lt in H
  | H : (_ <? _) = false |- _ => apply Z.ltb_ge in H
  | H : (_ =? _) = true |- _ => apply Z.eqb_eq in H
  | H : (_ =? _) = false |- _ => apply Z.eqb_neq in H
  | H : negb _ = true |- _ => apply negb_true_iff in H
  | H : negb _ = false |- _ => apply negb_false_iff in H
  end.

(** Decides the integer comparisons of the goal that [lia] can settle. *)
Ltac zbool :=
  repeat match goal with
  | |- context [?a <=? ?b] =>
      first [ replace (a <=? b) with true by (symmetry; apply Z.leb_le; lia)
            | replace (a <=? b) with false by (symmetry; apply Z.leb_gt; lia) ]
  | |- context [?a <? ?b] =>
      first [ replace (a <? b) with true by (symmetry; apply Z.ltb_lt; lia)
            | replace (a <? b) with false by (symmetry; apply Z.ltb_ge; lia) ]
  | |- context [?a =? ?b] =>
      first [ replace (a =? b) with true by (symmetry; apply Z.eqb_eq; lia)
            | replace (a =? b) with false by (symmetry; apply Z.eqb_neq; lia) ]
  end; cbn [andb orb negb].

(** Splits every [match] of the goal or a hypothesis and closes the absurd cases. *)
Ltac split_matches := repeat (case_match; simplify_eq/=; try done).

(** Walks a hypothesis [H] that says a chain of [let!] steps and early returns ended
    in [Ok]: each step succeeded and each guard let it pass. *)
Ltac inv_ok H :=
  repeat lazymatch type of H with
  | match ok_or ?o _ with Ok _ => _ | Err _ => _ end = _ =>
      let E := fresh "E" in destruct o eqn:E; cbn [ok_or] in H; [|discriminate H]
  | match ?r with Ok _ => _ | Err _ => _ end = _ =>
      let E := fresh "E" in destruct r eqn:E; [|discriminate H]
  | (if ?b then Err _ else _) = _ =>
      let E := fresh "E" in destruct b eqn:E; [discriminate H|]
  end.

(** Evaluates the literal offsets [Z.to_nat z] of the hypotheses and the goal. *)
Ltac is_nat_literal n :=
  lazymatch n with O => idtac | S ?m => is_nat_literal m end.
Ltac literal_offsets :=
  repeat match goal with
  | H : context [Z.to_nat ?z] |- _ =>
      let v := eval vm_compute in (Z.to_nat z) in is_nat_literal v;
      change (Z.to_nat z) with v in H
  | |- context [Z.to_nat ?z] =>
      let v := eval vm_compute in (Z.to_nat z) in is_nat_literal v;
      change (Z.to_nat z) with v
  end.

(** Evaluates the length of a list built from known parts. *)
Ltac len_simpl := rw /len ?length_app ?length_cons ?length_take ?length_drop /= in *.

(** ** Integer lemmas *)

Lemma fits_spec m z : fits m z = true ↔ 0 ≤ z ≤ m.
Proof. unfold fits. rw andb_true_iff Z.leb_le Z.leb_le. lia. Qed.

Lemma try_from_fits m z : 0 ≤ z ≤ m → try_from m z = Some z.
Proof. intros H. unfold try_from. by rw (proj2 (fits_spec m z) H). Qed.

Lemma try_from_Some m z v : try_from m z = Some v → v = z ∧ 0 ≤ z ≤ m.
Proof.
  unfold try_from. case_match eqn:E; intros; simplify_eq.
  by apply fits_spec in E.
Qed.

Lemma checked_add_fits m a b : a + b ≤ m → checked_add m a b = Some (a + b).
Proof. intros H. unfold checked_add. by zbool. Qed.

Lemma checked_add_Some m a b v : checked_add m a b = Some v → v = a + b ∧ a + b ≤ m.
Proof. unfold checked_add. case_match eqn:E; intros; simplify_eq. breflect. lia. Qed.

(** ** Slice lemmas *)

Section slices.
Context {A : Type}.
Implicit Types l p s q : list A.

Lemma len_nonneg l : 0 ≤ len l.
Proof. unfold len. lia. Qed.

Lemma len_app l k : len (l ++ k) = len l + len k.
Proof. unfold len. rw length_app. lia. Qed.

Lemma len_cons (x : A) l : len (x :: l) = 1 + len l.
Proof. unfold len. simpl. lia. Qed.

Lemma len_zero_nil l : len l = 0 → l = [].
Proof. unfold len. destruct l; [done | simpl; lia]. Qed.

Lemma is_empty_spec l : is_empty l = true ↔ l = [].
Proof. by destruct l. Qed.

Lemma slice_get_Some l a b s :
  0 ≤ a → slice_get l a b = Some s →
  a ≤ b ≤ len l ∧ len s = b - a ∧
  drop (Z.to_nat a) l = s ++ drop (Z.to_nat b) l.
Proof.
  intros Ha. unfold slice_get. case_match eqn:E; intros; simplify_eq.
  breflect. split; [lia|]. unfold len in *. split.
  - rw length_take length_drop. lia.
  - rw -{1}(take_drop (Z.to_nat (b - a)) (drop (Z.to_nat a) l)). f_equal.
    rw drop_drop. f_equal. lia.
Qed.

Lemma slice_get_mid p s q a b :
  a = len p → b = len p + len s → slice_get (p ++ s ++ q) a b = Some s.
Proof.
  intros -> ->. unfold slice_get.
  rw !len_app. pose proof (len_nonneg s). pose proof (len_nonneg q).
  zbool. f_equal. unfold len.
  replace (Z.to_nat (Z.of_nat (length p) + Z.of_nat (length s) - Z.of_nat (length p)))
    with (length s) by lia.
  rw Nat2Z.id drop_app_length take_app_length //.
Qed.

Lemma slice_get_app_l l k a b :
  0 ≤ a → b ≤ len l → slice_get (l ++ k) a b = slice_get l a b.
Proof.
  intros Ha Hb. unfold slice_get. rw len_app.
  pose proof (len_nonneg k).
  destruct (a <=? b) eqn:E; [|done]. breflect. zbool.
  unfold len in *. rw drop_app_le; [lia|].
  rw take_app_le; [rw length_drop; lia|done].
Qed.

Lemma slice_get_is_Some l a b :
  0 ≤ a → is_Some (slice_get l a b) ↔ a ≤ b ≤ len l.
Proof.
  intros Ha. unfold slice_get. case_match eqn:E; breflect.
  - split; [lia | done].
  - split; [by intros [? ?] | destruct E; breflect; lia].
Qed.

Lemma slice_from_app p q a : a = len p → slice_from (p ++ q) a = Some q.
Proof.
  intros ->. unfold slice_from. rw len_app.
  pose proof (slice_get_mid p q [] _ _ eq_refl eq_refl) as E.
  by rw app_nil_r in E.
Qed.

Lemma slice_from_at l q a :
  drop (Z.to_nat a) l = q → 0 ≤ a ≤ len l → slice_from l a = Some q.
Proof.
  intros <- Ha. unfold slice_from, slice_get. zbool. f_equal.
  apply take_ge. rw length_drop. unfold len in *. lia.
Qed.

Lemma slice_get_at l s a b :
  take (Z.to_nat (b - a)) (drop (Z.to_nat a) l) = s → a ≤ b ≤ len l →
  slice_get l a b = Some s.
Proof. intros <- ?. unfold slice_get. by zbool. Qed.

Lemma slice_from_Some l a s :
  0 ≤ a → slice_from l a = Some s →
  a ≤ len l ∧ len s = len l - a ∧ s = drop (Z.to_nat a) l.
Proof.
  intros Ha H. apply slice_get_Some in H as (? & ? & E); [|done].
  split; [lia|]. split; [done|]. rw E.
  rw (drop_ge l (Z.to_nat (len l))); [unfold len; lia | by rw app_nil_r].
Qed.

Lemma get_at_app_l l k i : 0 ≤ i < len l → get_at (l ++ k) i = get_at l i.
Proof. intros. unfold get_at, len in *. apply lookup_app_l. lia. Qed.

Lemma get_at_mid p (x : A) q i : i = len p → get_at (p ++ x :: q) i = Some x.
Proof. intros ->. unfold get_at, len. rw Nat2Z.id. by apply list_lookup_middle. Qed.

Lemma drain_front_app p q n : n = len p → drain_front n (p ++ q) = q.
Proof. intros ->. unfold drain_front, len. rw Nat2Z.id. apply drop_app_length. Qed.

End slices.

(** A relation between lists may use that the left element is a member. *)
Lemma Forall2_impl_elem {A B} (P Q : A → B → Prop) l k :
  Forall2 P l k → (∀ x y, x ∈ l → P x y → Q x y) → Forall2 Q l k.
Proof.
  induction 1 as [|x y l k Hxy Hlk IH]; intros H; constructor.
  - apply H; [left | done].
  - apply IH. intros a b Ha. apply H. by right.
Qed.

#[export] Hint Resolve len_nonneg : rp1.
