(* ===== verification/Text.v ===== *)
(** * Text

    What the sources use of Rust's strings: [str] as a list of Unicode scalar
    values, [trim], [lines], [join], [strip_prefix], byte lengths and byte ranges of
    UTF-8 text, the formatting of integers ([{}], [{:02}], [{:016x}]) and their
    parsing ([from_str], [from_str_radix]), and the order [str] is sorted by. *)

From S2P Require Export Prelude.
From Stdlib Require Strings.String Strings.Ascii.
Export (notations) Strings.String.

(** A string, as the sequence of its [char]s. *)
Definition text : Type := list Z.

(** An ASCII literal of the source. *)
Definition str (s : String.string) : text :=
  map (λ a, Z.of_N (Ascii.N_of_ascii a)) (String.list_ascii_of_string s).
Arguments str s%_string.

(** The values a [char] takes ([char::from_u32]). *)
Definition is_scalar (c : Z) : bool :=
  ((0 <=? c) && (c <? 0xD800)) || ((0xE000 <=? c) && (c <=? 0x10FFFF)).

(** ** Characters *)

(** [char::is_whitespace]: the Unicode [White_Space] property. *)
Definition is_whitespace (c : Z) : bool :=
  ((0x9 <=? c) && (c <=? 0xD)) || (c =? 0x20) || (c =? 0x85) || (c =? 0xA0) || (c =? 0x1680) ||
  ((0x2000 <=? c) && (c <=? 0x200A)) || (c =? 0x2028) || (c =? 0x2029) || (c =? 0x202F) ||
  (c =? 0x205F) || (c =? 0x3000).

(** [char::is_ascii_digit] and [char::is_ascii_hexdigit]. *)
Definition is_ascii_digit (c : Z) : bool := (48 <=? c) && (c <=? 57).
Definition is_ascii_hexdigit (c : Z) : bool :=
  is_ascii_digit c || ((65 <=? c) && (c <=? 70)) || ((97 <=? c) && (c <=? 102)).

(** [char::from_digit(value, radix)]: a digit in lower case. *)
Definition from_digit (value radix : Z) : option Z :=
  if radix <=? value then None
  else if value <? 10 then Some (48 + value) else Some (87 + value).

(** [char::to_digit] for a radix up to sixteen. *)
Definition to_digit (c radix : Z) : option Z :=
  let v := if is_ascii_digit c then c - 48
           else if (97 <=? c) && (c <=? 102) then c - 87
           else if (65 <=? c) && (c <=? 70) then c - 55 else 16 in
  if v <? radix then Some v else None.

(** ** Strings *)

(** [str::trim_start], [str::trim_end] and [str::trim]. *)
Fixpoint trim_start (s : text) : text :=
  match s with
  | [] => []
  | c :: s' => if is_whitespace c then trim_start s' else s
  end.
Definition trim_end (s : text) : text := reverse (trim_start (reverse s)).
Definition trim (s : text) : text := trim_end (trim_start s).

(** [s.trim().is_empty()]: nothing but whitespace. *)
Definition trims_to_empty (s : text) : bool := forallb is_whitespace s.

(** [str::lines]: pieces ended by a line feed, a carriage return before it dropped;
    the last piece needs no line feed and is absent when empty. *)
Definition NEWLINE : Z := 10.
Definition CARRIAGE_RETURN : Z := 13.

Definition strip_carriage_return (line : text) : text :=
  match reverse line with
  | c :: r => if c =? CARRIAGE_RETURN then reverse r else line
  | [] => line
  end.

Fixpoint lines_from (line s : text) : list text :=
  match s with
  | [] => if is_empty line then [] else [line]
  | c :: s' => if c =? NEWLINE then strip_carriage_return line :: lines_from [] s'
               else lines_from (line ++ [c]) s'
  end.
Definition lines (s : text) : list text := lines_from [] s.

(** [slice.join(separator)]. *)
Fixpoint join (separator : text) (parts : list text) : text :=
  match parts with
  | [] => []
  | [p] => p
  | p :: ps => p ++ separator ++ join separator ps
  end.

(** [str::strip_prefix]. *)
Fixpoint strip_prefix (prefix s : text) : option text :=
  match prefix, s with
  | [], _ => Some s
  | p :: prefix', c :: s' => if p =? c then strip_prefix prefix' s' else None
  | _ :: _, [] => None
  end.

(** Bytes of the UTF-8 encoding. *)
Definition utf8_char (c : Z) : list Z :=
  if c <? 0x80 then [c]
  else if c <? 0x800 then [0xC0 + c / 64; 0x80 + c mod 64]
  else if c <? 0x10000 then [0xE0 + c / 4096; 0x80 + (c / 64) mod 64; 0x80 + c mod 64]
  else [0xF0 + c / 262144; 0x80 + (c / 4096) mod 64; 0x80 + (c / 64) mod 64; 0x80 + c mod 64].
Definition as_bytes (s : text) : list Z := concat (map utf8_char s).

(** [str::len]. *)
Definition str_len (s : text) : Z := len (as_bytes s).

(** [s.get(..n)]: [None] when [n] is past the end or inside a character. *)
Fixpoint str_get_to (n : Z) (s : text) : option text :=
  if n =? 0 then Some [] else
  match s with
  | [] => None
  | c :: s' =>
      let w := len (utf8_char c) in
      if n <? w then None else
      let? p := str_get_to (n - w) s' in Some (c :: p)
  end.

(** [str] is ordered by its bytes, which is the order of the scalar values. *)
Fixpoint str_lt (a b : text) : bool :=
  match a, b with
  | _, [] => false
  | [], _ :: _ => true
  | x :: a', y :: b' => if x =? y then str_lt a' b' else x <? y
  end.

(** ** Integers as text *)

(** The digits of [n] in a radix, most significant first. *)
Fixpoint digits_from (fuel : nat) (radix n : Z) : list Z :=
  match fuel with
  | O => []
  | S f => if n <? radix then [n] else digits_from f radix (n / radix) ++ [n mod radix]
  end.
Definition digits (radix n : Z) : list Z := digits_from (S (Z.to_nat (Z.log2 n))) radix n.

Definition digit_char (d : Z) : Z := if d <? 10 then 48 + d else 87 + d.

(** [{}] and [{:x}] of an unsigned integer. *)
Definition decimal (n : Z) : text := map digit_char (digits 10 n).
Definition hexadecimal (n : Z) : text := map digit_char (digits 16 n).

(** [{:0w}]: zeroes up to the width. *)
Definition zero_pad (w : nat) (s : text) : text := replicate (w - length s) 48 ++ s.

(** [{:0w}] of a signed integer: the sign comes before the zeroes. *)
Definition pad_signed (w : nat) (n : Z) : text :=
  if n <? 0 then 45 :: zero_pad (w - 1) (decimal (- n)) else zero_pad w (decimal n).

(** [uN::from_str_radix] past its sign, one checked multiplication and addition per
    digit; [m] is the maximum of the type. *)
Fixpoint accumulate (m radix acc : Z) (s : text) : option Z :=
  match s with
  | [] => Some acc
  | c :: s' =>
      let? d := to_digit c radix in
      if m <? acc * radix then None else
      let? acc' := checked_add m (acc * radix) d in
      accumulate m radix acc' s'
  end.

(** [uN::from_str_radix]; [uN::from_str] is radix ten. A leading plus is accepted. *)
Definition from_str_radix (m radix : Z) (s : text) : option Z :=
  match s with
  | [] => None
  | c :: s' => if c =? 43 then (if is_empty s' then None else accumulate m radix 0 s')
               else accumulate m radix 0 s
  end.
Definition parse_unsigned (m : Z) (s : text) : option Z := from_str_radix m 10 s.

(** ** Lemmas: literals *)

Lemma str_bound s : Forall (λ c, 0 ≤ c < 256) (str s).
Proof.
  unfold str. apply Forall_map. induction (String.list_ascii_of_string s) as [|a l IH]; constructor; [|done].
  pose proof (Ascii.N_ascii_bounded a). lia.
Qed.

Lemma str_nonneg s : Forall (λ c, 0 ≤ c) (str s).
Proof. eapply Forall_impl; [apply str_bound|]. cbn. lia. Qed.

#[export] Hint Resolve str_nonneg : rp1.

(** ** Lemmas: integers as text *)

(** The number a list of digits denotes. *)
Definition value_from (radix acc : Z) (ds : list Z) : Z :=
  fold_left (λ acc d, acc * radix + d) ds acc.
Abbreviation value radix ds := (value_from radix 0 ds).

Section radix.
Context (radix : Z) (Hradix : 2 ≤ radix).

Lemma value_from_app acc ds es :
  value_from radix acc (ds ++ es) = value_from radix (value_from radix acc ds) es.
Proof. apply fold_left_app. Qed.

Lemma digits_from_value fuel n :
  0 ≤ n → n < 2 ^ Z.of_nat fuel → value radix (digits_from fuel radix n) = n.
Proof using Hradix.
  revert n. induction fuel as [|f IH]; intros n Hn Hlt.
  - simpl in *. lia.
  - simpl. destruct (n <? radix) eqn:E; [simpl; lia|]. breflect.
    assert (n / radix < 2 ^ Z.of_nat f).
    { apply Z.div_lt_upper_bound; [lia|]. rewrite -> Nat2Z.inj_succ, Z.pow_succ_r in Hlt by lia. nia. }
    rw value_from_app IH; [apply Z.div_pos; lia | done|]. simpl.
    pose proof (Z.div_mod n radix). lia.
Qed.

Lemma digits_value n : 0 ≤ n → value radix (digits radix n) = n.
Proof using Hradix.
  intros Hn. apply digits_from_value; [done|].
  destruct (decide (n = 0)) as [->|]; [done|].
  rewrite -> Nat2Z.inj_succ, Z2Nat.id by apply Z.log2_nonneg.
  apply Z.log2_spec. lia.
Qed.

Lemma digits_from_bound fuel n :
  0 ≤ n → Forall (λ d, 0 ≤ d < radix) (digits_from fuel radix n).
Proof using Hradix.
  revert n. induction fuel as [|f IH]; intros n Hn; simpl; [constructor|].
  destruct (n <? radix) eqn:E; breflect.
  - repeat constructor; lia.
  - apply Forall_app. split; [apply IH, Z.div_pos; lia|].
    repeat constructor; apply Z.mod_pos_bound; lia.
Qed.

Lemma digits_bound n : 0 ≤ n → Forall (λ d, 0 ≤ d < radix) (digits radix n).
Proof using Hradix. apply digits_from_bound. Qed.

Lemma digits_cons n : 0 ≤ n → ∃ d ds, digits radix n = d :: ds.
Proof using Hradix.
  intros Hn. unfold digits. simpl. destruct (n <? radix); [by eexists _, _|].
  destruct (digits_from _ _ _); by eexists _, _.
Qed.

Lemma digits_from_length fuel n k :
  0 ≤ n < radix ^ Z.of_nat k → (1 ≤ k)%nat → (length (digits_from fuel radix n) ≤ k)%nat.
Proof using Hradix.
  revert n k. induction fuel as [|f IH]; intros n k Hn Hk; simpl; [lia|].
  destruct (n <? radix) eqn:E; breflect; [simpl; lia|].
  rw length_app /=. destruct k as [|[|k]]; [lia | |].
  - rw Z.pow_1_r in Hn. lia.
  - assert (length (digits_from f radix (n / radix)) ≤ S k)%nat; [|lia].
    apply IH; [|lia]. split; [apply Z.div_pos; lia|].
    apply Z.div_lt_upper_bound; [lia|].
    rewrite -> (Nat2Z.inj_succ (S k)), Z.pow_succ_r in Hn by lia. lia.
Qed.

Lemma digits_length n k :
  0 ≤ n < radix ^ Z.of_nat k → (1 ≤ k)%nat → (length (digits radix n) ≤ k)%nat.
Proof using Hradix. apply digits_from_length. Qed.

Lemma value_from_zeroes k acc ds :
  acc = 0 → value_from radix acc (replicate k 0 ++ ds) = value radix ds.
Proof. intros ->. induction k as [|k IH]; simpl; [done|]. by rw IH. Qed.

Lemma value_from_lower acc ds :
  0 ≤ acc → Forall (λ d, 0 ≤ d < radix) ds → acc ≤ value_from radix acc ds.
Proof using Hradix.
  intros Hacc H. revert acc Hacc. induction H as [|d ds Hd Hds IH]; intros acc Hacc; simpl; [lia|].
  specialize (IH (acc * radix + d)). nia.
Qed.

Lemma value_from_bounds acc ds :
  Forall (λ d, 0 ≤ d < radix) ds →
  acc * radix ^ len ds ≤ value_from radix acc ds < (acc + 1) * radix ^ len ds.
Proof using Hradix.
  intros H. revert acc. induction H as [|d ds Hd Hds IH]; intros acc.
  - unfold len. simpl. lia.
  - specialize (IH (acc * radix + d)). simpl.
    rewrite -> len_cons, Z.pow_add_r, Z.pow_1_r by (pose proof (len_nonneg ds); lia).
    pose proof (Z.pow_pos_nonneg radix (len ds)). pose proof (len_nonneg ds). nia.
Qed.

End radix.

Lemma to_digit_char radix d : radix ≤ 16 → 0 ≤ d < radix → to_digit (digit_char d) radix = Some d.
Proof.
  intros Hr Hd. unfold to_digit, digit_char, is_ascii_digit.
  destruct (d <? 10) eqn:E; breflect; zbool.
  - replace (48 + d - 48) with d by lia. by zbool.
  - replace (87 + d - 87) with d by lia. by zbool.
Qed.

Lemma accumulate_digits m radix acc ds :
  2 ≤ radix ≤ 16 → 0 ≤ acc → Forall (λ d, 0 ≤ d < radix) ds →
  value_from radix acc ds ≤ m →
  accumulate m radix acc (map digit_char ds) = Some (value_from radix acc ds).
Proof.
  intros Hr Hacc H. revert acc Hacc. induction H as [|d ds Hd Hds IH]; intros acc Hacc Hm; [done|].
  simpl in *. rw to_digit_char; [lia | done |].
  pose proof (value_from_lower radix ltac:(lia) (acc * radix + d) ds ltac:(nia) Hds).
  zbool. rw checked_add_fits; [lia|]. apply IH; [nia | done].
Qed.

Lemma digit_char_not_plus d : 0 ≤ d < 16 → digit_char d ≠ 43.
Proof. unfold digit_char. case_match; lia. Qed.

Lemma from_str_radix_digits m radix d ds :
  2 ≤ radix ≤ 16 → Forall (λ d, 0 ≤ d < radix) (d :: ds) → value radix (d :: ds) ≤ m →
  from_str_radix m radix (map digit_char (d :: ds)) = Some (value radix (d :: ds)).
Proof.
  intros Hr H Hm. unfold from_str_radix. rw map_cons.
  apply Forall_cons in H as Hd. destruct Hd as [Hd _].
  pose proof (digit_char_not_plus d ltac:(lia)).
  zbool. rw -map_cons. apply accumulate_digits; [done | lia | done | done].
Qed.

(** Padding adds digits that do not change the number. *)
Lemma zero_pad_digits w ds :
  zero_pad w (map digit_char ds) = map digit_char (replicate (w - length ds) 0 ++ ds).
Proof. unfold zero_pad. rw length_map map_app. f_equal. by induction (_ - _)%nat as [|k IH]; simpl; [|rw -IH]. Qed.

Lemma parse_zero_pad m w n :
  0 ≤ n ≤ m → parse_unsigned m (zero_pad w (decimal n)) = Some n.
Proof.
  intros Hn. unfold decimal. rw zero_pad_digits. unfold parse_unsigned.
  pose proof (digits_bound 10 ltac:(lia) n ltac:(lia)) as Hb.
  pose proof (digits_value 10 ltac:(lia) n ltac:(lia)) as Hv.
  destruct (replicate (w - length (digits 10 n)) 0 ++ digits 10 n) as [|d ds] eqn:E.
  - destruct (digits_cons 10 ltac:(lia) n ltac:(lia)) as (d & ds & Ed).
    rw Ed in E. by destruct (replicate _ _).
  - assert (value 10 (d :: ds) = n) as Hd.
    { rw -E value_from_zeroes; [done | done]. }
    rw from_str_radix_digits; [lia | | lia | by rw Hd].
    rw -E. apply Forall_app. split; [|done]. apply Forall_replicate. lia.
Qed.

Lemma parse_decimal m n : 0 ≤ n ≤ m → parse_unsigned m (decimal n) = Some n.
Proof. intros Hn. rw -(parse_zero_pad m 0 n); [done|]. done. Qed.

Lemma decimal_digits n : 0 ≤ n → Forall (λ c, is_ascii_digit c = true) (decimal n).
Proof.
  intros Hn. unfold decimal. apply Forall_map.
  eapply Forall_impl; [apply (digits_bound 10); lia|]. intros d Hd. simpl in Hd.
  unfold is_ascii_digit, digit_char. by zbool.
Qed.

Lemma decimal_cons n : 0 ≤ n → ∃ c s, decimal n = c :: s.
Proof.
  intros Hn. unfold decimal.
  destruct (digits_cons 10 ltac:(lia) n Hn) as (d & ds & ->). by eexists _, _.
Qed.

(** A padded number has the width when it fits. *)
Lemma length_zero_pad w s : (length s ≤ w)%nat → length (zero_pad w s) = w.
Proof. intros. unfold zero_pad. rw length_app length_replicate. lia. Qed.

Lemma length_pad_decimal w n :
  0 ≤ n < 10 ^ Z.of_nat w → (1 ≤ w)%nat → length (zero_pad w (decimal n)) = w.
Proof.
  intros Hn Hw. apply length_zero_pad. unfold decimal. rw length_map. by apply digits_length.
Qed.

(** Digits of equal length compare as their numbers. *)
Lemma str_lt_digits acc ds es s r :
  Forall (λ d, 0 ≤ d < 10) ds → Forall (λ d, 0 ≤ d < 10) es → length ds = length es →
  value_from 10 acc ds < value_from 10 acc es →
  str_lt (map digit_char ds ++ s) (map digit_char es ++ r) = true.
Proof.
  intros Hds. revert acc es.
  induction Hds as [|d ds Hd Hds IH]; intros acc es Hes Hlen Hv.
  - destruct es; simpl in *; [lia | done].
  - destruct Hes as [|e es He Hes]; [done|]. injection Hlen as Hlen. simpl in *.
    destruct (decide (d = e)) as [->|Hne].
    + rw Z.eqb_refl. by apply (IH _ es Hes Hlen Hv).
    + assert (d < e).
      { pose proof (value_from_bounds 10 ltac:(lia) (acc * 10 + d) ds Hds).
        pose proof (value_from_bounds 10 ltac:(lia) (acc * 10 + e) es Hes).
        unfold len in *. rw Hlen in H. nia. }
      unfold digit_char. zbool. by zbool.
Qed.

Lemma str_lt_prefix p a b : str_lt (p ++ a) (p ++ b) = str_lt a b.
Proof. induction p as [|c p IH]; [done|]. simpl. by rw Z.eqb_refl. Qed.

(** The order is total and transitive. *)
Lemma str_lt_trans a b c : str_lt a b = true → str_lt b c = true → str_lt a c = true.
Proof.
  revert b c. induction a as [|x a IH]; intros [|y b] [|z c] H1 H2; simpl in *; try done.
  destruct (x =? y) eqn:E1, (y =? z) eqn:E2; breflect; subst.
  - rw Z.eqb_refl. by eapply IH.
  - by zbool.
  - by zbool.
  - by zbool.
Qed.

Lemma str_lt_total a b : str_lt a b = false → str_lt b a = false → a = b.
Proof.
  revert b. induction a as [|x a IH]; intros [|y b] H1 H2; simpl in *; try done.
  rw (Z.eqb_sym y x) in H2. destruct (x =? y) eqn:E; breflect; [|lia].
  subst. f_equal. by apply IH.
Qed.

(** Numbers padded to a width they fit sort by value. *)
Lemma str_lt_pad w n k s r :
  0 ≤ n → n < k → k < 10 ^ Z.of_nat w → (1 ≤ w)%nat →
  str_lt (zero_pad w (decimal n) ++ s) (zero_pad w (decimal k) ++ r) = true.
Proof.
  intros Hn Hk Hw Hw1. unfold decimal. rw !zero_pad_digits.
  pose proof (digits_length 10 ltac:(lia) n w ltac:(lia) Hw1).
  pose proof (digits_length 10 ltac:(lia) k w ltac:(lia) Hw1).
  apply (str_lt_digits 0).
  - apply Forall_app; split; [apply Forall_replicate; lia | apply digits_bound; lia].
  - apply Forall_app; split; [apply Forall_replicate; lia | apply digits_bound; lia].
  - rw !length_app !length_replicate. lia.
  - rw !value_from_zeroes; [done | done|]. rw !digits_value; lia.
Qed.

(** ** Lemmas: whitespace and lines *)

Lemma trim_start_id c s : is_whitespace c = false → trim_start (c :: s) = c :: s.
Proof. intros H. simpl. by rw H. Qed.

(** Text that starts and ends with other characters is not trimmed. *)
Lemma trim_id c s d :
  is_whitespace c = false → is_whitespace d = false → trim (c :: s ++ [d]) = c :: s ++ [d].
Proof.
  intros Hc Hd. unfold trim, trim_end. rw trim_start_id; [done|].
  rw app_comm_cons reverse_app reverse_singleton.
  change ([d] ++ reverse (c :: s)) with (d :: reverse (c :: s)).
  rw trim_start_id; [done|]. by rw reverse_cons reverse_involutive.
Qed.

Lemma lines_from_line line a s :
  Forall (λ c, c ≠ NEWLINE) a →
  lines_from line (a ++ NEWLINE :: s) = strip_carriage_return (line ++ a) :: lines s.
Proof.
  intros H. revert line. induction H as [|c a Hc Ha IH]; intros line; simpl.
  - by rw app_nil_r.
  - replace (c =? NEWLINE) with false by (symmetry; by apply Z.eqb_neq).
    rw IH -app_assoc. done.
Qed.

(** A text that ends its last line keeps its lines when more is appended. *)
Definition complete_lines (s : text) : Prop := s = [] ∨ ∃ a, s = a ++ [NEWLINE].

Lemma lines_from_app line a s :
  lines_from line (a ++ NEWLINE :: s) = lines_from line (a ++ [NEWLINE]) ++ lines s.
Proof.
  revert line. induction a as [|c a IH]; intros line; simpl.
  - done.
  - destruct (c =? NEWLINE); simpl; by rw IH.
Qed.

Lemma lines_app s r : complete_lines s → lines (s ++ r) = lines s ++ lines r.
Proof.
  intros [->|[a ->]]; [done|]. rw -app_assoc. apply lines_from_app.
Qed.

Lemma strip_carriage_return_id s c :
  c ≠ CARRIAGE_RETURN → strip_carriage_return (s ++ [c]) = s ++ [c].
Proof.
  intros H. unfold strip_carriage_return. rw reverse_app reverse_singleton /=.
  by replace (c =? CARRIAGE_RETURN) with false by (symmetry; by apply Z.eqb_neq).
Qed.

Lemma strip_prefix_app p s : strip_prefix p (p ++ s) = Some s.
Proof. induction p as [|c p IH]; [done|]. simpl. by rw Z.eqb_refl. Qed.

Lemma strip_prefix_Some p s r : strip_prefix p s = Some r → s = p ++ r.
Proof.
  revert s. induction p as [|c p IH]; intros [|d s] H; simplify_eq/=; [done..|].
  destruct (c =? d) eqn:E; [|done]. breflect. subst. by rw (IH _ H).
Qed.

Lemma str_get_to_ascii s r :
  Forall (λ c, 0 ≤ c < 0x80) s → str_get_to (len s) (s ++ r) = Some s.
Proof.
  induction 1 as [|c s Hc Hs IH]; simpl; [by destruct r|].
  pose proof (len_nonneg s). rw len_cons. zbool.
  replace (utf8_char c) with [c] by (unfold utf8_char; by zbool).
  change (len [c]) with 1. zbool.
  replace (1 + len s - 1) with (len s) by lia. by rw IH.
Qed.
