(* ===== verification/Bytes.v ===== *)
(** * Little-endian fields

    The bounds-checked little-endian readers of [src/src/protocol.rs]
    ([read_u16_le], [read_u32_le], [read_u64_le]) and the standard library's
    [to_le_bytes]/[from_le_bytes], with the lemmas every codec above uses: what a
    successful read says about the bytes, and how a read commutes with a longer
    buffer. *)

From S2P Require Export Prelude.
From coqutil Require Import Word.LittleEndianList.
From Stdlib Require Export Strings.Byte.

(** [uN::to_le_bytes] for an integer of [n] bytes. *)
Definition to_le_bytes (n : nat) (v : Z) : list byte := le_split n v.

(** [uN::from_le_bytes]. *)
Definition from_le_bytes (bs : list byte) : Z := le_combine bs.

(** [<[u8; N]>::try_from(slice)]. *)
Definition try_into_array (n : Z) (slice : list byte) : option (list byte) :=
  if len slice =? n then Some slice else None.

(** The body the three readers share, for a field of [w] bytes. *)
Definition read_le (w : Z) (bytes : list byte) (offset : Z) : option Z :=
  let? end_ := checked_add USIZE_MAX offset w in
  let? slice := slice_get bytes offset end_ in
  let? array := try_into_array w slice in
  Some (from_le_bytes array).

Definition read_u16_le (bytes : list byte) (offset : Z) : option Z := read_le 2 bytes offset.
Definition read_u32_le (bytes : list byte) (offset : Z) : option Z := read_le 4 bytes offset.
Definition read_u64_le (bytes : list byte) (offset : Z) : option Z := read_le 8 bytes offset.

(** ** Lemmas *)

Lemma len_to_le_bytes n v : len (to_le_bytes n v) = Z.of_nat n.
Proof. unfold len, to_le_bytes. by rw length_le_split. Qed.

Lemma from_to_le_bytes n v :
  0 ≤ v < 2 ^ (8 * Z.of_nat n) → from_le_bytes (to_le_bytes n v) = v.
Proof.
  intros H. unfold from_le_bytes, to_le_bytes.
  rw le_combine_split Z.mod_small; [|done]. by rw Z.mul_comm.
Qed.

Lemma to_from_le_bytes n bs : len bs = Z.of_nat n → to_le_bytes n (from_le_bytes bs) = bs.
Proof.
  unfold len, to_le_bytes, from_le_bytes. intros H.
  apply split_le_combine'. lia.
Qed.

Lemma from_le_bytes_bound bs : 0 ≤ from_le_bytes bs < 2 ^ (8 * len bs).
Proof. apply le_combine_bound. Qed.

Section read.
Context (n : nat).
Let w : Z := Z.of_nat n.

Lemma read_le_Some l off v :
  0 ≤ off → read_le w l off = Some v →
  off + w ≤ len l ∧ 0 ≤ v < 2 ^ (8 * w) ∧
  drop (Z.to_nat off) l = to_le_bytes n v ++ drop (Z.to_nat (off + w)) l.
Proof.
  intros Hoff. unfold read_le.
  destruct (checked_add _ _ _) as [e|] eqn:E; [|done].
  apply checked_add_Some in E as [-> _].
  destruct (slice_get _ _ _) as [s|] eqn:Es; [|done].
  apply slice_get_Some in Es as (? & Hlen & Hl); [|done].
  unfold try_into_array. destruct (len s =? w) eqn:En; [|done].
  intros [= <-]. breflect.
  split; [lia|]. split.
  - pose proof (from_le_bytes_bound s) as B. by rw En in B.
  - by rw to_from_le_bytes.
Qed.

Lemma read_le_mid p v q off :
  off = len p → off + w ≤ USIZE_MAX → 0 ≤ v < 2 ^ (8 * w) →
  read_le w (p ++ to_le_bytes n v ++ q) off = Some v.
Proof.
  intros -> Hmax Hv. unfold read_le. rw checked_add_fits; [done|].
  rw slice_get_mid; [done | by rw len_to_le_bytes|].
  unfold try_into_array. rw len_to_le_bytes Z.eqb_refl.
  by rw from_to_le_bytes.
Qed.

Lemma read_le_at l v off :
  take n (drop (Z.to_nat off) l) = to_le_bytes n v →
  0 ≤ off → off + w ≤ len l → off + w ≤ USIZE_MAX → 0 ≤ v < 2 ^ (8 * w) →
  read_le w l off = Some v.
Proof.
  intros Hd Hoff Hlen Hmax Hv. unfold read_le. rw checked_add_fits; [done|].
  unfold slice_get. zbool.
  replace (Z.to_nat (off + w - off)) with n by lia. rw Hd.
  unfold try_into_array. rw len_to_le_bytes Z.eqb_refl. by rw from_to_le_bytes.
Qed.

Lemma read_le_app_l l k off :
  0 ≤ off → off + w ≤ len l → read_le w (l ++ k) off = read_le w l off.
Proof.
  intros. unfold read_le. destruct (checked_add _ _ _) eqn:E; [|done].
  apply checked_add_Some in E as [-> _]. by rw slice_get_app_l.
Qed.

Lemma read_le_is_Some l off :
  0 ≤ off → off + w ≤ len l → off + w ≤ USIZE_MAX → is_Some (read_le w l off).
Proof.
  intros. unfold read_le. rw checked_add_fits; [done|].
  destruct (slice_get l off (off + w)) as [s|] eqn:Es.
  - apply slice_get_Some in Es as (_ & Hlen & _); [|done].
    unfold try_into_array. replace (len s =? w) with true; [by eexists|].
    symmetry. apply Z.eqb_eq. lia.
  - exfalso. assert (is_Some (slice_get l off (off + w))) as [? Hs].
    { apply slice_get_is_Some; lia. }
    by rw Es in Hs.
Qed.

End read.

Lemma read_u16_Some l off v :
  read_u16_le l off = Some v → 0 ≤ off →
  off + 2 ≤ len l ∧ 0 ≤ v ≤ U16_MAX ∧
  drop (Z.to_nat off) l = to_le_bytes 2 v ++ drop (Z.to_nat (off + 2)) l.
Proof.
  intros H Hoff. apply (read_le_Some 2) in H as (? & ? & ?); [|done].
  simpl in *. unfold U16_MAX. by repeat split; try lia.
Qed.

Lemma read_u32_Some l off v :
  read_u32_le l off = Some v → 0 ≤ off →
  off + 4 ≤ len l ∧ 0 ≤ v ≤ U32_MAX ∧
  drop (Z.to_nat off) l = to_le_bytes 4 v ++ drop (Z.to_nat (off + 4)) l.
Proof.
  intros H Hoff. apply (read_le_Some 4) in H as (? & ? & ?); [|done].
  simpl in *. unfold U32_MAX. by repeat split; try lia.
Qed.

Lemma read_u64_Some l off v :
  read_u64_le l off = Some v → 0 ≤ off →
  off + 8 ≤ len l ∧ 0 ≤ v ≤ U64_MAX ∧
  drop (Z.to_nat off) l = to_le_bytes 8 v ++ drop (Z.to_nat (off + 8)) l.
Proof.
  intros H Hoff. apply (read_le_Some 8) in H as (? & ? & ?); [|done].
  simpl in *. unfold U64_MAX. by repeat split; try lia.
Qed.

(** The length of a concatenation of fields. *)
Ltac len_fields := rw ?len_app ?len_to_le_bytes; unfold USIZE_MAX, U64_MAX in *; lia.

#[global] Opaque to_le_bytes from_le_bytes.

(** Evaluates the field boundaries of a concatenation of fields. *)
Ltac fields_refl := with_strategy transparent [to_le_bytes] reflexivity.

(** Reads one field of a buffer that is a concatenation of known fields. *)
Ltac read_field n v :=
  rw (read_le_at n _ v); [fields_refl | lia | len_fields | unfold USIZE_MAX, U64_MAX; lia |
                          simpl; unfold U8_MAX, U16_MAX, U32_MAX, U64_MAX in *; lia |].
