(* ===== verification/Wire.v ===== *)
(** * Wire vocabulary

    The constants, enumerations and small value types of [src/src/protocol.rs]:
    frame kinds, roles, connection states, result codes, error classes, failure
    scopes and classified failures, with their wire encodings. *)

From S2P Require Export Bytes.
From stdpp Require Import strings.
Local Open Scope Z_scope.

(** ** Constants *)

Definition SPEC_REVISION : string := "v0.5.0".
Definition HEADER_LENGTH : Z := 20.
Definition MAX_FRAME_SIZE : Z := 65536.
Definition MAX_METADATA_SIZE : Z := 4096.
Definition HANDSHAKE_OPCODE : Z := 1.
Definition PING_OPCODE : Z := 2.
Definition GET_OPCODE : Z := 3.
Definition SET_OPCODE : Z := 4.
Definition DEL_OPCODE : Z := 5.
Definition EXISTS_OPCODE : Z := 6.
Definition MINIMUM_NEGOTIATED_FRAME_SIZE : Z := 65536.
Definition MINIMUM_NEGOTIATED_METADATA_SIZE : Z := 4096.
Definition HIGHEST_HEADER_VERSION : Z := 255.

(** ** Connection state, bounds and roles *)

Module ProtocolState.
Inductive t := PreNegotiation | Negotiated | Terminal.
#[global] Instance eq_dec : EqDecision t.
Proof. solve_decision. Defined.
End ProtocolState.

Module Limits.
Record t := mk { frame_size : Z; metadata_size : Z }.
#[global] Instance eq_dec : EqDecision t.
Proof. solve_decision. Defined.
Definition PRE_NEGOTIATION : t := mk MAX_FRAME_SIZE MAX_METADATA_SIZE.
End Limits.

Module Role.
Inductive t := Client | Server.
#[global] Instance eq_dec : EqDecision t.
Proof. solve_decision. Defined.
End Role.

(** ** Failures *)

Module FailureScope.
Inductive t := RequestScoped | ConnectionFatal.
#[global] Instance eq_dec : EqDecision t.
Proof. solve_decision. Defined.
Definition name (s : t) : string :=
  match s with
  | RequestScoped => "request-scoped"
  | ConnectionFatal => "connection-fatal"
  end.
End FailureScope.

Module ErrorClass.
Inductive t :=
| MalformedRequest
| UnsupportedProtocolVersion
| UnsupportedOperation
| InvalidArgument
| ResourceLimit
| Overloaded
| InternalError
| ProtocolViolation
| WrongType.
#[global] Instance eq_dec : EqDecision t.
Proof. solve_decision. Defined.

Definition value (c : t) : Z :=
  match c with
  | MalformedRequest => 0x0001
  | UnsupportedProtocolVersion => 0x0002
  | UnsupportedOperation => 0x0003
  | InvalidArgument => 0x0004
  | ResourceLimit => 0x0005
  | Overloaded => 0x0008
  | InternalError => 0x000B
  | ProtocolViolation => 0x000C
  | WrongType => 0x000E
  end.

Definition scope (c : t) : FailureScope.t :=
  match c with
  | MalformedRequest | UnsupportedProtocolVersion | ResourceLimit | ProtocolViolation =>
      FailureScope.ConnectionFatal
  | UnsupportedOperation | InvalidArgument | Overloaded | InternalError | WrongType =>
      FailureScope.RequestScoped
  end.

Definition name (c : t) : string :=
  match c with
  | MalformedRequest => "malformed request"
  | UnsupportedProtocolVersion => "unsupported protocol version"
  | UnsupportedOperation => "unsupported operation"
  | InvalidArgument => "invalid argument"
  | ResourceLimit => "resource limit"
  | Overloaded => "overloaded"
  | InternalError => "internal error"
  | ProtocolViolation => "protocol violation"
  | WrongType => "wrong type"
  end.

Definition from_wire (v : Z) : option t :=
  match v with
  | 0x0001 => Some MalformedRequest
  | 0x0002 => Some UnsupportedProtocolVersion
  | 0x0003 => Some UnsupportedOperation
  | 0x0004 => Some InvalidArgument
  | 0x0005 => Some ResourceLimit
  | 0x0008 => Some Overloaded
  | 0x000B => Some InternalError
  | 0x000C => Some ProtocolViolation
  | 0x000E => Some WrongType
  | _ => None
  end.
End ErrorClass.

Module Failure.
Record t := new { class : ErrorClass.t; scope : FailureScope.t }.
#[global] Instance eq_dec : EqDecision t.
Proof. solve_decision. Defined.
Definition malformed_request : t :=
  new ErrorClass.MalformedRequest FailureScope.ConnectionFatal.
Definition unsupported_protocol_version : t :=
  new ErrorClass.UnsupportedProtocolVersion FailureScope.ConnectionFatal.
Definition unsupported_operation : t :=
  new ErrorClass.UnsupportedOperation FailureScope.RequestScoped.
Definition invalid_argument : t :=
  new ErrorClass.InvalidArgument FailureScope.RequestScoped.
Definition resource_limit : t :=
  new ErrorClass.ResourceLimit FailureScope.ConnectionFatal.
Definition protocol_violation : t :=
  new ErrorClass.ProtocolViolation FailureScope.ConnectionFatal.
End Failure.

(** ** Header field types *)

Module Version.
Record t := mk { value : Z }.
Definition is_valid (v : t) : bool := value v =? 0.
End Version.

Module Kind.
Inductive t := Request | Response | Error.
#[global] Instance eq_dec : EqDecision t.
Proof. solve_decision. Defined.

Definition value (k : t) : Z :=
  match k with Request => 1 | Response => 2 | Error => 3 end.

Definition sender (k : t) : Role.t :=
  match k with Request => Role.Client | Response | Error => Role.Server end.

Definition from_wire (v : Z) : option t :=
  match v with
  | 1 => Some Request
  | 2 => Some Response
  | 3 => Some Error
  | _ => None
  end.

Definition names_a_request_for_scope (k : t) (scope : FailureScope.t) : bool :=
  match k with
  | Request | Response => true
  | Error => match scope with FailureScope.RequestScoped => true | _ => false end
  end.
End Kind.

Module Flags.
Record t := mk { value : Z }.
Definition is_zero (f : t) : bool := value f =? 0.
End Flags.

Module RequestId.
Record t := mk { value : Z }.
Definition is_reserved (r : t) : bool := value r =? 0.
End RequestId.

Module Opcode.
Record t := mk { value : Z }.
Definition is_assigned (v : Z) : bool :=
  (v =? HANDSHAKE_OPCODE) || (v =? PING_OPCODE) || (v =? GET_OPCODE) ||
  (v =? SET_OPCODE) || (v =? DEL_OPCODE) || (v =? EXISTS_OPCODE).
End Opcode.

Module ResultCode.
Inductive t := Success | Absent | ValueHeldOutsideMemory.
#[global] Instance eq_dec : EqDecision t.
Proof. solve_decision. Defined.

Definition value (c : t) : Z :=
  match c with
  | Success => 0x0000
  | Absent => 0x0001
  | ValueHeldOutsideMemory => 0x0004
  end.

Definition from_wire (v : Z) : option t :=
  match v with
  | 0x0000 => Some Success
  | 0x0001 => Some Absent
  | 0x0004 => Some ValueHeldOutsideMemory
  | _ => None
  end.
End ResultCode.

(** ** Wire enumerations

    What an enumeration of the registry promises to the codec: its wire values
    read back, and a value that reads as a member is that member's. *)
Class WireEnum (T : Type) (value : T → Z) (from_wire : Z → option T) : Prop := {
  from_wire_value : ∀ t, from_wire (value t) = Some t;
  value_from_wire : ∀ v t, from_wire v = Some t → value t = v;
  value_u16 : ∀ t, 0 ≤ value t ≤ U16_MAX
}.

(** Case analysis on an integer that the code compares against literals. *)
Ltac wire_cases v :=
  destruct v as [|v|v]; try done;
  repeat (destruct v as [v|v|]; try done).

#[global] Instance kind_wire : WireEnum Kind.t Kind.value Kind.from_wire.
Proof.
  split; [by intros [] | | by intros []].
  intros v t. wire_cases v; by intros [= <-].
Qed.

#[global] Instance result_code_wire :
  WireEnum ResultCode.t ResultCode.value ResultCode.from_wire.
Proof.
  split; [by intros [] | | by intros []].
  intros v t. wire_cases v; by intros [= <-].
Qed.

#[global] Instance error_class_wire :
  WireEnum ErrorClass.t ErrorClass.value ErrorClass.from_wire.
Proof.
  split; [by intros [] | | by intros []].
  intros v t. wire_cases v; by intros [= <-].
Qed.

(** A failure is classified when its scope is the one its class carries. *)
Definition classified (f : Failure.t) : Prop :=
  Failure.scope f = ErrorClass.scope (Failure.class f).
