(* ===== verification/Regions.v ===== *)
(** * Entry regions

    The metadata region of a frame and the capability region of a handshake
    payload ([MetadataRegion], [CapabilityEntries] of [src/src/protocol.rs]): both
    are sequences of [identifier : u16, length : u16, value] entries that must fill
    the region exactly. The two parsers have the same body in the source, so the
    loop is one definition over the entry constructor. *)

From S2P Require Export Wire.
Local Open Scope Z_scope.

(** ** The parsing loop *)

Section entries.
Context {E : Type} (entry_new : Z → list byte → E).

(** One round of [while !rest.is_empty()] per unit of fuel; every round takes at
    least four bytes, so the length of the region is enough. *)
Fixpoint parse_entries (fuel : nat) (rest : list byte) : option (list E) :=
  if is_empty rest then Some [] else
  match fuel with
  | O => None
  | S fuel =>
      let? identifier := read_u16_le rest 0 in
      let? value_length := read_u16_le rest 2 in
      let? entry_length := checked_add USIZE_MAX 4 value_length in
      if len rest <? entry_length then None else
      let? value := slice_get rest 4 entry_length in
      let? rest' := slice_from rest entry_length in
      let? entries := parse_entries fuel rest' in
      Some (entry_new identifier value :: entries)
  end.

End entries.

Module MetadataEntry.
Record t := new { identifier : Z; value : list byte }.
#[global] Instance eq_dec : EqDecision t.
Proof. solve_decision. Defined.

Definition is_required (e : t) : bool := negb (Z.land (identifier e) 0x8000 =? 0).
End MetadataEntry.

Module MetadataRegion.
Record t := mk { entries : list MetadataEntry.t }.

Definition parse (region : list byte) : option t :=
  let? entries := parse_entries MetadataEntry.new (length region) region in
  Some (mk entries).
End MetadataRegion.

Module CapabilityEntry.
Record t := new { identifier : Z; value : list byte }.
#[global] Instance eq_dec : EqDecision t.
Proof. solve_decision. Defined.
End CapabilityEntry.

Module CapabilityEntries.
Record t := new { entries : list CapabilityEntry.t }.

Definition count (c : t) : Z := len (entries c).

Definition parse (region : list byte) : option t :=
  let? entries := parse_entries CapabilityEntry.new (length region) region in
  Some (new entries).

(** The [for] loop of [check_ascending], with its [previous] variable. *)
Fixpoint check_ascending_loop (previous : option Z) (es : list CapabilityEntry.t)
    : result unit Failure.t :=
  match es with
  | [] => Ok tt
  | entry :: es =>
      match previous with
      | Some previous_identifier =>
          if CapabilityEntry.identifier entry <=? previous_identifier
          then Err Failure.malformed_request
          else check_ascending_loop (Some (CapabilityEntry.identifier entry)) es
      | None => check_ascending_loop (Some (CapabilityEntry.identifier entry)) es
      end
  end.

Definition check_ascending (c : t) : result unit Failure.t :=
  check_ascending_loop None (entries c).
End CapabilityEntries.

(** The [for] loop of [check_metadata_order]. *)
Fixpoint check_metadata_order_loop (previous : option Z) (es : list MetadataEntry.t)
    : result unit Failure.t :=
  match es with
  | [] => Ok tt
  | entry :: es =>
      let continue :=
        if MetadataEntry.is_required entry then Err Failure.invalid_argument
        else check_metadata_order_loop (Some (MetadataEntry.identifier entry)) es in
      match previous with
      | Some previous_identifier =>
          if MetadataEntry.identifier entry <=? previous_identifier
          then Err Failure.invalid_argument
          else continue
      | None => continue
      end
  end.

Definition check_metadata_order (metadata : MetadataRegion.t) : result unit Failure.t :=
  check_metadata_order_loop None (MetadataRegion.entries metadata).

(** ** The reference encoding of a region *)

(** The bytes of one entry: identifier, length, value. *)
Definition entry_bytes (e : Z * list byte) : list byte :=
  to_le_bytes 2 e.1 ++ to_le_bytes 2 (len e.2) ++ e.2.

(** The bytes of a region. *)
Definition region_bytes (es : list (Z * list byte)) : list byte := es ≫= entry_bytes.

(** An entry whose identifier and length fit their fields. *)
Definition entry_fits (e : Z * list byte) : Prop :=
  0 ≤ e.1 ≤ U16_MAX ∧ len e.2 ≤ U16_MAX.

(** The wire fields of an entry. *)
Definition metadata_raw (e : MetadataEntry.t) : Z * list byte :=
  (MetadataEntry.identifier e, MetadataEntry.value e).
Definition capability_raw (e : CapabilityEntry.t) : Z * list byte :=
  (CapabilityEntry.identifier e, CapabilityEntry.value e).

(** The identifiers strictly ascend, above [lo] when it is given. *)
Fixpoint ascending (lo : option Z) (ids : list Z) : Prop :=
  match ids with
  | [] => True
  | i :: ids => (∀ p, lo = Some p → p < i) ∧ ascending (Some i) ids
  end.

(** ** Lemmas: the parser inverts the encoding, in both directions *)

Lemma len_entry_bytes e : len (entry_bytes e) = 4 + len e.2.
Proof. unfold entry_bytes. rw !len_app !len_to_le_bytes. lia. Qed.

Lemma region_bytes_cons e es : region_bytes (e :: es) = entry_bytes e ++ region_bytes es.
Proof. done. Qed.

Section entries_facts.
Context {E : Type} (entry_new : Z → list byte → E).

(** One round of the loop on a non-empty region that starts with an entry. *)
Lemma parse_entries_step fuel e rest :
  entry_fits e →
  parse_entries entry_new (S fuel) (entry_bytes e ++ rest) =
    (let? es := parse_entries entry_new fuel rest in Some (entry_new e.1 e.2 :: es)).
Proof.
  destruct e as [i v]. intros [Hi Hv]. unfold U16_MAX in *. simpl in Hi, Hv.
  pose proof (len_nonneg v). pose proof (len_nonneg rest).
  cbn [parse_entries]. unfold read_u16_le, entry_bytes. cbn [fst snd].
  assert (is_empty ((to_le_bytes 2 i ++ to_le_bytes 2 (len v) ++ v) ++ rest) = false) as ->.
  { fields_refl. }
  rw -!app_assoc.
  rw (read_le_mid 2 [] i (to_le_bytes 2 (len v) ++ v ++ rest)); [done..| simpl; lia|].
  rw (read_le_mid 2 (to_le_bytes 2 i) (len v) (v ++ rest));
    [by rw len_to_le_bytes | done | simpl; lia|].
  rw checked_add_fits; [unfold USIZE_MAX, U64_MAX; lia|].
  assert (len (to_le_bytes 2 i ++ to_le_bytes 2 (len v) ++ v ++ rest) = 4 + len v + len rest) as ->.
  { rw !len_app !len_to_le_bytes. lia. }
  zbool.
  rw (app_assoc (to_le_bytes 2 i)).
  rw (slice_get_mid (to_le_bytes 2 i ++ to_le_bytes 2 (len v)) v rest);
    [by rw len_app !len_to_le_bytes ..|].
  rw (app_assoc _ v).
  by rw slice_from_app; [rw !len_app !len_to_le_bytes; lia|].
Qed.

Lemma parse_entries_encode es fuel :
  Forall entry_fits es → (length es ≤ fuel)%nat →
  parse_entries entry_new fuel (region_bytes es) =
    Some ((λ e, entry_new e.1 e.2) <$> es).
Proof.
  revert fuel. induction es as [|e es IH]; intros fuel Hes Hf; [by destruct fuel|].
  inversion_clear Hes. destruct fuel as [|fuel]; [simpl in Hf; lia|].
  rw region_bytes_cons parse_entries_step; [done|].
  rw IH; [done | simpl in Hf; lia | done].
Qed.

Lemma length_region_bytes es : (length es ≤ length (region_bytes es))%nat.
Proof.
  induction es as [|e es IH]; [done|]. rw region_bytes_cons length_app.
  pose proof (len_entry_bytes e) as H. pose proof (len_nonneg e.2).
  unfold len in *. simpl. lia.
Qed.

(** A region the loop accepts is the encoding of the entries it returns. *)
Lemma parse_entries_sound fuel region es :
  parse_entries entry_new fuel region = Some es →
  ∃ raw, region = region_bytes raw ∧ Forall entry_fits raw ∧
         es = (λ e, entry_new e.1 e.2) <$> raw.
Proof.
  revert region es. induction fuel as [|fuel IH]; intros region es;
    (destruct (is_empty region) eqn:Ee;
     [ apply is_empty_spec in Ee; subst; intros [= <-]; by exists [] | ]);
    cbn [parse_entries]; rw Ee; [done|].
  destruct (read_u16_le region 0) as [i|] eqn:Ei; [|done].
  destruct (read_u16_le region 2) as [n|] eqn:En; [|done].
  apply (read_le_Some 2) in Ei as (_ & Bi & Hi); [|done].
  apply (read_le_Some 2) in En as (_ & Bn & Hn); [|done].
  destruct (checked_add _ _ _) as [m|] eqn:Em; [|done].
  apply checked_add_Some in Em as [-> _].
  destruct (len region <? 4 + n) eqn:El; [done|].
  destruct (slice_get region 4 (4 + n)) as [v|] eqn:Ev; [|done].
  apply slice_get_Some in Ev as (_ & Hv & Hreg); [|done].
  destruct (slice_from region (4 + n)) as [rest|] eqn:Er; [|done].
  apply slice_from_Some in Er as (_ & _ & Hr); [|lia].
  destruct (parse_entries entry_new fuel rest) as [es'|] eqn:Ep; [|done].
  intros [= <-]. apply IH in Ep as (raw & Hraw & Hfit & ->).
  exists ((i, v) :: raw). split; [|split; [|done]].
  - rw region_bytes_cons. unfold entry_bytes. cbn [fst snd].
    rw -!app_assoc -Hraw Hr.
    replace (len v) with n by lia. rw -Hreg.
    change (drop (Z.to_nat 4) region) with (drop (Z.to_nat (2 + Z.of_nat 2)) region).
    rw -Hn. change (Z.to_nat 2) with (Z.to_nat (0 + Z.of_nat 2)). by rw -Hi.
  - constructor; [|done]. unfold entry_fits, U16_MAX. simpl in *. lia.
Qed.

(** The parser accepts a region exactly when it is the encoding of entries that fit. *)
Lemma parse_entries_iff (raw : E → Z * list byte) region es :
  (∀ i v, raw (entry_new i v) = (i, v)) → (∀ e, entry_new (raw e).1 (raw e).2 = e) →
  parse_entries entry_new (length region) region = Some es ↔
  region = region_bytes (raw <$> es) ∧ Forall entry_fits (raw <$> es).
Proof.
  intros Hraw Hnew. split.
  - intros (r & -> & Hfit & ->)%parse_entries_sound.
    rw -list_fmap_compose.
    assert (raw ∘ (λ e : Z * list byte, entry_new e.1 e.2) <$> r = r) as ->; [|done].
    rw -{2}(list_fmap_id r). apply list_fmap_ext. intros ? [i v] _. apply Hraw.
  - intros [-> Hfit]. rw parse_entries_encode; [done | apply length_region_bytes|].
    rw -list_fmap_compose. f_equal. rw -{2}(list_fmap_id es).
    apply list_fmap_ext. intros ? e _. apply Hnew.
Qed.

End entries_facts.

Lemma metadata_parse_iff region r :
  MetadataRegion.parse region = Some r ↔
  region = region_bytes (metadata_raw <$> MetadataRegion.entries r) ∧
  Forall entry_fits (metadata_raw <$> MetadataRegion.entries r).
Proof.
  unfold MetadataRegion.parse. destruct r as [es]. cbn.
  rw -(parse_entries_iff MetadataEntry.new); [done | by intros [] |].
  destruct (parse_entries _ _ _); [|done]. split; by intros [= <-].
Qed.

Lemma capability_parse_iff region c :
  CapabilityEntries.parse region = Some c ↔
  region = region_bytes (capability_raw <$> CapabilityEntries.entries c) ∧
  Forall entry_fits (capability_raw <$> CapabilityEntries.entries c).
Proof.
  unfold CapabilityEntries.parse. destruct c as [es]. cbn.
  rw -(parse_entries_iff CapabilityEntry.new); [done | by intros [] |].
  destruct (parse_entries _ _ _); [|done]. split; by intros [= <-].
Qed.

(** ** Lemmas: the ordering checks decide strict ascent *)

Lemma check_ascending_loop_spec lo es :
  CapabilityEntries.check_ascending_loop lo es = Ok tt ↔
  ascending lo (CapabilityEntry.identifier <$> es).
Proof.
  revert lo. induction es as [|e es IH]; intros lo; [done|].
  cbn. destruct lo as [p|].
  - destruct (CapabilityEntry.identifier e <=? p) eqn:E; breflect.
    + split; [done|]. intros [H _]. specialize (H p eq_refl). lia.
    + rw IH. split; [|by intros [_ ?]]. intros. split; [|done]. intros ? [= <-]. lia.
  - rw IH. split; [|by intros [_ ?]]. by intros.
Qed.

Lemma check_ascending_loop_err lo es f :
  CapabilityEntries.check_ascending_loop lo es = Err f → f = Failure.malformed_request.
Proof.
  revert lo. induction es as [|e es IH]; intros lo; [done|].
  cbn. repeat case_match; intros; simplify_eq; eauto.
Qed.

(** The mask [1 << k] selects one bit. *)
Lemma land_pow2 i k : 0 ≤ k → Z.land i (2 ^ k) = if Z.testbit i k then 2 ^ k else 0.
Proof.
  intros Hk. apply Z.bits_inj'. intros n Hn. rw Z.land_spec Z.pow2_bits_eqb; [done|].
  destruct (Z.eqb_spec k n) as [->|Hne].
  - rw andb_true_r. destruct (Z.testbit i n) eqn:E; [by rw Z.pow2_bits_true|].
    by rw Z.bits_0.
  - rw andb_false_r. destruct (Z.testbit i k); [by rw Z.pow2_bits_false | by rw Z.bits_0].
Qed.

(** The bit test [identifier & 0x8000] selects the upper half of the [u16] range. *)
Lemma is_required_spec e :
  0 ≤ MetadataEntry.identifier e ≤ U16_MAX →
  MetadataEntry.is_required e = (0x8000 <=? MetadataEntry.identifier e).
Proof.
  unfold MetadataEntry.is_required, U16_MAX. set (i := MetadataEntry.identifier e). intros Hi.
  change (Z.land i 0x8000) with (Z.land i (2 ^ 15)). rw land_pow2; [done|].
  pose proof (Z.testbit_spec' i 15 ltac:(done)) as Hb.
  change (2 ^ 15) with 32768 in *. change 0x8000 with 32768.
  destruct (Z.leb_spec 32768 i).
  - replace (i / 32768) with 1 in Hb; [by destruct (Z.testbit i 15)|].
    apply (Z.div_unique _ _ _ (i - 32768)); lia.
  - rw Z.div_small in Hb; [lia|]. by destruct (Z.testbit i 15).
Qed.

(** The loop accepts exactly the strictly ascending entries below the required range. *)
Lemma check_metadata_order_loop_spec lo es :
  check_metadata_order_loop lo es = Ok tt ↔
  ascending lo (MetadataEntry.identifier <$> es) ∧
  Forall (λ e, MetadataEntry.is_required e = false) es.
Proof.
  revert lo. induction es as [|e es IH]; intros lo; [by split|].
  cbn [check_metadata_order_loop fmap list_fmap ascending]. rw Forall_cons.
  destruct (MetadataEntry.is_required e) eqn:Er.
  { split; [repeat case_match; done | by intros (_ & ? & _)]. }
  destruct lo as [p|]; [destruct (MetadataEntry.identifier e <=? p) eqn:E; breflect|].
  - split; [done|]. intros ((H & _) & _). specialize (H p eq_refl). lia.
  - rw IH. split.
    + intros [? ?]. repeat split; try done. intros ? [= <-]. lia.
    + by intros ((_ & ?) & _ & ?).
  - rw IH. split; [by intros [? ?] | by intros ((_ & ?) & _ & ?)].
Qed.

Lemma check_metadata_order_loop_err lo es f :
  check_metadata_order_loop lo es = Err f → f = Failure.invalid_argument.
Proof.
  revert lo. induction es as [|e es IH]; intros lo; [done|].
  cbn. repeat case_match; intros; simplify_eq; eauto.
Qed.

(** Ascending identifiers of a [u16] field are distinct. *)
Lemma ascending_lower lo ids i p : ascending lo ids → lo = Some p → i ∈ ids → p < i.
Proof.
  revert lo p. induction ids as [|j ids IH]; intros lo p; [by intros _ _ ?%elem_of_nil|].
  cbn. intros [H1 H2] -> [->|Hin]%elem_of_cons; [by apply H1|].
  specialize (H1 p eq_refl). pose proof (IH _ j H2 eq_refl Hin). lia.
Qed.

Lemma ascending_NoDup lo ids : ascending lo ids → NoDup ids.
Proof.
  revert lo. induction ids as [|j ids IH]; intros lo; [constructor|].
  cbn. intros [_ H]. constructor; [|by eapply IH].
  intros Hin. pose proof (ascending_lower _ _ _ j H eq_refl Hin). lia.
Qed.
