(* ===== verification/Handshake.v ===== *)
(** * Handshake payloads

    [HandshakeOffer], [HandshakeRequest] and [HandshakeResponse] of
    [src/src/protocol.rs]: the negotiation payloads, decoded as untrusted input and
    encoded from validated values. *)

From S2P Require Export Regions.
Local Open Scope Z_scope.

Module HandshakeOffer.
Record t := mk {
  minimum_protocol_version : Z;
  maximum_protocol_version : Z;
  capability_ids : list Z
}.

Definition contains_version (o : t) (version : Z) : bool :=
  (minimum_protocol_version o <=? version) && (version <=? maximum_protocol_version o).

Definition offers_capability (o : t) (identifier : Z) : bool :=
  bool_decide (identifier ∈ capability_ids o).
End HandshakeOffer.

(** [u16::try_from(n).unwrap_or(u16::MAX)]. *)
Definition saturate_u16 (n : Z) : Z := unwrap_or (try_from U16_MAX n) U16_MAX.

(** The [for entry in entries] loop both encoders run. *)
Definition encode_capabilities (es : list CapabilityEntry.t) : list byte :=
  es ≫= λ entry,
    to_le_bytes 2 (CapabilityEntry.identifier entry) ++
    to_le_bytes 2 (saturate_u16 (len (CapabilityEntry.value entry))) ++
    CapabilityEntry.value entry.

Module HandshakeRequest.
Record t := mk {
  client_maximum_protocol_version : Z;
  client_minimum_protocol_version : Z;
  client_desired_maximum_frame_size : Z;
  capability_count : Z;
  capability_entries : CapabilityEntries.t
}.

Definition HEAD_LENGTH : Z := 10.

Definition new (maximum minimum desired : Z) (entries : CapabilityEntries.t) : t :=
  mk maximum minimum desired (saturate_u16 (CapabilityEntries.count entries)) entries.

Definition decode (payload : list byte) : result t Failure.t :=
  if len payload <? HEAD_LENGTH then Err Failure.malformed_request else
  let! client_maximum_protocol_version :=
    ok_or (read_u16_le payload 0) Failure.malformed_request in
  let! client_minimum_protocol_version :=
    ok_or (read_u16_le payload 2) Failure.malformed_request in
  let! client_desired_maximum_frame_size :=
    ok_or (read_u32_le payload 4) Failure.malformed_request in
  let! capability_count := ok_or (read_u16_le payload 8) Failure.malformed_request in
  if client_maximum_protocol_version <? client_minimum_protocol_version
  then Err Failure.malformed_request else
  let! tail := ok_or (slice_from payload HEAD_LENGTH) Failure.malformed_request in
  let! capability_entries :=
    ok_or (CapabilityEntries.parse tail) Failure.malformed_request in
  let! _ := CapabilityEntries.check_ascending capability_entries in
  if negb (capability_count =? CapabilityEntries.count capability_entries)
  then Err Failure.malformed_request else
  Ok (mk client_maximum_protocol_version client_minimum_protocol_version
         client_desired_maximum_frame_size capability_count capability_entries).

Definition encode (r : t) : list byte :=
  to_le_bytes 2 (client_maximum_protocol_version r) ++
  to_le_bytes 2 (client_minimum_protocol_version r) ++
  to_le_bytes 4 (client_desired_maximum_frame_size r) ++
  to_le_bytes 2 (saturate_u16 (CapabilityEntries.count (capability_entries r))) ++
  encode_capabilities (CapabilityEntries.entries (capability_entries r)).

(** [Iterator::max] over the supported versions the request names. *)
Definition highest_mutual_version (r : t) (supported : list Z) : option Z :=
  foldl (λ best v, match best with None => Some v | Some b => Some (Z.max b v) end) None
    (filter (λ v, client_minimum_protocol_version r ≤ v ∧
                  v ≤ client_maximum_protocol_version r) supported).
End HandshakeRequest.

Module HandshakeResponse.
Record t := mk {
  negotiated_protocol_version : Z;
  negotiated_maximum_frame_size : Z;
  negotiated_maximum_metadata_size : Z;
  accepted_capability_count : Z;
  accepted_capability_entries : CapabilityEntries.t
}.

Definition HEAD_LENGTH : Z := 10.

(** The [for entry in entries] loop that refuses an unoffered capability. *)
Fixpoint check_offered (offer : HandshakeOffer.t) (es : list CapabilityEntry.t)
    : result unit Failure.t :=
  match es with
  | [] => Ok tt
  | entry :: es =>
      if negb (HandshakeOffer.offers_capability offer (CapabilityEntry.identifier entry))
      then Err Failure.protocol_violation
      else check_offered offer es
  end.

Definition decode (payload : list byte) (offer : HandshakeOffer.t) : result t Failure.t :=
  if len payload <? HEAD_LENGTH then Err Failure.malformed_request else
  let! negotiated_protocol_version :=
    ok_or (read_u16_le payload 0) Failure.malformed_request in
  let! negotiated_maximum_frame_size :=
    ok_or (read_u32_le payload 2) Failure.malformed_request in
  let! negotiated_maximum_metadata_size :=
    ok_or (read_u16_le payload 6) Failure.malformed_request in
  let! accepted_capability_count :=
    ok_or (read_u16_le payload 8) Failure.malformed_request in
  let! tail := ok_or (slice_from payload HEAD_LENGTH) Failure.malformed_request in
  let! accepted_capability_entries :=
    ok_or (CapabilityEntries.parse tail) Failure.malformed_request in
  let! _ := CapabilityEntries.check_ascending accepted_capability_entries in
  if negb (accepted_capability_count =? CapabilityEntries.count accepted_capability_entries)
  then Err Failure.malformed_request else
  if HIGHEST_HEADER_VERSION <? negotiated_protocol_version
  then Err Failure.malformed_request else
  if negb (HandshakeOffer.contains_version offer negotiated_protocol_version)
  then Err Failure.malformed_request else
  if negotiated_maximum_frame_size <? MINIMUM_NEGOTIATED_FRAME_SIZE
  then Err Failure.malformed_request else
  if negotiated_maximum_metadata_size <? MINIMUM_NEGOTIATED_METADATA_SIZE
  then Err Failure.malformed_request else
  let! _ := check_offered offer (CapabilityEntries.entries accepted_capability_entries) in
  Ok (mk negotiated_protocol_version negotiated_maximum_frame_size
         negotiated_maximum_metadata_size accepted_capability_count
         accepted_capability_entries).

Definition encode (r : t) : list byte :=
  to_le_bytes 2 (negotiated_protocol_version r) ++
  to_le_bytes 4 (negotiated_maximum_frame_size r) ++
  to_le_bytes 2 (negotiated_maximum_metadata_size r) ++
  to_le_bytes 2 (saturate_u16 (CapabilityEntries.count (accepted_capability_entries r))) ++
  encode_capabilities (CapabilityEntries.entries (accepted_capability_entries r)).

Definition limits (r : t) : Limits.t :=
  Limits.mk (negotiated_maximum_frame_size r) (negotiated_maximum_metadata_size r).
End HandshakeResponse.

(** ** What a valid payload is *)

(** A capability region whose entries fit, strictly ascend and are counted by a [u16]. *)
Definition capabilities_wf (c : CapabilityEntries.t) : Prop :=
  Forall entry_fits (capability_raw <$> CapabilityEntries.entries c) ∧
  ascending None (CapabilityEntry.identifier <$> CapabilityEntries.entries c) ∧
  CapabilityEntries.count c ≤ U16_MAX.

Definition request_wf (r : HandshakeRequest.t) : Prop :=
  0 ≤ HandshakeRequest.client_minimum_protocol_version r ∧
  HandshakeRequest.client_minimum_protocol_version r ≤
    HandshakeRequest.client_maximum_protocol_version r ≤ U16_MAX ∧
  0 ≤ HandshakeRequest.client_desired_maximum_frame_size r ≤ U32_MAX ∧
  HandshakeRequest.capability_count r =
    CapabilityEntries.count (HandshakeRequest.capability_entries r) ∧
  capabilities_wf (HandshakeRequest.capability_entries r).

(** The layout of a response, before it is compared with the offer. *)
Definition response_layout_wf (r : HandshakeResponse.t) : Prop :=
  0 ≤ HandshakeResponse.negotiated_protocol_version r ≤ U16_MAX ∧
  0 ≤ HandshakeResponse.negotiated_maximum_frame_size r ≤ U32_MAX ∧
  0 ≤ HandshakeResponse.negotiated_maximum_metadata_size r ≤ U16_MAX ∧
  HandshakeResponse.accepted_capability_count r =
    CapabilityEntries.count (HandshakeResponse.accepted_capability_entries r) ∧
  capabilities_wf (HandshakeResponse.accepted_capability_entries r).

(** The negotiated values respect the offer's range, the header width and the floors. *)
Definition response_values_wf (offer : HandshakeOffer.t) (r : HandshakeResponse.t) : Prop :=
  HandshakeResponse.negotiated_protocol_version r ≤ HIGHEST_HEADER_VERSION ∧
  HandshakeOffer.minimum_protocol_version offer ≤
    HandshakeResponse.negotiated_protocol_version r ≤
    HandshakeOffer.maximum_protocol_version offer ∧
  MINIMUM_NEGOTIATED_FRAME_SIZE ≤ HandshakeResponse.negotiated_maximum_frame_size r ∧
  MINIMUM_NEGOTIATED_METADATA_SIZE ≤ HandshakeResponse.negotiated_maximum_metadata_size r.

(** Every accepted capability was offered. *)
Definition response_offered (offer : HandshakeOffer.t) (r : HandshakeResponse.t) : Prop :=
  Forall (λ e, CapabilityEntry.identifier e ∈ HandshakeOffer.capability_ids offer)
    (CapabilityEntries.entries (HandshakeResponse.accepted_capability_entries r)).

Definition response_wf (offer : HandshakeOffer.t) (r : HandshakeResponse.t) : Prop :=
  response_layout_wf r ∧ response_values_wf offer r ∧ response_offered offer r.

(** ** Lemmas *)

Lemma saturate_u16_fits n : 0 ≤ n ≤ U16_MAX → saturate_u16 n = n.
Proof. intros H. unfold saturate_u16. by rw try_from_fits. Qed.

Lemma encode_capabilities_fits es :
  Forall entry_fits (capability_raw <$> es) →
  encode_capabilities es = region_bytes (capability_raw <$> es).
Proof.
  induction es as [|e es IH]; [done|]. rw fmap_cons. intros [Hfit Hes]%Forall_cons.
  rw region_bytes_cons -IH; [done|].
  unfold encode_capabilities. rw bind_cons. f_equal.
  unfold entry_bytes, capability_raw. cbn [fst snd].
  rw saturate_u16_fits; [|done]. split; [auto with rp1 | apply Hfit].
Qed.

(** The parser and the order check together accept exactly the well-formed regions. *)
Lemma capabilities_accept tail c n :
  0 ≤ n ≤ U16_MAX →
  (CapabilityEntries.parse tail = Some c ∧ CapabilityEntries.check_ascending c = Ok tt ∧
   n = CapabilityEntries.count c) ↔
  (tail = encode_capabilities (CapabilityEntries.entries c) ∧ capabilities_wf c ∧
   n = CapabilityEntries.count c).
Proof.
  intros Hn. unfold CapabilityEntries.check_ascending, capabilities_wf.
  rw capability_parse_iff check_ascending_loop_spec. split.
  - intros ((-> & ?) & ? & ->). rw encode_capabilities_fits; [done|]. repeat split; try done. lia.
  - intros (-> & (? & ? & ?) & ->). by rw encode_capabilities_fits.
Qed.

Lemma check_offered_spec offer es :
  HandshakeResponse.check_offered offer es = Ok tt ↔
  Forall (λ e, CapabilityEntry.identifier e ∈ HandshakeOffer.capability_ids offer) es.
Proof.
  induction es as [|e es IH]; [by split|]. cbn. rw Forall_cons -IH.
  unfold HandshakeOffer.offers_capability. case_bool_decide; cbn; [by split; [|intros []]|].
  split; [done | by intros [? _]].
Qed.

Lemma check_offered_err offer es f :
  HandshakeResponse.check_offered offer es = Err f → f = Failure.protocol_violation.
Proof. induction es as [|e es IH]; [done|]. cbn. case_match; [by intros [= <-] | done]. Qed.

(** The tail after a ten-byte head. *)
Lemma head_tail {p : list byte} {tail} :
  slice_from p 10 = Some tail → tail = drop (Z.to_nat 10) p.
Proof. intros H. by apply slice_from_Some in H as (_ & _ & ->). Qed.

Lemma request_decode_sound p r :
  HandshakeRequest.decode p = Ok r → request_wf r ∧ p = HandshakeRequest.encode r.
Proof.
  unfold HandshakeRequest.decode, HandshakeRequest.HEAD_LENGTH. intros H. inv_ok H.
  injection H as <-. breflect.
  apply read_u16_Some in E0 as (_ & ? & H0); [|done].
  apply read_u16_Some in E1 as (_ & ? & H2); [|done].
  apply read_u32_Some in E2 as (_ & ? & H4); [|done].
  apply read_u16_Some in E3 as (_ & ? & H8); [|done].
  apply head_tail in E5.
  match goal with x : unit |- _ => destruct x end.
  match type of E6 with CapabilityEntries.parse ?l = Some ?c =>
    destruct (proj1 (capabilities_accept l c (CapabilityEntries.count c) ltac:(lia)))
      as (Hl & Hwf & _); [done|] end.
  split.
  - repeat split; simpl; try done; try lia; apply Hwf.
  - unfold HandshakeRequest.encode. simpl. rw -Hl saturate_u16_fits; [lia|].
    literal_offsets. by rw -E8 E5 -H8 -H4 -H2 -H0.
Qed.

Lemma request_decode_complete r :
  request_wf r → HandshakeRequest.decode (HandshakeRequest.encode r) = Ok r.
Proof.
  destruct r as [mx mn sz n c]. intros (? & ? & ? & Hn & Hwf). simpl in *.
  pose proof (proj2 (proj2 Hwf)). pose proof (len_nonneg (CapabilityEntries.entries c)).
  assert (0 ≤ n ≤ U16_MAX) by (unfold CapabilityEntries.count in *; lia).
  unfold HandshakeRequest.encode, HandshakeRequest.decode, HandshakeRequest.HEAD_LENGTH. simpl.
  rw saturate_u16_fits -?Hn; [lia|].
  destruct (proj2 (capabilities_accept (encode_capabilities (CapabilityEntries.entries c))
                     c n ltac:(done))) as (Hp & Ha & _); [done|].
  set (tail := encode_capabilities _) in *. pose proof (len_nonneg tail).
  set (p := to_le_bytes 2 mx ++ to_le_bytes 2 mn ++ to_le_bytes 4 sz ++ to_le_bytes 2 n ++ tail).
  assert (len p = 10 + len tail) as Hlen by (subst p; len_fields).
  rw Hlen. zbool. unfold read_u16_le, read_u32_le.
  read_field 2%nat mx. read_field 2%nat mn. read_field 4%nat sz. read_field 2%nat n.
  cbn [ok_or]. zbool. rw (slice_from_at p tail); [fields_refl | lia|].
  cbn [ok_or]. rw Hp. cbn [ok_or]. by rw Ha -Hn Z.eqb_refl.
Qed.

(** The checks of the response decoder up to the capability loop. *)
Definition response_checks (p : list byte) (offer : HandshakeOffer.t) (r : HandshakeResponse.t)
    : Prop :=
  p = HandshakeResponse.encode r ∧ response_layout_wf r ∧ response_values_wf offer r.

(** Every outcome of the response decoder. *)
Lemma response_decode_cases p offer :
  HandshakeResponse.decode p offer = Err Failure.malformed_request ∨
  ∃ r, response_checks p offer r ∧
       HandshakeResponse.decode p offer =
         (let! _ := HandshakeResponse.check_offered offer
                      (CapabilityEntries.entries
                         (HandshakeResponse.accepted_capability_entries r)) in Ok r).
Proof.
  unfold HandshakeResponse.decode, HandshakeResponse.HEAD_LENGTH.
  destruct (len p <? 10) eqn:E; [by left|].
  destruct (read_u16_le p 0) as [v|] eqn:E0; [|by left].
  destruct (read_u32_le p 2) as [fs|] eqn:E1; [|by left].
  destruct (read_u16_le p 6) as [ms|] eqn:E2; [|by left].
  destruct (read_u16_le p 8) as [n|] eqn:E3; [|by left].
  destruct (slice_from p 10) as [tail|] eqn:E4; [|by left].
  cbn [ok_or]. destruct (CapabilityEntries.parse tail) as [c|] eqn:E5; [|by left].
  cbn [ok_or]. destruct (CapabilityEntries.check_ascending c) as [[]|f] eqn:E6;
    [|left; by apply check_ascending_loop_err in E6 as ->].
  destruct (negb (n =? _)) eqn:E7; [by left|].
  destruct (HIGHEST_HEADER_VERSION <? v) eqn:E8; [by left|].
  destruct (negb (HandshakeOffer.contains_version offer v)) eqn:E9; [by left|].
  destruct (fs <? _) eqn:E10; [by left|]. destruct (ms <? _) eqn:E11; [by left|].
  right. exists (HandshakeResponse.mk v fs ms n c). split; [|done].
  unfold HandshakeOffer.contains_version in *. breflect.
  apply read_u16_Some in E0 as (_ & ? & F0); [|done].
  apply read_u32_Some in E1 as (_ & ? & F2); [|done].
  apply read_u16_Some in E2 as (_ & ? & F6); [|done].
  apply read_u16_Some in E3 as (_ & ? & F8); [|done].
  apply head_tail in E4.
  destruct (proj1 (capabilities_accept tail c n ltac:(done))) as (Hl & Hwf & _); [done|].
  split; [|split; [by repeat split; simpl; try done; try lia; apply Hwf | by repeat split; simpl; try done; lia]].
  unfold HandshakeResponse.encode. simpl. rw -Hl -E7 saturate_u16_fits; [lia|].
  literal_offsets. by rw E4 -F8 -F6 -F2 -F0.
Qed.

Lemma response_decode_encode r offer :
  response_layout_wf r → response_values_wf offer r →
  HandshakeResponse.decode (HandshakeResponse.encode r) offer =
    (let! _ := HandshakeResponse.check_offered offer
                 (CapabilityEntries.entries
                    (HandshakeResponse.accepted_capability_entries r)) in Ok r).
Proof.
  destruct r as [v fs ms n c]. intros (? & ? & ? & Hn & Hwf) (? & ? & ? & ?). simpl in *.
  pose proof (proj2 (proj2 Hwf)). pose proof (len_nonneg (CapabilityEntries.entries c)).
  assert (0 ≤ n ≤ U16_MAX) by (unfold CapabilityEntries.count in *; lia).
  unfold HandshakeResponse.encode, HandshakeResponse.decode, HandshakeResponse.HEAD_LENGTH.
  simpl. rw saturate_u16_fits -?Hn; [lia|].
  destruct (proj2 (capabilities_accept (encode_capabilities (CapabilityEntries.entries c))
                     c n ltac:(done))) as (Hp & Ha & _); [done|].
  set (tail := encode_capabilities _) in *. pose proof (len_nonneg tail).
  set (p := to_le_bytes 2 v ++ to_le_bytes 4 fs ++ to_le_bytes 2 ms ++ to_le_bytes 2 n ++ tail).
  assert (len p = 10 + len tail) as Hlen by (subst p; len_fields).
  rw Hlen. zbool. unfold read_u16_le, read_u32_le.
  read_field 2%nat v. read_field 4%nat fs. read_field 2%nat ms. read_field 2%nat n.
  cbn [ok_or]. rw (slice_from_at p tail); [fields_refl | lia|].
  cbn [ok_or]. rw Hp. cbn [ok_or]. rw Ha -Hn Z.eqb_refl. cbn [negb].
  unfold HandshakeOffer.contains_version. by zbool.
Qed.

(** Whether a payload passes every check before the capability loop is decidable. *)
Lemma response_checks_dec p offer :
  (∃ r, response_checks p offer r) ∨ (∀ r, ¬ response_checks p offer r).
Proof.
  destruct (response_decode_cases p offer) as [E|(r & Hc & _)]; [|by left; exists r].
  right. intros r (-> & Hl & Hv). rw response_decode_encode in E; [done..|].
  destruct (HandshakeResponse.check_offered _ _) eqn:Ec; [done|].
  apply check_offered_err in Ec. by simplify_eq.
Qed.

(** [Iterator::max] from an accumulator. *)
Lemma foldl_max_Some l b :
  ∃ m, foldl (λ best v, match best with None => Some v | Some b => Some (Z.max b v) end)
         (Some b) l = Some m ∧ m ∈ b :: l ∧ ∀ x, x ∈ b :: l → x ≤ m.
Proof.
  revert b. induction l as [|v l IH]; intros b; cbn [foldl].
  - exists b. repeat split; [by apply list_elem_of_singleton|].
    by intros x ->%list_elem_of_singleton.
  - destruct (IH (Z.max b v)) as (m & -> & Hin & Hmax). exists m. split; [done|]. split.
    + apply elem_of_cons in Hin as [Hm|?]; [subst m|by do 2 right].
      destruct (Z.max_spec b v) as [[_ ->]|[_ ->]]; set_solver.
    + assert (Z.max b v ≤ m) by (apply Hmax; left).
      intros x [->|[->|?]%elem_of_cons]%elem_of_cons; [lia..|]. apply Hmax. by right.
Qed.

(** ** Properties *)

(** The handshake request codec is exact: the decoder accepts a payload if and only if it
    is the encoding of a well-formed request, and it returns that request. *)
Theorem request_decode_exact p r :
  HandshakeRequest.decode p = Ok r ↔ request_wf r ∧ p = HandshakeRequest.encode r.
Proof.
  split; [apply request_decode_sound|]. intros [Hwf ->]. by apply request_decode_complete.
Qed.

(** C21. The handshake response codec is exact relative to the offer: a payload is accepted if
    and only if it is the encoding of a response whose layout is valid, whose version and
    bounds respect the offer and the floors, and whose capabilities were all offered. *)
Theorem response_decode_exact p offer r :
  HandshakeResponse.decode p offer = Ok r ↔
  response_wf offer r ∧ p = HandshakeResponse.encode r.
Proof.
  split.
  - intros H. destruct (response_decode_cases p offer) as [E|(r' & (-> & ? & ?) & E)];
      rw E in H; [done|]. inv_ok H. simplify_eq. destruct a.
    by apply check_offered_spec in E0.
  - intros [(? & ? & Ho) ->]. rw response_decode_encode; [done..|].
    by apply check_offered_spec in Ho as ->.
Qed.

(** A refused response is classified by what is wrong with it: accepting a capability that
    was not offered, in an otherwise valid response, is a protocol violation, and every other
    defect is a malformed request. *)
Theorem response_decode_classifies p offer f :
  HandshakeResponse.decode p offer = Err f →
  (f = Failure.protocol_violation ∧
     ∃ r, response_checks p offer r ∧ ¬ response_offered offer r) ∨
  (f = Failure.malformed_request ∧ ∀ r, ¬ response_checks p offer r).
Proof.
  intros H. destruct (response_checks_dec p offer) as [(r & Hc)|Hno].
  - left. pose proof Hc as (-> & Hl & Hv). rw response_decode_encode in H; [done..|].
    destruct (HandshakeResponse.check_offered _ _) as [[]|g] eqn:E; [done|].
    simplify_eq. split; [by apply check_offered_err in E|].
    exists r. split; [done|]. intros Ho%check_offered_spec. unfold response_offered in *.
    by rw Ho in E.
  - right. split; [|done].
    destruct (response_decode_cases p offer) as [E|(r & Hc & _)]; [by rw H in E; simplify_eq|].
    by destruct (Hno r).
Qed.

(** The payload [00 00 | 00 00 01 00 | 00 10 | 01 00 | 07 00 00 00] accepts capability 7,
    which the empty offer does not carry. *)
Lemma response_decode_classifies_witness :
  let offer := HandshakeOffer.mk 0 0 [] in
  let p := HandshakeResponse.encode
             (HandshakeResponse.mk 0 65536 4096 1
                (CapabilityEntries.new [CapabilityEntry.new 7 []])) in
  HandshakeResponse.decode p offer = Err Failure.protocol_violation ∧
  ∃ r, response_checks p offer r ∧ ¬ response_offered offer r.
Proof.
  intros offer p. assert (HandshakeResponse.decode p offer = Err Failure.protocol_violation) as H.
  { vm_compute. reflexivity. }
  split; [exact H|].
  destruct (response_decode_classifies p offer _ H) as [[_ Hr]|[Hf _]];
    [exact Hr | discriminate Hf].
Defined.

(** [highest_mutual_version] returns the largest supported version inside the client's
    range, and [None] exactly when no supported version is. *)
Theorem highest_mutual_version_spec r supported :
  let inside v := HandshakeRequest.client_minimum_protocol_version r ≤ v ≤
                  HandshakeRequest.client_maximum_protocol_version r in
  match HandshakeRequest.highest_mutual_version r supported with
  | Some v => v ∈ supported ∧ inside v ∧ ∀ w, w ∈ supported → inside w → w ≤ v
  | None => ∀ w, w ∈ supported → ¬ inside w
  end.
Proof.
  intros inside. unfold HandshakeRequest.highest_mutual_version.
  assert (∀ w, w ∈ filter (λ v, HandshakeRequest.client_minimum_protocol_version r ≤ v ∧
                  v ≤ HandshakeRequest.client_maximum_protocol_version r) supported ↔
               inside w ∧ w ∈ supported) as Hf by (intros; apply list_elem_of_filter).
  destruct (filter _ supported) as [|b l]; cbn [foldl].
  - intros w Hw Hi. destruct (elem_of_nil w) as [Hn _]. by apply Hn, Hf.
  - destruct (foldl_max_Some l b) as (m & -> & Hin & Hmax).
    apply Hf in Hin as [? ?]. repeat split; [done | unfold inside in *; lia..|].
    intros w Hw Hi. by apply Hmax, Hf.
Qed.
