(* ===== verification/Frame.v ===== *)
(** * Frames: the incremental decoder and the encoder

    [decode], [encode_with_max] and everything they call in [src/src/protocol.rs]:
    header parsing, the admission checks in the order the code runs them, the
    connection-state and correlation rules, and the payload layouts. The facts
    about these definitions are in [FrameFacts]. *)

From S2P Require Export Regions.
Local Open Scope Z_scope.

(** ** Data *)

Module Admission.
Record t := mk {
  role : Role.t;
  state : ProtocolState.t;
  limits : Limits.t;
  in_flight : list Z
}.

Definition default : t :=
  mk Role.Server ProtocolState.Negotiated Limits.PRE_NEGOTIATION [].
End Admission.

Module Payload.
Inductive t :=
| Opaque_ (bytes : list byte)
| Warm (logical_length : Z)
| Error (detail text : list byte).
#[global] Instance eq_dec : EqDecision t.
Proof. solve_decision. Defined.
End Payload.

Module Header.
Record t := mk {
  version : Version.t;
  kind : Kind.t;
  flags : Flags.t;
  code : Z;
  metadata_length : Z;
  payload_length : Z;
  request_id : RequestId.t
}.
End Header.

Module Frame.
Record t := mk {
  header : Header.t;
  metadata : MetadataRegion.t;
  payload : Payload.t;
  retires : RequestId.t
}.
End Frame.

Module Step.
Inductive t :=
| Need (n : Z)
| Frame (frame : Frame.t)
| Failure (failure : Failure.t) (consumed : Z).
End Step.

Module OutgoingPayload.
Inductive t :=
| Opaque_ (bytes : list byte)
| Warm (logical_length : Z)
| Error (detail text : list byte).
End OutgoingPayload.

Module Outgoing.
Record t := mk {
  kind : Kind.t;
  code : Z;
  request_id : Z;
  metadata : list (Z * list byte);
  payload : OutgoingPayload.t
}.
End Outgoing.

Module EncodeError.
Inductive t := MetadataNotAscending | FrameTooLarge | MetadataTooLarge.
#[global] Instance eq_dec : EqDecision t.
Proof. solve_decision. Defined.
End EncodeError.

(** The decision the [code] and correlation checks produce for one frame. *)
Module Correlation.
Inductive t :=
| HandshakeRequest
| OperationRequest (opcode : Z)
| Response (result : ResultCode.t)
| Error (scope : FailureScope.t).
End Correlation.

(** ** The raw header *)

(** [bytes.get(i).copied()] of a [u8] slice. *)
Definition byte_at (bytes : list byte) (i : Z) : option Z :=
  let? b := get_at bytes i in Some (from_le_bytes [b]).

Module RawHeader.
Record t := mk {
  version : Z;
  kind : Z;
  flags : Z;
  code : Z;
  metadata_length : Z;
  payload_length : Z;
  request_id : Z
}.

Definition parse (input : list byte) : option t :=
  let? version := byte_at input 0 in
  let? kind := byte_at input 1 in
  let? flags := read_u16_le input 2 in
  let? code := read_u16_le input 4 in
  let? metadata_length := read_u16_le input 6 in
  let? payload_length := read_u32_le input 8 in
  let? request_id := read_u64_le input 12 in
  Some (mk version kind flags code metadata_length payload_length request_id).
End RawHeader.

Definition total_length (metadata_length payload_length : Z) : option Z :=
  let? header := try_from U64_MAX HEADER_LENGTH in
  let? total := checked_add U64_MAX header metadata_length in
  checked_add U64_MAX total payload_length.

(** ** The checks *)

Definition step_for (failure : Failure.t) (total_len input_len : Z) : Step.t :=
  let consumed :=
    if bool_decide (Failure.scope failure = FailureScope.RequestScoped)
    then total_len else input_len in
  Step.Failure failure consumed.

Definition check_connection_state (state : ProtocolState.t) (kind : Kind.t) (code : Z)
    : result unit Failure.t :=
  let is_handshake := bool_decide (kind = Kind.Request) && (code =? HANDSHAKE_OPCODE) in
  match state with
  | ProtocolState.PreNegotiation =>
      let responder_terminal :=
        (bool_decide (kind = Kind.Response) && (code =? 0)) ||
        bool_decide (kind = Kind.Error) in
      if is_handshake || responder_terminal then Ok tt
      else Err Failure.protocol_violation
  | ProtocolState.Negotiated =>
      if is_handshake then Err Failure.protocol_violation else Ok tt
  | ProtocolState.Terminal => Err Failure.protocol_violation
  end.

Definition correlate (kind : Kind.t) (code request_id : Z) (in_flight : list Z)
    : result Correlation.t Failure.t :=
  match kind with
  | Kind.Request =>
      if request_id =? 0 then Err Failure.protocol_violation else
      if bool_decide (request_id ∈ in_flight) then Err Failure.protocol_violation else
      if code =? HANDSHAKE_OPCODE then Ok Correlation.HandshakeRequest
      else if Opcode.is_assigned code then Ok (Correlation.OperationRequest code)
      else Err Failure.unsupported_operation
  | Kind.Response =>
      if request_id =? 0 then Err Failure.protocol_violation else
      if negb (bool_decide (request_id ∈ in_flight)) then Err Failure.protocol_violation else
      let! result := ok_or (ResultCode.from_wire code) Failure.protocol_violation in
      Ok (Correlation.Response result)
  | Kind.Error =>
      let! class := ok_or (ErrorClass.from_wire code) Failure.protocol_violation in
      let scope := ErrorClass.scope class in
      if bool_decide (scope = FailureScope.RequestScoped) then
        if request_id =? 0 then Err Failure.protocol_violation else
        if negb (bool_decide (request_id ∈ in_flight)) then Err Failure.protocol_violation else
        Ok (Correlation.Error scope)
      else Ok (Correlation.Error scope)
  end.

Definition check_operation_request (opcode payload_length : Z) (payload : list byte)
    : result Payload.t Failure.t :=
  if opcode =? PING_OPCODE then
    if negb (payload_length =? 0) then Err Failure.malformed_request
    else Ok (Payload.Opaque_ [])
  else if opcode =? SET_OPCODE then
    if len payload <? 4 then Err Failure.malformed_request else
    let! key_length := ok_or (read_u32_le payload 0) Failure.malformed_request in
    let! key_length := ok_or (try_from USIZE_MAX key_length) Failure.malformed_request in
    let! head := ok_or (checked_add USIZE_MAX 4 key_length) Failure.malformed_request in
    if len payload <? head then Err Failure.malformed_request
    else Ok (Payload.Opaque_ payload)
  else Ok (Payload.Opaque_ payload).

Definition read_payload (correlation : Correlation.t) (payload_length : Z)
    (payload : list byte) : result Payload.t Failure.t :=
  match correlation with
  | Correlation.HandshakeRequest | Correlation.Response ResultCode.Success =>
      Ok (Payload.Opaque_ payload)
  | Correlation.OperationRequest opcode =>
      check_operation_request opcode payload_length payload
  | Correlation.Response ResultCode.Absent =>
      if negb (payload_length =? 0) then Err Failure.malformed_request
      else Ok (Payload.Opaque_ [])
  | Correlation.Response ResultCode.ValueHeldOutsideMemory =>
      if negb (payload_length =? 8) then Err Failure.malformed_request else
      let! logical_length := ok_or (read_u64_le payload 0) Failure.malformed_request in
      Ok (Payload.Warm logical_length)
  | Correlation.Error _ =>
      if payload_length <? 2 then Err Failure.malformed_request else
      let! detail_length := ok_or (read_u16_le payload 0) Failure.malformed_request in
      let! detail_end :=
        ok_or (checked_add USIZE_MAX detail_length 2) Failure.malformed_request in
      let! detail := ok_or (slice_get payload 2 detail_end) Failure.malformed_request in
      let! text := ok_or (slice_from payload detail_end) Failure.malformed_request in
      Ok (Payload.Error detail text)
  end.

Definition retires_for (kind : Kind.t) (correlation : Correlation.t) (request_id : Z)
    : RequestId.t :=
  match kind with
  | Kind.Response => RequestId.mk request_id
  | Kind.Error =>
      match correlation with
      | Correlation.Error FailureScope.RequestScoped => RequestId.mk request_id
      | _ => RequestId.mk 0
      end
  | Kind.Request => RequestId.mk 0
  end.

(** ** The decoder *)

Module AdmittedFrame.
Record t := mk {
  raw : RawHeader.t;
  kind : Kind.t;
  metadata : MetadataRegion.t;
  total_len : Z;
  metadata_end : Z
}.
End AdmittedFrame.

(** [admit]: from the header through the direction check. *)
Definition admit_frame (input : list byte) (role : Role.t) (limits : Limits.t)
    : result AdmittedFrame.t Step.t :=
  let refuse failure := Err (Step.Failure failure (len input)) in
  let? raw := RawHeader.parse input else Err (Step.Need HEADER_LENGTH) in
  if negb (RawHeader.version raw =? 0) then refuse Failure.unsupported_protocol_version else
  let? kind := Kind.from_wire (RawHeader.kind raw) else refuse Failure.protocol_violation in
  let? frame_total :=
    total_length (RawHeader.metadata_length raw) (RawHeader.payload_length raw)
    else refuse Failure.resource_limit in
  if Limits.frame_size limits <? frame_total then refuse Failure.resource_limit else
  if negb (RawHeader.flags raw =? 0) then refuse Failure.protocol_violation else
  if Limits.metadata_size limits <? RawHeader.metadata_length raw
  then refuse Failure.malformed_request else
  let? total_len := try_from USIZE_MAX frame_total else refuse Failure.resource_limit in
  if len input <? total_len then Err (Step.Need total_len) else
  let? metadata_end := checked_add USIZE_MAX HEADER_LENGTH (RawHeader.metadata_length raw)
    else refuse Failure.malformed_request in
  let? metadata_bytes := slice_get input HEADER_LENGTH metadata_end
    else refuse Failure.malformed_request in
  let? metadata := MetadataRegion.parse metadata_bytes
    else refuse Failure.malformed_request in
  if bool_decide (Kind.sender kind = role) then refuse Failure.protocol_violation else
  Ok (AdmittedFrame.mk raw kind metadata total_len metadata_end).

Definition decode (input : list byte) (admission : Admission.t) : Step.t :=
  match admit_frame input (Admission.role admission) (Admission.limits admission) with
  | Err step => step
  | Ok admitted =>
      let raw := AdmittedFrame.raw admitted in
      let kind := AdmittedFrame.kind admitted in
      let total_len := AdmittedFrame.total_len admitted in
      match check_connection_state (Admission.state admission) kind (RawHeader.code raw) with
      | Err failure => step_for failure total_len (len input)
      | Ok _ =>
      match correlate kind (RawHeader.code raw) (RawHeader.request_id raw)
              (Admission.in_flight admission) with
      | Err failure => step_for failure total_len (len input)
      | Ok correlation =>
      match check_metadata_order (AdmittedFrame.metadata admitted) with
      | Err failure => step_for failure total_len (len input)
      | Ok _ =>
      match slice_get input (AdmittedFrame.metadata_end admitted) total_len with
      | None => step_for Failure.malformed_request total_len (len input)
      | Some payload_bytes =>
      match read_payload correlation (RawHeader.payload_length raw) payload_bytes with
      | Err failure => step_for failure total_len (len input)
      | Ok payload =>
          let retires := retires_for kind correlation (RawHeader.request_id raw) in
          let header :=
            Header.mk (Version.mk (RawHeader.version raw)) kind
              (Flags.mk (RawHeader.flags raw)) (RawHeader.code raw)
              (RawHeader.metadata_length raw) (RawHeader.payload_length raw)
              (RequestId.mk (RawHeader.request_id raw)) in
          Step.Frame (Frame.mk header (AdmittedFrame.metadata admitted) payload retires)
      end end end end end
  end.

(** ** The encoder *)

(** The [for] loop of [checked_metadata_length_with_max], with [previous] and [length]. *)
Fixpoint metadata_length_loop (previous : option Z) (length : Z)
    (metadata : list (Z * list byte)) : result Z EncodeError.t :=
  match metadata with
  | [] => Ok length
  | (identifier, value) :: metadata =>
      let continue :=
        let! value_length :=
          ok_or (try_from U64_MAX (len value)) EncodeError.MetadataTooLarge in
        let! entry_length :=
          ok_or (checked_add U64_MAX 4 value_length) EncodeError.MetadataTooLarge in
        let! length :=
          ok_or (checked_add U64_MAX length entry_length) EncodeError.MetadataTooLarge in
        metadata_length_loop (Some identifier) length metadata in
      match previous with
      | Some previous_identifier =>
          if identifier <=? previous_identifier then Err EncodeError.MetadataNotAscending
          else continue
      | None => continue
      end
  end.

Definition checked_metadata_length_with_max (metadata : list (Z * list byte))
    (max_metadata_size : Z) : result Z EncodeError.t :=
  let! length := metadata_length_loop None 0 metadata in
  if max_metadata_size <? length then Err EncodeError.MetadataTooLarge else Ok length.

Definition encode_payload (payload : OutgoingPayload.t) : result (list byte) EncodeError.t :=
  match payload with
  | OutgoingPayload.Opaque_ bytes => Ok bytes
  | OutgoingPayload.Warm logical_length => Ok (to_le_bytes 8 logical_length)
  | OutgoingPayload.Error detail text =>
      let! detail_length := ok_or (try_from U16_MAX (len detail)) EncodeError.FrameTooLarge in
      Ok (to_le_bytes 2 detail_length ++ detail ++ text)
  end.

(** The [for] loop of [encode_with_max] that writes the metadata region. *)
Fixpoint encode_metadata (metadata : list (Z * list byte)) : result (list byte) EncodeError.t :=
  match metadata with
  | [] => Ok []
  | (identifier, value) :: metadata =>
      let! value_len := ok_or (try_from U16_MAX (len value)) EncodeError.MetadataTooLarge in
      let! out := encode_metadata metadata in
      Ok (to_le_bytes 2 identifier ++ to_le_bytes 2 value_len ++ value ++ out)
  end.

Definition encode_with_max (outgoing : Outgoing.t) (max_frame_size max_metadata_size : Z)
    : result (list byte) EncodeError.t :=
  let! metadata_length :=
    checked_metadata_length_with_max (Outgoing.metadata outgoing) max_metadata_size in
  let! payload := encode_payload (Outgoing.payload outgoing) in
  let! payload_length := ok_or (try_from U32_MAX (len payload)) EncodeError.FrameTooLarge in
  let! frame_total :=
    ok_or (let? header := try_from U64_MAX HEADER_LENGTH in
           let? total := checked_add U64_MAX header metadata_length in
           checked_add U64_MAX total payload_length) EncodeError.FrameTooLarge in
  if max_frame_size <? frame_total then Err EncodeError.FrameTooLarge else
  let! metadata_len :=
    ok_or (try_from U16_MAX metadata_length) EncodeError.MetadataTooLarge in
  let! region := encode_metadata (Outgoing.metadata outgoing) in
  Ok (to_le_bytes 1 0 ++ to_le_bytes 1 (Kind.value (Outgoing.kind outgoing)) ++
      to_le_bytes 2 0 ++ to_le_bytes 2 (Outgoing.code outgoing) ++
      to_le_bytes 2 metadata_len ++ to_le_bytes 4 payload_length ++
      to_le_bytes 8 (Outgoing.request_id outgoing) ++ region ++ payload).

Definition encode (outgoing : Outgoing.t) : result (list byte) EncodeError.t :=
  encode_with_max outgoing MAX_FRAME_SIZE MAX_METADATA_SIZE.
