(* ===== verification/FrameFacts.v ===== *)
(** * Frames: what the decoder and the encoder guarantee

    The reference description of a frame on the wire ([frame_bytes]) and of the
    frames a receiver may accept ([frame_wf]), written without reference to the
    order of the decoder's checks; the decoder accepts exactly those. Stability of
    the decoder when more bytes arrive, the classification and extent of its
    failures, and the encoder's contract. *)

From S2P Require Export Frame.
Local Open Scope Z_scope.

(** ** The reference description *)

(** The twenty bytes of a header. *)
Definition header_bytes (h : RawHeader.t) : list byte :=
  to_le_bytes 1 (RawHeader.version h) ++ to_le_bytes 1 (RawHeader.kind h) ++
  to_le_bytes 2 (RawHeader.flags h) ++ to_le_bytes 2 (RawHeader.code h) ++
  to_le_bytes 2 (RawHeader.metadata_length h) ++
  to_le_bytes 4 (RawHeader.payload_length h) ++ to_le_bytes 8 (RawHeader.request_id h).

(** The fields hold values of their types. *)
Definition raw_fits (h : RawHeader.t) : Prop :=
  0 ≤ RawHeader.version h ≤ U8_MAX ∧ 0 ≤ RawHeader.kind h ≤ U8_MAX ∧
  0 ≤ RawHeader.flags h ≤ U16_MAX ∧ 0 ≤ RawHeader.code h ≤ U16_MAX ∧
  0 ≤ RawHeader.metadata_length h ≤ U16_MAX ∧
  0 ≤ RawHeader.payload_length h ≤ U32_MAX ∧ 0 ≤ RawHeader.request_id h ≤ U64_MAX.

(** The bytes of a payload. *)
Definition payload_bytes (p : Payload.t) : list byte :=
  match p with
  | Payload.Opaque_ bytes => bytes
  | Payload.Warm logical_length => to_le_bytes 8 logical_length
  | Payload.Error detail text => to_le_bytes 2 (len detail) ++ detail ++ text
  end.

(** The header as raw fields. *)
Definition raw_of (h : Header.t) : RawHeader.t :=
  RawHeader.mk (Version.value (Header.version h)) (Kind.value (Header.kind h))
    (Flags.value (Header.flags h)) (Header.code h) (Header.metadata_length h)
    (Header.payload_length h) (RequestId.value (Header.request_id h)).

Definition frame_region (f : Frame.t) : list byte :=
  region_bytes (metadata_raw <$> MetadataRegion.entries (Frame.metadata f)).

(** The bytes of a frame. *)
Definition frame_bytes (f : Frame.t) : list byte :=
  header_bytes (raw_of (Frame.header f)) ++ frame_region f ++ payload_bytes (Frame.payload f).

(** Frames the connection state admits. *)
Definition state_allows (s : ProtocolState.t) (k : Kind.t) (code : Z) : Prop :=
  match s with
  | ProtocolState.PreNegotiation =>
      k = Kind.Request ∧ code = HANDSHAKE_OPCODE ∨ k = Kind.Response ∧ code = 0 ∨ k = Kind.Error
  | ProtocolState.Negotiated => ¬ (k = Kind.Request ∧ code = HANDSHAKE_OPCODE)
  | ProtocolState.Terminal => False
  end.

(** A terminal frame answers a live request; a request names a fresh one. *)
Definition identity_ok (k : Kind.t) (code rid : Z) (in_flight : list Z) : Prop :=
  match k with
  | Kind.Request => rid ≠ 0 ∧ rid ∉ in_flight
  | Kind.Response => rid ≠ 0 ∧ rid ∈ in_flight
  | Kind.Error =>
      ∀ c, ErrorClass.from_wire code = Some c →
           ErrorClass.scope c = FailureScope.RequestScoped → rid ≠ 0 ∧ rid ∈ in_flight
  end.

(** The key length prefix of a [SET] payload stays inside it. *)
Definition set_payload (b : list byte) : Prop :=
  ∃ key value, len key ≤ U32_MAX ∧ b = to_le_bytes 4 (len key) ++ key ++ value.

(** The payload has the layout its kind and code call for. *)
Definition payload_ok (k : Kind.t) (code : Z) (p : Payload.t) : Prop :=
  match k with
  | Kind.Request =>
      Opcode.is_assigned code = true ∧
      ∃ b, p = Payload.Opaque_ b ∧ (code = PING_OPCODE → b = []) ∧
           (code = SET_OPCODE → set_payload b)
  | Kind.Response =>
      match ResultCode.from_wire code with
      | Some ResultCode.Success => ∃ b, p = Payload.Opaque_ b
      | Some ResultCode.Absent => p = Payload.Opaque_ []
      | Some ResultCode.ValueHeldOutsideMemory =>
          ∃ n, p = Payload.Warm n ∧ 0 ≤ n ≤ U64_MAX
      | None => False
      end
  | Kind.Error =>
      is_Some (ErrorClass.from_wire code) ∧
      ∃ detail text, p = Payload.Error detail text ∧ len detail ≤ U16_MAX
  end.

(** The request a frame retires: the one a response or a request-scoped error names. *)
Definition retired_id (k : Kind.t) (code rid : Z) : Z :=
  match k with
  | Kind.Request => 0
  | Kind.Response => rid
  | Kind.Error =>
      match ErrorClass.scope <$> ErrorClass.from_wire code with
      | Some FailureScope.RequestScoped => rid
      | _ => 0
      end
  end.

(** The frames a receiver accepts. *)
Record frame_wf (adm : Admission.t) (f : Frame.t) : Prop := {
  wf_header : raw_fits (raw_of (Frame.header f));
  wf_version : Version.value (Header.version (Frame.header f)) = 0;
  wf_flags : Flags.value (Header.flags (Frame.header f)) = 0;
  wf_direction : Kind.sender (Header.kind (Frame.header f)) ≠ Admission.role adm;
  wf_metadata_length : Header.metadata_length (Frame.header f) = len (frame_region f);
  wf_payload_length :
    Header.payload_length (Frame.header f) = len (payload_bytes (Frame.payload f));
  wf_frame_size : len (frame_bytes f) ≤ Limits.frame_size (Admission.limits adm);
  wf_metadata_size : len (frame_region f) ≤ Limits.metadata_size (Admission.limits adm);
  wf_entries : Forall entry_fits (metadata_raw <$> MetadataRegion.entries (Frame.metadata f));
  wf_ascending :
    ascending None (MetadataEntry.identifier <$> MetadataRegion.entries (Frame.metadata f));
  wf_optional :
    Forall (λ e, MetadataEntry.is_required e = false) (MetadataRegion.entries (Frame.metadata f));
  wf_state :
    state_allows (Admission.state adm) (Header.kind (Frame.header f)) (Header.code (Frame.header f));
  wf_identity :
    identity_ok (Header.kind (Frame.header f)) (Header.code (Frame.header f))
      (RequestId.value (Header.request_id (Frame.header f))) (Admission.in_flight adm);
  wf_payload :
    payload_ok (Header.kind (Frame.header f)) (Header.code (Frame.header f)) (Frame.payload f);
  wf_retires :
    RequestId.value (Frame.retires f) =
      retired_id (Header.kind (Frame.header f)) (Header.code (Frame.header f))
        (RequestId.value (Header.request_id (Frame.header f)))
}.

(** ** The header *)

Lemma len_header_bytes h : len (header_bytes h) = HEADER_LENGTH.
Proof. unfold header_bytes. rw !len_app !len_to_le_bytes. done. Qed.

Lemma len_frame_bytes f : HEADER_LENGTH ≤ len (frame_bytes f).
Proof.
  unfold frame_bytes. rw len_app len_header_bytes.
  pose proof (len_nonneg (frame_region f ++ payload_bytes (Frame.payload f))). lia.
Qed.

#[export] Hint Resolve len_frame_bytes : rp1.

Lemma byte_at_read l i : 0 ≤ i < USIZE_MAX → byte_at l i = read_le 1 l i.
Proof.
  intros Hi. unfold byte_at, get_at, read_le. rw checked_add_fits; [lia|].
  destruct (l !! Z.to_nat i) as [b|] eqn:E.
  - pose proof (lookup_lt_Some _ _ _ E). unfold slice_get. unfold len. zbool.
    rw (drop_S l b); [done|]. replace (Z.to_nat (i + 1 - i)) with 1%nat by lia. done.
  - apply lookup_ge_None in E. unfold slice_get. unfold len.
    replace (i + 1 <=? Z.of_nat (length l)) with false; [by rw andb_false_r|].
    symmetry. apply Z.leb_gt. lia.
Qed.

Lemma raw_parse_sound input h :
  RawHeader.parse input = Some h →
  raw_fits h ∧ ∃ rest, input = header_bytes h ++ rest.
Proof.
  unfold RawHeader.parse. rw !byte_at_read; [done..|].
  destruct (read_le 1 input 0) as [v|] eqn:E0; [|done].
  destruct (read_le 1 input 1) as [k|] eqn:E1; [|done].
  destruct (read_u16_le input 2) as [fl|] eqn:E2; [|done].
  destruct (read_u16_le input 4) as [c|] eqn:E3; [|done].
  destruct (read_u16_le input 6) as [ml|] eqn:E4; [|done].
  destruct (read_u32_le input 8) as [pl|] eqn:E5; [|done].
  destruct (read_u64_le input 12) as [rid|] eqn:E6; [|done].
  intros [= <-].
  apply (read_le_Some 1) in E0 as (_ & ? & E0); [|done].
  apply (read_le_Some 1) in E1 as (_ & ? & E1); [|done].
  apply read_u16_Some in E2 as (_ & ? & E2); [|done].
  apply read_u16_Some in E3 as (_ & ? & E3); [|done].
  apply read_u16_Some in E4 as (_ & ? & E4); [|done].
  apply read_u32_Some in E5 as (_ & ? & E5); [|done].
  apply read_u64_Some in E6 as (_ & ? & E6); [|done].
  split; [by unfold raw_fits, U8_MAX; simpl in *; repeat split; try lia|].
  exists (drop (Z.to_nat 20) input). unfold header_bytes. simpl. rw -!app_assoc.
  simpl in E0, E1. literal_offsets. by rw -E6 -E5 -E4 -E3 -E2 -E1 -E0.
Qed.

Lemma raw_parse_complete h rest :
  raw_fits h → RawHeader.parse (header_bytes h ++ rest) = Some h.
Proof.
  destruct h as [v k fl c ml pl rid]. unfold raw_fits. simpl.
  intros (? & ? & ? & ? & ? & ? & ?). unfold RawHeader.parse, header_bytes. simpl.
  rw -!app_assoc. pose proof (len_nonneg rest).
  rw !byte_at_read; [done..|]. unfold read_u16_le, read_u32_le, read_u64_le.
  change 1 with (Z.of_nat 1).
  read_field 1%nat v. read_field 1%nat k. read_field 2%nat fl. read_field 2%nat c.
  read_field 2%nat ml. read_field 4%nat pl. read_field 8%nat rid. done.
Qed.

(** A header is parsed exactly when its twenty bytes are present. *)
Lemma raw_parse_None input : RawHeader.parse input = None ↔ len input < HEADER_LENGTH.
Proof.
  unfold HEADER_LENGTH. split.
  - intros H. destruct (Z.lt_ge_cases (len input) 20); [done|]. exfalso.
    unfold RawHeader.parse in H. rw !byte_at_read in H; [done..|].
    destruct (read_le_is_Some 1 input 0 ltac:(lia) ltac:(lia) ltac:(done)) as [? E0].
    destruct (read_le_is_Some 1 input 1 ltac:(lia) ltac:(lia) ltac:(done)) as [? E1].
    destruct (read_le_is_Some 2 input 2 ltac:(lia) ltac:(lia) ltac:(done)) as [? E2].
    destruct (read_le_is_Some 2 input 4 ltac:(lia) ltac:(lia) ltac:(done)) as [? E3].
    destruct (read_le_is_Some 2 input 6 ltac:(lia) ltac:(lia) ltac:(done)) as [? E4].
    destruct (read_le_is_Some 4 input 8 ltac:(lia) ltac:(lia) ltac:(done)) as [? E5].
    destruct (read_le_is_Some 8 input 12 ltac:(lia) ltac:(lia) ltac:(done)) as [? E6].
    unfold read_u16_le, read_u32_le, read_u64_le in H. simpl in *.
    by rw E0 E1 E2 E3 E4 E5 E6 in H.
  - intros H. destruct (RawHeader.parse input) as [h|] eqn:E; [|done].
    apply raw_parse_sound in E as (_ & rest & ->).
    rw len_app len_header_bytes in H. pose proof (len_nonneg rest).
    unfold HEADER_LENGTH in H. lia.
Qed.

(** The total length cannot overflow: the two fields are narrower than 64 bits. *)
Lemma total_length_fits ml pl :
  0 ≤ ml ≤ U16_MAX → 0 ≤ pl ≤ U32_MAX → total_length ml pl = Some (HEADER_LENGTH + ml + pl).
Proof.
  unfold total_length, HEADER_LENGTH, U16_MAX, U32_MAX. intros.
  rw try_from_fits; [done|]. rw checked_add_fits; [unfold U64_MAX; lia|].
  rw checked_add_fits; [unfold U64_MAX; lia|]. done.
Qed.

(** ** Admission *)

(** [input] starts with a frame whose header, metadata region and payload are [h], [md] and
    [body], and that passes the checks of [admit_frame]. *)
Record admitted_as (role : Role.t) (limits : Limits.t) (input : list byte)
    (h : RawHeader.t) (k : Kind.t) (md : MetadataRegion.t) (body rest : list byte) : Prop := {
  adm_input :
    input = header_bytes h ++
            region_bytes (metadata_raw <$> MetadataRegion.entries md) ++ body ++ rest;
  adm_fits : raw_fits h;
  adm_version : RawHeader.version h = 0;
  adm_flags : RawHeader.flags h = 0;
  adm_kind : RawHeader.kind h = Kind.value k;
  adm_direction : Kind.sender k ≠ role;
  adm_ml : RawHeader.metadata_length h =
           len (region_bytes (metadata_raw <$> MetadataRegion.entries md));
  adm_pl : RawHeader.payload_length h = len body;
  adm_frame_size :
    HEADER_LENGTH + RawHeader.metadata_length h + RawHeader.payload_length h ≤
      Limits.frame_size limits;
  adm_metadata_size : RawHeader.metadata_length h ≤ Limits.metadata_size limits;
  adm_entries : Forall entry_fits (metadata_raw <$> MetadataRegion.entries md)
}.

(** What [admit_frame] returns for such an input. *)
Definition admitted_record (h : RawHeader.t) (k : Kind.t) (md : MetadataRegion.t) : AdmittedFrame.t :=
  AdmittedFrame.mk h k md
    (HEADER_LENGTH + RawHeader.metadata_length h + RawHeader.payload_length h)
    (HEADER_LENGTH + RawHeader.metadata_length h).

Lemma header_sum_fits h :
  raw_fits h →
  0 ≤ HEADER_LENGTH + RawHeader.metadata_length h + RawHeader.payload_length h ≤ USIZE_MAX.
Proof.
  intros (_ & _ & _ & _ & ? & ? & _). unfold HEADER_LENGTH, U16_MAX, U32_MAX, USIZE_MAX, U64_MAX in *.
  lia.
Qed.

Lemma admit_frame_complete role limits input h k md body rest :
  admitted_as role limits input h k md body rest →
  admit_frame input role limits = Ok (admitted_record h k md).
Proof.
  intros [-> Hfit Hv Hfl Hk Hd Hml Hpl Hfs Hms Hen]. unfold admit_frame.
  pose proof (header_sum_fits h Hfit) as Hsum.
  rw raw_parse_complete; [done|]. rw Hv Hfl Hk from_wire_value. cbn [negb Z.eqb].
  rw total_length_fits; [apply Hfit..|].
  destruct Hfit as (_ & _ & _ & _ & Bm & Bp & _).
  rw try_from_fits; [done|].
  assert (len (header_bytes h) = 20) as Hh by apply len_header_bytes.
  set (reg := region_bytes _) in *. pose proof (len_nonneg rest).
  assert (len (header_bytes h ++ reg ++ body ++ rest) =
          20 + RawHeader.metadata_length h + RawHeader.payload_length h + len rest) as ->.
  { rw len_app Hh !len_app -Hml -Hpl. lia. }
  unfold HEADER_LENGTH in *. zbool. rw checked_add_fits; [lia|].
  rw slice_get_mid; [done | rw Hh; lia |].
  rw (proj2 (metadata_parse_iff reg md)); [done|].
  rw bool_decide_eq_false_2; done.
Qed.

Lemma admit_frame_sound role limits input a :
  admit_frame input role limits = Ok a →
  ∃ h k md body rest,
    admitted_as role limits input h k md body rest ∧ a = admitted_record h k md.
Proof.
  unfold admit_frame. destruct (RawHeader.parse input) as [h|] eqn:Eh; [|done].
  apply raw_parse_sound in Eh as (Hfit & tail & ->).
  destruct (negb (RawHeader.version h =? 0)) eqn:Ev; [done|].
  destruct (Kind.from_wire (RawHeader.kind h)) as [k|] eqn:Ek; [|done].
  pose proof (header_sum_fits h Hfit) as Hsum.
  rw total_length_fits; [apply Hfit..|].
  destruct (Limits.frame_size limits <? _) eqn:Efs; [done|].
  destruct (negb (RawHeader.flags h =? 0)) eqn:Efl; [done|].
  destruct (Limits.metadata_size limits <? _) eqn:Ems; [done|].
  rw try_from_fits; [done|].
  destruct (len _ <? _) eqn:El; [done|].
  destruct (checked_add _ _ _) as [me|] eqn:Eme; [|done].
  apply checked_add_Some in Eme as [-> _].
  destruct (slice_get _ _ _) as [reg|] eqn:Ereg; [|done].
  destruct (MetadataRegion.parse reg) as [md|] eqn:Emd; [|done].
  destruct (bool_decide (Kind.sender k = role)) eqn:Ed; [done|]. intros [= <-].
  apply metadata_parse_iff in Emd as [-> Hen].
  apply slice_get_Some in Ereg as (_ & Hreg & Hdrop); [|done].
  set (reg := region_bytes _) in *. breflect.
  replace (Z.to_nat HEADER_LENGTH) with (length (header_bytes h)) in Hdrop
    by (pose proof (len_header_bytes h); unfold len in *; lia).
  rw drop_app_length in Hdrop.
  set (rest' := drop _ _) in Hdrop. clearbody rest'. subst tail.
  rw len_app len_header_bytes len_app in El.
  exists h, k, md, (take (Z.to_nat (RawHeader.payload_length h)) rest'),
    (drop (Z.to_nat (RawHeader.payload_length h)) rest').
  assert (0 ≤ RawHeader.payload_length h) by apply Hfit.
  split; [|done]. split; try done.
  - by rw take_drop.
  - symmetry. by eapply value_from_wire.
  - by apply bool_decide_eq_false in Ed.
  - fold reg. lia.
  - unfold len in *. rw length_take. lia.
Qed.

(** ** Each check against its reference *)

Lemma check_connection_state_spec s k code :
  check_connection_state s k code = Ok tt ↔ state_allows s k code.
Proof.
  unfold check_connection_state, HANDSHAKE_OPCODE.
  destruct s, k; simpl; try destruct (Z.eqb_spec code 1); try destruct (Z.eqb_spec code 0);
    simpl; split; intros; naive_solver.
Qed.

Lemma check_connection_state_err s k code f :
  check_connection_state s k code = Err f → f = Failure.protocol_violation.
Proof. unfold check_connection_state. repeat case_match; congruence. Qed.

(** The correlation a frame's code stands for. *)
Definition correlation_of (k : Kind.t) (code : Z) : option Correlation.t :=
  match k with
  | Kind.Request =>
      if code =? HANDSHAKE_OPCODE then Some Correlation.HandshakeRequest
      else if Opcode.is_assigned code then Some (Correlation.OperationRequest code) else None
  | Kind.Response => Correlation.Response <$> ResultCode.from_wire code
  | Kind.Error => Correlation.Error ∘ ErrorClass.scope <$> ErrorClass.from_wire code
  end.

Lemma correlate_spec k code rid fl c :
  correlate k code rid fl = Ok c ↔ identity_ok k code rid fl ∧ correlation_of k code = Some c.
Proof.
  unfold correlate, identity_ok, correlation_of. destruct k.
  - destruct (Z.eqb_spec rid 0); [naive_solver|].
    case_bool_decide; [naive_solver|]. repeat case_match; naive_solver.
  - destruct (Z.eqb_spec rid 0); [naive_solver|].
    case_bool_decide; simpl; [|naive_solver]. destruct (ResultCode.from_wire code); naive_solver.
  - destruct (ErrorClass.from_wire code) as [ec|] eqn:E; simpl; [|naive_solver].
    case_bool_decide as Hs.
    + destruct (Z.eqb_spec rid 0); [naive_solver|].
      case_bool_decide; simpl; naive_solver.
    + naive_solver.
Qed.

Lemma correlate_err k code rid fl f :
  correlate k code rid fl = Err f →
  f = Failure.protocol_violation ∨
  f = Failure.unsupported_operation ∧ k = Kind.Request ∧ Opcode.is_assigned code = false.
Proof.
  unfold correlate. destruct (ResultCode.from_wire code), (ErrorClass.from_wire code); simpl;
    destruct k; repeat case_match; intros; simplify_eq; auto.
Qed.

Lemma retires_for_spec k code rid c :
  correlation_of k code = Some c → RequestId.value (retires_for k c rid) = retired_id k code rid.
Proof.
  unfold correlation_of, retired_id. destruct k; [done | done|]. cbn.
  destruct (ErrorClass.from_wire code) as [ec|]; [|done]. cbn. intros [= <-].
  by destruct (ErrorClass.scope ec).
Qed.

(** The [SET] head check accepts exactly the payloads that split into key and value. *)
Lemma set_payload_iff b :
  set_payload b ↔ 4 ≤ len b ∧ ∃ n, read_u32_le b 0 = Some n ∧ 4 + n ≤ len b.
Proof.
  split.
  - intros (key & value & Hk & ->). pose proof (len_nonneg key). pose proof (len_nonneg value).
    split; [len_fields|]. exists (len key). split; [|len_fields]. unfold read_u32_le.
    unfold U32_MAX in Hk. rw (read_le_mid 4 [] (len key)); [done | done | simpl; lia | done].
  - intros (? & n & Hn & ?). apply read_u32_Some in Hn as (_ & ? & Hb); [|done].
    rw drop_0 in Hb. change (Z.to_nat (0 + 4)) with 4%nat in Hb.
    exists (take (Z.to_nat n) (drop 4 b)), (drop (Z.to_nat n) (drop 4 b)).
    assert (len (take (Z.to_nat n) (drop 4 b)) = n) as ->.
    { unfold len in *. rw length_take length_drop. lia. }
    rw take_drop. split; [lia | done].
Qed.

Lemma check_operation_request_spec opcode b p :
  check_operation_request opcode (len b) b = Ok p ↔
  p = Payload.Opaque_ b ∧ (opcode = PING_OPCODE → b = []) ∧ (opcode = SET_OPCODE → set_payload b).
Proof.
  unfold check_operation_request. rw set_payload_iff. unfold PING_OPCODE, SET_OPCODE.
  destruct (Z.eqb_spec opcode 2) as [->|Hping]; [|destruct (Z.eqb_spec opcode 4) as [->|Hset]].
  - destruct (Z.eqb_spec (len b) 0) as [E|E]; simpl.
    + apply len_zero_nil in E as ->. naive_solver.
    + split; [done|]. intros (_ & Hb & _). by rw Hb in E.
  - destruct (len b <? 4) eqn:E4; breflect.
    { split; [done|]. intros (_ & _ & Hb). specialize (Hb eq_refl). lia. }
    destruct (read_u32_le b 0) as [n|] eqn:En; cbn [ok_or].
    2:{ split; [done|]. intros (_ & _ & Hb). by destruct (Hb eq_refl) as (_ & ? & ? & _). }
    apply read_u32_Some in En as (_ & Bn & _); [|done]. unfold U32_MAX in Bn.
    rw try_from_fits; [unfold USIZE_MAX, U64_MAX; lia|]. cbn [ok_or].
    rw checked_add_fits; [unfold USIZE_MAX, U64_MAX; lia|]. cbn [ok_or].
    destruct (len b <? 4 + n) eqn:El; breflect.
    + split; [done|]. intros (_ & _ & Hb). destruct (Hb eq_refl) as (_ & ? & ? & ?).
      simplify_eq. lia.
    + split; [|naive_solver]. intros [= <-]. repeat split; [done..|].
      exists n. done.
  - naive_solver.
Qed.

Lemma error_payload_spec b p :
  read_payload (Correlation.Error FailureScope.RequestScoped) (len b) b = Ok p ↔
  ∃ detail text, p = Payload.Error detail text ∧ len detail ≤ U16_MAX ∧ b = payload_bytes p.
Proof.
  cbn. split.
  - destruct (len b <? 2) eqn:E2; [done|]. intros H. inv_ok H. simplify_eq. breflect.
    apply read_u16_Some in E as (_ & ? & Hd); [|done].
    apply checked_add_Some in E0 as [-> _].
    apply slice_get_Some in E1 as (? & Hlen & Hdet); [|done].
    apply slice_from_Some in E3 as (_ & _ & ->); [|lia].
    eexists _, _. split; [done|]. split; [lia|]. simpl.
    rw Hlen -Hdet. replace (z + 2 - 2) with z by lia.
    rw drop_0 in Hd. by literal_offsets.
  - intros (detail & text & -> & Hd & ->). simpl. unfold U16_MAX in Hd.
    pose proof (len_nonneg detail). pose proof (len_nonneg text).
    assert (len (to_le_bytes 2 (len detail) ++ detail ++ text) = 2 + len detail + len text) as Hl
      by len_fields.
    rw Hl. zbool. unfold read_u16_le.
    rw (read_le_mid 2 [] (len detail)); [done | done | simpl; lia|]. cbn [ok_or].
    rw checked_add_fits; [unfold USIZE_MAX, U64_MAX; lia|]. cbn [ok_or].
    rw slice_get_mid; [by rw len_to_le_bytes | rw len_to_le_bytes; lia|]. cbn [ok_or].
    rw app_assoc slice_from_app; [rw len_app len_to_le_bytes; lia | done].
Qed.

(** The payload reader accepts exactly the reference layouts. *)
Lemma read_payload_spec k code c b p :
  correlation_of k code = Some c →
  read_payload c (len b) b = Ok p ↔ payload_ok k code p ∧ b = payload_bytes p.
Proof.
  unfold correlation_of, payload_ok. destruct k.
  - unfold HANDSHAKE_OPCODE. destruct (Z.eqb_spec code 1) as [->|Hhs]; cbn.
    { intros [= <-]. unfold PING_OPCODE, SET_OPCODE. split; [|naive_solver].
      intros [= <-]. naive_solver. }
    destruct (Opcode.is_assigned code); [|done]. intros [= <-]. cbn.
    rw check_operation_request_spec. naive_solver.
  - destruct (ResultCode.from_wire code) as [rc|]; [|done]. cbn. intros [= <-].
    destruct rc; cbn [read_payload].
    + naive_solver.
    + destruct (Z.eqb_spec (len b) 0) as [E|E]; cbn.
      * apply len_zero_nil in E as ->. naive_solver.
      * naive_solver.
    + destruct (Z.eqb_spec (len b) 8) as [E|E]; cbn.
      * destruct (read_u64_le b 0) as [n|] eqn:En; cbn.
        -- apply read_u64_Some in En as (_ & ? & Hb); [|done]. rw drop_0 in Hb.
           rw (drop_ge b) in Hb; [unfold len in E; lia|]. rw app_nil_r in Hb. split.
           ++ intros [= <-]. by split; [exists n|].
           ++ intros [(m & -> & Hm) ->]. simpl in *. f_equal. f_equal.
              assert (from_le_bytes (to_le_bytes 8 m) = from_le_bytes (to_le_bytes 8 n)) as He
                by by rw Hb.
              unfold U64_MAX in *. rw !from_to_le_bytes in He; [simpl; lia..|]. done.
        -- destruct (read_le_is_Some 8 b 0 ltac:(lia) ltac:(lia) ltac:(done)) as [? Hs].
           unfold read_u64_le in En. simpl in Hs. by rw En in Hs.
      * split; [done|]. intros [(m & -> & Hm) ->]. simpl in E. by rw len_to_le_bytes in E.
  - destruct (ErrorClass.from_wire code) as [ec|]; [|done]. cbn [fmap option_fmap option_map compose].
    intros [= <-]. transitivity (read_payload (Correlation.Error FailureScope.RequestScoped) (len b) b = Ok p);
      [done|]. rw error_payload_spec. naive_solver.
Qed.

Lemma read_payload_err c n b f :
  read_payload c n b = Err f → f = Failure.malformed_request.
Proof.
  unfold read_payload, check_operation_request, ok_or.
  repeat case_match; congruence.
Qed.

(** ** The checks after admission *)

(** The part of [decode] that follows [admit_frame], on the parts of the frame. *)
Definition verdict (adm : Admission.t) (h : RawHeader.t) (k : Kind.t) (md : MetadataRegion.t)
    (body : list byte) : result Frame.t Failure.t :=
  let! _ := check_connection_state (Admission.state adm) k (RawHeader.code h) in
  let! c := correlate k (RawHeader.code h) (RawHeader.request_id h) (Admission.in_flight adm) in
  let! _ := check_metadata_order md in
  let! p := read_payload c (RawHeader.payload_length h) body in
  Ok (Frame.mk
        (Header.mk (Version.mk (RawHeader.version h)) k (Flags.mk (RawHeader.flags h))
           (RawHeader.code h) (RawHeader.metadata_length h) (RawHeader.payload_length h)
           (RequestId.mk (RawHeader.request_id h)))
        md p (retires_for k c (RawHeader.request_id h))).

(** The total length of the frame a header announces. *)
Definition raw_total (h : RawHeader.t) : Z :=
  HEADER_LENGTH + RawHeader.metadata_length h + RawHeader.payload_length h.

Lemma decode_admitted adm input h k md body rest :
  admitted_as (Admission.role adm) (Admission.limits adm) input h k md body rest →
  decode input adm =
    match verdict adm h k md body with
    | Ok f => Step.Frame f
    | Err e => step_for e (raw_total h) (len input)
    end.
Proof.
  intros Ha. unfold decode, verdict. rw (admit_frame_complete _ _ _ _ _ _ _ _ Ha).
  destruct Ha as [-> Hfit _ _ _ _ Hml Hpl _ _ _]. simpl.
  destruct (check_connection_state _ _ _); [|done].
  destruct (correlate _ _ _ _) as [c|]; [|done].
  destruct (check_metadata_order md); [|done].
  rw app_assoc slice_get_mid.
  - rw len_app len_header_bytes. lia.
  - rw len_app len_header_bytes. lia.
  - destruct (read_payload c (RawHeader.payload_length h) body); done.
Qed.

(** The bytes of the frame the verdict builds are the input's. *)
Lemma verdict_Ok adm input h k md body rest f :
  admitted_as (Admission.role adm) (Admission.limits adm) input h k md body rest →
  verdict adm h k md body = Ok f →
  frame_wf adm f ∧ input = frame_bytes f ++ rest.
Proof.
  intros [Hin Hfit Hv Hfl Hk Hd Hml Hpl Hfs Hms Hen] Hver. unfold verdict in Hver.
  destruct (check_connection_state _ _ _) as [[]|] eqn:Es; [|done].
  destruct (correlate _ _ _ _) as [c|] eqn:Ec; [|done].
  destruct (check_metadata_order md) as [[]|] eqn:Em; [|done].
  destruct (read_payload _ _ _) as [p|] eqn:Ep; [|done]. injection Hver as <-.
  apply check_connection_state_spec in Es. apply correlate_spec in Ec as [Hid Hcor].
  apply check_metadata_order_loop_spec in Em as [Hasc Hopt].
  rw Hpl in Ep. apply (read_payload_spec _ _ _ _ _ Hcor) in Ep as [Hpok ->].
  assert (raw_of (Header.mk (Version.mk (RawHeader.version h)) k (Flags.mk (RawHeader.flags h))
           (RawHeader.code h) (RawHeader.metadata_length h) (RawHeader.payload_length h)
           (RequestId.mk (RawHeader.request_id h))) = h) as Hraw.
  { unfold raw_of. simpl. rw -Hk. by destruct h. }
  split.
  - split; simpl; try done; [by rw Hraw | | | by apply retires_for_spec];
      unfold frame_bytes, frame_region; simpl.
    + rw Hraw len_app len_header_bytes len_app -Hml -Hpl. lia.
    + lia.
  - rw Hin. unfold frame_bytes, frame_region. simpl. by rw Hraw -!app_assoc.
Qed.

(** A well-formed frame is admitted. *)
Lemma frame_wf_admitted adm f rest :
  frame_wf adm f →
  admitted_as (Admission.role adm) (Admission.limits adm) (frame_bytes f ++ rest)
    (raw_of (Frame.header f)) (Header.kind (Frame.header f)) (Frame.metadata f)
    (payload_bytes (Frame.payload f)) rest.
Proof.
  intros []. split; simpl; try done.
  - unfold frame_bytes, frame_region. by rw -!app_assoc.
  - unfold frame_bytes in *. rw len_app len_header_bytes len_app in wf_frame_size0. lia.
  - by rw wf_metadata_length0.
Qed.

Lemma payload_ok_correlation k code p :
  payload_ok k code p → is_Some (correlation_of k code).
Proof.
  unfold payload_ok, correlation_of. destruct k.
  - intros [-> _]. case_match; by eexists.
  - destruct (ResultCode.from_wire code); [by eexists | done].
  - intros [[c ->] _]. by eexists.
Qed.

Lemma frame_wf_verdict adm f :
  frame_wf adm f →
  verdict adm (raw_of (Frame.header f)) (Header.kind (Frame.header f)) (Frame.metadata f)
    (payload_bytes (Frame.payload f)) = Ok f.
Proof.
  intros Hwf. pose proof Hwf as []. unfold verdict.
  destruct (payload_ok_correlation _ _ _ wf_payload0) as [c Hc].
  rw (proj2 (check_connection_state_spec _ _ _)); [done|].
  rw (proj2 (correlate_spec _ _ _ _ c)); [done|].
  unfold check_metadata_order. rw (proj2 (check_metadata_order_loop_spec None _)); [done|].
  simpl. rw wf_payload_length0.
  rw (proj2 (read_payload_spec _ _ _ _ (Frame.payload f) Hc)); [done|].
  destruct f as [h md p r]. simpl in *. f_equal. f_equal.
  - destruct h as [[] ? [] ? ? ? []]. simpl in *. by f_equal.
  - pose proof (retires_for_spec _ _ (RequestId.value (Header.request_id h)) _ Hc) as Hr.
    rw -wf_retires0 in Hr. by destruct r, (retires_for _ _ _); simpl in *; subst.
Qed.

Lemma decode_frame_sound adm input f :
  decode input adm = Step.Frame f → frame_wf adm f ∧ ∃ rest, input = frame_bytes f ++ rest.
Proof.
  intros H. destruct (admit_frame input (Admission.role adm) (Admission.limits adm)) as [a|s] eqn:Ea.
  - apply admit_frame_sound in Ea as (h & k & md & body & rest & Ha & _).
    rw (decode_admitted _ _ _ _ _ _ _ Ha) in H.
    destruct (verdict _ _ _ _ _) as [f'|] eqn:Ev; [|done]. injection H as ->.
    apply (verdict_Ok _ _ _ _ _ _ _ _ Ha) in Ev as [? ?]. eauto.
  - unfold decode in H. rw Ea in H. subst s. unfold admit_frame in Ea.
    repeat case_match; simplify_eq.
Qed.

Lemma decode_frame_complete adm f rest :
  frame_wf adm f → decode (frame_bytes f ++ rest) adm = Step.Frame f.
Proof.
  intros Hwf. rw (decode_admitted _ _ _ _ _ _ _ (frame_wf_admitted _ _ rest Hwf)).
  by rw frame_wf_verdict.
Qed.

(** ** More bytes never change an answer *)

Lemma raw_parse_app input more h :
  RawHeader.parse input = Some h → RawHeader.parse (input ++ more) = Some h.
Proof.
  intros (Hfit & rest & ->)%raw_parse_sound. by rw -app_assoc raw_parse_complete.
Qed.

(** What [admit_frame] answered stays the answer on a longer input. *)
Definition admit_stable (input more : list byte) (role : Role.t) (limits : Limits.t)
    (r : result AdmittedFrame.t Step.t) : Prop :=
  match r with
  | Ok a => admit_frame (input ++ more) role limits = Ok a
  | Err (Step.Need n) => len input < n
  | Err (Step.Frame _) => False
  | Err (Step.Failure f c) =>
      c = len input ∧ classified f ∧ Failure.scope f = FailureScope.ConnectionFatal ∧
      admit_frame (input ++ more) role limits = Err (Step.Failure f (len (input ++ more)))
  end.

Lemma admit_frame_app input more role limits :
  admit_stable input more role limits (admit_frame input role limits).
Proof.
  unfold admit_stable, admit_frame. destruct (RawHeader.parse input) as [h|] eqn:Eh.
  2:{ by apply raw_parse_None in Eh. }
  rw (raw_parse_app _ more _ Eh). apply raw_parse_sound in Eh as (Hfit & _).
  destruct (negb (RawHeader.version h =? 0)); [done|].
  destruct (Kind.from_wire (RawHeader.kind h)) as [k|]; [|done].
  pose proof (header_sum_fits h Hfit) as Hsum. rw total_length_fits; [apply Hfit..|].
  destruct (Limits.frame_size limits <? _); [done|].
  destruct (negb (RawHeader.flags h =? 0)); [done|].
  destruct (Limits.metadata_size limits <? _); [done|].
  rw try_from_fits; [done|]. destruct (len input <? _) eqn:El; breflect; [done|].
  pose proof (len_nonneg more). destruct Hfit as (_ & _ & _ & _ & ? & ? & _).
  rw checked_add_fits; [lia|]. rw (len_app input more). zbool.
  rw slice_get_app_l; [done | lia|].
  destruct (slice_get input HEADER_LENGTH _) as [reg|]; [|done].
  destruct (MetadataRegion.parse reg); [|done]. by destruct (bool_decide _).
Qed.

(** Every failure of the checks carries the scope of its class. *)
Lemma verdict_classified adm h k md body f :
  verdict adm h k md body = Err f → classified f.
Proof.
  unfold verdict. destruct (check_connection_state _ _ _) eqn:Es.
  2:{ intros [= <-]. by apply check_connection_state_err in Es as ->. }
  destruct (correlate _ _ _ _) as [c|] eqn:Ec.
  2:{ intros [= <-]. by apply correlate_err in Ec as [->|[-> _]]. }
  destruct (check_metadata_order md) eqn:Em.
  2:{ intros [= <-]. by apply check_metadata_order_loop_err in Em as ->. }
  destruct (read_payload c _ body) eqn:Ep; [done|]. intros [= <-].
  by apply read_payload_err in Ep as ->.
Qed.

(** A step on an admitted frame is the same on every longer input, its extent included unless
    the failure is connection-fatal and consumes everything held. *)
Definition step_stable (s s' : Step.t) (input input' : list byte) : Prop :=
  match s with
  | Step.Need _ => True
  | Step.Frame f => s' = Step.Frame f
  | Step.Failure f c =>
      match Failure.scope f with
      | FailureScope.RequestScoped => s' = Step.Failure f c
      | FailureScope.ConnectionFatal => c = len input ∧ s' = Step.Failure f (len input')
      end
  end.

Lemma admitted_as_app role limits input more h k md body rest :
  admitted_as role limits input h k md body rest →
  admitted_as role limits (input ++ more) h k md body (rest ++ more).
Proof. intros []. split; try done. subst. by rw -!app_assoc. Qed.

Lemma decode_app input more adm :
  step_stable (decode input adm) (decode (input ++ more) adm) input (input ++ more).
Proof.
  pose proof (admit_frame_app input more (Admission.role adm) (Admission.limits adm)) as Hst.
  destruct (admit_frame input _ _) as [a|s] eqn:Ea; simpl in Hst.
  - apply admit_frame_sound in Ea as (h & k & md & body & rest & Ha & ->).
    rw (decode_admitted _ _ _ _ _ _ _ Ha).
    rw (decode_admitted _ _ _ _ _ _ _ (admitted_as_app _ _ _ more _ _ _ _ _ Ha)).
    destruct (verdict _ _ _ _ _) as [f|f]; [done|].
    unfold step_for. simpl. by destruct (Failure.scope f).
  - unfold decode. rw Ea. destruct s as [n|f|f c]; [done | done|].
    destruct Hst as (-> & _ & Hs & ->). simpl. by rw Hs.
Qed.

(** What the answers of the decoder say about the buffer. *)
Lemma decode_extent input adm :
  match decode input adm with
  | Step.Need n => len input < n ∧ n ≤ Z.max HEADER_LENGTH (Limits.frame_size (Admission.limits adm))
  | Step.Frame f => HEADER_LENGTH ≤ len (frame_bytes f) ≤ len input
  | Step.Failure f c =>
      classified f ∧
      match Failure.scope f with
      | FailureScope.RequestScoped =>
          ∃ h, RawHeader.parse input = Some h ∧ c = raw_total h ∧
               HEADER_LENGTH ≤ c ≤ len input ∧ c ≤ Limits.frame_size (Admission.limits adm)
      | FailureScope.ConnectionFatal => c = len input
      end
  end.
Proof.
  pose proof (admit_frame_app input [] (Admission.role adm) (Admission.limits adm)) as Hst.
  destruct (admit_frame input _ _) as [a|s] eqn:Ea; simpl in Hst.
  - apply admit_frame_sound in Ea as (h & k & md & body & rest & Ha & _).
    rw (decode_admitted _ _ _ _ _ _ _ Ha).
    destruct (verdict _ _ _ _ _) as [f|f] eqn:Ev.
    + apply (verdict_Ok _ _ _ _ _ _ _ _ Ha) in Ev as [_ ->].
      pose proof (len_frame_bytes f). pose proof (len_nonneg rest).
      split; [done|]. unfold len in *. rw length_app. lia.
    + unfold step_for. apply verdict_classified in Ev. split; [done|].
      destruct (Failure.scope f); simpl; [|done]. exists h.
      destruct Ha as [-> Hfit _ _ _ _ Hml Hpl Hfs _ _]. split; [by apply raw_parse_complete|].
      split; [done|]. pose proof (len_nonneg rest). pose proof (len_nonneg body).
      unfold raw_total in *. rw len_app len_header_bytes !len_app -Hml -Hpl.
      destruct Hfit as (_ & _ & _ & _ & ? & ? & _). lia.
  - unfold decode. rw Ea. destruct s as [n|f|f c]; [|done|].
    + split; [done|]. unfold admit_frame in Ea.
      destruct (RawHeader.parse input) as [h|] eqn:Eh; [|injection Ea as <-; lia].
      apply raw_parse_sound in Eh as (Hfit & _). pose proof (header_sum_fits h Hfit).
      repeat first [rw total_length_fits in Ea; [apply Hfit..|] |
                    rw try_from_fits in Ea; [done|] | case_match; simplify_eq]; breflect; lia.
    + destruct Hst as (-> & ? & Hs & _). rw Hs. done.
Qed.

(** ** The encoder *)

(** The payload a receiver reads back. *)
Definition payload_of (p : OutgoingPayload.t) : Payload.t :=
  match p with
  | OutgoingPayload.Opaque_ bytes => Payload.Opaque_ bytes
  | OutgoingPayload.Warm n => Payload.Warm n
  | OutgoingPayload.Error detail text => Payload.Error detail text
  end.

Definition outgoing_payload_of (p : Payload.t) : OutgoingPayload.t :=
  match p with
  | Payload.Opaque_ bytes => OutgoingPayload.Opaque_ bytes
  | Payload.Warm n => OutgoingPayload.Warm n
  | Payload.Error detail text => OutgoingPayload.Error detail text
  end.

(** The frame an [Outgoing] value describes. *)
Definition frame_of (o : Outgoing.t) : Frame.t :=
  Frame.mk
    (Header.mk (Version.mk 0) (Outgoing.kind o) (Flags.mk 0) (Outgoing.code o)
       (len (region_bytes (Outgoing.metadata o)))
       (len (payload_bytes (payload_of (Outgoing.payload o))))
       (RequestId.mk (Outgoing.request_id o)))
    (MetadataRegion.mk ((λ e, MetadataEntry.new e.1 e.2) <$> Outgoing.metadata o))
    (payload_of (Outgoing.payload o))
    (RequestId.mk (retired_id (Outgoing.kind o) (Outgoing.code o) (Outgoing.request_id o))).

(** The [Outgoing] value that describes a frame. *)
Definition outgoing_of (f : Frame.t) : Outgoing.t :=
  Outgoing.mk (Header.kind (Frame.header f)) (Header.code (Frame.header f))
    (RequestId.value (Header.request_id (Frame.header f)))
    (metadata_raw <$> MetadataRegion.entries (Frame.metadata f))
    (outgoing_payload_of (Frame.payload f)).

(** The fields of an [Outgoing] hold values of their types, and its region fits in memory. *)
Definition outgoing_typed (o : Outgoing.t) : Prop :=
  0 ≤ Outgoing.code o ≤ U16_MAX ∧ 0 ≤ Outgoing.request_id o ≤ U64_MAX ∧
  Forall (λ e, 0 ≤ e.1 ≤ U16_MAX) (Outgoing.metadata o) ∧
  len (region_bytes (Outgoing.metadata o)) ≤ U64_MAX ∧
  match Outgoing.payload o with OutgoingPayload.Warm n => 0 ≤ n ≤ U64_MAX | _ => True end.

(** The identifiers of the metadata strictly ascend. *)
Definition metadata_ascends (o : Outgoing.t) : Prop := ascending None (Outgoing.metadata o).*1.

(** The payload's lengths fit their wire fields. *)
Definition payload_representable (o : Outgoing.t) : Prop :=
  match Outgoing.payload o with
  | OutgoingPayload.Error detail _ => len detail ≤ U16_MAX
  | _ => True
  end ∧ len (payload_bytes (payload_of (Outgoing.payload o))) ≤ U32_MAX.

Lemma frame_region_of o : frame_region (frame_of o) = region_bytes (Outgoing.metadata o).
Proof.
  unfold frame_region, frame_of. simpl. rw -list_fmap_compose. f_equal.
  rw -{2}(list_fmap_id (Outgoing.metadata o)). apply list_fmap_ext. by intros ? [] _.
Qed.

Lemma metadata_length_loop_spec prev n md :
  n + len (region_bytes md) ≤ U64_MAX → 0 ≤ n →
  match metadata_length_loop prev n md with
  | Ok m => ascending prev md.*1 ∧ m = n + len (region_bytes md)
  | Err e => e = EncodeError.MetadataNotAscending ∧ ¬ ascending prev md.*1
  end.
Proof.
  revert prev n. induction md as [|[i v] md IH]; intros prev n Hn Hpos.
  { simpl. split; [done|]. unfold len. simpl. lia. }
  rw region_bytes_cons len_app len_entry_bytes in Hn. cbn [snd] in Hn.
  pose proof (len_nonneg v). pose proof (len_nonneg (region_bytes md)).
  cbn [metadata_length_loop fmap list_fmap ascending fst].
  rw try_from_fits; [unfold U64_MAX in *; lia|]. cbn [ok_or].
  rw checked_add_fits; [unfold U64_MAX in *; lia|]. cbn [ok_or].
  rw checked_add_fits; [unfold U64_MAX in *; lia|]. cbn [ok_or].
  specialize (IH (Some i) (n + (4 + len v)) ltac:(lia) ltac:(lia)).
  rw region_bytes_cons len_app len_entry_bytes. cbn [snd].
  assert (match metadata_length_loop (Some i) (n + (4 + len v)) md with
          | Ok m => ascending (Some i) md.*1 ∧ m = n + (4 + len v + len (region_bytes md))
          | Err e => e = EncodeError.MetadataNotAscending ∧ ¬ ascending (Some i) md.*1
          end) as IH' by (destruct (metadata_length_loop _ _ md); naive_solver lia).
  destruct prev as [p|]; [destruct (i <=? p) eqn:E; breflect|].
  - split; [done|]. intros [Hlt _]. specialize (Hlt p eq_refl). lia.
  - destruct (metadata_length_loop _ _ md); naive_solver lia.
  - destruct (metadata_length_loop _ _ md); naive_solver.
Qed.

Lemma region_entry_le e md : e ∈ md → len e.2 ≤ len (region_bytes md).
Proof.
  induction md as [|d md IH]; [by intros ?%elem_of_nil|].
  rw region_bytes_cons len_app len_entry_bytes.
  pose proof (len_nonneg (region_bytes md)). pose proof (len_nonneg d.2).
  intros [->|?]%elem_of_cons; [lia|]. specialize (IH ltac:(done)). lia.
Qed.

Lemma encode_metadata_fits md :
  Forall (λ e, len e.2 ≤ U16_MAX) md → encode_metadata md = Ok (region_bytes md).
Proof.
  induction md as [|[i v] md IH]; [done|]. intros [Hv Hmd]%Forall_cons.
  cbn [encode_metadata]. rw try_from_fits; [split; [auto with rp1 | done]|]. cbn [ok_or].
  rw IH; [done|]. rw region_bytes_cons. unfold entry_bytes. cbn [fst snd]. by rw -!app_assoc.
Qed.

Lemma encode_payload_spec o :
  match encode_payload (Outgoing.payload o) with
  | Ok b => b = payload_bytes (payload_of (Outgoing.payload o)) ∧
            match Outgoing.payload o with
            | OutgoingPayload.Error detail _ => len detail ≤ U16_MAX | _ => True end
  | Err e => e = EncodeError.FrameTooLarge ∧ ¬ payload_representable o
  end.
Proof.
  unfold payload_representable. destruct (Outgoing.payload o) as [b|n|d t]; [done | done|].
  cbn. unfold try_from. destruct (fits U16_MAX (len d)) eqn:E; cbn.
  - apply fits_spec in E. split; [done | lia].
  - split; [done|]. intros [? _].
    assert (fits U16_MAX (len d) = true) by (apply fits_spec; pose proof (len_nonneg d); lia).
    congruence.
Qed.

(** Every outcome of the encoder. *)
Lemma encode_with_max_cases o mf mm :
  outgoing_typed o → mm ≤ U16_MAX →
  match encode_with_max o mf mm with
  | Ok bytes =>
      metadata_ascends o ∧ len (region_bytes (Outgoing.metadata o)) ≤ mm ∧
      payload_representable o ∧ len (frame_bytes (frame_of o)) ≤ mf ∧
      bytes = frame_bytes (frame_of o)
  | Err EncodeError.MetadataNotAscending => ¬ metadata_ascends o
  | Err EncodeError.MetadataTooLarge =>
      metadata_ascends o ∧ mm < len (region_bytes (Outgoing.metadata o))
  | Err EncodeError.FrameTooLarge =>
      metadata_ascends o ∧ len (region_bytes (Outgoing.metadata o)) ≤ mm ∧
      ¬ (payload_representable o ∧ len (frame_bytes (frame_of o)) ≤ mf)
  end.
Proof.
  intros (Hc & Hr & Hid & Hreg & Hw) Hmm. unfold encode_with_max, checked_metadata_length_with_max.
  pose proof (metadata_length_loop_spec None 0 (Outgoing.metadata o) ltac:(lia) ltac:(lia)) as Hml.
  destruct (metadata_length_loop _ _ _) as [m|e]; [|by destruct Hml as [-> ?]].
  destruct Hml as [Hasc ->]. rw Z.add_0_l.
  set (reg := region_bytes _) in *. pose proof (len_nonneg reg).
  destruct (mm <? len reg) eqn:Em; breflect; [done|].
  pose proof (encode_payload_spec o) as Hp.
  destruct (encode_payload _) as [b|e]; [|destruct Hp as [-> Hp]; naive_solver].
  destruct Hp as [Hb Hd]. pose proof (len_nonneg b). unfold try_from at 1.
  assert (len (frame_bytes (frame_of o)) = 20 + len reg + len b) as Htot.
  { unfold frame_bytes. rw len_app len_header_bytes len_app frame_region_of.
    fold reg. simpl. rw -Hb. unfold HEADER_LENGTH. lia. }
  destruct (fits U32_MAX (len b)) eqn:Ef; cbn [ok_or].
  2:{ repeat split; [done..|]. unfold payload_representable. rw -Hb. intros [[_ Hx] _].
      rw (proj2 (fits_spec _ _)) in Ef; [lia | done]. }
  apply fits_spec in Ef. unfold HEADER_LENGTH, U32_MAX, U16_MAX in *.
  rw try_from_fits; [done|]. rw checked_add_fits; [unfold U64_MAX; lia|].
  rw checked_add_fits; [unfold U64_MAX; lia|]. cbn [ok_or].
  destruct (mf <? 20 + len reg + len b) eqn:Emf; breflect.
  { repeat split; [done..|]. rw Htot. intros [_ ?]. lia. }
  rw try_from_fits; [lia|]. cbn [ok_or]. rw encode_metadata_fits.
  { apply Forall_forall. intros e He. pose proof (region_entry_le _ _ He). fold reg in H1.
    unfold U16_MAX. lia. }
  unfold payload_representable, U32_MAX. rw -Hb Htot. repeat split; [done | done | done | lia | lia|].
  unfold frame_bytes. rw frame_region_of. fold reg. unfold header_bytes, frame_of, raw_of. simpl.
  rw -!app_assoc. fold reg. by rw -Hb.
Qed.

Lemma outgoing_of_frame adm f : frame_wf adm f → frame_of (outgoing_of f) = f.
Proof.
  intros []. destruct f as [[[v] k [fl] c ml pl [rid]] [es] p [r]]. simpl in *.
  unfold frame_region, frame_of, outgoing_of in *. simpl in *. subst.
  assert (payload_of (outgoing_payload_of p) = p) as -> by by destruct p.
  f_equal. f_equal. rw -list_fmap_compose -{2}(list_fmap_id es).
  apply list_fmap_ext. by intros ? [] _.
Qed.

Lemma outgoing_of_typed adm f : frame_wf adm f → outgoing_typed (outgoing_of f).
Proof.
  intros []. destruct wf_header0 as (_ & _ & _ & ? & ? & _ & ?).
  unfold outgoing_typed, outgoing_of. simpl in *. repeat split; try done; try lia.
  - eapply Forall_impl; [done|]. by intros e [? _].
  - fold (frame_region f). unfold U16_MAX, U64_MAX in *. lia.
  - unfold payload_ok in *. destruct (Frame.payload f); simpl; try done.
    destruct (Header.kind (Frame.header f)).
    + by destruct wf_payload0 as (_ & ? & ? & _).
    + repeat case_match; naive_solver.
    + by destruct wf_payload0 as (_ & ? & ? & ? & _).
Qed.
