(* ===== verification/FrameTheorems.v ===== *)
(** * Frames: theorems

    The properties of the frame decoder and encoder, each a short consequence of
    the lemmas of [FrameFacts]. *)

From S2P Require Export FrameFacts.
Local Open Scope Z_scope.

(** ** Lemmas *)

(** The number a [Need] asks for is the header's length or the announced total. *)
Lemma decode_need input adm n :
  decode input adm = Step.Need n →
  n = HEADER_LENGTH ∨ ∃ h, RawHeader.parse input = Some h ∧ n = raw_total h.
Proof.
  unfold decode, admit_frame. destruct (RawHeader.parse input) as [h|] eqn:Eh;
    [|by intros [= <-]; left].
  apply raw_parse_sound in Eh as (Hfit & _). pose proof (header_sum_fits h Hfit) as Hs.
  rw total_length_fits; [apply Hfit..|]. rw try_from_fits; [done|].
  unfold step_for. repeat case_match; intros; simplify_eq; eauto.
Qed.

(** Two admissions that differ only in how the in-flight ids are listed. *)
Definition admission_equiv (a b : Admission.t) : Prop :=
  Admission.role a = Admission.role b ∧ Admission.state a = Admission.state b ∧
  Admission.limits a = Admission.limits b ∧
  ∀ id, id ∈ Admission.in_flight a ↔ id ∈ Admission.in_flight b.

#[global] Instance admission_equivalence : Equivalence admission_equiv.
Proof.
  unfold admission_equiv. split.
  - done.
  - intros a b (? & ? & ? & H). by repeat split; try done; apply H.
  - intros a b c (? & ? & ? & H) (? & ? & ? & K).
    repeat split; [congruence.. | |]; by rw H K.
Qed.

Lemma correlate_membership k code rid xs ys :
  (∀ id, id ∈ xs ↔ id ∈ ys) → correlate k code rid xs = correlate k code rid ys.
Proof.
  intros H. unfold correlate.
  assert (bool_decide (rid ∈ xs) = bool_decide (rid ∈ ys)) as ->; [|done].
  apply bool_decide_ext, H.
Qed.

#[global] Instance decode_proper : Proper ((=) ==> admission_equiv ==> (=)) decode.
Proof.
  intros input ? <- [] [] (? & ? & ? & H). simpl in *. subst. unfold decode. simpl.
  destruct (admit_frame _ _ _); [|done]. destruct (check_connection_state _ _ _); [|done].
  by rw (correlate_membership _ _ _ _ _ H).
Qed.

(** A frame the encoder wrote is acceptable to a receiver that admits its kind, code, id and
    payload under limits no tighter than the sender's. *)
Lemma sent_frame_wf o mf mm adm :
  outgoing_typed o → mm ≤ U16_MAX → metadata_ascends o →
  len (region_bytes (Outgoing.metadata o)) ≤ mm → payload_representable o →
  len (frame_bytes (frame_of o)) ≤ mf →
  mf ≤ Limits.frame_size (Admission.limits adm) →
  mm ≤ Limits.metadata_size (Admission.limits adm) →
  Kind.sender (Outgoing.kind o) ≠ Admission.role adm →
  Forall (λ e, e.1 < 0x8000) (Outgoing.metadata o) →
  state_allows (Admission.state adm) (Outgoing.kind o) (Outgoing.code o) →
  identity_ok (Outgoing.kind o) (Outgoing.code o) (Outgoing.request_id o) (Admission.in_flight adm) →
  payload_ok (Outgoing.kind o) (Outgoing.code o) (payload_of (Outgoing.payload o)) →
  frame_wf adm (frame_of o).
Proof.
  intros (Hc & Hr & Hid & _ & _) Hmm Hasc Hreg [_ Hpl] Htot Hmf Hmd Hdir Hopt Hst Hident Hpay.
  rw Forall_forall in Hid. rw Forall_forall in Hopt.
  pose proof (len_nonneg (region_bytes (Outgoing.metadata o))).
  pose proof (len_nonneg (payload_bytes (payload_of (Outgoing.payload o)))).
  split; simpl; try done; rw ?frame_region_of; try done; try lia.
  - unfold raw_fits. simpl. by repeat split; try done; try lia; destruct (Outgoing.kind o).
  - rw -list_fmap_compose. apply Forall_fmap, Forall_forall. intros e He. split; simpl.
    + by apply Hid.
    + pose proof (region_entry_le _ _ He). lia.
  - rw -list_fmap_compose. exact Hasc.
  - apply Forall_fmap, Forall_forall. intros e He. simpl. rw is_required_spec; simpl.
    + by apply Hid.
    + apply Z.leb_gt. by apply Hopt.
Qed.

(** An accepted frame meets the encoder's conditions. *)
Lemma accepted_sendable adm f :
  frame_wf adm f →
  metadata_ascends (outgoing_of f) ∧
  len (region_bytes (Outgoing.metadata (outgoing_of f))) ≤
    Limits.metadata_size (Admission.limits adm) ∧
  payload_representable (outgoing_of f).
Proof.
  intros Hwf. pose proof (wf_payload _ _ Hwf) as Hp. pose proof (wf_payload_length _ _ Hwf) as Hpl.
  split; [|split; [apply Hwf|]].
  - pose proof (wf_ascending _ _ Hwf). unfold metadata_ascends, outgoing_of. simpl. by rw -list_fmap_compose.
  - destruct (wf_header _ _ Hwf) as (_ & _ & _ & _ & _ & ? & _). unfold payload_representable. simpl in *.
    destruct (Frame.payload f) as [b|n|d t] eqn:Ep; simpl in *; (split; [|lia]); try done.
    unfold payload_ok in Hp. destruct (Header.kind (Frame.header f)).
    + by destruct Hp as (_ & ? & ? & _).
    + repeat case_match; try done; by destruct Hp as (? & ? & _) || destruct Hp.
    + destruct Hp as (_ & ? & ? & Hpe & ?). by injection Hpe as -> ->.
Qed.

Lemma admitted_parse role limits input h k md body rest :
  admitted_as role limits input h k md body rest → RawHeader.parse input = Some h.
Proof. intros []. subst. by apply raw_parse_complete. Qed.

(** The decoder waits on every strict prefix of an acceptable frame. *)
Lemma strict_prefix_needs adm f p q :
  frame_wf adm f → frame_bytes f = p ++ q → q ≠ [] →
  ∃ n, decode p adm = Step.Need n ∧ len p < n ≤ len (frame_bytes f).
Proof.
  intros Hwf Hpq Hq. pose proof (decode_app p q adm) as Hst.
  pose proof (decode_frame_complete adm f [] Hwf) as Hfull. rw app_nil_r Hpq in Hfull.
  pose proof (decode_extent p adm) as Hext.
  assert (0 < len q) by (destruct q; [done | rw len_cons; pose proof (len_nonneg q); lia]).
  rw Hfull in Hst. destruct (decode p adm) as [n|g|g c] eqn:Ed; simpl in Hst.
  - exists n. split; [done|]. split; [lia|]. pose proof (len_frame_bytes f).
    destruct (decode_need _ _ _ Ed) as [->|(h & Hh & ->)]; [done|].
    apply (raw_parse_app _ q) in Hh. rw -Hpq in Hh. unfold frame_bytes in Hh.
    rw raw_parse_complete in Hh; [apply Hwf|]. injection Hh as <-.
    unfold raw_total, frame_bytes. rw len_app len_header_bytes len_app. simpl.
    rw -(wf_metadata_length _ _ Hwf) -(wf_payload_length _ _ Hwf). lia.
  - injection Hst as <-. rw Hpq len_app in Hext. lia.
  - destruct (Failure.scope g); [done | by destruct Hst].
Qed.

(** ** Properties *)

(** C1. The decoder implements the reference description of a frame: it answers [Frame f] for
    exactly the buffers that start with the bytes of [f], for exactly the frames [f] that the
    receiver's role, state, limits and in-flight ids allow. *)
Theorem decode_exact input adm f :
  decode input adm = Step.Frame f ↔ frame_wf adm f ∧ ∃ rest, input = frame_bytes f ++ rest.
Proof.
  split; [apply decode_frame_sound|]. intros (? & rest & ->). by apply decode_frame_complete.
Qed.

(** C2. Incremental decoding is stable: bytes that arrive later never change a frame, a
    request-scoped failure or its extent, and never turn a connection-fatal failure into
    anything else. *)
Theorem decode_stable input more adm :
  match decode input adm with
  | Step.Need _ => True
  | Step.Frame f => decode (input ++ more) adm = Step.Frame f
  | Step.Failure f c =>
      match Failure.scope f with
      | FailureScope.RequestScoped => decode (input ++ more) adm = Step.Failure f c
      | FailureScope.ConnectionFatal =>
          c = len input ∧ decode (input ++ more) adm = Step.Failure f (len (input ++ more))
      end
  end.
Proof. apply decode_app. Qed.

(** C14. No frame is refused or misread while it arrives: on every strict prefix of the bytes of
    an acceptable frame the decoder asks for more, and never for more than the frame has. *)
Theorem decode_strict_prefix adm f p q :
  frame_wf adm f → frame_bytes f = p ++ q → q ≠ [] →
  ∃ n, decode p adm = Step.Need n ∧ len p < n ≤ len (frame_bytes f).
Proof. apply strict_prefix_needs. Qed.

(** The decoder's answers respect the buffer and the limits: it asks for more than it holds
    and never beyond the frame bound; an accepted frame lies inside the buffer; a
    request-scoped failure consumes exactly the length its header announces, which is inside
    the buffer and within the bound, so decoding can continue behind it; a connection-fatal
    failure consumes everything; and each failure carries the scope of its class. *)
Theorem decode_bounds input adm :
  match decode input adm with
  | Step.Need n =>
      len input < n ≤ Z.max HEADER_LENGTH (Limits.frame_size (Admission.limits adm))
  | Step.Frame f => HEADER_LENGTH ≤ len (frame_bytes f) ≤ len input
  | Step.Failure f c =>
      classified f ∧
      match Failure.scope f with
      | FailureScope.RequestScoped =>
          ∃ h, RawHeader.parse input = Some h ∧ c = raw_total h ∧
               HEADER_LENGTH ≤ c ≤ len input ∧ c ≤ Limits.frame_size (Admission.limits adm)
      | FailureScope.ConnectionFatal => c = len input
      end
  end.
Proof. apply decode_extent. Qed.

(** A frame retires a request only if that request is in flight, and then it is the one
    the header names. *)
Theorem decode_retires input adm f :
  decode input adm = Step.Frame f → RequestId.value (Frame.retires f) ≠ 0 →
  Frame.retires f = Header.request_id (Frame.header f) ∧
  RequestId.value (Frame.retires f) ∈ Admission.in_flight adm ∧
  Header.kind (Frame.header f) ≠ Kind.Request.
Proof.
  intros [Hwf _]%decode_frame_sound. pose proof (wf_retires _ _ Hwf) as Hr.
  pose proof (wf_identity _ _ Hwf) as Hi. destruct f as [[v k fl c ml pl [rid]] md p [r]].
  simpl in *. subst r. unfold retired_id, identity_ok in *. destruct k; [done | |].
  - intros _. by split; [|split; [apply Hi|]].
  - destruct (ErrorClass.from_wire c) as [ec|] eqn:Ec; simpl; [|done].
    specialize (Hi ec eq_refl). destruct (ErrorClass.scope ec); [|done].
    intros _. split; [done|]. split; [by apply Hi | done].
Qed.

(** C15. The encoder's outcome is decided by the frame alone: it writes the reference bytes
    exactly when the identifiers ascend, the region fits its bound, the payload's lengths fit
    their fields and the whole fits the frame bound, and each error names the first of these
    that fails. *)
Theorem encode_outcome o mf mm :
  outgoing_typed o → mm ≤ U16_MAX →
  match encode_with_max o mf mm with
  | Ok bytes =>
      metadata_ascends o ∧ len (region_bytes (Outgoing.metadata o)) ≤ mm ∧
      payload_representable o ∧ len (frame_bytes (frame_of o)) ≤ mf ∧
      bytes = frame_bytes (frame_of o)
  | Err EncodeError.MetadataNotAscending => ¬ metadata_ascends o
  | Err EncodeError.MetadataTooLarge =>
      metadata_ascends o ∧ mm < len (region_bytes (Outgoing.metadata o))
  | Err EncodeError.FrameTooLarge =>
      metadata_ascends o ∧ len (region_bytes (Outgoing.metadata o)) ≤ mm ∧
      ¬ (payload_representable o ∧ len (frame_bytes (frame_of o)) ≤ mf)
  end.
Proof. apply encode_with_max_cases. Qed.

(** C12. What one peer encodes the other decodes: bytes the encoder produced, followed by
    anything, decode to the frame that was described, provided the receiver's limits are no
    tighter than the sender's and its role, state and in-flight ids admit the frame. *)
Theorem encode_decode o mf mm bytes rest adm :
  encode_with_max o mf mm = Ok bytes → outgoing_typed o → mm ≤ U16_MAX →
  mf ≤ Limits.frame_size (Admission.limits adm) →
  mm ≤ Limits.metadata_size (Admission.limits adm) →
  Kind.sender (Outgoing.kind o) ≠ Admission.role adm →
  Forall (λ e, e.1 < 0x8000) (Outgoing.metadata o) →
  state_allows (Admission.state adm) (Outgoing.kind o) (Outgoing.code o) →
  identity_ok (Outgoing.kind o) (Outgoing.code o) (Outgoing.request_id o) (Admission.in_flight adm) →
  payload_ok (Outgoing.kind o) (Outgoing.code o) (payload_of (Outgoing.payload o)) →
  decode (bytes ++ rest) adm = Step.Frame (frame_of o).
Proof.
  intros He Ht Hmm Hmf Hmd Hdir Hopt Hst Hid Hpay.
  pose proof (encode_with_max_cases o mf mm Ht Hmm) as Hc. rw He in Hc.
  destruct Hc as (Hasc & Hreg & Hrep & Htot & ->). apply decode_frame_complete.
  by apply (sent_frame_wf o mf mm).
Qed.

(** C13. Frames have one encoding: re-encoding a decoded frame under the receiver's limits
    succeeds and reproduces the bytes at the head of the buffer. *)
Theorem decode_encode input adm f :
  Limits.metadata_size (Admission.limits adm) ≤ U16_MAX →
  decode input adm = Step.Frame f →
  ∃ bytes rest,
    encode_with_max (outgoing_of f) (Limits.frame_size (Admission.limits adm))
      (Limits.metadata_size (Admission.limits adm)) = Ok bytes ∧
    input = bytes ++ rest.
Proof.
  intros Hmm (Hwf & rest & ->)%decode_frame_sound.
  pose proof (encode_with_max_cases (outgoing_of f) (Limits.frame_size (Admission.limits adm)) _
                (outgoing_of_typed _ _ Hwf) Hmm) as Hc.
  rw (outgoing_of_frame _ _ Hwf) in Hc.
  destruct (accepted_sendable _ _ Hwf) as (Ha & Hl & Hr).
  pose proof (wf_frame_size _ _ Hwf).
  destruct (encode_with_max _ _ _) as [bytes|[]]; [|exfalso..].
  - destruct Hc as (_ & _ & _ & _ & ->). by exists (frame_bytes f), rest.
  - done.
  - naive_solver.
  - destruct Hc. lia.
Qed.

(** The decoder reads the in-flight ids only through membership: how they are listed, in
    which order and how often, never matters. *)
Theorem decode_in_flight_set input role state limits xs ys :
  (∀ id, id ∈ xs ↔ id ∈ ys) →
  decode input (Admission.mk role state limits xs) = decode input (Admission.mk role state limits ys).
Proof. intros H. by apply decode_proper. Qed.

(** A failure's class tells what was wrong with the frame: an unsupported version is a
    nonzero version byte; a resource limit is an announced length over the bound; an
    unsupported operation is a request with a fresh id and an unassigned opcode; an invalid
    argument is metadata out of order or in the required range; the decoder produces no
    class that only a server decides. *)
Theorem decode_failure_reason input adm f c :
  decode input adm = Step.Failure f c →
  ∃ h, RawHeader.parse input = Some h ∧
  match Failure.class f with
  | ErrorClass.UnsupportedProtocolVersion => RawHeader.version h ≠ 0
  | ErrorClass.ResourceLimit =>
      RawHeader.version h = 0 ∧ Limits.frame_size (Admission.limits adm) < raw_total h
  | ErrorClass.UnsupportedOperation =>
      RawHeader.kind h = Kind.value Kind.Request ∧ Opcode.is_assigned (RawHeader.code h) = false
  | ErrorClass.InvalidArgument =>
      ∃ k md body rest,
        admitted_as (Admission.role adm) (Admission.limits adm) input h k md body rest ∧
        ¬ (ascending None (MetadataEntry.identifier <$> MetadataRegion.entries md) ∧
           Forall (λ e, MetadataEntry.is_required e = false) (MetadataRegion.entries md))
  | ErrorClass.MalformedRequest | ErrorClass.ProtocolViolation => RawHeader.version h = 0
  | _ => False
  end.
Proof.
  intros Hd. destruct (admit_frame input (Admission.role adm) (Admission.limits adm)) as [a|s] eqn:Ea.
  - apply admit_frame_sound in Ea as (h & k & md & body & rest & Ha & _).
    rw (decode_admitted _ _ _ _ _ _ _ Ha) in Hd.
    destruct (verdict _ _ _ _ _) as [|g] eqn:Ev; [done|]. injection Hd as <- _.
    exists h. split; [by eapply admitted_parse|]. unfold verdict in Ev.
    destruct (check_connection_state _ _ _) eqn:Es.
    2:{ apply check_connection_state_err in Es. simplify_eq. apply Ha. }
    destruct (correlate _ _ _ _) as [cor|] eqn:Ec.
    2:{ apply correlate_err in Ec. destruct Ec as [->|(-> & -> & Hop)]; simplify_eq; [apply Ha|].
        split; [apply Ha | done]. }
    destruct (check_metadata_order md) eqn:Em.
    2:{ pose proof Em as Em'. apply check_metadata_order_loop_err in Em'. simplify_eq.
        exists k, md, body, rest. split; [done|]. intros Hok%check_metadata_order_loop_spec.
        unfold check_metadata_order in Em. by rw Hok in Em. }
    destruct (read_payload cor _ body) eqn:Ep; [done|].
    apply read_payload_err in Ep. simplify_eq. apply Ha.
  - unfold decode in Hd. rw Ea in Hd. subst s. unfold admit_frame in Ea.
    destruct (RawHeader.parse input) as [h|] eqn:Eh; [|done]. exists h. split; [done|].
    apply raw_parse_sound in Eh as (Hfit & _). pose proof (header_sum_fits h Hfit).
    rw total_length_fits in Ea; [apply Hfit..|].
    rw try_from_fits in Ea; [done|]. unfold raw_total.
    repeat case_match; simplify_eq; simpl; breflect; done.
Qed.

(** ** Witnesses

    A response to request 7 with one metadata entry, seen by a client. *)
Definition sample_out : Outgoing.t :=
  Outgoing.mk Kind.Response 0 7 [(1, [x61])] (OutgoingPayload.Opaque_ [x62; x63]).
Definition sample_bytes : list byte :=
  [x00; x02; x00; x00; x00; x00; x05; x00; x02; x00; x00; x00;
   x07; x00; x00; x00; x00; x00; x00; x00; x01; x00; x01; x00; x61; x62; x63].
Definition sample_adm : Admission.t :=
  Admission.mk Role.Client ProtocolState.Negotiated Limits.PRE_NEGOTIATION [7].

Lemma sample_typed : outgoing_typed sample_out.
Proof. repeat split; simpl; try done; try (vm_compute; discriminate). by constructor. Qed.

Lemma sample_decode : decode sample_bytes sample_adm = Step.Frame (frame_of sample_out).
Proof. vm_compute. reflexivity. Qed.

Lemma sample_wf : frame_wf sample_adm (frame_of sample_out).
Proof. apply (decode_frame_sound _ _ _ sample_decode). Qed.

Lemma decode_strict_prefix_witness :
  ∃ n, decode (take 23 sample_bytes) sample_adm = Step.Need n ∧
       len (take 23 sample_bytes) < n ≤ len (frame_bytes (frame_of sample_out)).
Proof.
  apply (decode_strict_prefix sample_adm (frame_of sample_out) _ (drop 23 sample_bytes) sample_wf).
  - vm_compute. reflexivity.
  - discriminate.
Defined.

Lemma decode_retires_witness :
  decode sample_bytes sample_adm = Step.Frame (frame_of sample_out) ∧
  RequestId.value (Frame.retires (frame_of sample_out)) ∈ Admission.in_flight sample_adm.
Proof.
  split; [exact sample_decode|].
  destruct (decode_retires _ _ _ sample_decode) as (_ & H & _); [discriminate | exact H].
Defined.

Lemma encode_outcome_witness :
  encode_with_max sample_out 65536 4096 = Ok sample_bytes ∧
  sample_bytes = frame_bytes (frame_of sample_out).
Proof.
  pose proof (encode_outcome sample_out 65536 4096 sample_typed ltac:(done)) as H.
  assert (encode_with_max sample_out 65536 4096 = Ok sample_bytes) as E by (vm_compute; reflexivity).
  rw E in H. split; [exact E | apply H].
Defined.

Lemma encode_decode_witness :
  decode (sample_bytes ++ [xff]) sample_adm = Step.Frame (frame_of sample_out).
Proof.
  refine (encode_decode sample_out 65536 4096 sample_bytes [xff] sample_adm
            _ sample_typed _ _ _ _ _ _ _ _); try done.
  - by constructor.
  - by intros [? _].
  - split; [done | left].
  - by exists [x62; x63].
Defined.

Lemma decode_encode_witness :
  ∃ bytes rest,
    encode_with_max (outgoing_of (frame_of sample_out)) 65536 4096 = Ok bytes ∧
    sample_bytes = bytes ++ rest.
Proof. apply (decode_encode sample_bytes sample_adm); [done | exact sample_decode]. Defined.

Lemma decode_in_flight_set_witness :
  decode sample_bytes (Admission.mk Role.Client ProtocolState.Negotiated Limits.PRE_NEGOTIATION [7; 9]) =
  decode sample_bytes (Admission.mk Role.Client ProtocolState.Negotiated Limits.PRE_NEGOTIATION [9; 7; 7]).
Proof. apply decode_in_flight_set. intros id. rw !elem_of_cons. tauto. Defined.

(** A version byte of 1. *)
Lemma decode_failure_reason_witness :
  ∃ h, RawHeader.parse (x01 :: drop 1 sample_bytes) = Some h ∧ RawHeader.version h ≠ 0.
Proof.
  apply (decode_failure_reason (x01 :: drop 1 sample_bytes) sample_adm
           Failure.unsupported_protocol_version 27).
  vm_compute. reflexivity.
Defined.
