(* ===== verification/Dispatch.v ===== *)
(** * Request identity

    [RequestIdAllocator] and [InFlightRegistry] of [src/src/connection/dispatch.rs]. The
    registry's [HashSet<u64>] is a [gset Z]; the order in which the hash set iterates is
    unspecified, and the decoder's answer does not depend on it ([decode_proper]). *)

From S2P Require Export FrameTheorems.
Local Open Scope Z_scope.

Module RequestIdAllocator.
Record t := mk { next : Z }.

Definition new : t := mk 1.

Definition with_start (next : Z) : t := mk next.

Definition allocate (a : t) : Z * t :=
  let next := if next a =? 0 then 1 else next a in
  let id := next in
  let advanced := wrapping_add U64_MAX next 1 in
  (id, mk (if advanced =? 0 then 1 else advanced)).
End RequestIdAllocator.

Module RegistryError.
Inductive t := Reserved | LiveReuse.
#[global] Instance eq_dec : EqDecision t.
Proof. solve_decision. Defined.
End RegistryError.

Module InFlightRegistry.
Record t := mk { live : gset Z }.

Definition new : t := mk ∅.

Definition contains (r : t) (id : Z) : bool := bool_decide (id ∈ live r).

Definition insert (r : t) (id : Z) : result unit RegistryError.t * t :=
  if id =? 0 then (Err RegistryError.Reserved, r) else
  if contains r id then (Err RegistryError.LiveReuse, r) else
  (Ok tt, mk ({[id]} ∪ live r)).

Definition retire (r : t) (id : Z) : bool * t :=
  (bool_decide (id ∈ live r), mk (live r ∖ {[id]})).

Definition len (r : t) : Z := Z.of_nat (size (live r)).

Definition is_empty (r : t) : bool := bool_decide (live r = ∅).

Definition live_ids (r : t) : list Z := elements (live r).
End InFlightRegistry.

(** ** The allocator *)

(** [n] successive allocations. *)
Fixpoint allocate_many (n : nat) (a : RequestIdAllocator.t) : list Z :=
  match n with
  | O => []
  | S n =>
      let '(id, a') := RequestIdAllocator.allocate a in
      id :: allocate_many n a'
  end.

(** The reachable allocator states: the next id is a [u64]. *)
Definition allocator_typed (a : RequestIdAllocator.t) : Prop :=
  0 ≤ RequestIdAllocator.next a ≤ U64_MAX.

(** The position of an allocator in the cycle of the nonzero ids. *)
Definition position (a : RequestIdAllocator.t) : Z := Z.max 1 (RequestIdAllocator.next a) - 1.

Lemma allocate_position a :
  allocator_typed a →
  let '(id, a') := RequestIdAllocator.allocate a in
  id = position a + 1 ∧ allocator_typed a' ∧ position a' = (position a + 1) mod U64_MAX ∧
  0 ≤ position a < U64_MAX.
Proof.
  destruct a as [n]. unfold allocator_typed, position, RequestIdAllocator.allocate, wrapping_add.
  simpl. intros Hn. unfold U64_MAX in *.
  assert (∀ m, 1 ≤ m ≤ 18446744073709551615 →
    (m + 1) mod (18446744073709551615 + 1) = if m =? 18446744073709551615 then 0 else m + 1) as Hw.
  { intros m Hm. destruct (Z.eqb_spec m 18446744073709551615) as [->|]; [done|].
    apply Z.mod_small. lia. }
  assert (∀ m, 0 ≤ m < 18446744073709551615 →
    (m + 1) mod 18446744073709551615 = if m + 1 =? 18446744073709551615 then 0 else m + 1) as Hp.
  { intros m Hm. destruct (Z.eqb_spec (m + 1) 18446744073709551615) as [->|]; [done|].
    apply Z.mod_small. lia. }
  destruct (Z.eqb_spec n 0) as [->|Hne]; [done|]. rw Hw; [lia|]. rw Hp; [lia|].
  destruct (Z.eqb_spec n 18446744073709551615) as [->|]; simpl; [lia|].
  destruct (Z.eqb_spec (n + 1) 0); simpl; [lia|].
  destruct (Z.eqb_spec (Z.max 1 n - 1 + 1) 18446744073709551615); lia.
Qed.

(** The [i]-th allocation walks the cycle of the nonzero ids. *)
Lemma allocate_many_lookup n a i id :
  allocator_typed a → allocate_many n a !! i = Some id →
  id = (position a + Z.of_nat i) mod U64_MAX + 1.
Proof.
  revert a i. induction n as [|n IH]; intros a i Ha; [done|]. cbn [allocate_many].
  pose proof (allocate_position a Ha) as Hpos.
  destruct (RequestIdAllocator.allocate a) as [id' a']. destruct Hpos as (-> & Ha' & Hp & Hb).
  destruct i as [|i]; cbn [lookup list_lookup].
  - intros [= <-]. rw Z.add_0_r Z.mod_small; [lia | done].
  - intros Hi. rw (IH a' i Ha' Hi) Hp Zplus_mod_idemp_l. f_equal. f_equal. lia.
Qed.

Lemma length_allocate_many n a : length (allocate_many n a) = n.
Proof.
  revert a. induction n as [|n IH]; intros a; [done|]. cbn [allocate_many].
  destruct (RequestIdAllocator.allocate a). cbn. by rw IH.
Qed.

(** Allocations do not repeat within one turn of the cycle. *)
Lemma allocate_many_distinct n a :
  allocator_typed a → Z.of_nat n ≤ U64_MAX →
  NoDup (allocate_many n a) ∧ Forall (λ id, 1 ≤ id ≤ U64_MAX) (allocate_many n a).
Proof.
  intros Ha Hn. split.
  - apply NoDup_alt. intros i j id Hi Hj.
    pose proof (lookup_lt_Some _ _ _ Hi) as Li. pose proof (lookup_lt_Some _ _ _ Hj) as Lj.
    rw length_allocate_many in Li. rw length_allocate_many in Lj.
    apply (allocate_many_lookup _ _ _ _ Ha) in Hi. apply (allocate_many_lookup _ _ _ _ Ha) in Hj.
    assert ((position a + Z.of_nat i) mod U64_MAX = (position a + Z.of_nat j) mod U64_MAX) as He by lia.
    assert ((Z.of_nat i - Z.of_nat j) mod U64_MAX = 0) as Hz.
    { replace (Z.of_nat i - Z.of_nat j)
        with ((position a + Z.of_nat i) - (position a + Z.of_nat j)) by lia.
      rw Zminus_mod He Z.sub_diag. done. }
    apply Z.mod_divide in Hz as [k Hk]; [|done]. unfold U64_MAX in *. nia.
  - apply Forall_forall. intros id [i Hi]%list_elem_of_lookup.
    apply (allocate_many_lookup _ _ _ _ Ha) in Hi as ->.
    pose proof (Z.mod_pos_bound (position a + Z.of_nat i) U64_MAX ltac:(done)). lia.
Qed.

(** ** The registry as a ledger *)

(** The operations a connection performs on the registry. *)
Inductive registry_op := Insert (id : Z) | Retire (id : Z).

(** Runs an operation and tells whether it took effect. *)
Definition run_op (r : InFlightRegistry.t) (op : registry_op) : bool * InFlightRegistry.t :=
  match op with
  | Insert id => let '(res, r') := InFlightRegistry.insert r id in (negb (is_err res), r')
  | Retire id => InFlightRegistry.retire r id
  end.

(** The net effect of a sequence on [id]: successful inserts minus successful retires. *)
Fixpoint ledger (id : Z) (r : InFlightRegistry.t) (ops : list registry_op) : Z :=
  match ops with
  | [] => 0
  | op :: ops =>
      let '(ok, r') := run_op r op in
      (match op with
       | Insert i => if ok && (i =? id) then 1 else 0
       | Retire i => if ok && (i =? id) then -1 else 0
       end) + ledger id r' ops
  end.

Definition run_ops (r : InFlightRegistry.t) (ops : list registry_op) : InFlightRegistry.t :=
  foldl (λ r op, (run_op r op).2) r ops.

(** One when [id] is live. *)
Definition live_count (id : Z) (r : InFlightRegistry.t) : Z :=
  if InFlightRegistry.contains r id then 1 else 0.

Lemma run_op_count id r op :
  live_count id (run_op r op).2 =
  live_count id r +
  (match op with
   | Insert i => if (run_op r op).1 && (i =? id) then 1 else 0
   | Retire i => if (run_op r op).1 && (i =? id) then -1 else 0
   end).
Proof.
  unfold live_count. destruct op as [i|i]; cbn.
  - unfold InFlightRegistry.insert, InFlightRegistry.contains.
    destruct (Z.eqb_spec i 0); [cbn; lia|]. 
    destruct (bool_decide_reflect (i ∈ InFlightRegistry.live r)) as [Hi|Hi]; [cbn; lia|].
    cbn [fst snd negb is_err andb InFlightRegistry.live].
    destruct (Z.eqb_spec i id) as [->|Hne].
    + rw (bool_decide_eq_false_2 _ Hi) bool_decide_eq_true_2; [set_solver | done].
    + rw (bool_decide_ext (id ∈ {[i]} ∪ InFlightRegistry.live r) (id ∈ InFlightRegistry.live r));
        [set_solver |]. case_bool_decide; lia.
  - unfold InFlightRegistry.contains. cbn. destruct (Z.eqb_spec i id) as [->|Hne].
    + rw (bool_decide_eq_false_2 (id ∈ InFlightRegistry.live r ∖ {[id]})); [set_solver|].
      case_bool_decide; cbn; lia.
    + rw (bool_decide_ext (id ∈ InFlightRegistry.live r ∖ {[i]}) (id ∈ InFlightRegistry.live r));
        [set_solver|]. rw andb_false_r. lia.
Qed.

(** ** Properties *)

(** Request ids are never the reserved 0 and do not repeat before the whole space is used:
    any [n] successive allocations, from any allocator state and across the wrap at the top of
    the 64-bit range, are pairwise distinct nonzero [u64] values as long as [n] is at most the
    number of nonzero ids. *)
Theorem allocate_distinct n a :
  allocator_typed a → Z.of_nat n ≤ U64_MAX →
  NoDup (allocate_many n a) ∧ Forall (λ id, 1 ≤ id ≤ U64_MAX) (allocate_many n a).
Proof.
  apply allocate_many_distinct.
Qed.

Lemma allocate_distinct_witness :
  NoDup (allocate_many 3 (RequestIdAllocator.with_start U64_MAX)) ∧
  allocate_many 3 (RequestIdAllocator.with_start U64_MAX) = [U64_MAX; 1; 2].
Proof.
  split; [|reflexivity].
  apply (allocate_distinct 3 (RequestIdAllocator.with_start U64_MAX)); [split|]; discriminate.
Defined.

(** Each identifier is released exactly once: after any sequence of inserts and retires,
    the successful inserts of an id minus its successful retires say whether it is live, so an
    id is never admitted twice without a release and never released twice. *)
Theorem registry_exactly_once id r ops :
  live_count id (run_ops r ops) = live_count id r + ledger id r ops.
Proof.
  revert r. induction ops as [|op ops IH]; intros r; cbn [run_ops foldl ledger]; [lia|].
  pose proof (run_op_count id r op) as Hc. destruct (run_op r op) as [ok r'] eqn:E. cbn in *.
  unfold run_ops in IH. rw IH Hc. lia.
Qed.
