(* ===== verification/Transport.v ===== *)
(** * The transport boundary

    The [Transport] trait of [src/src/transport/mod.rs], its in-memory and TCP
    implementations and their union, and the two loops over it: [read_chunk] and
    [write_all] of [src/src/connection/driver.rs] ([write_all] of
    [src/src/connection/mod.rs] is the same loop with its errors wrapped). The
    operating system's TCP stream is not part of the repository: it is a type with
    three operations, and what the client relies on is the [LawfulTransport] class. *)

From S2P Require Export Prelude Bytes.
Local Open Scope Z_scope.

(** [std::io::Error], by the kinds the code constructs; [Os] stands for every error the
    operating system reports. *)
Module IoError.
Inductive t :=
| WriteZero
| InvalidData
| BrokenPipe
| ConnectionAborted
| Os (code : Z).
#[global] Instance eq_dec : EqDecision t.
Proof. solve_decision. Defined.
End IoError.

(** The trait: [read] fills a prefix of the buffer and counts it. *)
Class Transport (T : Type) := {
  read : T → list byte → T * result Z IoError.t * list byte;
  write : T → list byte → T * result Z IoError.t;
  shutdown : T → T * result unit IoError.t
}.

(** What a byte stream promises: a read stays inside its buffer, a write takes a prefix of
    the bytes it is given, and [sent] is everything the peer will see. *)
Class LawfulTransport (T : Type) `{Transport T} (sent : T → list byte) : Prop := {
  read_len : ∀ t buf t' n buf', read t buf = (t', Ok n, buf') →
    0 ≤ n ≤ len buf ∧ len buf' = len buf;
  read_sent : ∀ t buf, sent (read t buf).1.1 = sent t;
  write_prefix : ∀ t bytes t' n, write t bytes = (t', Ok n) →
    0 ≤ n ≤ len bytes ∧ sent t' = sent t ++ take (Z.to_nat n) bytes;
  write_error : ∀ t bytes t' e, write t bytes = (t', Err e) → sent t' = sent t
}.

(** ** The in-memory transport *)

Module InMemoryTransport.
Record t := mk {
  inbound : list byte;
  read_step : N;
  written : list byte;
  write_step : N;
  closed : bool;
  fail_shutdown : bool
}.

Definition new (inbound : list byte) (read_step write_step : N) : t :=
  mk inbound read_step [] write_step false false.

Definition fail_on_shutdown (s : t) : t :=
  mk (inbound s) (read_step s) (written s) (write_step s) (closed s) true.

Definition read (s : t) (buffer : list byte) : t * result Z IoError.t * list byte :=
  if closed s then (s, Ok 0, buffer) else
  let available := Z.min (Z.min (len buffer) (Z.of_N (read_step s))) (len (inbound s)) in
  let n := Z.to_nat available in
  (mk (drop n (inbound s)) (read_step s) (written s) (write_step s) (closed s) (fail_shutdown s),
   Ok available, take n (inbound s) ++ drop n buffer).

Definition write (s : t) (bytes : list byte) : t * result Z IoError.t :=
  if closed s then (s, Err IoError.BrokenPipe) else
  let step := Z.max (Z.of_N (write_step s)) 1 in
  let available := Z.min (len bytes) step in
  let part := unwrap_or (slice_get bytes 0 available) [] in
  (mk (inbound s) (read_step s) (written s ++ part) (write_step s) (closed s) (fail_shutdown s),
   Ok (len part)).

Definition shutdown (s : t) : t * result unit IoError.t :=
  (mk (inbound s) (read_step s) (written s) (write_step s) true (fail_shutdown s),
   if fail_shutdown s then Err IoError.BrokenPipe else Ok tt).
End InMemoryTransport.

#[global] Instance in_memory_transport : Transport InMemoryTransport.t := {
  read := InMemoryTransport.read;
  write := InMemoryTransport.write;
  shutdown := InMemoryTransport.shutdown
}.

(** ** The TCP transport and the union *)

Module TokioTransport.
Record t (S : Type) := mk { stream : S }.
Arguments mk {S} stream.
Arguments stream {S} _.
End TokioTransport.

Module AnyTransport.
Inductive t (S : Type) :=
| Tcp (transport : TokioTransport.t S)
| Memory (transport : InMemoryTransport.t).
Arguments Tcp {S} transport.
Arguments Memory {S} transport.
End AnyTransport.

Section any_transport.
Context {S : Type} {tcp_stream : Transport S}.

#[global] Instance tokio_transport : Transport (TokioTransport.t S) := {
  read t buffer :=
    let '(s, r, b) := read (TokioTransport.stream t) buffer in (TokioTransport.mk s, r, b);
  write t bytes :=
    let '(s, r) := write (TokioTransport.stream t) bytes in (TokioTransport.mk s, r);
  shutdown t :=
    let '(s, r) := shutdown (TokioTransport.stream t) in (TokioTransport.mk s, r)
}.

Definition any_read (t : AnyTransport.t S) (buffer : list byte)
    : AnyTransport.t S * result Z IoError.t * list byte :=
  match t with
  | AnyTransport.Tcp t => let '(t, r, b) := read t buffer in (AnyTransport.Tcp t, r, b)
  | AnyTransport.Memory t => let '(t, r, b) := read t buffer in (AnyTransport.Memory t, r, b)
  end.

Definition any_write (t : AnyTransport.t S) (bytes : list byte)
    : AnyTransport.t S * result Z IoError.t :=
  match t with
  | AnyTransport.Tcp t => let '(t, r) := write t bytes in (AnyTransport.Tcp t, r)
  | AnyTransport.Memory t => let '(t, r) := write t bytes in (AnyTransport.Memory t, r)
  end.

Definition any_shutdown (t : AnyTransport.t S) : AnyTransport.t S * result unit IoError.t :=
  match t with
  | AnyTransport.Tcp t => let '(t, r) := shutdown t in (AnyTransport.Tcp t, r)
  | AnyTransport.Memory t => let '(t, r) := shutdown t in (AnyTransport.Memory t, r)
  end.

#[global] Instance any_transport : Transport (AnyTransport.t S) := {
  read := any_read;
  write := any_write;
  shutdown := any_shutdown
}.

End any_transport.

(** ** The loops over a transport *)

(** The most bytes one read may move. *)
Definition READ_CHUNK : Z := 4096.

Section loops.
Context {T : Type} `{Transport T}.

(** [None] at end of stream. *)
Definition read_chunk (transport : T) : T * result (option (list byte)) IoError.t :=
  let chunk := replicate (Z.to_nat READ_CHUNK) x00 in
  let '(transport, outcome, chunk) := read transport chunk in
  match outcome with
  | Err error => (transport, Err error)
  | Ok 0 => (transport, Ok None)
  | Ok read => (transport, Ok (Some (unwrap_or (slice_get chunk 0 read) [])))
  end.

(** [while offset < bytes.len()]; [None] when the fuel runs out. *)
Fixpoint write_all_loop (fuel : nat) (transport : T) (bytes : list byte) (offset : Z)
    : option (T * result unit IoError.t) :=
  if negb (offset <? len bytes) then Some (transport, Ok tt) else
  match fuel with
  | O => None
  | S fuel =>
      let remaining := unwrap_or (slice_from bytes offset) [] in
      let '(transport, outcome) := write transport remaining in
      match outcome with
      | Err error => Some (transport, Err error)
      | Ok written =>
          if written =? 0 then Some (transport, Err IoError.WriteZero) else
          match checked_add USIZE_MAX offset written with
          | None => Some (transport, Err IoError.InvalidData)
          | Some next => write_all_loop fuel transport bytes next
          end
      end
  end.

(** Every round moves at least one byte, so the length of [bytes] is enough fuel. *)
Definition write_all (transport : T) (bytes : list byte) : option (T * result unit IoError.t) :=
  write_all_loop (length bytes) transport bytes 0.

End loops.

(** ** Lemmas *)

Lemma memory_write_prefix s bytes s' n :
  InMemoryTransport.write s bytes = (s', Ok n) →
  0 ≤ n ≤ len bytes ∧
  InMemoryTransport.written s' = InMemoryTransport.written s ++ take (Z.to_nat n) bytes.
Proof.
  unfold InMemoryTransport.write. destruct (InMemoryTransport.closed s); [done|].
  pose proof (len_nonneg bytes). unfold slice_get. zbool. cbn [unwrap_or].
  rw drop_0. intros [= <- <-].
  set (k := Z.min _ _). assert (0 ≤ k ≤ len bytes) as Hk by (unfold k; lia).
  assert (len (take (Z.to_nat (k - 0)) bytes) = k) as ->.
  { unfold len in *. rw length_take. lia. }
  simpl. by rw Z.sub_0_r.
Qed.

#[global] Instance in_memory_lawful :
  LawfulTransport InMemoryTransport.t InMemoryTransport.written.
Proof.
  split.
  - intros s buf s' n buf'. cbn. unfold InMemoryTransport.read.
    pose proof (len_nonneg buf). pose proof (len_nonneg (InMemoryTransport.inbound s)).
    destruct (InMemoryTransport.closed s); [by intros [= <- <- <-]|].
    intros [= <- <- <-]. unfold len in *. rw length_app length_take length_drop. lia.
  - intros s buf. cbn. unfold InMemoryTransport.read. by destruct (InMemoryTransport.closed s).
  - apply memory_write_prefix.
  - intros s bytes s' e. cbn. unfold InMemoryTransport.write.
    destruct (InMemoryTransport.closed s); [by intros [= <- <-] | done].
Qed.

(** What the peer of either transport sees. *)
Definition any_sent {S} (stream_sent : S → list byte) (t : AnyTransport.t S) : list byte :=
  match t with
  | AnyTransport.Tcp t => stream_sent (TokioTransport.stream t)
  | AnyTransport.Memory t => InMemoryTransport.written t
  end.

(** The union is lawful when the operating system's stream is. *)
#[global] Instance any_lawful {S} (stream_sent : S → list byte) `{LawfulTransport S stream_sent} :
  LawfulTransport (AnyTransport.t S) (any_sent stream_sent).
Proof.
  split.
  - intros [[s]|m] buf t' n buf'; cbn.
    + destruct (read s buf) as [[s' r] b] eqn:E. intros [= <- -> <-]. by eapply read_len.
    + destruct (InMemoryTransport.read m buf) as [[s' r] b] eqn:E. intros [= <- -> <-].
      by eapply (read_len (T := InMemoryTransport.t)).
  - intros [[s]|m] buf; cbn.
    + pose proof (read_sent s buf) as E. by destruct (read s buf) as [[s' r] b].
    + pose proof (read_sent m buf) as E. cbn in E.
      by destruct (InMemoryTransport.read m buf) as [[s' r] b].
  - intros [[s]|m] bytes t' n; cbn.
    + destruct (write s bytes) as [s' r] eqn:E. intros [= <- ->]. exact (write_prefix _ _ _ _ E).
    + destruct (InMemoryTransport.write m bytes) as [s' r] eqn:E. intros [= <- ->].
      exact (memory_write_prefix _ _ _ _ E).
  - intros [[s]|m] bytes t' e; cbn.
    + destruct (write s bytes) as [s' r] eqn:E. intros [= <- ->]. exact (write_error _ _ _ _ E).
    + destruct (InMemoryTransport.write m bytes) as [s' r] eqn:E. intros [= <- ->].
      exact (write_error (T := InMemoryTransport.t) _ _ _ _ E).
Qed.

Section write_all.
Context {T : Type} {sent : T → list byte} `{LawfulTransport T sent}.

(** The loop returns, and has sent a prefix of what was left: all of it on success. *)
Lemma write_all_loop_spec fuel t bytes offset :
  0 ≤ offset ≤ len bytes → len bytes ≤ USIZE_MAX → len bytes - offset ≤ Z.of_nat fuel →
  ∃ t' r k, write_all_loop fuel t bytes offset = Some (t', r) ∧
    sent t' = sent t ++ take k (drop (Z.to_nat offset) bytes) ∧
    (r = Ok tt → sent t' = sent t ++ drop (Z.to_nat offset) bytes).
Proof.
  revert t offset. induction fuel as [|fuel IH]; intros t offset Ho Hmax Hf;
    cbn [write_all_loop]; (destruct (offset <? len bytes) eqn:E; breflect; cbn [negb];
      [|exists t, (Ok tt), 0%nat; rw take_0 drop_ge; [unfold len in *; lia|];
        by rw app_nil_r]); [lia|].
  rw (slice_from_at bytes (drop (Z.to_nat offset) bytes)); [done | lia|]. cbn [unwrap_or].
  destruct (write t (drop (Z.to_nat offset) bytes)) as [t1 [n|e]] eqn:Ew.
  2:{ exists t1, (Err e), 0%nat. rw (write_error _ _ _ _ Ew) take_0 app_nil_r. done. }
  destruct (write_prefix _ _ _ _ Ew) as [Hn Hs].
  destruct (Z.eqb_spec n 0) as [->|Hne].
  { exists t1, (Err IoError.WriteZero), 0%nat. by rw Hs. }
  assert (len (drop (Z.to_nat offset) bytes) = len bytes - offset) as Hl.
  { unfold len in *. rw length_drop. lia. }
  rw checked_add_fits; [lia|].
  destruct (IH t1 (offset + n) ltac:(lia) Hmax ltac:(lia)) as (t' & r & k & -> & Hk & Hok).
  exists t', r, (Z.to_nat n + k)%nat.
  assert (drop (Z.to_nat (offset + n)) bytes =
          drop (Z.to_nat n) (drop (Z.to_nat offset) bytes)) as Hd.
  { rw drop_drop. f_equal. lia. }
  split; [done|]. split.
  - rw Hk Hs Hd -app_assoc. f_equal. by rw take_take_drop.
  - intros Hr. by rw (Hok Hr) Hs Hd -app_assoc take_drop.
Qed.

End write_all.

(** ** Properties *)

(** [write_all] terminates and tolerates short writes: on any lawful transport, when it
    succeeds the peer sees exactly the bytes, in order and once; when it fails the peer sees a
    prefix of them. *)
Theorem write_all_complete {T : Type} {sent : T → list byte} `{LawfulTransport T sent}
    (t : T) (bytes : list byte) :
  len bytes ≤ USIZE_MAX →
  ∃ t' r k, write_all t bytes = Some (t', r) ∧
    sent t' = sent t ++ take k bytes ∧ (r = Ok tt → sent t' = sent t ++ bytes).
Proof.
  intros Hmax. pose proof (len_nonneg bytes).
  destruct (write_all_loop_spec (length bytes) t bytes 0) as (t' & r & k & Hw & Hk & Hr);
    [lia | done | unfold len; lia|].
  rw drop_0 in Hk. exists t', r, k. split; [done|]. by rw drop_0 in Hr.
Qed.

(** A transport that takes two bytes at a time. *)
Lemma write_all_complete_witness :
  ∃ t' r k,
    write_all (InMemoryTransport.new [] 1 2) [x61; x62; x63; x64; x65] = Some (t', r) ∧
    InMemoryTransport.written t' = take k [x61; x62; x63; x64; x65] ∧
    (r = Ok tt → InMemoryTransport.written t' = [x61; x62; x63; x64; x65]).
Proof.
  apply (write_all_complete (sent := InMemoryTransport.written)
           (InMemoryTransport.new [] 1 2) [x61; x62; x63; x64; x65]).
  discriminate.
Defined.

(** A chunk never exceeds the read size and end of stream is told apart from data: on any
    lawful transport [read_chunk] returns between one and [READ_CHUNK] bytes, [None], or the
    transport's error, and sends nothing. *)
Theorem read_chunk_bounds {T : Type} {sent : T → list byte} `{LawfulTransport T sent} (t : T) :
  sent (read_chunk t).1 = sent t ∧
  match (read_chunk t).2 with
  | Ok (Some chunk) => 1 ≤ len chunk ≤ READ_CHUNK
  | _ => True
  end.
Proof.
  unfold read_chunk. set (buf := replicate _ _).
  assert (len buf = READ_CHUNK) as Hbuf by (unfold buf, len; by rw length_replicate).
  pose proof (read_sent t buf) as Hs. destruct (read t buf) as [[t' r] b] eqn:E. cbn in Hs.
  destruct r as [n|e]; [|done]. apply read_len in E as [Hn Hb].
  destruct n as [|n|n]; cbn [fst snd]; split; try done.
  unfold slice_get. rw Hb Hbuf. zbool. cbn [unwrap_or]. rw drop_0.
  unfold len in *. rw length_take. unfold READ_CHUNK in *. lia.
Qed.

Lemma read_chunk_bounds_witness :
  InMemoryTransport.written (read_chunk (InMemoryTransport.new [x61; x62] 1 1)).1 = [] ∧
  (read_chunk (InMemoryTransport.new [x61; x62] 1 1)).2 = Ok (Some [x61]).
Proof.
  split; [|vm_compute; reflexivity].
  apply (read_chunk_bounds (sent := InMemoryTransport.written) (InMemoryTransport.new [x61; x62] 1 1)).
Defined.
