(* ===== verification/Driver.v ===== *)
(** * The connection driver

    [src/src/connection/driver.rs]: the task that owns the transport of an established
    session. A oneshot completion channel is identified by a number and sending on it
    appends to a log, so that which caller is answered, with what and how often can be
    stated. Each branch of the [select!] loop is one event; the arrival order of events is
    the environment's. The facts about these definitions are in [DriverFacts]. *)

From S2P Require Export Transport Dispatch.
Local Open Scope Z_scope.

(** The lifecycle state the driver shares with the connection handles
    ([src/src/connection/mod.rs]). *)
Module ConnectionState.
Inductive t := Usable | Closing | Closed | Failed | Unusable.
#[global] Instance eq_dec : EqDecision t.
Proof. solve_decision. Defined.

Definition protocol_state (s : t) : ProtocolState.t :=
  match s with
  | Usable | Closing => ProtocolState.Negotiated
  | Closed | Failed | Unusable => ProtocolState.Terminal
  end.

Definition is_usable (s : t) : bool := match s with Usable => true | _ => false end.
End ConnectionState.

Module DriverError.
Inductive t :=
| RequestFailed (failure : Failure.t)
| ConnectionFatal (failure : Failure.t)
| Transport
| Closed
| Unusable.
#[global] Instance eq_dec : EqDecision t.
Proof. solve_decision. Defined.
End DriverError.

Module DriverExit.
Inductive t := Closed | Failed | Unusable.
#[global] Instance eq_dec : EqDecision t.
Proof. solve_decision. Defined.
End DriverExit.

(** The identity of a [oneshot::Sender]. *)
Definition sender : Type := nat.

(** What was sent on which channel, oldest first. *)
Definition deliveries : Type := list (sender * result (list byte) DriverError.t).

Module Submit.
Record t := mk { id : Z; bytes : list byte; completion : sender }.
End Submit.

(** ** Shared state and waiters *)

(** Marks the session state once; later signals keep the first outcome. *)
Definition mark_state (state next : ConnectionState.t) : ConnectionState.t :=
  match state with
  | ConnectionState.Usable | ConnectionState.Closing => next
  | _ => state
  end.

(** The driver's view of the requests in flight and of the bytes it holds. *)
Module Session.
Record t := mk {
  buffer : list byte;
  completions : gmap Z sender;
  live : InFlightRegistry.t;
  log : deliveries
}.
End Session.

(** The [for id in ids] loop of [fail_all]. *)
Fixpoint fail_loop (ids : list Z) (error : DriverError.t) (s : Session.t) : Session.t :=
  match ids with
  | [] => s
  | id :: ids =>
      let '(completions, log) :=
        match Session.completions s !! id with
        | Some sender =>
            (delete id (Session.completions s), Session.log s ++ [(sender, Err error)])
        | None => (Session.completions s, Session.log s)
        end in
      let live := (InFlightRegistry.retire (Session.live s) id).2 in
      fail_loop ids error (Session.mk (Session.buffer s) completions live log)
  end.

(** Resolves every pending waiter with [error] and releases each id once. *)
Definition fail_all (s : Session.t) (error : DriverError.t) : Session.t :=
  fail_loop (map_to_list (Session.completions s)).*1 error s.

(** ** Dispatch of buffered frames *)

Definition header_request_id (buffer : list byte) : option Z :=
  let? slice := slice_get buffer 12 20 in
  let? array := try_into_array 8 slice in
  Some (from_le_bytes array).

Definition frame_total_len (buffer : list byte) : option Z :=
  if len buffer <? HEADER_LENGTH then None else
  let? b6 := get_at buffer 6 in
  let? b7 := get_at buffer 7 in
  let metadata_length := from_le_bytes [b6; b7] in
  let? b8 := get_at buffer 8 in
  let? b9 := get_at buffer 9 in
  let? b10 := get_at buffer 10 in
  let? b11 := get_at buffer 11 in
  let payload_length := from_le_bytes [b8; b9; b10; b11] in
  let? head := checked_add USIZE_MAX HEADER_LENGTH metadata_length in
  checked_add USIZE_MAX head (unwrap_or (try_from USIZE_MAX payload_length) USIZE_MAX).

(** The admission the driver decodes under. *)
Definition driver_admission (limits : Limits.t) (live : InFlightRegistry.t) : Admission.t :=
  Admission.mk Role.Client ProtocolState.Negotiated limits (InFlightRegistry.live_ids live).

(** How one round of the [drain_frames] loop ends: another round, or [return]. *)
Inductive iteration :=
| Again (s : Session.t)
| Done (s : Session.t) (fatal : option Failure.t).

(** [completions.remove(&id)] with the two arms of the [match] on it. *)
Definition resolve (s : Session.t) (buffer : list byte) (id : Z)
    (outcome : result (list byte) DriverError.t) : iteration :=
  match Session.completions s !! id with
  | Some sender =>
      Again (Session.mk buffer (delete id (Session.completions s))
               (InFlightRegistry.retire (Session.live s) id).2
               (Session.log s ++ [(sender, outcome)]))
  | None =>
      Done (Session.mk buffer (Session.completions s) (Session.live s) (Session.log s))
        (Some Failure.protocol_violation)
  end.

Definition drain_iteration (limits : Limits.t) (s : Session.t) : iteration :=
  let buffer := Session.buffer s in
  match decode buffer (driver_admission limits (Session.live s)) with
  | Step.Need _ => Done s None
  | Step.Frame frame =>
      let retiring := RequestId.value (Header.request_id (Frame.header frame)) in
      match frame_total_len buffer with
      | None => Done s (Some Failure.protocol_violation)
      | Some total =>
          let frame_bytes := unwrap_or (slice_get buffer 0 total) [] in
          let buffer' := drain_front (Z.min total (len buffer)) buffer in
          resolve s buffer' retiring (Ok frame_bytes)
      end
  | Step.Failure failure consumed =>
      if bool_decide (Failure.scope failure = FailureScope.RequestScoped) then
        match header_request_id buffer with
        | None => Done s (Some Failure.protocol_violation)
        | Some id =>
            let total := Z.min consumed (len buffer) in
            let buffer' := drain_front total buffer in
            resolve s buffer' id (Err (DriverError.RequestFailed failure))
        end
      else Done s (Some failure)
  end.

(** The [loop]; every round but the last removes a frame, so the length of the buffer is
    enough fuel. *)
Fixpoint drain_loop (fuel : nat) (limits : Limits.t) (s : Session.t)
    : Session.t * option Failure.t :=
  match drain_iteration limits s with
  | Done s fatal => (s, fatal)
  | Again s' =>
      match fuel with
      | O => (s', None)
      | S fuel => drain_loop fuel limits s'
      end
  end.

Definition drain_frames (limits : Limits.t) (s : Session.t) : Session.t * option Failure.t :=
  drain_loop (length (Session.buffer s)) limits s.

(** ** The driver loop *)

Section driver.
Context {T : Type} `{Transport T}.

(** The local variables of [run_driver] with the state and admission it shares. *)
Record driver := mk_driver {
  transport : T;
  session : Session.t;
  submit_closed : bool;
  state : ConnectionState.t;
  admission_closed : bool
}.

(** The branches of [select!]: a shutdown signal, a submission or the end of the submit
    channel, and a read. *)
Inductive event :=
| ShutdownSignal
| Received (submit : option Submit.t)
| ReadReady.

Definition initial_session : Session.t := Session.mk [] ∅ InFlightRegistry.new [].

(** [spawn]: the driver of an established session. *)
Definition spawn (transport : T) (state : ConnectionState.t) : driver :=
  mk_driver transport initial_session false state false.

(** [fail_all], [mark_state], [admission.close()] and the exit they precede. *)
Definition terminate (d : driver) (t : T) (s : Session.t) (error : DriverError.t)
    (next : ConnectionState.t) : driver :=
  mk_driver t (fail_all s error) (submit_closed d) (mark_state (state d) next) true.

(** The test at the end of the loop's body. *)
Definition settle (d : driver) : driver * option DriverExit.t :=
  if submit_closed d && bool_decide (Session.completions (session d) = ∅)
  then (d, Some DriverExit.Closed) else (d, None).

Definition on_shutdown (d : driver) : driver * option DriverExit.t :=
  let d' := terminate d (transport d) (session d) DriverError.Closed ConnectionState.Closed in
  let '(t, outcome) := shutdown (transport d') in
  match outcome with
  | Ok _ =>
      (mk_driver t (session d') (submit_closed d') (state d') (admission_closed d'),
       Some DriverExit.Closed)
  | Err _ =>
      (mk_driver t (session d') (submit_closed d')
         (mark_state (state d') ConnectionState.Failed) (admission_closed d'),
       Some DriverExit.Failed)
  end.

Definition on_submit (d : driver) (submit : Submit.t) : option (driver * option DriverExit.t) :=
  let s := session d in
  let '(inserted, live) := InFlightRegistry.insert (Session.live s) (Submit.id submit) in
  if is_err inserted then
    let s' := Session.mk (Session.buffer s) (Session.completions s) live
                (Session.log s ++ [(Submit.completion submit, Err DriverError.Unusable)]) in
    Some (terminate d (transport d) s' DriverError.Unusable ConnectionState.Unusable,
          Some DriverExit.Unusable)
  else
    let s' := Session.mk (Session.buffer s)
                (<[Submit.id submit := Submit.completion submit]> (Session.completions s))
                live (Session.log s) in
    let? (t, written) := write_all (transport d) (Submit.bytes submit) in
    if is_err written then
      Some (terminate d t s' DriverError.Transport ConnectionState.Failed,
            Some DriverExit.Failed)
    else Some (settle (mk_driver t s' (submit_closed d) (state d) (admission_closed d))).

Definition on_submit_closed (d : driver) : driver * option DriverExit.t :=
  let d' := mk_driver (transport d) (session d) true (state d) (admission_closed d) in
  if bool_decide (Session.completions (session d') = ∅)
  then (d', Some DriverExit.Closed)
  else settle d'.

Definition on_read (limits : Limits.t) (d : driver) : driver * option DriverExit.t :=
  let '(t, outcome) := read_chunk (transport d) in
  let s := session d in
  match outcome with
  | Err _ | Ok None =>
      let d' := mk_driver t s (submit_closed d) (state d) (admission_closed d) in
      if bool_decide (Session.completions s = ∅) && submit_closed d
      then (d', Some DriverExit.Closed) else
      if bool_decide (Session.completions s = ∅) then (d', None) else
      (terminate d t s DriverError.Transport ConnectionState.Failed, Some DriverExit.Failed)
  | Ok (Some chunk) =>
      let s := Session.mk (Session.buffer s ++ chunk) (Session.completions s)
                 (Session.live s) (Session.log s) in
      let '(s, fatal) := drain_frames limits s in
      match fatal with
      | Some failure =>
          (terminate d t s (DriverError.ConnectionFatal failure) ConnectionState.Unusable,
           Some DriverExit.Unusable)
      | None =>
          let d' := mk_driver t s (submit_closed d) (state d) (admission_closed d) in
          if submit_closed d && bool_decide (Session.completions s = ∅)
          then (d', Some DriverExit.Closed)
          else settle d'
      end
  end.

(** One turn of the loop; [None] when the branch is disabled. *)
Definition driver_step (limits : Limits.t) (d : driver) (ev : event)
    : option (driver * option DriverExit.t) :=
  match ev with
  | ShutdownSignal => Some (on_shutdown d)
  | Received submit =>
      if submit_closed d then None else
      match submit with
      | Some submit => on_submit d submit
      | None => Some (on_submit_closed d)
      end
  | ReadReady => Some (on_read limits d)
  end.

(** The loop on a sequence of events: the driver it leaves, how it exited when it did, and the
    events it did not take. *)
Fixpoint run_driver (limits : Limits.t) (d : driver) (evs : list event)
    : option (driver * option DriverExit.t * list event) :=
  match evs with
  | [] => Some (d, None, [])
  | ev :: evs =>
      let? (d', exit) := driver_step limits d ev in
      match exit with
      | Some exit => Some (d', Some exit, evs)
      | None => run_driver limits d' evs
      end
  end.

End driver.

Arguments driver : clear implicits.
