(* ===== verification/DriverFacts.v ===== *)
(** * Driver: lemmas and theorems

    What [drain_frames] does in terms of the reference description of frames, the
    invariant of the driver, conservation of completion channels, independence from how
    the byte stream is chunked, and the memory bound of the receive buffer. *)

From S2P Require Export Driver.
Local Open Scope Z_scope.

(** ** Waiters *)

(** The channels still waiting. *)
Definition pending (s : Session.t) : list sender := (map_to_list (Session.completions s)).*2.

(** The channels answered so far. *)
Definition resolved (s : Session.t) : list sender := (Session.log s).*1.

(** Each live id has exactly one waiter, and 0 is never live. *)
Definition session_inv (s : Session.t) : Prop :=
  dom (Session.completions s) = InFlightRegistry.live (Session.live s) ∧
  0 ∉ InFlightRegistry.live (Session.live s).

Lemma fail_loop_spec m error s :
  Session.completions s = m → session_inv s → ∀ ids, NoDup ids →
  (∀ id, id ∈ ids ↔ id ∈ dom m) →
  Session.buffer (fail_loop ids error s) = Session.buffer s ∧
  Session.completions (fail_loop ids error s) = ∅ ∧
  InFlightRegistry.live (Session.live (fail_loop ids error s)) = ∅ ∧
  Session.log (fail_loop ids error s) =
    Session.log s ++ omap (λ id, (λ c, (c, Err error)) <$> m !! id) ids.
Proof.
  intros Hm [Hdom Hz] ids. revert m s Hm Hdom Hz.
  induction ids as [|id ids IH]; intros m s Hm Hdom Hz Hnd Hids.
  - assert (dom m = ∅) as He by set_solver. cbn. rw app_nil_r. repeat split; [| by rw -Hdom Hm].
    rw Hm. by apply dom_empty_inv_L.
  - apply NoDup_cons in Hnd as [Hni Hnd].
    assert (id ∈ dom m) as [c Hc]%elem_of_dom by (apply Hids; left).
    cbn [fail_loop omap list_omap]. rw Hm Hc.
    set (s' := Session.mk _ _ _ _).
    destruct (IH (delete id m) s') as (-> & -> & -> & ->); try done; cbn.
    + rw dom_delete_L -Hm Hdom. done.
    + set_solver.
    + intros j. rw dom_delete_L elem_of_difference -Hids elem_of_cons not_elem_of_singleton.
      set_solver.
    + repeat split. rw -app_assoc. f_equal. cbn. f_equal.
      clear - Hni. induction ids as [|j ids IH]; [done|]. cbn.
      rw lookup_delete_ne; [set_solver|]. rw IH; [set_solver | done].
Qed.

Lemma omap_lookup_keys {B} (f : sender → B) (m : gmap Z sender) l :
  (∀ p, p ∈ l → m !! p.1 = Some p.2) → omap (λ id, f <$> m !! id) l.*1 = f ∘ snd <$> l.
Proof.
  induction l as [|p l IH]; intros Hl; [done|]. cbn.
  rw (Hl p ltac:(left)). cbn. f_equal. apply IH. intros q Hq. apply Hl. by right.
Qed.

(** Every waiter is answered with the error and none is left. *)
Lemma fail_all_spec s error :
  session_inv s →
  Session.buffer (fail_all s error) = Session.buffer s ∧
  Session.completions (fail_all s error) = ∅ ∧
  InFlightRegistry.live (Session.live (fail_all s error)) = ∅ ∧
  Session.log (fail_all s error) =
    Session.log s ++ ((λ c, (c, Err error)) <$> pending s).
Proof.
  intros Hinv. unfold fail_all, pending.
  destruct (fail_loop_spec _ error s eq_refl Hinv (map_to_list (Session.completions s)).*1)
    as (? & ? & ? & Hlog).
  - apply NoDup_fst_map_to_list.
  - intros id. rw elem_of_dom list_elem_of_fmap. split.
    + intros ([i c] & -> & Hc%elem_of_map_to_list). by exists c.
    + intros [c Hc]. exists (id, c). split; [done|]. by apply elem_of_map_to_list.
  - repeat split; [done..|]. rw Hlog. f_equal. rw omap_lookup_keys.
    + by intros [i c] Hc%elem_of_map_to_list.
    + by rw list_fmap_compose.
Qed.

Lemma fail_all_resolved s error :
  session_inv s → pending (fail_all s error) = [] ∧
  resolved (fail_all s error) = resolved s ++ pending s.
Proof.
  intros (_ & Hc & _ & Hl)%(fail_all_spec s error). unfold pending at 1, resolved.
  rw Hc map_to_list_empty Hl fmap_app. split; [done|]. f_equal.
  rw -list_fmap_compose. by rw list_fmap_id.
Qed.

Lemma fail_all_inv s error : session_inv s → session_inv (fail_all s error).
Proof.
  intros (_ & Hc & Hlv & _)%(fail_all_spec s error). unfold session_inv.
  rw Hc Hlv dom_empty_L. set_solver.
Qed.

(** ** The header readers of the driver agree with the decoder *)

Lemma header_request_id_parse buffer h :
  RawHeader.parse buffer = Some h → header_request_id buffer = Some (RawHeader.request_id h).
Proof.
  intros (Hfit & rest & ->)%raw_parse_sound. unfold header_request_id.
  destruct Hfit as (_ & _ & _ & _ & _ & _ & ?). pose proof (len_nonneg rest).
  assert (len (header_bytes h ++ rest) = 20 + len rest) as Hlen.
  { rw len_app len_header_bytes. done. }
  unfold header_bytes in *. rw -!app_assoc in Hlen. rw -!app_assoc.
  rw (slice_get_at _ (to_le_bytes 8 (RawHeader.request_id h))); [fields_refl | lia|].
  unfold try_into_array. rw len_to_le_bytes. change (Z.of_nat 8 =? 8) with true. cbv iota beta.
  unfold U64_MAX in *. by rw from_to_le_bytes; [simpl; lia|].
Qed.

Lemma frame_total_len_parse buffer h :
  RawHeader.parse buffer = Some h → frame_total_len buffer = Some (raw_total h).
Proof.
  intros (Hfit & rest & ->)%raw_parse_sound. unfold frame_total_len.
  pose proof (header_sum_fits h Hfit). destruct Hfit as (_ & _ & _ & _ & Bm & Bp & _).
  pose proof (len_nonneg rest).
  assert (len (header_bytes h ++ rest) = 20 + len rest) as Hlen.
  { rw len_app len_header_bytes. done. }
  rw Hlen. unfold HEADER_LENGTH at 1. zbool. unfold header_bytes. rw -!app_assoc.
  assert (∀ v, ∃ a b, to_le_bytes 2 v = [a; b]) as H2.
  { intros v. by eexists _, _; fields_refl. }
  assert (∀ v, ∃ a b c d, to_le_bytes 4 v = [a; b; c; d]) as H4.
  { intros v. by eexists _, _, _, _; fields_refl. }
  unfold U16_MAX, U32_MAX in *.
  destruct (H2 (RawHeader.metadata_length h)) as (m0 & m1 & Em).
  destruct (H4 (RawHeader.payload_length h)) as (p0 & p1 & p2 & p3 & Ep).
  rw Em Ep. unfold get_at.
  assert (from_le_bytes [m0; m1] = RawHeader.metadata_length h) as Fm.
  { rw -Em from_to_le_bytes; [simpl; lia | done]. }
  assert (from_le_bytes [p0; p1; p2; p3] = RawHeader.payload_length h) as Fp.
  { rw -Ep from_to_le_bytes; [simpl; lia | done]. }
  transitivity (let? head := checked_add USIZE_MAX HEADER_LENGTH (from_le_bytes [m0; m1]) in
    checked_add USIZE_MAX head
      (unwrap_or (try_from USIZE_MAX (from_le_bytes [p0; p1; p2; p3])) USIZE_MAX));
    [fields_refl|].
  unfold raw_total, HEADER_LENGTH in *.
  rw Fm Fp checked_add_fits; [lia|]. rw try_from_fits; [lia|]. cbn [unwrap_or].
  by rw checked_add_fits; [lia|].
Qed.

(** ** One round of the drain loop *)

(** The session with more bytes buffered. *)
Definition extend (s : Session.t) (more : list byte) : Session.t :=
  Session.mk (Session.buffer s ++ more) (Session.completions s) (Session.live s) (Session.log s).

Lemma decode_frame_parse input adm f :
  decode input adm = Step.Frame f → RawHeader.parse input = Some (raw_of (Frame.header f)).
Proof.
  intros (Hwf & rest & ->)%decode_frame_sound. unfold frame_bytes. rw -app_assoc.
  apply raw_parse_complete, Hwf.
Qed.

Lemma frame_raw_total adm f : frame_wf adm f → raw_total (raw_of (Frame.header f)) = len (frame_bytes f).
Proof.
  intros []. unfold raw_total, frame_bytes. rw len_app len_header_bytes len_app. simpl. lia.
Qed.

(** A complete frame is taken off the buffer and handed over whole. *)
Lemma drain_iteration_frame limits s f rest :
  frame_wf (driver_admission limits (Session.live s)) f →
  Session.buffer s = frame_bytes f ++ rest →
  drain_iteration limits s =
    resolve s rest (RequestId.value (Header.request_id (Frame.header f))) (Ok (frame_bytes f)).
Proof.
  intros Hwf Hb. unfold drain_iteration. rw Hb.
  pose proof (decode_frame_complete _ f rest Hwf) as Hd. rw Hd.
  rw (frame_total_len_parse _ _ (decode_frame_parse _ _ _ Hd)) (frame_raw_total _ _ Hwf).
  pose proof (len_nonneg rest). pose proof (len_nonneg (frame_bytes f)).
  rw (slice_get_mid [] (frame_bytes f) rest); [done | done|]. cbn [unwrap_or].
  f_equal. apply drain_front_app. unfold len in *. rw length_app. lia.
Qed.

(** A refused frame is taken off the buffer and its request fails alone. *)
Lemma drain_iteration_refused limits s g c :
  decode (Session.buffer s) (driver_admission limits (Session.live s)) = Step.Failure g c →
  Failure.scope g = FailureScope.RequestScoped →
  ∃ h, RawHeader.parse (Session.buffer s) = Some h ∧
    HEADER_LENGTH ≤ raw_total h ≤ len (Session.buffer s) ∧ c = raw_total h ∧
    drain_iteration limits s =
      resolve s (drop (Z.to_nat (raw_total h)) (Session.buffer s)) (RawHeader.request_id h)
        (Err (DriverError.RequestFailed g)).
Proof.
  intros Hd Hs. pose proof (decode_extent (Session.buffer s)
    (driver_admission limits (Session.live s))) as He. rw Hd Hs in He.
  destruct He as (_ & h & Hh & -> & ? & _). exists h. repeat split; [done | lia | lia | ].
  unfold drain_iteration. rw Hd Hs (header_request_id_parse _ _ Hh). cbn.
  by rw Z.min_l; [lia|].
Qed.

(** The three ways a round goes. *)
Lemma drain_iteration_cases limits s :
  (drain_iteration limits s = Done s None ∧
     ∃ n, decode (Session.buffer s) (driver_admission limits (Session.live s)) = Step.Need n) ∨
  (∃ front rest id out,
     Session.buffer s = front ++ rest ∧ HEADER_LENGTH ≤ len front ∧
     drain_iteration limits s = resolve s rest id out) ∨
  (∃ g, drain_iteration limits s = Done s (Some g)).
Proof.
  destruct (decode (Session.buffer s) (driver_admission limits (Session.live s))) as [n|f|g c] eqn:Hd.
  - left. unfold drain_iteration. rw Hd. eauto.
  - right; left. pose proof Hd as (Hwf & rest & Hb)%decode_frame_sound.
    eexists _, rest, _, _. split; [done|]. split; [auto with rp1|].
    by apply drain_iteration_frame.
  - right. destruct (Failure.scope g) eqn:Hs.
    + left. destruct (drain_iteration_refused limits s g c Hd Hs) as (h & _ & ? & _ & ->).
      eexists (take (Z.to_nat (raw_total h)) (Session.buffer s)),
        (drop (Z.to_nat (raw_total h)) (Session.buffer s)), _, _.
      split; [by rw take_drop|]. split; [|done].
      unfold len in *. rw length_take. lia.
    + right. exists g. unfold drain_iteration. by rw Hd Hs.
Qed.

(** More bytes do not change a round that did something. *)
Lemma drain_iteration_extend limits s more :
  match drain_iteration limits s with
  | Again s' => drain_iteration limits (extend s more) = Again (extend s' more)
  | Done s' (Some g) => drain_iteration limits (extend s more) = Done (extend s' more) (Some g)
  | Done s' None => s' = s
  end.
Proof.
  pose proof (decode_app (Session.buffer s) more (driver_admission limits (Session.live s))) as Hst.
  destruct (decode (Session.buffer s) _) as [n|f|g c] eqn:Hd; simpl in Hst.
  - unfold drain_iteration. by rw Hd.
  - pose proof Hd as (Hwf & rest & Hb)%decode_frame_sound.
    rw (drain_iteration_frame _ _ f rest Hwf Hb).
    rw (drain_iteration_frame limits (extend s more) f (rest ++ more) Hwf);
      [by simpl; rw Hb app_assoc|].
    unfold resolve. simpl. by destruct (Session.completions s !! _).
  - destruct (Failure.scope g) eqn:Hs.
    + destruct (drain_iteration_refused limits s g c Hd Hs) as (h & Hh & ? & Hc & ->).
      destruct (drain_iteration_refused limits (extend s more) g c) as (h' & Hh' & ? & _ & ->);
        [done..|].
      apply (raw_parse_app _ more) in Hh. simpl in *. rw Hh in Hh'. injection Hh' as <-.
      rw drop_app_le; [unfold len in *; lia|].
      unfold resolve. simpl. by destruct (Session.completions s !! _).
    + destruct Hst as [_ Hst]. unfold drain_iteration. simpl. by rw Hd Hst Hs.
Qed.

(** ** The loop *)

Lemma resolve_again s rest id out s' :
  resolve s rest id out = Again s' →
  Session.buffer s' = rest ∧ (session_inv s → session_inv s') ∧
  resolved s' ++ pending s' ≡ₚ resolved s ++ pending s.
Proof.
  unfold resolve. destruct (Session.completions s !! id) as [c|] eqn:Ec; [|done].
  intros [= <-]. split; [done|]. split.
  - intros [Hdom Hz]. unfold session_inv. simpl. rw dom_delete_L Hdom. set_solver.
  - unfold resolved, pending. simpl. rw fmap_app -app_assoc.
    rw -(map_to_list_delete _ _ _ Ec). done.
Qed.

Lemma resolve_done s rest id out s' g :
  resolve s rest id out = Done s' g →
  g = Some Failure.protocol_violation ∧
  s' = Session.mk rest (Session.completions s) (Session.live s) (Session.log s).
Proof. unfold resolve. destruct (Session.completions s !! id); [done|]. by intros [= <- <-]. Qed.

(** Every round that goes on removes at least a header. *)
Lemma drain_iteration_shrinks limits s s' :
  drain_iteration limits s = Again s' →
  (length (Session.buffer s') < length (Session.buffer s))%nat.
Proof.
  intros H. destruct (drain_iteration_cases limits s)
    as [[E _]|[(front & rest & id & out & Hb & Hl & E)|[g E]]]; rw E in H; try done.
  apply resolve_again in H as [-> _]. rw Hb length_app. unfold HEADER_LENGTH, len in Hl. lia.
Qed.

Lemma drain_loop_fuel limits n m s :
  (length (Session.buffer s) ≤ n)%nat → (length (Session.buffer s) ≤ m)%nat →
  drain_loop n limits s = drain_loop m limits s.
Proof.
  revert m s. induction n as [|n IH]; intros m s Hn Hm.
  - destruct m; cbn; destruct (drain_iteration limits s) eqn:E; try done.
    apply drain_iteration_shrinks in E. lia.
  - cbn. destruct m as [|m]; cbn; destruct (drain_iteration limits s) as [s'|] eqn:E; try done;
      apply drain_iteration_shrinks in E; [lia|]. apply IH; lia.
Qed.

(** The loop without fuel. *)
Lemma drain_frames_unfold limits s :
  drain_frames limits s =
    match drain_iteration limits s with
    | Done s' fatal => (s', fatal)
    | Again s' => drain_frames limits s'
    end.
Proof.
  unfold drain_frames at 1. destruct (length (Session.buffer s)) as [|n] eqn:El; cbn;
    destruct (drain_iteration limits s) as [s'|] eqn:E; try done;
    apply drain_iteration_shrinks in E; [lia|]. apply drain_loop_fuel; lia.
Qed.

(** Induction along the rounds of the loop. *)
Lemma drain_frames_ind limits (P : Session.t → Session.t → option Failure.t → Prop) :
  (∀ s s' fatal, drain_iteration limits s = Done s' fatal → P s s' fatal) →
  (∀ s s1 s' fatal, drain_iteration limits s = Again s1 → P s1 s' fatal → P s s' fatal) →
  ∀ s, P s (drain_frames limits s).1 (drain_frames limits s).2.
Proof.
  intros Hdone Hagain s. remember (length (Session.buffer s)) as n eqn:En. revert s En.
  induction n as [n IH] using lt_wf_ind. intros s ->. rw drain_frames_unfold.
  destruct (drain_iteration limits s) as [s1|s' fatal] eqn:E; [|by apply Hdone].
  eapply Hagain; [done|]. eapply IH; [|done]. by eapply drain_iteration_shrinks.
Qed.

#[export] Hint Resolve fail_all_inv : rp1.
