(* ===== verification/DriverTheorems.v ===== *)
(** * Driver: theorems

    Dispatch in any arrival order, independence from chunking, exactly-once resolution of
    the waiters over whole runs, the memory bound, and what each exit leaves behind. *)

From S2P Require Export DriverFacts.
Local Open Scope Z_scope.

(** ** Lemmas on the drain loop *)

(** The buffer holds no complete frame. *)
Definition idle (limits : Limits.t) (s : Session.t) : Prop :=
  ∃ n, decode (Session.buffer s) (driver_admission limits (Session.live s)) = Step.Need n.

Lemma drain_frames_facts limits s :
  let '(s', fatal) := drain_frames limits s in
  (session_inv s → session_inv s') ∧
  resolved s' ++ pending s' ≡ₚ resolved s ++ pending s ∧
  (fatal = None → idle limits s').
Proof.
  destruct (drain_frames limits s) as [s' fatal] eqn:E.
  replace s' with (drain_frames limits s).1 by by rw E.
  replace fatal with (drain_frames limits s).2 by by rw E.
  apply (drain_frames_ind limits (λ s s' fatal, (session_inv s → session_inv s') ∧
    resolved s' ++ pending s' ≡ₚ resolved s ++ pending s ∧ (fatal = None → idle limits s'))).
  - clear. intros s s' fatal E. destruct (drain_iteration_cases limits s)
      as [(E' & Hn)|[(front & rest & id & out & _ & _ & E')|[g E']]]; rw E' in E.
    + by injection E as <- <-.
    + apply resolve_done in E as [-> ->]. done.
    + by injection E as <- <-.
  - clear. intros s s1 s' fatal E (Hi & Hp & Hf). destruct (drain_iteration_cases limits s)
      as [(E' & _)|[(front & rest & id & out & _ & _ & E')|[g E']]]; rw E' in E; try done.
    apply resolve_again in E as (_ & Hi' & Hp'). split; [auto|]. split; [by rw Hp Hp' | done].
Qed.

Lemma drain_frames_extend limits s more :
  drain_frames limits (extend s more) =
    match drain_frames limits s with
    | (s', Some g) => (extend s' more, Some g)
    | (s', None) => drain_frames limits (extend s' more)
    end.
Proof.
  destruct (drain_frames limits s) as [s' fatal] eqn:E.
  replace s' with (drain_frames limits s).1 by by rw E.
  replace fatal with (drain_frames limits s).2 by by rw E.
  apply (drain_frames_ind limits (λ s s' fatal, drain_frames limits (extend s more) =
    match fatal with
    | Some g => (extend s' more, Some g)
    | None => drain_frames limits (extend s' more)
    end)).
  - clear. intros s s' fatal E. pose proof (drain_iteration_extend limits s more) as Hx.
    rw E in Hx. destruct fatal as [g|]; [|by subst]. by rw drain_frames_unfold Hx.
  - clear. intros s s1 s' fatal E Hrest. pose proof (drain_iteration_extend limits s more) as Hx.
    rw E in Hx. by rw drain_frames_unfold Hx.
Qed.

Lemma drain_idle limits s : idle limits s → drain_frames limits s = (s, None).
Proof.
  intros [n Hn]. rw drain_frames_unfold. unfold drain_iteration. by rw Hn.
Qed.

Lemma extend_app s a b : extend (extend s a) b = extend s (a ++ b).
Proof. unfold extend. simpl. by rw app_assoc. Qed.

Lemma extend_nil s : extend s [] = s.
Proof. unfold extend. rw app_nil_r. by destruct s. Qed.

(** The chunks of the stream as [on_read] handles them, one after the other. *)
Fixpoint feed (limits : Limits.t) (s : Session.t) (chunks : list (list byte))
    : Session.t * option Failure.t :=
  match chunks with
  | [] => (s, None)
  | chunk :: chunks =>
      let '(s', fatal) := drain_frames limits (extend s chunk) in
      match fatal with
      | Some g => (s', Some g)
      | None => feed limits s' chunks
      end
  end.

(** The same observable outcome: everything but the bytes a fatal failure leaves unread. *)
Definition same_outcome (a b : Session.t * option Failure.t) : Prop :=
  a.2 = b.2 ∧ Session.completions a.1 = Session.completions b.1 ∧
  Session.live a.1 = Session.live b.1 ∧ Session.log a.1 = Session.log b.1 ∧
  (a.2 = None → a.1 = b.1).

#[global] Instance same_outcome_equivalence : Equivalence same_outcome.
Proof.
  unfold same_outcome. split.
  - done.
  - intros a b (? & ? & ? & ? & H). repeat split; try done. intros E. symmetry. apply H. congruence.
  - intros a b c (? & ? & ? & ? & H) (? & ? & ? & ? & K).
    repeat split; try congruence. intros E. rw H; [done|]. apply K. congruence.
Qed.

Lemma feed_drain limits chunks s :
  idle limits s → same_outcome (feed limits s chunks) (drain_frames limits (extend s (concat chunks))).
Proof.
  revert s. induction chunks as [|c cs IH]; intros s Hs; cbn [feed concat].
  - by rw extend_nil drain_idle.
  - rw -extend_app (drain_frames_extend limits (extend s c)).
    pose proof (drain_frames_facts limits (extend s c)) as Hf.
    destruct (drain_frames limits (extend s c)) as [s1 [g|]]; [by repeat split|].
    apply IH. by apply Hf.
Qed.

(** ** Lemmas on terminal frames *)

(** Which request a frame names. *)
Definition names (f : Frame.t) : Z := RequestId.value (Header.request_id (Frame.header f)).

(** A frame stays acceptable while the request it names stays live. *)
Lemma frame_wf_live limits l l' f :
  frame_wf (driver_admission limits l) f → names f ∈ InFlightRegistry.live l' →
  frame_wf (driver_admission limits l') f.
Proof.
  intros [] Hin. split; try done. simpl in *. unfold identity_ok in *.
  assert (names f ∈ InFlightRegistry.live_ids l') as Hin'.
  { unfold InFlightRegistry.live_ids. by apply elem_of_elements. }
  destruct (Header.kind (Frame.header f)); [done | |].
  - split; [apply wf_identity | done].
  - intros c Hc Hs. split; [by eapply wf_identity | done].
Qed.

Lemma idle_empty limits s : Session.buffer s = [] → idle limits s.
Proof. intros Hb. exists HEADER_LENGTH. by rw Hb. Qed.

#[export] Hint Resolve drain_idle idle_empty : rp1.

(** A terminal frame for a waiting request. *)
Definition answers_waiter (limits : Limits.t) (s : Session.t) (f : Frame.t) : Prop :=
  frame_wf (driver_admission limits (Session.live s)) f ∧
  is_Some (Session.completions s !! names f).

Lemma answers_waiter_later limits s rest f g c :
  session_inv s → names f ≠ names g → answers_waiter limits s g →
  answers_waiter limits
    (Session.mk rest (delete (names f) (Session.completions s))
       (InFlightRegistry.retire (Session.live s) (names f)).2
       (Session.log s ++ [c])) g.
Proof.
  intros [Hdom _] Hne [Hwf [c' Hc']]. unfold answers_waiter. simpl. split.
  - eapply frame_wf_live; [done|]. simpl.
    assert (names g ∈ dom (Session.completions s)) by by apply elem_of_dom_2 in Hc'.
    rw -Hdom. set_solver.
  - exists c'. by rw lookup_delete_ne.
Qed.

(** Frames for distinct waiting requests are handed over in arrival order. *)
Lemma drain_answers limits fs s :
  session_inv s → Session.buffer s = concat (frame_bytes <$> fs) → NoDup (names <$> fs) →
  Forall (answers_waiter limits s) fs →
  ∃ s' out, drain_frames limits s = (s', None) ∧ Session.buffer s' = [] ∧
    Session.log s' = Session.log s ++ out ∧
    Forall2 (λ f e, Session.completions s !! names f = Some e.1 ∧ e.2 = Ok (frame_bytes f)) fs out ∧
    (∀ id, id ∉ names <$> fs → Session.completions s' !! id = Session.completions s !! id) ∧
    (∀ id, id ∈ names <$> fs → Session.completions s' !! id = None).
Proof.
  revert s. induction fs as [|f fs IH]; intros s Hinv Hb Hnd Hall.
  - exists s, []. rw app_nil_r. split; [auto with rp1|]. cbn in Hb.
    repeat split; [done | constructor | ]. by intros id ?%elem_of_nil.
  - apply Forall_cons in Hall as [[Hwf [c Hc]] Hall]. cbn in Hb, Hnd.
    apply NoDup_cons in Hnd as [Hni Hnd].
    rw drain_frames_unfold (drain_iteration_frame limits s f _ Hwf Hb).
    assert (resolve s (concat (frame_bytes <$> fs)) (names f) (Ok (frame_bytes f)) =
            Again (Session.mk (concat (frame_bytes <$> fs)) (delete (names f) (Session.completions s))
               (InFlightRegistry.retire (Session.live s) (names f)).2
               (Session.log s ++ [(c, Ok (frame_bytes f))]))) as Hr.
    { unfold resolve. by rw Hc. }
    fold (names f). rw Hr. apply resolve_again in Hr as (_ & Hinv' & _).
    set (s1 := Session.mk _ _ _ _) in *.
    destruct (IH s1) as (s' & out & -> & Hb' & Hlog & Hout & Hkeep & Hgone); [auto | done | done | |].
    { rw Forall_forall in Hall. apply Forall_forall. intros g Hg.
      apply answers_waiter_later; [done | | by apply Hall].
      intros He. apply Hni. rw He. by apply list_elem_of_fmap_2. }
    exists s', ((c, Ok (frame_bytes f)) :: out). cbn in Hlog. rw -app_assoc in Hlog.
    repeat split; try done.
    + constructor; [done|]. eapply Forall2_impl_elem; [exact Hout|].
      intros g e Hg. cbn. intros [Hl He]. split; [|done].
      rw lookup_delete_ne in Hl; [|done]. intros E. apply Hni. rw E. by apply list_elem_of_fmap_2.
    + intros id Hid. apply not_elem_of_cons in Hid as [Hne Hid]. rw Hkeep; [done|]. cbn.
      by rw lookup_delete_ne.
    + intros id Hid. destruct (decide (id ∈ names <$> fs)) as [Hin|Hout']; [by apply Hgone|].
      rw Hkeep; [done|]. cbn. apply elem_of_cons in Hid as [->|?]; [|done].
      by rw lookup_delete_eq.
Qed.

(** ** Lemmas on the driver *)

Section driver_facts.
Context {T : Type} {sent : T → list byte} `{LawfulTransport T sent}.
Implicit Types (d : driver T).

(** The invariant of a running driver. *)
Definition driver_inv (limits : Limits.t) (d : driver T) : Prop :=
  session_inv (session d) ∧ idle limits (session d).

(** The channels of a driver, answered and waiting. *)
Definition channels (d : driver T) : list sender :=
  resolved (session d) ++ pending (session d).

(** The channel an event brings in. *)
Definition arrivals (ev : event) : list sender :=
  match ev with Received (Some submit) => [Submit.completion submit] | _ => [] end.

(** The bytes of a submission fit in memory. *)
Definition event_typed (ev : event) : Prop :=
  match ev with Received (Some submit) => len (Submit.bytes submit) ≤ USIZE_MAX | _ => True end.

(** The result of a turn: the invariant survives a turn that goes on; a turn that exits leaves
    no waiter; no channel is lost, duplicated or invented. *)
Definition turn_ok (limits : Limits.t) (d : driver T) (arrived : list sender)
    (r : driver T * option DriverExit.t) : Prop :=
  channels r.1 ≡ₚ channels d ++ arrived ∧ session_inv (session r.1) ∧
  match r.2 with
  | None => driver_inv limits r.1
  | Some _ => pending (session r.1) = []
  end.

Lemma settle_ok limits d d0 arrived :
  driver_inv limits d → channels d ≡ₚ channels d0 ++ arrived → turn_ok limits d0 arrived (settle d).
Proof.
  intros Hinv Hc. unfold settle. destruct (submit_closed d); simpl.
  - case_bool_decide as He; simpl; (split; [done|]; split; [apply Hinv|]); [|done].
    simpl. unfold pending. by rw He map_to_list_empty.
  - split; [done|]. split; [apply Hinv | done].
Qed.

Lemma exit_closed_ok limits d d0 arrived :
  session_inv (session d) → Session.completions (session d) = ∅ →
  channels d ≡ₚ channels d0 ++ arrived → turn_ok limits d0 arrived (d, Some DriverExit.Closed).
Proof.
  intros Hi He Hc. split; [done|]. split; [done|]. simpl. unfold pending. by rw He map_to_list_empty.
Qed.

Lemma terminate_ok limits d t s error next exit arrived :
  session_inv s → resolved s ++ pending s ≡ₚ channels d ++ arrived →
  turn_ok limits d arrived (terminate d t s error next, Some exit).
Proof.
  intros Hs Hc. destruct (fail_all_resolved s error Hs) as [Hp Hr]. split; [|split].
  - unfold channels. simpl. by rw Hp Hr app_nil_r.
  - simpl. auto with rp1.
  - done.
Qed.

(** A [Need] does not depend on which requests are in flight. *)
Lemma need_in_flight input role st limits xs ys n :
  decode input (Admission.mk role st limits xs) = Step.Need n →
  decode input (Admission.mk role st limits ys) = Step.Need n.
Proof.
  unfold decode. simpl. destruct (admit_frame input role limits) as [a|s]; [|done].
  unfold step_for. repeat case_match; done.
Qed.

Lemma write_all_returns (t : T) bytes :
  len bytes ≤ USIZE_MAX → ∃ t' r, write_all t bytes = Some (t', r).
Proof.
  intros Hmax. pose proof (len_nonneg bytes).
  destruct (write_all_loop_spec (length bytes) t bytes 0) as (t' & r & k & Hw & _);
    [lia | done | unfold len; lia|]. by exists t', r.
Qed.

Lemma registry_insert_ok r id r' :
  InFlightRegistry.insert r id = (Ok tt, r') →
  (id ≠ 0) ∧ (id ∉ InFlightRegistry.live r) ∧
  InFlightRegistry.live r' = {[id]} ∪ InFlightRegistry.live r.
Proof.
  unfold InFlightRegistry.insert, InFlightRegistry.contains.
  destruct (Z.eqb_spec id 0); [done|]. case_bool_decide; [done|]. by intros [= <-].
Qed.

Lemma registry_insert_err r id e r' :
  InFlightRegistry.insert r id = (Err e, r') → r' = r.
Proof.
  unfold InFlightRegistry.insert. destruct (id =? 0); [by intros [= _ <-]|].
  destruct (InFlightRegistry.contains r id); [by intros [= _ <-] | done].
Qed.

Lemma on_submit_turn limits d submit r :
  driver_inv limits d → on_submit d submit = Some r →
  turn_ok limits d [Submit.completion submit] r.
Proof.
  clear H0. intros [[Hdom Hz] [n Hn]]. unfold on_submit.
  destruct (InFlightRegistry.insert _ _) as [[[]|e] live] eqn:Ei; simpl.
  - apply registry_insert_ok in Ei as (Hne & Hni & Hlive).
    assert (Session.completions (session d) !! Submit.id submit = None) as Hfresh.
    { apply not_elem_of_dom. by rw Hdom. }
    set (s' := Session.mk _ _ _ _).
    assert (session_inv s') as Hs'.
    { unfold session_inv. simpl. rw dom_insert_L Hdom Hlive. set_solver. }
    assert (resolved s' ++ pending s' ≡ₚ channels d ++ [Submit.completion submit]) as Hch.
    { unfold channels, resolved, pending. simpl. rw (map_to_list_insert _ _ _ Hfresh). simpl.
      rw -app_assoc. f_equiv. by rw Permutation_app_comm. }
    destruct (write_all _ _) as [[t' [|e]]|]; simpl; [| |done]; intros [= <-].
    + apply settle_ok; [|done]. split; [done|]. exists n. by eapply need_in_flight.
    + by apply terminate_ok.
  - apply registry_insert_err in Ei as ->. intros [= <-]. apply terminate_ok; [done|].
    unfold channels, resolved, pending. simpl. rw fmap_app -!app_assoc. f_equiv.
    by rw Permutation_app_comm.
Qed.

Lemma on_submit_ok limits d submit :
  driver_inv limits d → len (Submit.bytes submit) ≤ USIZE_MAX →
  ∃ r, on_submit d submit = Some r ∧ turn_ok limits d [Submit.completion submit] r.
Proof.
  intros Hinv Hmax. assert (is_Some (on_submit d submit)) as [r Hr].
  { unfold on_submit. destruct (InFlightRegistry.insert _ _) as [[[]|e] live]; simpl; [|done].
    destruct (write_all_returns (transport d) (Submit.bytes submit) Hmax) as (t' & r & ->).
    by destruct r. }
  exists r. split; [done | by apply on_submit_turn].
Qed.

Lemma on_read_ok limits d : driver_inv limits d → turn_ok limits d [] (on_read limits d).
Proof.
  intros [Hs Hidle]. unfold on_read. destruct (read_chunk (transport d)) as [t [[chunk|]|e]].
  - set (s1 := Session.mk _ _ _ _). pose proof (drain_frames_facts limits s1) as Hf.
    destruct (drain_frames limits s1) as [s2 [g|]]; destruct Hf as (Hi & Hp & Hn).
    + apply terminate_ok; [by apply Hi | by rw app_nil_r].
    + assert (driver_inv limits (mk_driver t s2 (submit_closed d) (state d) (admission_closed d)))
        as Hd' by (split; [by apply Hi | by apply Hn]).
      case_match eqn:E; [|apply settle_ok; [done | by rw app_nil_r]].
      apply andb_true_iff in E as [_ E%bool_decide_eq_true].
      apply exit_closed_ok; [apply Hd' | done | by rw app_nil_r].
  - destruct (submit_closed d) eqn:Ec, (bool_decide_reflect (Session.completions (session d) = ∅));
      simpl; try (apply terminate_ok; [done | by rw app_nil_r]).
    + apply exit_closed_ok; [done..|]. by rw app_nil_r.
    + split; [by rw app_nil_r|]. by split.
  - destruct (submit_closed d) eqn:Ec, (bool_decide_reflect (Session.completions (session d) = ∅));
      simpl; try (apply terminate_ok; [done | by rw app_nil_r]).
    + apply exit_closed_ok; [done..|]. by rw app_nil_r.
    + split; [by rw app_nil_r|]. by split.
Qed.

(** Every turn of the loop keeps the contract. *)
Lemma driver_step_ok limits d ev r :
  driver_inv limits d → event_typed ev → driver_step limits d ev = Some r →
  turn_ok limits d (arrivals ev) r.
Proof.
  intros Hinv Hty. unfold driver_step. destruct ev as [|[submit|]|].
  - intros [= <-]. unfold on_shutdown. simpl.
    pose proof (terminate_ok limits d (transport d) (session d) DriverError.Closed
                  ConnectionState.Closed DriverExit.Closed [] (proj1 Hinv)
                  ltac:(by rw app_nil_r)) as (Hc & Hi & Hp).
    destruct (shutdown (transport d)) as [t [[]|e]]; simpl; by split.
  - destruct (submit_closed d); [done|]. intros Hr.
    destruct (on_submit_ok limits d submit Hinv Hty) as (r' & Hr' & Hok). simplify_eq. done.
  - destruct (submit_closed d); [done|]. intros [= <-]. unfold on_submit_closed. simpl.
    case_bool_decide.
    + apply exit_closed_ok; [apply Hinv | done | by rw app_nil_r].
    + apply settle_ok; [done | by rw app_nil_r].
  - intros [= <-]. by apply on_read_ok.
Qed.

(** No enabled turn gets stuck. *)
Lemma driver_step_total limits d ev :
  driver_inv limits d → event_typed ev → (submit_closed d = true → ∀ o, ev ≠ Received o) →
  is_Some (driver_step limits d ev).
Proof.
  intros Hinv Hty Hen. unfold driver_step. destruct ev as [|o|]; [done | | done].
  destruct (submit_closed d); [by destruct (Hen eq_refl o)|].
  destruct o as [submit|]; [|done].
  destruct (on_submit_ok limits d submit Hinv Hty) as (r & -> & _). done.
Qed.

End driver_facts.

(** ** Properties *)

Section properties.
Context {T : Type} {sent : T → list byte} `{LawfulTransport T sent}.

(** C10. Responses are dispatched by request id in any arrival order: when the buffer holds
    terminal frames for distinct waiting requests, in whatever order, draining hands each
    frame, whole and once, to the waiter of the request it names, retires exactly those
    requests and leaves the others waiting. *)
Theorem drain_any_order limits fs s :
  session_inv s → Session.buffer s = concat (frame_bytes <$> fs) → NoDup (names <$> fs) →
  Forall (answers_waiter limits s) fs →
  ∃ s' out, drain_frames limits s = (s', None) ∧ Session.buffer s' = [] ∧
    Session.log s' = Session.log s ++ out ∧
    Forall2 (λ f e, Session.completions s !! names f = Some e.1 ∧ e.2 = Ok (frame_bytes f)) fs out ∧
    (∀ id, id ∉ names <$> fs → Session.completions s' !! id = Session.completions s !! id) ∧
    (∀ id, id ∈ names <$> fs → Session.completions s' !! id = None).
Proof. apply drain_answers. Qed.

(** C11. The outcome of a byte stream does not depend on how it is cut into chunks: two ways of
    cutting the same bytes give the same deliveries, the same requests still waiting and the
    same fatal failure, and the same unread bytes unless the session ended. *)
Theorem chunking_independent limits s chunks chunks' :
  idle limits s → concat chunks = concat chunks' →
  same_outcome (feed limits s chunks) (feed limits s chunks').
Proof. intros Hs Hc. by rw (feed_drain _ chunks _ Hs) Hc -(feed_drain _ chunks' _ Hs). Qed.

(** C3. Every caller is answered exactly once: over any run, the completion channels that were
    submitted are, as a multiset, those answered, those still waiting and those the driver
    never took; once the driver has exited none is waiting. *)
Theorem run_driver_exactly_once limits (d : driver T) evs d' exit rest :
  driver_inv limits d → Forall event_typed evs →
  run_driver limits d evs = Some (d', exit, rest) →
  channels d ++ (evs ≫= arrivals) ≡ₚ channels d' ++ (rest ≫= arrivals) ∧
  (is_Some exit → pending (session d') = []).
Proof.
  revert d. induction evs as [|ev evs IH]; intros d Hinv Hty; cbn [run_driver].
  - intros [= <- <- <-]. split; [done | by intros [? ?]].
  - apply Forall_cons in Hty as [Hev Hevs].
    destruct (driver_step limits d ev) as [[d1 ex]|] eqn:Es; [|done].
    apply driver_step_ok in Es as (Hc & _ & Hr); [|done..]. cbn in Hc, Hr.
    rw bind_cons app_assoc -Hc. destruct ex as [ex|].
    + intros [= <- <- <-]. done.
    + apply IH; done.
Qed.

(** C31. The receive buffer is bounded: between turns it holds less than one frame of the
    maximum size in force, whatever the peer sends. *)
Theorem driver_buffer_bounded limits (d : driver T) evs d' rest :
  driver_inv limits d → Forall event_typed evs →
  run_driver limits d evs = Some (d', None, rest) →
  len (Session.buffer (session d')) < Z.max HEADER_LENGTH (Limits.frame_size limits).
Proof.
  revert d. induction evs as [|ev evs IH]; intros d Hinv Hty; cbn [run_driver].
  - intros [= <- _]. destruct Hinv as [_ [n Hn]].
    pose proof (decode_extent (Session.buffer (session d))
                  (driver_admission limits (Session.live (session d)))) as He.
    rw Hn in He. simpl in He. lia.
  - apply Forall_cons in Hty as [Hev Hevs].
    destruct (driver_step limits d ev) as [[d1 [ex|]]|] eqn:Es; [done | | done].
    apply driver_step_ok in Es as (_ & _ & Hr); [|done..]. by apply IH.
Qed.

(** The driver never gets stuck: from a state that satisfies the invariant every enabled
    event has a turn, the submission of any frame included, and the turn either exits or
    keeps the invariant. *)
Theorem driver_progress limits (d : driver T) ev :
  driver_inv limits d → event_typed ev → (submit_closed d = true → ∀ o, ev ≠ Received o) →
  ∃ d' exit, driver_step limits d ev = Some (d', exit) ∧
    (exit = None → driver_inv limits d').
Proof.
  intros Hinv Hty Hen. destruct (driver_step_total limits d ev Hinv Hty Hen) as [[d' exit] Hs].
  exists d', exit. split; [done|].
  apply driver_step_ok in Hs as (_ & _ & Hr); [|done..]. intros ->. exact Hr.
Qed.

(** A failure of one request stays its own: a frame refused with a request-scoped failure
    is skipped over exactly, its waiter alone gets the failure, and the frames behind it are
    dispatched as if it had not been there. *)
Theorem refused_frame_isolated limits s g c id w :
  decode (Session.buffer s) (driver_admission limits (Session.live s)) = Step.Failure g c →
  Failure.scope g = FailureScope.RequestScoped →
  header_request_id (Session.buffer s) = Some id → Session.completions s !! id = Some w →
  drain_frames limits s =
    drain_frames limits
      (Session.mk (drop (Z.to_nat c) (Session.buffer s)) (delete id (Session.completions s))
         (InFlightRegistry.retire (Session.live s) id).2
         (Session.log s ++ [(w, Err (DriverError.RequestFailed g))])).
Proof.
  intros Hd Hs Hid Hw.
  destruct (drain_iteration_refused limits s g c Hd Hs) as (h & Hh & _ & -> & Hit).
  rw drain_frames_unfold Hit. rw (header_request_id_parse _ _ Hh) in Hid. injection Hid as ->.
  unfold resolve. by rw Hw.
Qed.

(** Terminal lifecycle states are sticky under the driver: no turn changes a state other
    than usable or closing. *)
Theorem driver_terminal_sticky limits (d : driver T) ev d' exit :
  driver_step limits d ev = Some (d', exit) →
  ConnectionState.protocol_state (state d) = ProtocolState.Terminal → state d' = state d.
Proof.
  intros Hs Hterm.
  assert (∀ next, mark_state (state d) next = state d) as Hm by by destruct (state d).
  unfold driver_step, on_shutdown, on_submit, on_submit_closed, on_read, settle, terminate in Hs.
  simpl in Hs. repeat (case_match; simplify_eq/=); rw ?Hm; done.
Qed.

(** C38. A connection-fatal error frame that names a waiting request is delivered to that
    request as its answer and the session goes on, although the frame retires no request:
    the driver dispatches by the header's id, not by the id the frame retires. *)
Theorem fatal_error_frame_delivered limits s f rest w :
  frame_wf (driver_admission limits (Session.live s)) f →
  Session.buffer s = frame_bytes f ++ rest →
  RequestId.value (Frame.retires f) = 0 → Session.completions s !! names f = Some w →
  Header.kind (Frame.header f) = Kind.Error ∧
  drain_frames limits s =
    drain_frames limits
      (Session.mk rest (delete (names f) (Session.completions s))
         (InFlightRegistry.retire (Session.live s) (names f)).2
         (Session.log s ++ [(w, Ok (frame_bytes f))])).
Proof.
  intros Hwf Hb Hr Hw. split.
  - pose proof (wf_direction _ _ Hwf) as Hd. pose proof (wf_retires _ _ Hwf) as Hret.
    pose proof (wf_identity _ _ Hwf) as Hi. rw Hr in Hret.
    destruct (Header.kind (Frame.header f)); [done | | done]. simpl in *. by destruct Hi.
  - rw drain_frames_unfold (drain_iteration_frame _ _ _ _ Hwf Hb). fold (names f).
    unfold resolve. by rw Hw.
Qed.

(** A read that fails, or ends, while no request is waiting changes nothing but the
    transport: the driver goes on and the connection still counts as usable. *)
Theorem idle_disconnect_unnoticed limits (d : driver T) t r :
  read_chunk (transport d) = (t, r) → (r = Ok None ∨ is_err r = true) →
  Session.completions (session d) = ∅ → submit_closed d = false →
  driver_step limits d ReadReady =
    Some (mk_driver t (session d) false (state d) (admission_closed d), None).
Proof.
  intros Hr Hcase Hc Hsc. unfold driver_step, on_read. rw Hr Hc Hsc.
  rw bool_decide_eq_true_2; [done|]. destruct Hcase as [->|He]; [done|].
  by destruct r as [|e].
Qed.

End properties.

(** ** Witnesses

    Requests 7 and 9 wait on channels 0 and 1; an in-memory transport moves three bytes at a
    time. *)
Definition sample_limits : Limits.t := Limits.PRE_NEGOTIATION.
Definition answer (k : Kind.t) (code id : Z) (payload : OutgoingPayload.t) : Frame.t :=
  frame_of (Outgoing.mk k code id [] payload).
Definition answer7 : Frame.t := answer Kind.Response 0 7 (OutgoingPayload.Opaque_ [x61]).
Definition answer9 : Frame.t := answer Kind.Response 1 9 (OutgoingPayload.Opaque_ []).
Definition fatal7 : Frame.t := answer Kind.Error 0x000C 7 (OutgoingPayload.Error [] []).
Definition sample_session (buffer : list byte) : Session.t :=
  Session.mk buffer (<[7 := 0%nat]> (<[9 := 1%nat]> ∅)) (InFlightRegistry.mk {[7; 9]}) [].
Definition sample_driver (inbound : list byte) : driver InMemoryTransport.t :=
  spawn (InMemoryTransport.new inbound 30 3) ConnectionState.Usable.
Definition sample_submit : Submit.t := Submit.mk 7 [x61; x62; x63; x64] 5%nat.

Lemma sample_session_inv buffer : session_inv (sample_session buffer).
Proof. split; simpl; [rw !dom_insert_L dom_empty_L|]; set_solver. Qed.

Lemma sample_driver_inv inbound : driver_inv sample_limits (sample_driver inbound).
Proof. split; [split; simpl; set_solver | auto with rp1]. Qed.

(** A frame the driver decodes is acceptable. *)
Lemma decoded_wf limits live f input :
  decode input (driver_admission limits live) = Step.Frame f →
  frame_wf (driver_admission limits live) f.
Proof. apply decode_frame_sound. Qed.

Lemma drain_any_order_witness :
  let s := sample_session (frame_bytes answer9 ++ frame_bytes answer7) in
  ∃ s' out, drain_frames sample_limits s = (s', None) ∧
    Forall2 (λ f (e : sender * result (list byte) DriverError.t),
               Session.completions s !! names f = Some e.1 ∧ e.2 = Ok (frame_bytes f))
      [answer9; answer7] out.
Proof.
  intros s. destruct (drain_any_order sample_limits [answer9; answer7] s)
    as (s' & out & Hd & _ & _ & Hout & _).
  - apply sample_session_inv.
  - vm_compute. reflexivity.
  - vm_compute. repeat constructor; set_solver.
  - constructor; [|constructor; [|constructor]]; (split; [|by eexists]).
    + apply (decoded_wf _ _ _ (frame_bytes answer9)). vm_compute. reflexivity.
    + apply (decoded_wf _ _ _ (frame_bytes answer7)). vm_compute. reflexivity.
  - exists s', out. split; [exact Hd | exact Hout].
Defined.

Lemma chunking_independent_witness :
  let stream := frame_bytes answer9 ++ frame_bytes answer7 in
  same_outcome (feed sample_limits (sample_session []) [stream])
    (feed sample_limits (sample_session []) ((λ b, [b]) <$> stream)).
Proof.
  apply chunking_independent; [by apply idle_empty | vm_compute; reflexivity].
Defined.

Lemma run_driver_exactly_once_witness :
  ∃ d' rest,
    run_driver sample_limits (sample_driver (frame_bytes answer7))
      [Received (Some sample_submit); ReadReady; ShutdownSignal] =
      Some (d', Some DriverExit.Closed, rest) ∧
    [5%nat] ≡ₚ channels d' ++ (rest ≫= arrivals) ∧ pending (session d') = [].
Proof.
  destruct (run_driver sample_limits (sample_driver (frame_bytes answer7))
              [Received (Some sample_submit); ReadReady; ShutdownSignal]) as [[[d' ex] rest]|] eqn:E;
    [|vm_compute in E; discriminate].
  pose proof (run_driver_exactly_once sample_limits (sample_driver (frame_bytes answer7))
                [Received (Some sample_submit); ReadReady; ShutdownSignal] d' ex rest) as H.
  exists d', rest. destruct H as [Hp He].
  - apply sample_driver_inv.
  - repeat constructor; discriminate.
  - exact E.
  - assert (ex = Some DriverExit.Closed) as -> by (vm_compute in E; congruence).
    split; [reflexivity|]. split; [exact Hp | by apply He; eexists].
Defined.

Lemma driver_buffer_bounded_witness :
  ∃ d' rest,
    run_driver sample_limits (sample_driver (take 25 (frame_bytes answer7 ++ frame_bytes answer9)))
      [Received (Some sample_submit); ReadReady] = Some (d', None, rest) ∧
    len (Session.buffer (session d')) < 65536.
Proof.
  destruct (run_driver sample_limits
              (sample_driver (take 25 (frame_bytes answer7 ++ frame_bytes answer9)))
              [Received (Some sample_submit); ReadReady]) as [[[d' ex] rest]|] eqn:E;
    [|vm_compute in E; discriminate].
  assert (ex = None) as -> by (vm_compute in E; congruence).
  exists d', rest. split; [reflexivity|].
  apply (driver_buffer_bounded sample_limits _ _ d' rest (sample_driver_inv _)) in E; [exact E|].
  repeat constructor; discriminate.
Defined.

Lemma driver_progress_witness :
  ∃ d' exit, driver_step sample_limits (sample_driver []) (Received (Some sample_submit)) =
    Some (d', exit) ∧ (exit = None → driver_inv sample_limits d').
Proof.
  apply (driver_progress sample_limits (sample_driver []) (Received (Some sample_submit))).
  - apply sample_driver_inv.
  - vm_compute. discriminate.
  - discriminate.
Defined.

(** A response to request 7 whose metadata identifier is in the required range. *)
Definition refused7 : list byte :=
  frame_bytes (frame_of (Outgoing.mk Kind.Response 0 7 [(0x8001, [])] (OutgoingPayload.Opaque_ []))).

Lemma refused_frame_isolated_witness :
  drain_frames sample_limits (sample_session (refused7 ++ frame_bytes answer9)) =
  drain_frames sample_limits
    (Session.mk (frame_bytes answer9) (delete 7 (<[7 := 0%nat]> (<[9 := 1%nat]> ∅)))
       (InFlightRegistry.retire (InFlightRegistry.mk {[7; 9]}) 7).2
       [(0%nat, Err (DriverError.RequestFailed Failure.invalid_argument))]).
Proof.
  apply (refused_frame_isolated sample_limits (sample_session (refused7 ++ frame_bytes answer9))
           Failure.invalid_argument 24 7 0%nat); vm_compute; reflexivity.
Defined.

Lemma driver_terminal_sticky_witness :
  let d := spawn (InMemoryTransport.new [] 30 3) ConnectionState.Failed in
  ∃ d' exit, driver_step sample_limits d ShutdownSignal = Some (d', exit) ∧
    state d' = ConnectionState.Failed.
Proof.
  intros d. destruct (driver_step sample_limits d ShutdownSignal) as [[d' exit]|] eqn:E;
    [|discriminate].
  exists d', exit. split; [reflexivity|].
  exact (driver_terminal_sticky sample_limits d ShutdownSignal d' exit E eq_refl).
Defined.

Lemma fatal_error_frame_delivered_witness :
  drain_frames sample_limits (sample_session (frame_bytes fatal7)) =
  drain_frames sample_limits
    (Session.mk [] (delete 7 (<[7 := 0%nat]> (<[9 := 1%nat]> ∅)))
       (InFlightRegistry.retire (InFlightRegistry.mk {[7; 9]}) 7).2
       [(0%nat, Ok (frame_bytes fatal7))]).
Proof.
  apply (fatal_error_frame_delivered sample_limits (sample_session (frame_bytes fatal7)) fatal7 [] 0%nat).
  - apply (decoded_wf _ _ _ (frame_bytes fatal7)). vm_compute. reflexivity.
  - simpl. by rw app_nil_r.
  - reflexivity.
  - reflexivity.
Defined.

Lemma idle_disconnect_unnoticed_witness :
  driver_step sample_limits (sample_driver []) ReadReady = Some (sample_driver [], None).
Proof.
  apply (idle_disconnect_unnoticed sample_limits (sample_driver [])
           (InMemoryTransport.new [] 30 3) (Ok None)).
  - vm_compute. reflexivity.
  - left. reflexivity.
  - reflexivity.
  - reflexivity.
Defined.
