(* ===== verification/Command.v ===== *)
(** * Commands

    [src/src/command.rs]: the request payloads of the five operations and the interpretation
    of terminal frames. *)

From S2P Require Export FrameTheorems.
Local Open Scope Z_scope.

Module SetEncodeError.
Inductive t := KeyTooLong (length : Z) | PayloadTooLarge.
End SetEncodeError.

Module GetOutcome.
Inductive t := Present (value : list byte) | Absent | HeldOutsideMemory (logical_length : Z).
End GetOutcome.

Module CommandFailure.
Record t := new { class : ErrorClass.t }.
Definition protocol_violation : t := new ErrorClass.ProtocolViolation.
End CommandFailure.

(** ** Request payloads *)

Definition encode_ping : list byte := [].

Definition encode_key (key : list byte) : list byte := key.

Definition encode_set (key value : list byte) : result (list byte) SetEncodeError.t :=
  let! key_length :=
    ok_or (try_from U32_MAX (len key)) (SetEncodeError.KeyTooLong (len key)) in
  let! total :=
    ok_or (let? total := checked_add USIZE_MAX 4 (len key) in
           checked_add USIZE_MAX total (len value)) SetEncodeError.PayloadTooLarge in
  if U32_MAX <? unwrap_or (try_from U64_MAX total) U64_MAX
  then Err SetEncodeError.PayloadTooLarge
  else Ok (to_le_bytes 4 key_length ++ key ++ value).

(** [usize::saturating_add]. *)
Definition saturating_add (a b : Z) : Z := Z.min (a + b) USIZE_MAX.

Definition split_set (payload : list byte) : result (list byte * list byte) CommandFailure.t :=
  let malformed := CommandFailure.new ErrorClass.MalformedRequest in
  if len payload <? 4 then Err malformed else
  let head :=
    unwrap_or (let? slice := slice_get payload 0 4 in try_into_array 4 slice)
      [x00; x00; x00; x00] in
  let key_length := from_le_bytes head in
  let key_end := saturating_add 4 (unwrap_or (try_from USIZE_MAX key_length) USIZE_MAX) in
  let! key := ok_or (slice_get payload 4 key_end) malformed in
  let! value := ok_or (slice_from payload key_end) malformed in
  Ok (key, value).

(** ** Interpretation of terminal frames *)

Definition result_code_of (frame : Frame.t) : result ResultCode.t CommandFailure.t :=
  ok_or (ResultCode.from_wire (Header.code (Frame.header frame)))
    CommandFailure.protocol_violation.

Definition error_of (frame : Frame.t) : CommandFailure.t :=
  match ErrorClass.from_wire (Header.code (Frame.header frame)) with
  | Some class => CommandFailure.new class
  | None => CommandFailure.protocol_violation
  end.

Definition interpret_ping (frame : Frame.t) : result unit CommandFailure.t :=
  match Header.kind (Frame.header frame) with
  | Kind.Response =>
      let! code := result_code_of frame in
      if negb (bool_decide (code = ResultCode.Success))
      then Err CommandFailure.protocol_violation else Ok tt
  | Kind.Error => Err (error_of frame)
  | Kind.Request => Err CommandFailure.protocol_violation
  end.

Definition interpret_get (frame : Frame.t) : result GetOutcome.t CommandFailure.t :=
  match Header.kind (Frame.header frame) with
  | Kind.Response =>
      let! code := result_code_of frame in
      match code with
      | ResultCode.Success =>
          match Frame.payload frame with
          | Payload.Opaque_ payload => Ok (GetOutcome.Present payload)
          | _ => Err CommandFailure.protocol_violation
          end
      | ResultCode.Absent => Ok GetOutcome.Absent
      | ResultCode.ValueHeldOutsideMemory =>
          match Frame.payload frame with
          | Payload.Warm logical_length => Ok (GetOutcome.HeldOutsideMemory logical_length)
          | _ => Err CommandFailure.protocol_violation
          end
      end
  | Kind.Error => Err (error_of frame)
  | Kind.Request => Err CommandFailure.protocol_violation
  end.

Definition interpret_set (frame : Frame.t) : result unit CommandFailure.t :=
  match Header.kind (Frame.header frame) with
  | Kind.Response =>
      let! code := result_code_of frame in
      if negb (bool_decide (code = ResultCode.Success))
      then Err CommandFailure.protocol_violation else Ok tt
  | Kind.Error => Err (error_of frame)
  | Kind.Request => Err CommandFailure.protocol_violation
  end.

Definition interpret_del (frame : Frame.t) : result bool CommandFailure.t :=
  match Header.kind (Frame.header frame) with
  | Kind.Response =>
      let! code := result_code_of frame in
      match code with
      | ResultCode.Success => Ok true
      | ResultCode.Absent => Ok false
      | ResultCode.ValueHeldOutsideMemory => Err CommandFailure.protocol_violation
      end
  | Kind.Error => Err (error_of frame)
  | Kind.Request => Err CommandFailure.protocol_violation
  end.

Definition interpret_exists (frame : Frame.t) : result bool CommandFailure.t :=
  interpret_del frame.

(** ** The answer a terminal frame gives

    What a responder may say to a request, independent of the wire. *)
Inductive answer_of : Frame.t → result GetOutcome.t ErrorClass.t → Prop :=
| answer_present f value :
    Header.kind (Frame.header f) = Kind.Response →
    Header.code (Frame.header f) = ResultCode.value ResultCode.Success →
    Frame.payload f = Payload.Opaque_ value → answer_of f (Ok (GetOutcome.Present value))
| answer_absent f :
    Header.kind (Frame.header f) = Kind.Response →
    Header.code (Frame.header f) = ResultCode.value ResultCode.Absent →
    answer_of f (Ok GetOutcome.Absent)
| answer_held f n :
    Header.kind (Frame.header f) = Kind.Response →
    Header.code (Frame.header f) = ResultCode.value ResultCode.ValueHeldOutsideMemory →
    Frame.payload f = Payload.Warm n → answer_of f (Ok (GetOutcome.HeldOutsideMemory n))
| answer_refused f class :
    Header.kind (Frame.header f) = Kind.Error →
    Header.code (Frame.header f) = ErrorClass.value class → answer_of f (Err class).

(** ** Lemmas *)

Lemma encode_set_ok key value p :
  encode_set key value = Ok p ↔
  4 + len key + len value ≤ U32_MAX ∧ p = to_le_bytes 4 (len key) ++ key ++ value.
Proof.
  unfold encode_set. pose proof (len_nonneg key). pose proof (len_nonneg value).
  unfold try_from at 1. destruct (fits U32_MAX (len key)) eqn:Ef; cbn [ok_or].
  - apply fits_spec in Ef. unfold U32_MAX in *.
    rw checked_add_fits; [unfold USIZE_MAX, U64_MAX; lia|].
    unfold checked_add. destruct (4 + len key + len value <=? USIZE_MAX) eqn:Et; breflect; cbn [ok_or].
    + rw try_from_fits; [unfold USIZE_MAX in *; lia|]. cbn [unwrap_or].
      destruct (4294967295 <? _) eqn:E; breflect; [|naive_solver].
      split; [done|]. intros [? _]. lia.
    + split; [done|]. unfold USIZE_MAX, U64_MAX in *. intros [? _]. lia.
  - split; [done|]. intros [? _].
    assert (fits U32_MAX (len key) = true) by (apply fits_spec; unfold U32_MAX in *; lia).
    congruence.
Qed.

(** An acceptable frame for a client gives exactly one answer. *)
Lemma client_frame_answer adm f :
  Admission.role adm = Role.Client → frame_wf adm f → ∃ a, answer_of f a.
Proof.
  intros Hrole Hwf. pose proof (wf_direction _ _ Hwf) as Hd. pose proof (wf_payload _ _ Hwf) as Hp.
  rw Hrole in Hd. unfold payload_ok in Hp.
  destruct (Header.kind (Frame.header f)) eqn:Ek; [done | |].
  - destruct (ResultCode.from_wire _) as [[]|] eqn:Ec; [| | |done];
      apply value_from_wire in Ec; symmetry in Ec.
    + destruct Hp as [b Hp]. eexists. by eapply answer_present.
    + eexists. by eapply answer_absent.
    + destruct Hp as (n & Hp & _). eexists. by eapply answer_held.
  - destruct Hp as [[c Hc] _]. apply value_from_wire in Hc. symmetry in Hc.
    eexists. by eapply answer_refused.
Qed.

(** ** Properties *)

(** A [SET] payload carries its key and value exactly: the encoder accepts a pair if and
    only if the payload fits its 32-bit length, and splitting the payload gives the pair back,
    for all byte strings, empty ones and arbitrary bytes included. *)
Theorem set_round_trip key value :
  match encode_set key value with
  | Ok payload =>
      4 + len key + len value ≤ U32_MAX ∧ set_payload payload ∧ split_set payload = Ok (key, value)
  | Err _ => U32_MAX < 4 + len key + len value
  end.
Proof.
  pose proof (len_nonneg key). pose proof (len_nonneg value).
  destruct (encode_set key value) as [p|e] eqn:E.
  - apply encode_set_ok in E as [Hfit ->]. unfold U32_MAX in Hfit. split; [done|].
    split; [by exists key, value; split; [unfold U32_MAX; lia|]|].
    assert (len (to_le_bytes 4 (len key) ++ key ++ value) = 4 + len key + len value) as Hl
      by len_fields.
    unfold split_set. rw Hl. zbool.
    rw (slice_get_mid [] (to_le_bytes 4 (len key)) (key ++ value) 0 4);
      [done | by rw len_to_le_bytes|].
    unfold try_into_array. rw len_to_le_bytes. change (Z.of_nat 4 =? 4) with true. cbn [unwrap_or].
    rw from_to_le_bytes; [simpl; lia|]. rw try_from_fits; [unfold USIZE_MAX, U64_MAX; lia|].
    cbn [unwrap_or]. unfold saturating_add. rw Z.min_l; [unfold USIZE_MAX, U64_MAX; lia|].
    rw slice_get_mid; [by rw len_to_le_bytes | by rw len_to_le_bytes|]. cbn [ok_or].
    rw app_assoc slice_from_app; [rw len_app len_to_le_bytes; lia | done].
  - destruct (Z.lt_ge_cases U32_MAX (4 + len key + len value)); [done|].
    assert (encode_set key value = Ok (to_le_bytes 4 (len key) ++ key ++ value)) as E'
      by by apply encode_set_ok. congruence.
Qed.

(** Interpretation loses nothing: on every frame a client accepts, [interpret_get] returns
    exactly the answer the frame gives, so an empty value, an absent key, a value held outside
    memory and each error class stay distinct, and no accepted frame is reported as a protocol
    violation unless it says so. *)
Theorem interpret_get_exact adm f a :
  Admission.role adm = Role.Client → frame_wf adm f →
  interpret_get f = map_err CommandFailure.new a ↔ answer_of f a.
Proof.
  intros Hrole Hwf. unfold interpret_get, result_code_of, error_of. split.
  - destruct (client_frame_answer adm f Hrole Hwf) as [b Hb]. intros H.
    enough (a = b) as -> by done.
    destruct Hb as [f v Hk Hc Hp|f Hk Hc|f n Hk Hc Hp|f c Hk Hc]; rw Hk Hc ?from_wire_value ?Hp /= in H;
      destruct a as [a|a]; simpl in H; by simplify_eq.
  - intros [f' v Hk Hc Hp|f' Hk Hc|f' n Hk Hc Hp|f' c Hk Hc]; by rw Hk Hc ?from_wire_value ?Hp.
Qed.

(** The other operations read the same answer: a success is an acknowledgement of [PING]
    and [SET] and [true] for [DEL] and [EXISTS], an absence is [false] for [DEL] and [EXISTS],
    an error keeps its class for every operation, and any other answer is a protocol
    violation. *)
Theorem interpret_others_exact f a :
  answer_of f a →
  interpret_ping f = match a with
                     | Ok (GetOutcome.Present _) => Ok tt
                     | Ok _ => Err CommandFailure.protocol_violation
                     | Err c => Err (CommandFailure.new c)
                     end ∧
  interpret_set f = interpret_ping f ∧
  interpret_del f = match a with
                    | Ok (GetOutcome.Present _) => Ok true
                    | Ok GetOutcome.Absent => Ok false
                    | Ok (GetOutcome.HeldOutsideMemory _) => Err CommandFailure.protocol_violation
                    | Err c => Err (CommandFailure.new c)
                    end ∧
  interpret_exists f = interpret_del f.
Proof.
  intros Ha. unfold interpret_ping, interpret_set, interpret_exists, interpret_del,
    result_code_of, error_of.
  destruct Ha as [f v Hk Hc Hp|f Hk Hc|f n Hk Hc Hp|f c Hk Hc];
    rw Hk Hc ?from_wire_value; by repeat split.
Qed.

(** ** Witnesses *)

Lemma sample_answer : answer_of (frame_of sample_out) (Ok (GetOutcome.Present [x62; x63])).
Proof. by apply answer_present. Qed.

Lemma interpret_get_exact_witness :
  interpret_get (frame_of sample_out) = Ok (GetOutcome.Present [x62; x63]).
Proof.
  apply (interpret_get_exact sample_adm (frame_of sample_out)
           (Ok (GetOutcome.Present [x62; x63])) eq_refl sample_wf).
  exact sample_answer.
Defined.

Lemma interpret_others_exact_witness :
  interpret_del (frame_of sample_out) = Ok true.
Proof.
  apply (interpret_others_exact (frame_of sample_out)
           (Ok (GetOutcome.Present [x62; x63])) sample_answer).
Defined.
