(* ===== verification/Connection.v ===== *)
(** * Configuration and connection establishment

    [src/src/connection/mod.rs]: [ConnectionConfig] and its validation, [ConnectError], the
    handshake exchange over a transport and the session state it yields. A [String] is the
    list of its Unicode scalar values. *)

From S2P Require Export Text Handshake DriverTheorems.
Local Open Scope Z_scope.

(** ** Configuration *)

Definition HANDSHAKE_REQUEST_ID : Z := 1.
Definition OFFER : HandshakeOffer.t := HandshakeOffer.mk 0 0 [].
Definition DEFAULT_DESIRED_MAXIMUM_FRAME_SIZE : Z := 65536.
Definition DEFAULT_LOCAL_MAXIMUM_FRAME_SIZE : Z := MINIMUM_NEGOTIATED_FRAME_SIZE.
Definition DEFAULT_LOCAL_MAXIMUM_METADATA_SIZE : Z := MINIMUM_NEGOTIATED_METADATA_SIZE.
Definition DEFAULT_MAXIMUM_IN_FLIGHT : Z := 64.
Definition MINIMUM_MAXIMUM_IN_FLIGHT : Z := 1.

Module ConnectionConfigError.
Inductive t :=
| EmptyEndpoint
| FrameSizeBelowFloor (proposed : Z)
| LocalFrameSizeBelowFloor (proposed : Z)
| LocalMetadataSizeBelowFloor (proposed : Z)
| InFlightBoundBelowMinimum (proposed : Z).
#[global] Instance eq_dec : EqDecision t.
Proof. solve_decision. Defined.
End ConnectionConfigError.

Module ConnectionConfig.
Record t := mk {
  endpoint : list Z;
  desired_maximum_frame_size : Z;
  local_maximum_frame_size : Z;
  local_maximum_metadata_size : Z;
  maximum_in_flight : Z
}.

Definition new (endpoint : list Z) : t :=
  mk endpoint DEFAULT_DESIRED_MAXIMUM_FRAME_SIZE DEFAULT_LOCAL_MAXIMUM_FRAME_SIZE
     DEFAULT_LOCAL_MAXIMUM_METADATA_SIZE DEFAULT_MAXIMUM_IN_FLIGHT.

Definition with_desired_maximum_frame_size (c : t) (value : Z) : t :=
  mk (endpoint c) value (local_maximum_frame_size c) (local_maximum_metadata_size c)
     (maximum_in_flight c).

Definition with_local_maximum_frame_size (c : t) (value : Z) : t :=
  mk (endpoint c) (desired_maximum_frame_size c) value (local_maximum_metadata_size c)
     (maximum_in_flight c).

Definition with_local_maximum_metadata_size (c : t) (value : Z) : t :=
  mk (endpoint c) (desired_maximum_frame_size c) (local_maximum_frame_size c) value
     (maximum_in_flight c).

Definition with_maximum_in_flight (c : t) (value : Z) : t :=
  mk (endpoint c) (desired_maximum_frame_size c) (local_maximum_frame_size c)
     (local_maximum_metadata_size c) value.

(** The endpoint [127.0.0.1:6379]. *)
Definition default : t :=
  new [49; 50; 55; 46; 48; 46; 48; 46; 49; 58; 54; 51; 55; 57].

Definition validate (c : t) : result unit ConnectionConfigError.t :=
  if trims_to_empty (endpoint c) then Err ConnectionConfigError.EmptyEndpoint else
  if desired_maximum_frame_size c <? MINIMUM_NEGOTIATED_FRAME_SIZE
  then Err (ConnectionConfigError.FrameSizeBelowFloor (desired_maximum_frame_size c)) else
  if local_maximum_frame_size c <? MINIMUM_NEGOTIATED_FRAME_SIZE
  then Err (ConnectionConfigError.LocalFrameSizeBelowFloor (local_maximum_frame_size c)) else
  if local_maximum_metadata_size c <? MINIMUM_NEGOTIATED_METADATA_SIZE
  then Err (ConnectionConfigError.LocalMetadataSizeBelowFloor (local_maximum_metadata_size c)) else
  if maximum_in_flight c <? MINIMUM_MAXIMUM_IN_FLIGHT
  then Err (ConnectionConfigError.InFlightBoundBelowMinimum (maximum_in_flight c)) else
  Ok tt.

(** The fields hold values of their types. *)
Definition typed (c : t) : Prop :=
  0 ≤ desired_maximum_frame_size c ≤ U32_MAX ∧ 0 ≤ local_maximum_frame_size c ≤ U64_MAX ∧
  0 ≤ local_maximum_metadata_size c ≤ U16_MAX ∧ 0 ≤ maximum_in_flight c ≤ USIZE_MAX.
End ConnectionConfig.

Module ConnectError.
Inductive t :=
| InvalidConfiguration (error : ConnectionConfigError.t)
| Transport (error : IoError.t)
| HandshakeFailure (failure : Failure.t)
| ClosedDuringHandshake
| NegotiatedFrameSizeAboveLocal (negotiated local : Z)
| NegotiatedMetadataSizeAboveLocal (negotiated local : Z)
| UnexpectedFrame.
#[global] Instance eq_dec : EqDecision t.
Proof. solve_decision. Defined.
End ConnectError.

(** ** The negotiated session *)

Module Negotiated.
Record t := mk {
  protocol_version : Z;
  maximum_frame_size : Z;
  maximum_metadata_size : Z;
  accepted_capabilities : list Z;
  local_maximum_frame_size : Z;
  local_maximum_metadata_size : Z
}.

Definition effective_maximum_frame_size (n : t) : Z :=
  if maximum_frame_size n <? local_maximum_frame_size n
  then maximum_frame_size n else local_maximum_frame_size n.

Definition effective_maximum_metadata_size (n : t) : Z :=
  if maximum_metadata_size n <? local_maximum_metadata_size n
  then maximum_metadata_size n else local_maximum_metadata_size n.
End Negotiated.

Definition build_handshake_request (config : ConnectionConfig.t) (request_id : Z)
    : result (list byte) ConnectError.t :=
  let request :=
    HandshakeRequest.new 0 0 (ConnectionConfig.desired_maximum_frame_size config)
      (CapabilityEntries.new []) in
  let payload := HandshakeRequest.encode request in
  let outgoing :=
    Outgoing.mk Kind.Request HANDSHAKE_OPCODE request_id [] (OutgoingPayload.Opaque_ payload) in
  map_err (λ _, ConnectError.HandshakeFailure Failure.resource_limit) (encode outgoing).

Definition interpret_response (frame : Frame.t) (config : ConnectionConfig.t)
    : result Negotiated.t ConnectError.t :=
  let header := Frame.header frame in
  match Header.kind header with
  | Kind.Response =>
      if Header.code header =? 0 then
        match Frame.payload frame with
        | Payload.Opaque_ payload =>
            let! response :=
              map_err ConnectError.HandshakeFailure (HandshakeResponse.decode payload OFFER) in
            Ok (Negotiated.mk
                  (HandshakeResponse.negotiated_protocol_version response)
                  (HandshakeResponse.negotiated_maximum_frame_size response)
                  (HandshakeResponse.negotiated_maximum_metadata_size response)
                  (CapabilityEntry.identifier <$> CapabilityEntries.entries
                     (HandshakeResponse.accepted_capability_entries response))
                  (ConnectionConfig.local_maximum_frame_size config)
                  (ConnectionConfig.local_maximum_metadata_size config))
        | _ => Err ConnectError.UnexpectedFrame
        end
      else Err ConnectError.UnexpectedFrame
  | Kind.Error =>
      let failure :=
        match ErrorClass.from_wire (Header.code header) with
        | Some class => Failure.new class (ErrorClass.scope class)
        | None => Failure.protocol_violation
        end in
      Err (ConnectError.HandshakeFailure failure)
  | Kind.Request => Err ConnectError.UnexpectedFrame
  end.

(** ** The handshake exchange *)

(** The admission the client reads the handshake response under. *)
Definition handshake_admission (handshake_id : Z) : Admission.t :=
  Admission.mk Role.Client ProtocolState.PreNegotiation Limits.PRE_NEGOTIATION [handshake_id].

(** The bound on the handshake's read buffer. *)
Definition handshake_bound (config : ConnectionConfig.t) : Z :=
  let buffer_cap := Z.min (ConnectionConfig.local_maximum_frame_size config) MAX_FRAME_SIZE in
  unwrap_or (try_from USIZE_MAX buffer_cap) USIZE_MAX.

Section handshake.
Context {T : Type} `{Transport T}.

(** The [write_all] of this module: the driver's loop with its errors wrapped. *)
Definition write_request (transport : T) (bytes : list byte)
    : option (T * result unit ConnectError.t) :=
  let? (transport, outcome) := write_all transport bytes in
  Some (transport, map_err ConnectError.Transport outcome).

(** The [loop] of [read_handshake_response]; [None] when the fuel runs out. *)
Fixpoint read_handshake_loop (fuel : nat) (transport : T) (config : ConnectionConfig.t)
    (handshake_id : Z) (buffer : list byte)
    : option (T * result Negotiated.t ConnectError.t) :=
  match decode buffer (handshake_admission handshake_id) with
  | Step.Frame frame => Some (transport, interpret_response frame config)
  | Step.Failure failure _ => Some (transport, Err (ConnectError.HandshakeFailure failure))
  | Step.Need required =>
      let bound := handshake_bound config in
      if (bound <? required) || (bound <=? len buffer)
      then Some (transport, Err (ConnectError.HandshakeFailure Failure.resource_limit)) else
      let chunk := replicate (Z.to_nat READ_CHUNK) x00 in
      let '(transport, outcome, chunk) := read transport chunk in
      match outcome with
      | Err error => Some (transport, Err (ConnectError.Transport error))
      | Ok read =>
          if read =? 0 then Some (transport, Err ConnectError.ClosedDuringHandshake) else
          let part := unwrap_or (slice_get chunk 0 read) [] in
          match fuel with
          | O => None
          | S fuel => read_handshake_loop fuel transport config handshake_id (buffer ++ part)
          end
      end
  end.

(** Every round adds at least a byte to a buffer that stays below the bound before each read,
    so the bound is enough fuel. *)
Definition read_handshake_response (transport : T) (config : ConnectionConfig.t)
    (handshake_id : Z) : option (T * result Negotiated.t ConnectError.t) :=
  read_handshake_loop (Z.to_nat (handshake_bound config)) transport config handshake_id [].

(** The exchange of [establish] up to the comparison with the local caps. *)
Definition exchange (transport : T) (config : ConnectionConfig.t)
    : option (T * result Negotiated.t ConnectError.t) :=
  let violation := ConnectError.HandshakeFailure Failure.protocol_violation in
  let '(handshake_id, _) := RequestIdAllocator.allocate RequestIdAllocator.new in
  if negb (handshake_id =? HANDSHAKE_REQUEST_ID) then Some (transport, Err violation) else
  let '(inserted, in_flight) := InFlightRegistry.insert InFlightRegistry.new handshake_id in
  if is_err inserted then Some (transport, Err violation) else
  match build_handshake_request config handshake_id with
  | Err error => Some (transport, Err error)
  | Ok frame =>
      let? (transport, written) := write_request transport frame in
      match written with
      | Err error => Some (transport, Err error)
      | Ok _ =>
          let? (transport, outcome) := read_handshake_response transport config handshake_id in
          match outcome with
          | Err error => Some (transport, Err error)
          | Ok negotiated =>
              let in_flight := (InFlightRegistry.retire in_flight handshake_id).2 in
              let live := InFlightRegistry.live_ids in_flight in
              if InFlightRegistry.contains in_flight handshake_id ||
                 negb (InFlightRegistry.is_empty in_flight) ||
                 negb (InFlightRegistry.len in_flight =? len live) || negb (is_empty live)
              then Some (transport, Err violation) else
              if ConnectionConfig.local_maximum_frame_size config <?
                 Negotiated.maximum_frame_size negotiated
              then Some ((shutdown transport).1,
                     Err (ConnectError.NegotiatedFrameSizeAboveLocal
                            (Negotiated.maximum_frame_size negotiated)
                            (ConnectionConfig.local_maximum_frame_size config)))
              else
              if ConnectionConfig.local_maximum_metadata_size config <?
                 Negotiated.maximum_metadata_size negotiated
              then Some ((shutdown transport).1,
                     Err (ConnectError.NegotiatedMetadataSizeAboveLocal
                            (Negotiated.maximum_metadata_size negotiated)
                            (ConnectionConfig.local_maximum_metadata_size config)))
              else Some (transport, Ok negotiated)
          end
      end
  end.

End handshake.

(** ** The shared session *)

(** [tokio::sync::Semaphore], as the code uses it: permits left and whether it is closed. *)
Module Semaphore.
Record t := mk { permits : Z; closed : bool }.
Definition new (permits : Z) : t := mk permits false.
End Semaphore.

Section session.
Context {S : Type} {tcp_stream : Transport S}.

(** [Shared]: the [Option]s are those of the source; [submit_tx] and [shutdown_tx] tell
    whether the channel's sender is still held. *)
Record Shared := mk_shared {
  negotiated : Negotiated.t;
  shared_state : ConnectionState.t;
  shared_transport : option (AnyTransport.t S);
  admission : Semaphore.t;
  maximum_in_flight : Z;
  submit_tx : bool;
  allocator : RequestIdAllocator.t;
  driver_task : option (driver (AnyTransport.t S));
  shutdown_tx : bool
}.

(** [matches!(transport, AnyTransport::Tcp(_))]. *)
Definition is_tcp (transport : AnyTransport.t S) : bool :=
  match transport with AnyTransport.Tcp _ => true | AnyTransport.Memory _ => false end.

(** The limits the driver is spawned with. *)
Definition driver_limits (config : ConnectionConfig.t) (negotiated : Negotiated.t) : Limits.t :=
  Limits.mk
    (Z.min (Negotiated.maximum_frame_size negotiated)
       (ConnectionConfig.local_maximum_frame_size config))
    (Z.min (Negotiated.maximum_metadata_size negotiated)
       (ConnectionConfig.local_maximum_metadata_size config)).

Definition establish (transport : AnyTransport.t S) (config : ConnectionConfig.t)
    : option (AnyTransport.t S * result Shared ConnectError.t) :=
  let? (transport, outcome) := exchange transport config in
  match outcome with
  | Err error => Some (transport, Err error)
  | Ok negotiated =>
      let bound := ConnectionConfig.maximum_in_flight config in
      let admission := Semaphore.new bound in
      let state := ConnectionState.Usable in
      if is_tcp transport then
        let driver_handle := spawn transport state in
        let allocator := (RequestIdAllocator.allocate RequestIdAllocator.new).2 in
        Some (transport,
              Ok (mk_shared negotiated state None admission bound true allocator
                    (Some driver_handle) true))
      else
        Some (transport,
              Ok (mk_shared negotiated state (Some transport) admission bound false
                    RequestIdAllocator.new None false))
  end.

(** [connect]: opening the TCP stream is the operating system's. *)
Definition connect (open : list Z → result S IoError.t) (config : ConnectionConfig.t)
    : option (result Shared ConnectError.t) :=
  match map_err ConnectError.InvalidConfiguration (ConnectionConfig.validate config) with
  | Err error => Some (Err error)
  | Ok _ =>
      match map_err ConnectError.Transport (open (ConnectionConfig.endpoint config)) with
      | Err error => Some (Err error)
      | Ok stream =>
          let? (_, outcome) := establish (AnyTransport.Tcp (TokioTransport.mk stream)) config in
          Some outcome
      end
  end.

End session.
Arguments Shared : clear implicits.
