(* ===== verification/ConnectionTheorems.v ===== *)
(** * Connection establishment: theorems

    Validation, the handshake request as a responder reads it, termination of the handshake,
    its independence from fragmentation, and what an established session guarantees. *)

From S2P Require Export Connection.
Local Open Scope Z_scope.

(** ** Lemmas *)

(** The handshake request of a configuration. *)
Definition handshake_request (config : ConnectionConfig.t) : HandshakeRequest.t :=
  HandshakeRequest.new 0 0 (ConnectionConfig.desired_maximum_frame_size config)
    (CapabilityEntries.new []).

Definition handshake_outgoing (config : ConnectionConfig.t) (id : Z) : Outgoing.t :=
  Outgoing.mk Kind.Request HANDSHAKE_OPCODE id []
    (OutgoingPayload.Opaque_ (HandshakeRequest.encode (handshake_request config))).

Lemma handshake_request_wf config :
  ConnectionConfig.typed config → request_wf (handshake_request config).
Proof.
  intros (? & _). unfold request_wf, capabilities_wf. simpl.
  repeat split; simpl; try done; try lia; constructor.
Qed.

Lemma len_handshake_request config :
  len (HandshakeRequest.encode (handshake_request config)) = 10.
Proof. unfold HandshakeRequest.encode. simpl. by rw !len_app !len_to_le_bytes. Qed.

Lemma handshake_outgoing_typed config id :
  0 ≤ id ≤ U64_MAX → outgoing_typed (handshake_outgoing config id).
Proof. intros. unfold outgoing_typed. simpl. by repeat split; simpl; try done; try lia. Qed.

Lemma build_handshake_request_ok config id :
  0 ≤ id ≤ U64_MAX →
  build_handshake_request config id = Ok (frame_bytes (frame_of (handshake_outgoing config id))) ∧
  len (frame_bytes (frame_of (handshake_outgoing config id))) = 30.
Proof.
  intros Hid. unfold build_handshake_request, encode. fold (handshake_request config).
  fold (handshake_outgoing config id).
  pose proof (encode_with_max_cases (handshake_outgoing config id) MAX_FRAME_SIZE MAX_METADATA_SIZE
                (handshake_outgoing_typed config id Hid) ltac:(done)) as Hc.
  assert (len (frame_bytes (frame_of (handshake_outgoing config id))) = 30) as Hlen.
  { unfold frame_bytes. rw len_app len_header_bytes len_app frame_region_of.
    simpl. rw len_handshake_request. done. }
  assert (payload_representable (handshake_outgoing config id)) as Hrep.
  { split; [done|]. simpl. by rw len_handshake_request. }
  assert (metadata_ascends (handshake_outgoing config id)) as Hasc by done.
  destruct (encode_with_max _ _ _) as [bs|[]]; simpl.
  - destruct Hc as (_ & _ & _ & _ & ->). done.
  - done.
  - destruct Hc as (_ & _ & Hn). destruct Hn. rw Hlen. done.
  - by destruct Hc.
Qed.

Lemma handshake_bound_spec config :
  ConnectionConfig.typed config →
  handshake_bound config = Z.min (ConnectionConfig.local_maximum_frame_size config) MAX_FRAME_SIZE.
Proof.
  intros (_ & ? & _). unfold handshake_bound, MAX_FRAME_SIZE, U64_MAX in *.
  by rw try_from_fits; [unfold USIZE_MAX, U64_MAX; lia|].
Qed.

(** What a chunk read from a lawful transport is. *)
Lemma handshake_chunk {T : Type} {sent : T → list byte} `{LawfulTransport T sent} (t t' : T) n b :
  read t (replicate (Z.to_nat READ_CHUNK) x00) = (t', Ok n, b) → n ≠ 0 →
  1 ≤ len (unwrap_or (slice_get b 0 n) []) ≤ READ_CHUNK.
Proof.
  intros Hr Hn. pose proof (read_len _ _ _ _ _ Hr) as [Hb Hl].
  assert (len (replicate (Z.to_nat READ_CHUNK) x00) = READ_CHUNK) as Hrep.
  { unfold len. rw length_replicate. done. }
  rw Hrep in Hb. rw Hrep in Hl. unfold slice_get. rw Hl. zbool. cbn [unwrap_or]. rw drop_0.
  unfold len in *. rw length_take. unfold READ_CHUNK in *. lia.
Qed.

Section handshake_facts.
Context {T : Type} {sent : T → list byte} `{LawfulTransport T sent}.

(** The loop returns and sends nothing; a success is the interpretation of an accepted frame. *)
Lemma read_handshake_loop_spec fuel (t : T) config id buffer :
  handshake_bound config - len buffer ≤ Z.of_nat fuel →
  ∃ t' r, read_handshake_loop fuel t config id buffer = Some (t', r) ∧ sent t' = sent t ∧
    ∀ n, r = Ok n → ∃ f, frame_wf (handshake_admission id) f ∧ interpret_response f config = Ok n.
Proof.
  revert t buffer. induction fuel as [|fuel IH]; intros t buffer Hf; cbn [read_handshake_loop];
    (destruct (decode buffer (handshake_admission id)) as [n|f|g c] eqn:Ed;
     [| by exists t, (interpret_response f config); repeat split; intros n Hn; exists f;
           split; [apply (decode_frame_sound _ _ _ Ed)|]
      | by exists t, (Err (ConnectError.HandshakeFailure g))]);
    (destruct ((handshake_bound config <? n) || (handshake_bound config <=? len buffer)) eqn:Eb;
     [by exists t, (Err (ConnectError.HandshakeFailure Failure.resource_limit))|]);
    apply orb_false_iff in Eb as [Eb1 Eb2]; breflect; [lia|].
  pose proof (read_sent t (replicate (Z.to_nat READ_CHUNK) x00)) as Hs.
  destruct (read t (replicate (Z.to_nat READ_CHUNK) x00)) as [[t1 [k|e]] b] eqn:Er; cbn in Hs.
  2:{ by exists t1, (Err (ConnectError.Transport e)). }
  destruct (Z.eqb_spec k 0) as [->|Hk]; [by exists t1, (Err ConnectError.ClosedDuringHandshake)|].
  pose proof (handshake_chunk t t1 k b Er Hk) as Hc.
  destruct (IH t1 (buffer ++ unwrap_or (slice_get b 0 k) [])) as (t' & r & -> & Hs' & Hr).
  - rw len_app. lia.
  - exists t', r. rw Hs' Hs. done.
Qed.

End handshake_facts.

(** The negotiated values of an accepted handshake response. *)
Definition negotiated_ok (config : ConnectionConfig.t) (n : Negotiated.t) : Prop :=
  Negotiated.protocol_version n = 0 ∧ Negotiated.accepted_capabilities n = [] ∧
  MINIMUM_NEGOTIATED_FRAME_SIZE ≤ Negotiated.maximum_frame_size n ≤ U32_MAX ∧
  MINIMUM_NEGOTIATED_METADATA_SIZE ≤ Negotiated.maximum_metadata_size n ≤ U16_MAX ∧
  Negotiated.local_maximum_frame_size n = ConnectionConfig.local_maximum_frame_size config ∧
  Negotiated.local_maximum_metadata_size n = ConnectionConfig.local_maximum_metadata_size config.

Lemma interpret_response_ok f config n :
  interpret_response f config = Ok n → negotiated_ok config n.
Proof.
  unfold interpret_response. destruct (Header.kind (Frame.header f)); [done | | done].
  destruct (Header.code (Frame.header f) =? 0); [|done].
  destruct (Frame.payload f) as [p| |]; [|done..].
  destruct (HandshakeResponse.decode p OFFER) as [r|e] eqn:E; [|done].
  cbn [map_err]. intros [= <-].
  assert (response_wf OFFER r) as ((? & ? & ? & _) & (_ & ? & ? & ?) & Hof).
  { destruct (response_decode_cases p OFFER) as [E'|(r' & (-> & ? & ?) & E')];
      rw E in E'; [done|].
    destruct (HandshakeResponse.check_offered OFFER _) as [[]|] eqn:Ec; [|done].
    injection E' as <-. by apply check_offered_spec in Ec. }
  unfold negotiated_ok. simpl in *. repeat split; try done; try lia.
  unfold response_offered in Hof.
  destruct (CapabilityEntries.entries _) as [|e es]; [done|].
  apply Forall_cons in Hof as [Hof _]. by apply elem_of_nil in Hof.
Qed.

Lemma retired_empty id :
  let '(_, r) := InFlightRegistry.insert InFlightRegistry.new id in
  InFlightRegistry.live (InFlightRegistry.retire r id).2 = ∅.
Proof.
  unfold InFlightRegistry.insert, InFlightRegistry.new. simpl.
  destruct (id =? 0); [set_solver|]. destruct (InFlightRegistry.contains _ _); set_solver.
Qed.

(** Every outcome of the exchange on a lawful transport. *)
Lemma exchange_cases {T : Type} {sent : T → list byte} `{LawfulTransport T sent} (t : T) config :
  ConnectionConfig.typed config →
  ∃ t' r, exchange t config = Some (t', r) ∧
    ∀ n, r = Ok n → negotiated_ok config n ∧
      Negotiated.maximum_frame_size n ≤ ConnectionConfig.local_maximum_frame_size config ∧
      Negotiated.maximum_metadata_size n ≤ ConnectionConfig.local_maximum_metadata_size config ∧
      sent t' = sent t ++ frame_bytes (frame_of (handshake_outgoing config HANDSHAKE_REQUEST_ID)).
Proof.
  intros Hty. unfold exchange.
  change (RequestIdAllocator.allocate RequestIdAllocator.new)
    with (1, RequestIdAllocator.mk 2). cbv iota beta. change (negb (1 =? HANDSHAKE_REQUEST_ID)) with false.
  cbv iota. pose proof (retired_empty 1) as Hret.
  destruct (InFlightRegistry.insert InFlightRegistry.new 1) as [ins reg] eqn:Ei.
  destruct (is_err ins); [by eexists _, _|].
  destruct (build_handshake_request_ok config 1) as [-> Hlen]; [done|].
  destruct (write_all_loop_spec
    (length (frame_bytes (frame_of (handshake_outgoing config 1)))) t
    (frame_bytes (frame_of (handshake_outgoing config 1))) 0)
    as (t1 & w & k & Hw & _ & Hok); [lia | by rw Hlen | unfold len; lia|].
  unfold write_request, write_all. rw Hw. destruct w as [[]|e]; cbn [map_err]; [|by eexists _, _].
  specialize (Hok eq_refl). rw drop_0 in Hok.
  destruct (read_handshake_loop_spec (Z.to_nat (handshake_bound config)) t1 config 1 [])
    as (t2 & r & Hr & Hs & Hwf).
  { unfold len. simpl. lia. }
  unfold read_handshake_response. rw Hr. destruct r as [n|e]; [|by eexists _, _].
  destruct (Hwf n eq_refl) as (f & _ & Hint%interpret_response_ok).
  unfold InFlightRegistry.contains, InFlightRegistry.is_empty, InFlightRegistry.len,
    InFlightRegistry.live_ids. rw Hret. cbn [orb]. rw elements_empty size_empty.
  rw (bool_decide_eq_false_2 (1 ∈ ∅)); [set_solver|].
  rw bool_decide_eq_true_2; [done|]. cbn [negb orb is_empty].
  change (Z.of_nat 0 =? len []) with true. cbn [negb].
  destruct (ConnectionConfig.local_maximum_frame_size config <? _) eqn:E1; [by eexists _, _|].
  destruct (ConnectionConfig.local_maximum_metadata_size config <? _) eqn:E2; [by eexists _, _|].
  breflect. eexists _, _. split; [done|]. intros ? [= <-].
  split; [done|]. split; [lia|]. split; [lia|]. by rw Hs Hok.
Qed.

(** ** Fragmented responses *)

(** One read of the in-memory transport moves a prefix of what is left. *)
Lemma memory_read_chunk m :
  InMemoryTransport.closed m = false →
  ∃ k m', let b := (read m (replicate (Z.to_nat READ_CHUNK) x00)).2 in
    read m (replicate (Z.to_nat READ_CHUNK) x00) = (m', Ok k, b) ∧
    k = Z.min (Z.min READ_CHUNK (Z.of_N (InMemoryTransport.read_step m)))
          (len (InMemoryTransport.inbound m)) ∧
    unwrap_or (slice_get b 0 k) [] ++ InMemoryTransport.inbound m' = InMemoryTransport.inbound m ∧
    len (unwrap_or (slice_get b 0 k) []) = k ∧
    InMemoryTransport.closed m' = false ∧
    InMemoryTransport.read_step m' = InMemoryTransport.read_step m.
Proof.
  intros Hc. cbn [read in_memory_transport]. unfold InMemoryTransport.read. rw Hc.
  assert (len (replicate (Z.to_nat READ_CHUNK) x00) = READ_CHUNK) as ->.
  { unfold len. rw length_replicate. done. }
  set (k := Z.min _ _). eexists k, _. split; [done|]. split; [done|].
  pose proof (len_nonneg (InMemoryTransport.inbound m)).
  assert (0 ≤ k ≤ len (InMemoryTransport.inbound m)) as Hk by (unfold k, READ_CHUNK; lia).
  cbn [snd InMemoryTransport.inbound].
  assert (len (take (Z.to_nat k) (InMemoryTransport.inbound m)) = k) as Hl.
  { unfold len in *. rw length_take. lia. }
  rw -{1}(app_nil_l (take _ _ ++ drop _ _)) (slice_get_mid [] (take (Z.to_nat k) _) _ 0 k);
    [done | rw Hl; done|]. cbn [unwrap_or]. split; [apply take_drop | done].
Qed.

(** A prefix of a frame's bytes and what follows it. *)
Lemma prefix_or_whole (buffer inbound f rest : list byte) :
  buffer ++ inbound = f ++ rest →
  (∃ q, q ≠ [] ∧ f = buffer ++ q ∧ inbound = q ++ rest) ∨ ∃ x, buffer = f ++ x.
Proof.
  intros H. apply app_eq_inv in H as [(k & -> & ->)|(k & -> & ->)].
  - right. by exists k.
  - destruct k as [|x k]; [right; exists []; by rw !app_nil_r|].
    left. by exists (x :: k).
Qed.

Lemma read_handshake_fragments fuel m config id f rest buffer :
  frame_wf (handshake_admission id) f → len (frame_bytes f) ≤ handshake_bound config →
  InMemoryTransport.closed m = false → (1 ≤ InMemoryTransport.read_step m)%N →
  buffer ++ InMemoryTransport.inbound m = frame_bytes f ++ rest →
  handshake_bound config - len buffer ≤ Z.of_nat fuel →
  ∃ m', read_handshake_loop fuel m config id buffer = Some (m', interpret_response f config).
Proof.
  intros Hwf Hbound. revert m buffer. induction fuel as [|fuel IH]; intros m buffer Hc Hstep Hb Hf;
    (destruct (prefix_or_whole _ _ _ _ Hb) as [(q & Hq & Hfq & Hin)|[x ->]];
     [|exists m; destruct fuel || idtac; cbn [read_handshake_loop]; by rw decode_frame_complete]);
    assert (0 < len q) by (destruct q; [done | rw len_cons; pose proof (len_nonneg q); lia]);
    assert (len (frame_bytes f) = len buffer + len q) as Hlf by (rw Hfq; apply len_app); [lia|].
  cbn [read_handshake_loop].
  destruct (strict_prefix_needs _ _ _ _ Hwf Hfq Hq) as (n & -> & Hn). zbool.
  destruct (memory_read_chunk m Hc) as (k & m' & Hr & Hk & Hpart & Hpl & Hc' & Hs').
  cbv zeta in Hr, Hpart, Hpl. destruct (read m _) as [[m1 o] b]. simplify_eq/=.
  assert (len (InMemoryTransport.inbound m) = len q + len rest) as Hli by (rw Hin; apply len_app).
  pose proof (len_nonneg rest).
  set (k := Z.min _ _) in *. assert (1 ≤ k) by (unfold k, READ_CHUNK; lia).
  zbool. apply IH; [done | by rw Hs' | by rw -app_assoc Hpart |].
  rw len_app Hpl. lia.
Qed.

(** A driver starts with its invariant. *)
Lemma spawn_inv {T : Type} limits (t : T) st : driver_inv limits (spawn t st).
Proof. split; [split; simpl; set_solver | auto with rp1]. Qed.

(** ** Properties *)

(** A configuration is valid exactly when its endpoint is not blank, every proposed and
    local size is at least the protocol floor, and at least one request may be in flight. *)
Theorem validate_exact c :
  ConnectionConfig.validate c = Ok tt ↔
  (∃ ch, ch ∈ ConnectionConfig.endpoint c ∧ is_whitespace ch = false) ∧
  MINIMUM_NEGOTIATED_FRAME_SIZE ≤ ConnectionConfig.desired_maximum_frame_size c ∧
  MINIMUM_NEGOTIATED_FRAME_SIZE ≤ ConnectionConfig.local_maximum_frame_size c ∧
  MINIMUM_NEGOTIATED_METADATA_SIZE ≤ ConnectionConfig.local_maximum_metadata_size c ∧
  1 ≤ ConnectionConfig.maximum_in_flight c.
Proof.
  assert (trims_to_empty (ConnectionConfig.endpoint c) = false ↔
          ∃ ch, ch ∈ ConnectionConfig.endpoint c ∧ is_whitespace ch = false) as <-.
  { unfold trims_to_empty. induction (ConnectionConfig.endpoint c) as [|x l IH]; simpl.
    - split; [done|]. by intros (? & ?%elem_of_nil & _).
    - rw andb_false_iff IH. split.
      + intros [?|(ch & ? & ?)]; [exists x | exists ch]; set_solver.
      + intros (ch & [->|?]%elem_of_cons & ?); eauto. }
  unfold ConnectionConfig.validate, MINIMUM_MAXIMUM_IN_FLIGHT.
  destruct (trims_to_empty _); [naive_solver|].
  repeat case_match; breflect; naive_solver lia.
Qed.

(** The first frame a client sends is a handshake request a responder accepts: from any
    configuration the request encodes, and a server that has not negotiated yet decodes it to
    the offer of version 0, the desired frame size and no capability. *)
Theorem handshake_request_accepted config rest :
  ConnectionConfig.typed config →
  ∃ bytes f payload,
    build_handshake_request config HANDSHAKE_REQUEST_ID = Ok bytes ∧
    decode (bytes ++ rest)
      (Admission.mk Role.Server ProtocolState.PreNegotiation Limits.PRE_NEGOTIATION []) =
      Step.Frame f ∧
    Frame.payload f = Payload.Opaque_ payload ∧
    HandshakeRequest.decode payload =
      Ok (HandshakeRequest.mk 0 0 (ConnectionConfig.desired_maximum_frame_size config) 0
            (CapabilityEntries.new [])).
Proof.
  intros Hty. destruct (build_handshake_request_ok config 1) as [Hb Hlen]; [done|].
  exists (frame_bytes (frame_of (handshake_outgoing config 1))),
    (frame_of (handshake_outgoing config 1)), (HandshakeRequest.encode (handshake_request config)).
  split; [exact Hb|]. split; [|split; [done|]].
  - apply decode_frame_complete.
    apply (sent_frame_wf _ MAX_FRAME_SIZE MAX_METADATA_SIZE); try done.
    + by left.
    + split; [done|]. by intros ?%elem_of_nil.
    + split; [done|]. by eexists.
  - by apply (request_decode_complete (handshake_request config)), handshake_request_wf.
Qed.

(** The handshake always ends: on any lawful transport, whatever the peer sends, the
    exchange returns a negotiated session or an error within the reads its buffer bound
    allows. *)
Theorem handshake_terminates {T : Type} {sent : T → list byte} `{LawfulTransport T sent}
    (t : T) config :
  ConnectionConfig.typed config → is_Some (exchange t config).
Proof. intros Hty. destruct (exchange_cases t config Hty) as (t' & r & -> & _). done. Qed.

(** C20. A session is established only within contract: when the exchange succeeds, the client
    has sent exactly one handshake request, the version is 0, no capability is accepted, and
    both sizes are at least the floors and at most the local caps. *)
Theorem handshake_safe {T : Type} {sent : T → list byte} `{LawfulTransport T sent}
    (t t' : T) config n :
  ConnectionConfig.typed config → exchange t config = Some (t', Ok n) →
  Negotiated.protocol_version n = 0 ∧ Negotiated.accepted_capabilities n = [] ∧
  MINIMUM_NEGOTIATED_FRAME_SIZE ≤ Negotiated.maximum_frame_size n ≤
    ConnectionConfig.local_maximum_frame_size config ∧
  MINIMUM_NEGOTIATED_METADATA_SIZE ≤ Negotiated.maximum_metadata_size n ≤
    ConnectionConfig.local_maximum_metadata_size config ∧
  ∃ request, build_handshake_request config HANDSHAKE_REQUEST_ID = Ok request ∧
    sent t' = sent t ++ request.
Proof.
  intros Hty He. destruct (exchange_cases t config Hty) as (t1 & r & He' & Hok).
  rw He in He'. injection He' as <- <-.
  destruct (Hok n eq_refl) as ((? & ? & ? & ? & _) & ? & ? & Hs).
  repeat split; try done; try lia.
  eexists. split; [by apply build_handshake_request_ok | done].
Qed.

(** The handshake completes however the response is fragmented: if the peer's bytes start
    with an acceptable frame that fits the buffer bound, the client interprets that frame, for
    every read size and whatever follows it. *)
Theorem handshake_fragmentation m config id f rest :
  frame_wf (handshake_admission id) f → len (frame_bytes f) ≤ handshake_bound config →
  InMemoryTransport.closed m = false → (1 ≤ InMemoryTransport.read_step m)%N →
  InMemoryTransport.inbound m = frame_bytes f ++ rest →
  ∃ m', read_handshake_response m config id = Some (m', interpret_response f config).
Proof.
  intros Hwf Hb Hc Hs Hin. eapply read_handshake_fragments; try done.
  unfold len. simpl. lia.
Qed.

(** An established session starts in a consistent state: it is usable, its effective
    bounds are the negotiated ones, and over TCP its driver satisfies the driver's invariant
    under those bounds and its first request id is not the handshake's. *)
Theorem establish_consistent {S : Type} {sent : S → list byte} `{LawfulTransport S sent}
    (t t' : AnyTransport.t S) config c :
  ConnectionConfig.typed config → establish t config = Some (t', Ok c) →
  shared_state c = ConnectionState.Usable ∧
  Semaphore.permits (admission c) = ConnectionConfig.maximum_in_flight config ∧
  Negotiated.effective_maximum_frame_size (negotiated c) =
    Negotiated.maximum_frame_size (negotiated c) ∧
  Negotiated.effective_maximum_metadata_size (negotiated c) =
    Negotiated.maximum_metadata_size (negotiated c) ∧
  match driver_task c with
  | Some d =>
      driver_inv (driver_limits config (negotiated c)) d ∧ shared_transport c = None ∧
      driver_limits config (negotiated c) =
        Limits.mk (Negotiated.maximum_frame_size (negotiated c))
          (Negotiated.maximum_metadata_size (negotiated c)) ∧
      (RequestIdAllocator.allocate (allocator c)).1 ≠ HANDSHAKE_REQUEST_ID
  | None => shared_transport c = Some t'
  end.
Proof.
  intros Hty He. unfold establish in He.
  destruct (exchange_cases t config Hty) as (t1 & r & Hx & Hok). rw Hx in He.
  destruct r as [n|]; [|done].
  destruct (Hok n eq_refl) as ((_ & _ & _ & _ & Hl1 & Hl2) & Hf & Hm & _).
  assert (Negotiated.effective_maximum_frame_size n = Negotiated.maximum_frame_size n) as E1.
  { unfold Negotiated.effective_maximum_frame_size. rw Hl1. destruct (_ <? _) eqn:E; breflect; lia. }
  assert (Negotiated.effective_maximum_metadata_size n = Negotiated.maximum_metadata_size n) as E2.
  { unfold Negotiated.effective_maximum_metadata_size. rw Hl2. destruct (_ <? _) eqn:E; breflect; lia. }
  assert (driver_limits config n =
          Limits.mk (Negotiated.maximum_frame_size n) (Negotiated.maximum_metadata_size n)) as E3.
  { unfold driver_limits. by rw !Z.min_l. }
  destruct (is_tcp t1); injection He as <- <-; simpl; (do 4 (split; [done|])); [|done].
  split; [apply spawn_inv|]. by split; [|split].
Qed.

(** ** Witnesses *)

Definition sample_config : ConnectionConfig.t := ConnectionConfig.new [0x61].

Lemma sample_config_typed : ConnectionConfig.typed sample_config.
Proof. repeat split; discriminate. Qed.

(** A valid response: version 0, the floors, no capability. *)
Definition sample_response : Frame.t :=
  frame_of (Outgoing.mk Kind.Response 0 1 []
    (OutgoingPayload.Opaque_
       (HandshakeResponse.encode (HandshakeResponse.mk 0 65536 4096 0 (CapabilityEntries.new []))))).
Definition sample_peer : InMemoryTransport.t :=
  InMemoryTransport.new (frame_bytes sample_response) 3 4.

Lemma sample_response_wf : frame_wf (handshake_admission 1) sample_response.
Proof.
  apply (decode_frame_sound (handshake_admission 1) (frame_bytes sample_response)).
  vm_compute. reflexivity.
Qed.

Lemma handshake_request_accepted_witness :
  ∃ bytes f payload,
    build_handshake_request sample_config HANDSHAKE_REQUEST_ID = Ok bytes ∧
    decode (bytes ++ [xff])
      (Admission.mk Role.Server ProtocolState.PreNegotiation Limits.PRE_NEGOTIATION []) =
      Step.Frame f ∧
    Frame.payload f = Payload.Opaque_ payload ∧
    HandshakeRequest.decode payload =
      Ok (HandshakeRequest.mk 0 0 65536 0 (CapabilityEntries.new [])).
Proof. exact (handshake_request_accepted sample_config [xff] sample_config_typed). Defined.

Lemma handshake_terminates_witness : is_Some (exchange sample_peer sample_config).
Proof.
  exact (handshake_terminates (sent := InMemoryTransport.written) sample_peer sample_config
           sample_config_typed).
Defined.

Lemma handshake_safe_witness :
  ∃ t' n, exchange sample_peer sample_config = Some (t', Ok n) ∧
    Negotiated.protocol_version n = 0 ∧ Negotiated.accepted_capabilities n = [].
Proof.
  destruct (exchange sample_peer sample_config) as [[t' [n|e]]|] eqn:E;
    [|vm_compute in E; discriminate..].
  exists t', n. split; [reflexivity|].
  destruct (handshake_safe (sent := InMemoryTransport.written) sample_peer t' sample_config n
              sample_config_typed E) as (Hv & Hc & _).
  split; [exact Hv | exact Hc].
Defined.

Lemma handshake_fragmentation_witness :
  ∃ m', read_handshake_response
          (InMemoryTransport.new (frame_bytes sample_response ++ [x00]) 1 1) sample_config 1 =
        Some (m', interpret_response sample_response sample_config).
Proof.
  apply (handshake_fragmentation _ sample_config 1 sample_response [x00]).
  - exact sample_response_wf.
  - vm_compute. discriminate.
  - reflexivity.
  - discriminate.
  - reflexivity.
Defined.

Lemma establish_consistent_witness :
  ∃ t' c,
    establish (AnyTransport.Tcp (TokioTransport.mk sample_peer)) sample_config =
      Some (t', Ok c) ∧
    Negotiated.effective_maximum_frame_size (negotiated c) =
      Negotiated.maximum_frame_size (negotiated c).
Proof.
  destruct (establish (AnyTransport.Tcp (TokioTransport.mk sample_peer)) sample_config)
    as [[t' [c|e]]|] eqn:E; [|vm_compute in E; discriminate..].
  exists t', c. split; [reflexivity|].
  apply (establish_consistent (sent := InMemoryTransport.written)
           (AnyTransport.Tcp (TokioTransport.mk sample_peer)) t' sample_config c
           sample_config_typed E).
Defined.
