(* ===== verification/Client.v ===== *)
(** * The client operations

    [CommandError] and the request path of [src/src/connection/mod.rs]: [execute], its helpers,
    and the five operations. The points where the source awaits are arguments: how the
    admission semaphore answered and what became of the submission, each with the lifecycle
    state read at that moment. *)

From S2P Require Export Command ConnectionTheorems.
Local Open Scope Z_scope.

(** ** Errors *)

Module CommandError.
Inductive t :=
| LocalLimitExceeded (requested limit : Z)
| InvalidRequest
| UnsupportedOperation
| InvalidArgument
| Overloaded
| WrongType
| InternalError
| ProtocolViolation
| MalformedRequest
| ResourceLimit
| UnsupportedProtocolVersion
| Transport (error : IoError.t)
| Closed
| Unusable.
#[global] Instance eq_dec : EqDecision t.
Proof. solve_decision. Defined.

Definition is_ambiguous (e : t) : bool :=
  match e with
  | InternalError | Transport _ | Closed | Unusable => true
  | _ => false
  end.

Definition scope (e : t) : option FailureScope.t :=
  match e with
  | UnsupportedOperation | InvalidArgument | Overloaded | WrongType | InternalError =>
      Some FailureScope.RequestScoped
  | ProtocolViolation | MalformedRequest | ResourceLimit | UnsupportedProtocolVersion =>
      Some FailureScope.ConnectionFatal
  | _ => None
  end.

Definition from_class (c : ErrorClass.t) : t :=
  match c with
  | ErrorClass.MalformedRequest => MalformedRequest
  | ErrorClass.UnsupportedProtocolVersion => UnsupportedProtocolVersion
  | ErrorClass.UnsupportedOperation => UnsupportedOperation
  | ErrorClass.InvalidArgument => InvalidArgument
  | ErrorClass.ResourceLimit => ResourceLimit
  | ErrorClass.Overloaded => Overloaded
  | ErrorClass.InternalError => InternalError
  | ErrorClass.ProtocolViolation => ProtocolViolation
  | ErrorClass.WrongType => WrongType
  end.

Definition from_failure (f : Failure.t) : t := from_class (Failure.class f).

Definition from_command_failure (f : CommandFailure.t) : t := from_class (CommandFailure.class f).

Definition from_driver (e : DriverError.t) : t :=
  match e with
  | DriverError.RequestFailed failure | DriverError.ConnectionFatal failure => from_failure failure
  | DriverError.Transport => Transport IoError.ConnectionAborted
  | DriverError.Closed => Closed
  | DriverError.Unusable => Unusable
  end.
End CommandError.

(** ** The request path *)

(** [wire_size]. *)
Definition wire_size (payload_len : Z) : Z :=
  unwrap_or
    (let? header := try_from U64_MAX HEADER_LENGTH in
     checked_add U64_MAX header (unwrap_or (try_from U64_MAX payload_len) U64_MAX))
    U64_MAX.

(** The error [acquire_permit] and [completion_lost] derive from the lifecycle state. *)
Definition completion_lost (state : ConnectionState.t) : CommandError.t :=
  match state with
  | ConnectionState.Closed | ConnectionState.Closing => CommandError.Closed
  | ConnectionState.Failed => CommandError.Transport IoError.ConnectionAborted
  | _ => CommandError.Unusable
  end.

(** How the semaphore answered. *)
Inductive acquired := Granted | AcquireClosed (state : ConnectionState.t).

Definition acquire_permit (a : acquired) : result unit CommandError.t :=
  match a with
  | Granted => Ok tt
  | AcquireClosed state => Err (completion_lost state)
  end.

(** What became of a submission: the channel was closed, the completion was dropped, or the
    driver answered. *)
Inductive submission :=
| SendFailed (state : ConnectionState.t)
| CompletionDropped (state : ConnectionState.t)
| Completed (outcome : result (list byte) DriverError.t).

Definition encode_request (opcode : Z) (payload : list byte) (id effective_frame effective_metadata : Z)
    : result (list byte) CommandError.t :=
  let outgoing := Outgoing.mk Kind.Request opcode id [] (OutgoingPayload.Opaque_ payload) in
  map_err (λ error,
    match error with
    | EncodeError.FrameTooLarge | EncodeError.MetadataTooLarge =>
        CommandError.LocalLimitExceeded (wire_size (len payload)) effective_frame
    | EncodeError.MetadataNotAscending => CommandError.InvalidRequest
    end) (encode_with_max outgoing effective_frame effective_metadata).

Section client.
Context {S : Type}.
Implicit Types (c : Shared S).

Definition check_usable (c : Shared S) : result unit CommandError.t :=
  if ConnectionState.is_usable (shared_state c) then Ok tt else
  Err (match shared_state c with
       | ConnectionState.Closed | ConnectionState.Closing => CommandError.Closed
       | ConnectionState.Failed => CommandError.Transport IoError.ConnectionAborted
       | ConnectionState.Unusable | ConnectionState.Usable => CommandError.Unusable
       end).

Definition effective_limits (c : Shared S) : Z * Z :=
  (Negotiated.effective_maximum_frame_size (negotiated c),
   Negotiated.effective_maximum_metadata_size (negotiated c)).

Definition set_allocator (c : Shared S) (a : RequestIdAllocator.t) : Shared S :=
  mk_shared (negotiated c) (shared_state c) (shared_transport c) (admission c)
    (maximum_in_flight c) (submit_tx c) a (driver_task c) (shutdown_tx c).

Definition allocate_id (c : Shared S) : Shared S * result Z CommandError.t :=
  let '(id, a) := RequestIdAllocator.allocate (allocator c) in
  let c := set_allocator c a in
  if id =? 0 then (c, Err CommandError.Unusable) else (c, Ok id).

(** What is handed to the driver, and the outcome. *)
Definition submit (c : Shared S) (id : Z) (bytes : list byte) (became : submission)
    : list (Z * list byte) * result (Z * list byte) CommandError.t :=
  if negb (submit_tx c) then ([], Err CommandError.Unusable) else
  match became with
  | SendFailed state => ([], Err (completion_lost state))
  | CompletionDropped state => ([(id, bytes)], Err (completion_lost state))
  | Completed (Ok frame_bytes) => ([(id, bytes)], Ok (id, frame_bytes))
  | Completed (Err driver_error) => ([(id, bytes)], Err (CommandError.from_driver driver_error))
  end.

(** [execute]: the session it leaves, what it handed to the driver, and its outcome. *)
Definition execute (c : Shared S) (opcode : Z) (payload : list byte) (a : acquired)
    (became : submission) : Shared S * list (Z * list byte) * result (Z * list byte) CommandError.t :=
  match check_usable c with
  | Err e => (c, [], Err e)
  | Ok _ =>
  let '(effective_frame, effective_metadata) := effective_limits c in
  let total := wire_size (len payload) in
  if effective_frame <? total
  then (c, [], Err (CommandError.LocalLimitExceeded total effective_frame)) else
  match acquire_permit a with
  | Err e => (c, [], Err e)
  | Ok _ =>
  let '(c, id) := allocate_id c in
  match id with
  | Err e => (c, [], Err e)
  | Ok id =>
  match encode_request opcode payload id effective_frame effective_metadata with
  | Err e => (c, [], Err e)
  | Ok bytes =>
      let '(handed, outcome) := submit c id bytes became in (c, handed, outcome)
  end end end end.

(** [decode_own]: the frame the driver attributed to this request. *)
Definition decode_own (c : Shared S) (frame_bytes : list byte) : result Frame.t CommandError.t :=
  let request_id :=
    match slice_get frame_bytes 12 20 with
    | Some slice =>
        match try_into_array 8 slice with Some array => from_le_bytes array | None => 0 end
    | None => 0
    end in
  let admission :=
    Admission.mk Role.Client ProtocolState.Negotiated
      (Limits.mk (Negotiated.effective_maximum_frame_size (negotiated c))
         (Negotiated.effective_maximum_metadata_size (negotiated c))) [request_id] in
  match decode frame_bytes admission with
  | Step.Frame frame => Ok frame
  | Step.Failure failure _ => Err (CommandError.from_failure failure)
  | Step.Need _ => Err CommandError.ProtocolViolation
  end.

(** [execute], [decode_own] and the interpretation, which every operation chains. *)
Definition run_command {A} (c : Shared S) (opcode : Z) (payload : list byte)
    (interpret : Frame.t → result A CommandFailure.t) (a : acquired) (became : submission)
    : Shared S * list (Z * list byte) * result A CommandError.t :=
  let '(c', handed, outcome) := execute c opcode payload a became in
  (c', handed,
   let! (_, frame_bytes) := outcome in
   let! frame := decode_own c frame_bytes in
   map_err CommandError.from_command_failure (interpret frame)).

Definition ping c a became := run_command c PING_OPCODE encode_ping interpret_ping a became.
Definition get c (key : list byte) a became :=
  run_command c GET_OPCODE (encode_key key) interpret_get a became.
Definition set c (key value : list byte) a became
    : Shared S * list (Z * list byte) * result unit CommandError.t :=
  match encode_set key value with
  | Err _ => (c, [], Err CommandError.InvalidRequest)
  | Ok payload => run_command c SET_OPCODE payload interpret_set a became
  end.
Definition del c (key : list byte) a became :=
  run_command c DEL_OPCODE (encode_key key) interpret_del a became.
Definition exists_ c (key : list byte) a became :=
  run_command c EXISTS_OPCODE (encode_key key) interpret_exists a became.

End client.
