(* ===== verification/ClientTheorems.v ===== *)
(** * The client operations: theorems

    Local refusals hand nothing to the driver; what is handed over is a frame a responder
    accepts; a delivered answer reaches the caller unchanged; and how errors are classified. *)

From S2P Require Export Client.
Local Open Scope Z_scope.

(** ** Lemmas *)

Lemma wire_size_spec n : 0 ≤ n → wire_size n = Z.min (HEADER_LENGTH + n) U64_MAX.
Proof.
  intros Hn. unfold wire_size. rw (try_from_fits U64_MAX HEADER_LENGTH); [done|].
  unfold try_from, fits, checked_add, HEADER_LENGTH, U64_MAX.
  destruct (Z.leb_spec n 18446744073709551615); zbool; cbn [unwrap_or];
    destruct (Z.leb_spec (20 + n) 18446744073709551615); zbool; cbn [unwrap_or]; lia.
Qed.

(** The request frame [execute] builds. *)
Definition request_outgoing (opcode id : Z) (payload : list byte) : Outgoing.t :=
  Outgoing.mk Kind.Request opcode id [] (OutgoingPayload.Opaque_ payload).

(** The sizes an established session negotiated. *)
Definition session_typed {S} (c : Shared S) : Prop :=
  HEADER_LENGTH ≤ Negotiated.effective_maximum_frame_size (negotiated c) ≤ U32_MAX ∧
  0 ≤ Negotiated.effective_maximum_metadata_size (negotiated c) ≤ U16_MAX ∧
  allocator_typed (allocator c).

Lemma len_request_frame opcode id payload :
  len (frame_bytes (frame_of (request_outgoing opcode id payload))) = HEADER_LENGTH + len payload.
Proof.
  unfold frame_bytes. rw len_app len_header_bytes len_app frame_region_of. simpl.
  change (len (region_bytes [])) with 0. lia.
Qed.

Lemma request_outgoing_typed opcode id payload :
  0 ≤ opcode ≤ U16_MAX → 0 ≤ id ≤ U64_MAX → outgoing_typed (request_outgoing opcode id payload).
Proof. intros. unfold outgoing_typed. simpl. by repeat split; simpl; try done; try lia. Qed.

(** After the size check the encoder cannot refuse. *)
Lemma encode_request_ok opcode payload id ef em :
  0 ≤ opcode ≤ U16_MAX → 0 ≤ id ≤ U64_MAX → 0 ≤ em ≤ U16_MAX → ef ≤ U32_MAX →
  HEADER_LENGTH + len payload ≤ ef →
  encode_request opcode payload id ef em =
    Ok (frame_bytes (frame_of (request_outgoing opcode id payload))).
Proof.
  intros Hop Hid Hem Hef Hfit. unfold encode_request. fold (request_outgoing opcode id payload).
  pose proof (encode_with_max_cases (request_outgoing opcode id payload) ef em
                (request_outgoing_typed opcode id payload Hop Hid) ltac:(lia)) as Hc.
  rw len_request_frame in Hc. unfold HEADER_LENGTH in *.
  assert (payload_representable (request_outgoing opcode id payload)) as Hrep.
  { split; [done|]. simpl. lia. }
  destruct (encode_with_max _ _ _) as [bs|[]]; cbn [map_err].
  - by destruct Hc as (_ & _ & _ & _ & ->).
  - by destruct Hc.
  - destruct Hc as (_ & _ & []). done.
  - destruct Hc as [_ Hc]. unfold len in Hc. simpl in Hc. lia.
Qed.

(** A frame stays acceptable under another list of in-flight ids that has its request. *)
Lemma frame_wf_in_flight role st limits xs ys f :
  frame_wf (Admission.mk role st limits xs) f → Header.kind (Frame.header f) ≠ Kind.Request →
  names f ∈ ys → frame_wf (Admission.mk role st limits ys) f.
Proof.
  intros [] Hk Hin. split; try done. simpl in *. unfold identity_ok in *.
  destruct (Header.kind (Frame.header f)); [done | |].
  - split; [apply wf_identity | done].
  - intros c Hc Hs. split; [by eapply wf_identity | done].
Qed.

(** Whether the semaphore granted a permit. *)
Definition granted (a : acquired) : bool := match a with Granted => true | AcquireClosed _ => false end.

(** The limits a session decodes its own frames under. *)
Definition session_limits {S} (c : Shared S) : Limits.t :=
  Limits.mk (Negotiated.effective_maximum_frame_size (negotiated c))
    (Negotiated.effective_maximum_metadata_size (negotiated c)).

(** The second decode of a delivered frame agrees with the driver's. *)
Lemma decode_own_delivered {S} (c : Shared S) live f :
  frame_wf (driver_admission (session_limits c) live) f → decode_own c (frame_bytes f) = Ok f.
Proof.
  intros Hwf. unfold decode_own.
  assert (RawHeader.parse (frame_bytes f) = Some (raw_of (Frame.header f))) as Hp.
  { unfold frame_bytes. apply raw_parse_complete, Hwf. }
  apply header_request_id_parse in Hp. unfold header_request_id in Hp.
  assert (Header.kind (Frame.header f) ≠ Kind.Request) as Hk.
  { pose proof (wf_direction _ _ Hwf) as Hd. by destruct (Header.kind (Frame.header f)). }
  destruct (slice_get (frame_bytes f) 12 20) as [sl|]; [|done].
  destruct (try_into_array 8 sl) as [ar|]; [|done]. injection Hp as ->.
  rw -(app_nil_r (frame_bytes f)) decode_frame_complete; [|done].
  eapply frame_wf_in_flight; [exact Hwf | done | apply list_elem_of_singleton; done].
Qed.

(** A command whose request fits is handed over under the next id and gives what the delivered
    frame means. *)
Lemma run_command_delivers {S A} (c : Shared S) opcode payload (interpret : Frame.t → result A CommandFailure.t)
    live f :
  session_typed c → submit_tx c = true → ConnectionState.is_usable (shared_state c) = true →
  0 ≤ opcode ≤ U16_MAX →
  HEADER_LENGTH + len payload ≤ Negotiated.effective_maximum_frame_size (negotiated c) →
  frame_wf (driver_admission (session_limits c) live) f →
  let '(id, a) := RequestIdAllocator.allocate (allocator c) in
  run_command c opcode payload interpret Granted (Completed (Ok (frame_bytes f))) =
    (set_allocator c a, [(id, frame_bytes (frame_of (request_outgoing opcode id payload)))],
     map_err CommandError.from_command_failure (interpret f)).
Proof.
  intros (Hf & Hm & Ha) Htx Hu Hop Hfit Hwf.
  unfold run_command, execute, check_usable, effective_limits. rw Hu.
  pose proof (len_nonneg payload). rw wire_size_spec; [done|].
  set (ef := Negotiated.effective_maximum_frame_size _) in *.
  replace (ef <? Z.min (HEADER_LENGTH + len payload) U64_MAX) with false
    by (symmetry; apply Z.ltb_ge; lia).
  cbn [acquire_permit]. unfold allocate_id.
  pose proof (allocate_position (allocator c) Ha) as Hpos.
  destruct (RequestIdAllocator.allocate (allocator c)) as [i al]. destruct Hpos as (Hi & _ & _ & Hb).
  destruct (Z.eqb_spec i 0); [lia|].
  rw encode_request_ok; [done | lia | done | lia | done|].
  unfold submit. cbn [submit_tx set_allocator]. rw Htx. cbn [negb].
  by rw (decode_own_delivered c live f Hwf).
Qed.

(** An operation of the public interface, with its opcode and payload. *)
Inductive operation := Ping | Get (key : list byte) | Set_ (key value : list byte)
| Del (key : list byte) | Exists (key : list byte).

Definition opcode_of (op : operation) : Z :=
  match op with
  | Ping => PING_OPCODE | Get _ => GET_OPCODE | Set_ _ _ => SET_OPCODE
  | Del _ => DEL_OPCODE | Exists _ => EXISTS_OPCODE
  end.

Definition payload_of_op (op : operation) : result (list byte) SetEncodeError.t :=
  match op with
  | Ping => Ok encode_ping
  | Get key | Del key | Exists key => Ok (encode_key key)
  | Set_ key value => encode_set key value
  end.

Lemma opcode_of_u16 op : 0 ≤ opcode_of op ≤ U16_MAX.
Proof. by destruct op. Qed.

(** The payload of an operation has the layout a responder checks. *)
Lemma operation_payload_ok op p :
  payload_of_op op = Ok p → payload_ok Kind.Request (opcode_of op) (Payload.Opaque_ p).
Proof.
  intros Hp. split; [by destruct op|]. exists p. split; [done|].
  destruct op; simpl in *; simplify_eq; split; try done.
  intros _. apply encode_set_ok in Hp as [Hfit ->]. exists key, value. split; [|done].
  pose proof (len_nonneg value). unfold U32_MAX in *. lia.
Qed.

(** ** Properties *)

Section properties.
Context {S : Type}.
Implicit Types (c : Shared S).


(** Every operation's request is one the responder accepts: the frame built for any of the
    five operations, with any key and value it can encode, decodes at a server under limits no
    tighter than the client's to a request with that opcode, that id and that payload. *)
Theorem operation_accepted op payload id ef em bytes rest in_flight limits :
  payload_of_op op = Ok payload → 1 ≤ id ≤ U64_MAX → 0 ≤ em ≤ U16_MAX →
  encode_request (opcode_of op) payload id ef em = Ok bytes →
  ef ≤ Limits.frame_size limits → em ≤ Limits.metadata_size limits → id ∉ in_flight →
  decode (bytes ++ rest)
    (Admission.mk Role.Server ProtocolState.Negotiated limits in_flight) =
    Step.Frame (frame_of (request_outgoing (opcode_of op) id payload)).
Proof.
  intros Hp Hid Hem He Hfs Hms Hni. unfold encode_request in He.
  fold (request_outgoing (opcode_of op) id payload) in He.
  pose proof (request_outgoing_typed (opcode_of op) id payload (opcode_of_u16 op) ltac:(lia)) as Hty.
  pose proof (encode_with_max_cases (request_outgoing (opcode_of op) id payload) ef em Hty
                ltac:(lia)) as Hc.
  destruct (encode_with_max _ _ _) as [bs|]; [|done]. injection He as <-.
  destruct Hc as (Hasc & Hreg & Hrep & Htot & ->). apply decode_frame_complete.
  apply (sent_frame_wf _ ef em); try done; [lia | | |].
  - simpl. intros [_ Ho]. by destruct op.
  - simpl. split; [lia | done].
  - by apply operation_payload_ok.
Qed.

(** The answer reaches the caller unchanged: when the driver delivers an accepted frame,
    [get] returns exactly the answer that frame gives, present, absent, held outside memory or
    an error with its class. *)
Theorem get_returns_answer c key live f a :
  session_typed c → submit_tx c = true →
  ConnectionState.is_usable (shared_state c) = true →
  HEADER_LENGTH + len key ≤ Negotiated.effective_maximum_frame_size (negotiated c) →
  frame_wf (driver_admission (session_limits c) live) f → answer_of f a →
  (get c key Granted (Completed (Ok (frame_bytes f)))).2 = map_err CommandError.from_class a.
Proof.
  intros Ht Htx Hu Hfit Hwf Hans. unfold get, encode_key.
  pose proof (run_command_delivers c GET_OPCODE key interpret_get live f Ht Htx Hu ltac:(done) Hfit Hwf)
    as Hr.
  destruct (RequestIdAllocator.allocate (allocator c)) as [i al]. rw Hr. cbn [snd].
  unfold interpret_get, result_code_of, error_of, CommandError.from_command_failure.
  destruct Hans as [f v Hk Hc Hp|f Hk Hc|f n' Hk Hc Hp|f cl Hk Hc]; by rw Hk Hc ?from_wire_value ?Hp.
Qed.

End properties.

(** Error classes stay distinguishable: the class of a failure can be read back from the
    command error it becomes, with its scope. *)
Theorem from_class_faithful c c' :
  (CommandError.from_class c = CommandError.from_class c' → c = c') ∧
  CommandError.scope (CommandError.from_class c) = Some (ErrorClass.scope c).
Proof. split; [by destruct c, c' | by destruct c]. Qed.

(** A request that was waiting when another frame broke the protocol is reported as not
    ambiguous: the driver answers every waiter with the fatal failure, whose command error
    says that no mutation can have taken effect although no terminal response arrived. *)
Theorem fatal_failure_not_ambiguous s g w :
  session_inv s → w ∈ pending s → classified g →
  Failure.scope g = FailureScope.ConnectionFatal →
  (w, Err (DriverError.ConnectionFatal g)) ∈
    Session.log (fail_all s (DriverError.ConnectionFatal g)) ∧
  CommandError.is_ambiguous (CommandError.from_driver (DriverError.ConnectionFatal g)) = false.
Proof.
  intros Hinv Hw Hcl Hs. split.
  - destruct (fail_all_spec s (DriverError.ConnectionFatal g) Hinv) as (_ & _ & _ & ->).
    apply elem_of_app. right. apply list_elem_of_fmap. by exists w.
  - unfold classified in Hcl. rw Hs in Hcl. destruct g as [[] ?]; by simpl in *.
Qed.

(** ** Witnesses *)

Definition sample_shared : Shared InMemoryTransport.t :=
  mk_shared (Negotiated.mk 0 65536 4096 [] 65536 4096) ConnectionState.Usable None
    (Semaphore.new 64) 64 true (RequestIdAllocator.mk 7) None true.

Lemma sample_shared_typed : session_typed sample_shared.
Proof. repeat split; discriminate. Qed.


Lemma operation_accepted_witness :
  decode (frame_bytes (frame_of (request_outgoing SET_OPCODE 7 [x01; x00; x00; x00; x6b; x76])))
    (Admission.mk Role.Server ProtocolState.Negotiated Limits.PRE_NEGOTIATION [3]) =
  Step.Frame (frame_of (request_outgoing SET_OPCODE 7 [x01; x00; x00; x00; x6b; x76])).
Proof.
  pose proof (operation_accepted (Set_ [x6b] [x76]) [x01; x00; x00; x00; x6b; x76] 7 65536 4096
    (frame_bytes (frame_of (request_outgoing SET_OPCODE 7 [x01; x00; x00; x00; x6b; x76]))) [] [3]
    Limits.PRE_NEGOTIATION) as H.
  rw app_nil_r in H. apply H.
  - vm_compute. reflexivity.
  - split; discriminate.
  - split; discriminate.
  - vm_compute. reflexivity.
  - discriminate.
  - discriminate.
  - set_solver.
Defined.

Lemma get_returns_answer_witness :
  (get sample_shared [x6b] Granted (Completed (Ok (frame_bytes answer7)))).2 =
    Ok (GetOutcome.Present [x61]).
Proof.
  apply (get_returns_answer sample_shared [x6b] (InFlightRegistry.mk {[7]}) answer7
           (Ok (GetOutcome.Present [x61]))).
  - exact sample_shared_typed.
  - reflexivity.
  - reflexivity.
  - discriminate.
  - apply (decoded_wf _ _ _ (frame_bytes answer7)). vm_compute. reflexivity.
  - apply answer_present; reflexivity.
Defined.

Lemma from_class_faithful_witness :
  CommandError.scope (CommandError.from_class ErrorClass.Overloaded) =
    Some FailureScope.RequestScoped.
Proof. apply (from_class_faithful ErrorClass.Overloaded ErrorClass.Overloaded). Defined.

Lemma fatal_failure_not_ambiguous_witness :
  (0%nat, Err (DriverError.ConnectionFatal Failure.protocol_violation)) ∈
    Session.log (fail_all (sample_session []) (DriverError.ConnectionFatal Failure.protocol_violation)).
Proof.
  apply (fatal_failure_not_ambiguous (sample_session []) Failure.protocol_violation 0%nat).
  - apply sample_session_inv.
  - apply list_elem_of_In. vm_compute. tauto.
  - reflexivity.
  - reflexivity.
Defined.
