(* ===== verification/EndToEnd.v ===== *)
(** * The client end to end

    The composition of the client's components: callers ([Client]) allocate ids and hand
    frames to the driver ([Driver]), which writes them to the transport ([Transport]), reads
    the peer's bytes in whatever pieces they come and hands each terminal frame back to the
    caller that interprets it ([Command]). *)

From S2P Require Export ClientTheorems.
From Stdlib Require Import Strings.Byte.
Local Open Scope Z_scope.

(** ** The in-memory transport carries what it is given *)

Lemma memory_write_open (m : InMemoryTransport.t) bytes :
  InMemoryTransport.closed m = false → bytes ≠ [] →
  ∃ n, 1 ≤ n ≤ len bytes ∧
    write m bytes =
      (InMemoryTransport.mk (InMemoryTransport.inbound m) (InMemoryTransport.read_step m)
         (InMemoryTransport.written m ++ take (Z.to_nat n) bytes) (InMemoryTransport.write_step m)
         false (InMemoryTransport.fail_shutdown m), Ok n).
Proof.
  intros Hc Hne. cbn. unfold InMemoryTransport.write. rw Hc.
  assert (1 ≤ len bytes) as Hl.
  { destruct bytes; [done|]. rw len_cons. pose proof (len_nonneg bytes). lia. }
  set (n := Z.min _ _). assert (1 ≤ n ≤ len bytes) as Hn by (unfold n; lia).
  exists n. split; [done|]. rw (slice_get_at bytes (take (Z.to_nat n) bytes)).
  - by rw Z.sub_0_r drop_0.
  - lia.
  - cbn [unwrap_or]. f_equal. f_equal. unfold len in *. rw length_take. lia.
Qed.

(** Writing to an open in-memory transport succeeds, for every write step. *)
Lemma memory_write_all_loop fuel bytes offset (m : InMemoryTransport.t) :
  InMemoryTransport.closed m = false → len bytes ≤ USIZE_MAX → 0 ≤ offset ≤ len bytes →
  len bytes - offset ≤ Z.of_nat fuel →
  write_all_loop fuel m bytes offset =
    Some (InMemoryTransport.mk (InMemoryTransport.inbound m) (InMemoryTransport.read_step m)
            (InMemoryTransport.written m ++ drop (Z.to_nat offset) bytes)
            (InMemoryTransport.write_step m) false (InMemoryTransport.fail_shutdown m), Ok tt).
Proof.
  revert offset m. induction fuel as [|fuel IH]; intros offset m Hc Hmax Ho Hf;
    cbn [write_all_loop]; (destruct (offset <? len bytes) eqn:E; breflect; cbn [negb];
      [|rw drop_ge; [unfold len in *; lia|]; rw app_nil_r -Hc; by destruct m]); [lia|].
  rw (slice_from_at bytes (drop (Z.to_nat offset) bytes)); [done | lia|]. cbn [unwrap_or].
  assert (len (drop (Z.to_nat offset) bytes) = len bytes - offset) as Hl.
  { unfold len in *. rw length_drop. lia. }
  destruct (memory_write_open m (drop (Z.to_nat offset) bytes) Hc) as (n & Hn & ->).
  { intros Hd. rw Hd in Hl. unfold len at 1 in Hl. cbn in Hl. lia. }
  destruct (Z.eqb_spec n 0); [lia|]. rw checked_add_fits; [lia|].
  rw IH; [done | done | lia | lia|]. cbn. do 3 f_equal. rw -app_assoc. f_equal.
  replace (Z.to_nat (offset + n)) with (Z.to_nat offset + Z.to_nat n)%nat by lia.
  by rw -drop_drop take_drop.
Qed.

Lemma memory_write_all (m : InMemoryTransport.t) bytes :
  InMemoryTransport.closed m = false → len bytes ≤ USIZE_MAX →
  write_all m bytes =
    Some (InMemoryTransport.mk (InMemoryTransport.inbound m) (InMemoryTransport.read_step m)
            (InMemoryTransport.written m ++ bytes) (InMemoryTransport.write_step m) false
            (InMemoryTransport.fail_shutdown m), Ok tt).
Proof.
  intros Hc Hmax. unfold write_all. pose proof (len_nonneg bytes).
  rw memory_write_all_loop; [done | done | lia | unfold len; lia|]. by rw drop_0.
Qed.

(** Reading an open in-memory transport takes a prefix off the peer's bytes. *)
Lemma memory_chunk (m : InMemoryTransport.t) :
  InMemoryTransport.closed m = false → (1 ≤ InMemoryTransport.read_step m)%N →
  ∃ chunk rest, InMemoryTransport.inbound m = chunk ++ rest ∧
    (InMemoryTransport.inbound m = [] ∨ chunk ≠ []) ∧
    read_chunk m =
      (InMemoryTransport.mk rest (InMemoryTransport.read_step m) (InMemoryTransport.written m)
         (InMemoryTransport.write_step m) false (InMemoryTransport.fail_shutdown m),
       Ok (if bool_decide (chunk = []) then None else Some chunk)).
Proof.
  intros Hc Hs. unfold read_chunk. cbn [read in_memory_transport]. unfold InMemoryTransport.read. rw Hc.
  set (buf := replicate _ _).
  assert (len buf = READ_CHUNK) as Hbuf by (unfold buf, len; by rw length_replicate).
  rw Hbuf. pose proof (len_nonneg (InMemoryTransport.inbound m)).
  set (n := Z.min _ _). assert (0 ≤ n ≤ len (InMemoryTransport.inbound m)) as Hn by (unfold n, READ_CHUNK; lia).
  assert (n ≤ READ_CHUNK) as Hn' by (unfold n; lia).
  assert (InMemoryTransport.inbound m = [] ∨ 1 ≤ n) as Hpos.
  { destruct (InMemoryTransport.inbound m) as [|b l] eqn:E; [by left|]. right. unfold n.
    rw len_cons. pose proof (len_nonneg l). unfold READ_CHUNK. lia. }
  assert (length (take (Z.to_nat n) (InMemoryTransport.inbound m)) = Z.to_nat n) as Hl.
  { unfold len in *. rw length_take. lia. }
  exists (take (Z.to_nat n) (InMemoryTransport.inbound m)),
    (drop (Z.to_nat n) (InMemoryTransport.inbound m)).
  split; [by rw take_drop|]. split.
  - destruct Hpos as [|Hp]; [by left|]. right. intros Ht. rw Ht in Hl. cbn in Hl. lia.
  - destruct n as [|p|p] eqn:En; [done| |lia].
    case_bool_decide as Hb; [rw Hb in Hl; cbn in Hl; lia|].
    rw (slice_get_at _ (take (Z.to_nat (Zpos p)) (InMemoryTransport.inbound m))); [| |done].
    + rw Z.sub_0_r drop_0. rw take_app_le; [lia|]. by rw take_ge; [lia|].
    + unfold len in *. rw length_app length_drop Hl. lia.
Qed.

(** ** The driver over an in-memory transport *)

#[local] Abbreviation mem_driver := (driver InMemoryTransport.t).

(** The transport after [bytes] were written to it. *)
Definition wrote (m : InMemoryTransport.t) (bytes : list byte) : InMemoryTransport.t :=
  InMemoryTransport.mk (InMemoryTransport.inbound m) (InMemoryTransport.read_step m)
    (InMemoryTransport.written m ++ bytes) (InMemoryTransport.write_step m) false
    (InMemoryTransport.fail_shutdown m).

(** A driver that takes submissions and whose transport is open. *)
Definition open_driver (limits : Limits.t) (d : mem_driver) : Prop :=
  driver_inv limits d ∧ submit_closed d = false ∧
  InMemoryTransport.closed (transport d) = false.

(** A fresh submission is written and its channel waits. *)
Lemma submit_turn limits (d : mem_driver) (submit : Submit.t) :
  open_driver limits d → len (Submit.bytes submit) ≤ USIZE_MAX → Submit.id submit ≠ 0 →
  Submit.id submit ∉ dom (Session.completions (session d)) →
  ∃ d', driver_step limits d (Received (Some submit)) = Some (d', None) ∧ open_driver limits d' ∧
    transport d' = wrote (transport d) (Submit.bytes submit) ∧
    Session.completions (session d') =
      <[Submit.id submit := Submit.completion submit]> (Session.completions (session d)) ∧
    Session.log (session d') = Session.log (session d) ∧
    Session.buffer (session d') = Session.buffer (session d).
Proof.
  intros (Hinv & Hsc & Hcl) Hlen Hz Hni.
  destruct (on_submit_ok limits d submit Hinv Hlen) as (r & Hr & Hok).
  assert (∃ live, InFlightRegistry.insert (Session.live (session d)) (Submit.id submit) = (Ok tt, live))
    as [live Hins].
  { unfold InFlightRegistry.insert, InFlightRegistry.contains. rw (proj2 (Z.eqb_neq _ _) Hz).
    destruct Hinv as [[Hdom _] _]. rw -Hdom. rw bool_decide_eq_false_2; [done|]. by eexists. }
  cbn [driver_step]. rw Hsc Hr. unfold on_submit in Hr. rw Hins in Hr. cbn [is_err] in Hr.
  rw memory_write_all in Hr; [done | done|]. cbn [is_err] in Hr. injection Hr as <-.
  unfold settle in *. cbn [submit_closed] in *. rw Hsc in Hok. cbn [andb] in Hok. rw Hsc. cbn [andb].
  eexists. split; [reflexivity|]. split; [|done]. destruct Hok as (_ & _ & Hd). by split.
Qed.

(** Fresh submissions are taken one after the other. *)
Lemma submit_turns limits (subs : list Submit.t) (d : mem_driver) :
  open_driver limits d →
  Forall (λ s, len (Submit.bytes s) ≤ USIZE_MAX ∧ Submit.id s ≠ 0) subs →
  NoDup (Submit.id <$> subs) →
  (∀ s, s ∈ subs → Submit.id s ∉ dom (Session.completions (session d))) →
  ∃ d', (∀ evs, run_driver limits d (((λ s, Received (Some s)) <$> subs) ++ evs) =
                run_driver limits d' evs) ∧
    open_driver limits d' ∧ transport d' = wrote (transport d) (concat (Submit.bytes <$> subs)) ∧
    Session.log (session d') = Session.log (session d) ∧
    Session.buffer (session d') = Session.buffer (session d) ∧
    dom (Session.completions (session d')) =
      dom (Session.completions (session d)) ∪ list_to_set (Submit.id <$> subs) ∧
    (∀ s, s ∈ subs → Session.completions (session d') !! Submit.id s = Some (Submit.completion s)) ∧
    (∀ id, id ∉ Submit.id <$> subs →
       Session.completions (session d') !! id = Session.completions (session d) !! id).
Proof.
  revert d. induction subs as [|s subs IH]; intros d Ho Hall Hnd Hfresh.
  - exists d. destruct Ho as (? & ? & Hcl).
    split; [done|]. split; [done|]. split.
    + cbn. unfold wrote. rw app_nil_r -Hcl. by destruct (transport d).
    + repeat split; try done; [set_solver | by intros ? ?%elem_of_nil].
  - apply Forall_cons in Hall as [[Hl Hz] Hall]. cbn in Hnd. apply NoDup_cons in Hnd as [Hni Hnd].
    destruct (submit_turn limits d s Ho Hl Hz) as (d1 & Hstep & Ho1 & Ht & Hc & Hg & Hb).
    { apply Hfresh. left. }
    assert (∀ x, x ∈ subs → Submit.id x ≠ Submit.id s) as Hne.
    { intros x Hx He. apply Hni. rw -He. by apply list_elem_of_fmap_2. }
    destruct (IH d1) as (d' & Hrun & Ho' & Ht' & Hg' & Hb' & Hd' & Hin & Hout); [done..| |].
    { intros x Hx. rw Hc dom_insert_L. specialize (Hfresh x ltac:(by right)).
      specialize (Hne x Hx). set_solver. }
    exists d'. split; [intros evs; cbn [fmap list_fmap app run_driver]; rw Hstep; apply Hrun|].
    split; [done|]. split.
    { rw Ht' Ht. unfold wrote. cbn. by rw -app_assoc. }
    rw Hg' Hb' Hd' Hc dom_insert_L. repeat split; try done; [set_solver| |].
    + intros x [->|Hx]%elem_of_cons; [|by apply Hin]. rw Hout; [done|]. by rw Hc lookup_insert_eq.
    + intros id Hid. cbn in Hid. apply not_elem_of_cons in Hid as [Hne' Hid].
      rw Hout; [done|]. by rw Hc lookup_insert_ne.
Qed.

(** Reading until the peer's bytes are used up, however they are cut, does what draining all of
    them at once does. *)
Lemma read_turns limits n (d : mem_driver) s' :
  open_driver limits d → (1 ≤ InMemoryTransport.read_step (transport d))%N →
  (length (InMemoryTransport.inbound (transport d)) ≤ n)%nat →
  drain_frames limits (extend (session d) (InMemoryTransport.inbound (transport d))) = (s', None) →
  Session.completions s' = ∅ →
  ∃ d', run_driver limits d (replicate n ReadReady) = Some (d', None, []) ∧ session d' = s' ∧
    InMemoryTransport.written (transport d') = InMemoryTransport.written (transport d).
Proof.
  revert d. induction n as [|n IH]; intros d (Hinv & Hsc & Hcl) Hstep Hn Hdr He.
  - destruct (InMemoryTransport.inbound (transport d)) eqn:E; [|cbn in Hn; lia].
    rw extend_nil (drain_idle _ _ (proj2 Hinv)) in Hdr. injection Hdr as <-. by exists d.
  - destruct (memory_chunk (transport d) Hcl Hstep) as (chunk & rest & Hi & Hne & Hr).
    pose proof (on_read_ok limits d Hinv) as Hok.
    cbn [replicate run_driver driver_step]. unfold on_read in Hok |- *. rw Hr in Hok |- *.
    destruct (bool_decide_reflect (chunk = [])) as [->|Hc].
    + destruct Hne as [Hemp|]; [|done].
      rw Hemp extend_nil (drain_idle _ _ (proj2 Hinv)) in Hdr. injection Hdr as <-.
      rw He in Hok |- *. rw Hsc in Hok |- *. rw bool_decide_eq_true_2; [done|]. cbn [andb].
      destruct rest; [|by rw Hemp in Hi]. set (d0 := mk_driver _ _ _ _ _). apply (IH d0); try done.
      * cbn. lia.
      * change (drain_frames limits (extend (session d) []) = (session d, None)).
        rw extend_nil. apply drain_idle, Hinv.
    + rw Hi -extend_app drain_frames_extend in Hdr. fold (extend (session d) chunk) in Hok |- *.
      destruct (drain_frames limits (extend (session d) chunk)) as [s1 [g|]]; [done|].
      rw Hsc in Hok |- *. cbn [andb] in *. unfold settle in *. cbn [submit_closed] in *.
      destruct Hok as (_ & _ & Hd). set (d0 := mk_driver _ _ _ _ _). apply (IH d0); try done.
      cbn. rw Hi length_app in Hn. destruct chunk; [done|]. cbn in Hn. lia.
Qed.

(** ** Calls *)

(** A call of an operation: what it sends, how it reads its answer, and the frame with which
    the peer answers it. *)
Record call (A : Type) := mk_call {
  opcode : Z;
  payload : list byte;
  interpret : Frame.t → result A CommandFailure.t;
  answered_by : Frame.t
}.
Arguments mk_call {A} _ _ _ _.
Arguments opcode {A} _.
Arguments payload {A} _.
Arguments interpret {A} _.
Arguments answered_by {A} _.

Section calls.
Context {S A : Type}.
Implicit Types (c : Shared S) (k : call A) (ks : list (call A)).

(** The calls in order: what they hand to the driver, and what they return once the driver has
    delivered their answers. *)
Fixpoint perform c ks : list (Z * list byte) * list (result A CommandError.t) :=
  match ks with
  | [] => ([], [])
  | k :: ks =>
      let '(c', handed, r) :=
        run_command c (opcode k) (payload k) (interpret k) Granted
          (Completed (Ok (frame_bytes (answered_by k)))) in
      let '(handed', rs) := perform c' ks in (handed ++ handed', r :: rs)
  end.

(** The submissions of the calls; call number [i] waits on channel [i]. *)
Definition submissions (handed : list (Z * list byte)) : list Submit.t :=
  imap (λ i h, Submit.mk h.1 h.2 i) handed.

(** A call the session can send. *)
Definition call_fits c k : Prop :=
  0 ≤ opcode k ≤ U16_MAX ∧
  HEADER_LENGTH + len (payload k) ≤ Negotiated.effective_maximum_frame_size (negotiated c).

(** The peer answers the request with that id, acceptably. *)
Definition answers_id c (id : Z) k : Prop :=
  names (answered_by k) = id ∧
  frame_wf (driver_admission (session_limits c) (InFlightRegistry.mk {[id]})) (answered_by k).

(** The bytes a call sends under an id. *)
Definition request_bytes (id : Z) k : list byte :=
  frame_bytes (frame_of (request_outgoing (opcode k) id (payload k))).

Lemma perform_spec c ks :
  session_typed c → submit_tx c = true → ConnectionState.is_usable (shared_state c) = true →
  Forall (call_fits c) ks →
  Forall2 (answers_id c) (allocate_many (length ks) (allocator c)) ks →
  perform c ks =
    (zip_with (λ id k, (id, request_bytes id k)) (allocate_many (length ks) (allocator c)) ks,
     (λ k, map_err CommandError.from_command_failure (interpret k (answered_by k))) <$> ks).
Proof.
  revert c. induction ks as [|k ks IH]; intros c Ht Htx Hu Hfit Hans; [done|].
  cbn [length allocate_many perform] in *. apply Forall_cons in Hfit as [[Hop Hlen] Hfit].
  pose proof (allocate_position (allocator c) (proj2 (proj2 Ht))) as Hpos.
  destruct (RequestIdAllocator.allocate (allocator c)) as [id a] eqn:Ea.
  destruct Hpos as (_ & Ha & _ & _). apply Forall2_cons in Hans as [[Hn Hwf] Hans].
  pose proof (run_command_delivers c (opcode k) (payload k) (interpret k) _ _ Ht Htx Hu Hop Hlen Hwf)
    as Hr. rw Ea in Hr. rw Hr.
  rw (IH (set_allocator c a)); [|done..]. destruct Ht as (? & ? & _). by split.
Qed.

(** Ids and calls, lined up. *)
Lemma submissions_spec ids ks :
  length ids = length ks →
  Submit.id <$> submissions (zip_with (λ id k, (id, request_bytes id k)) ids ks) = ids ∧
  (∀ i id k, ids !! i = Some id → ks !! i = Some k →
     Submit.mk id (request_bytes id k) i ∈
       submissions (zip_with (λ id k, (id, request_bytes id k)) ids ks)) ∧
  (∀ s, s ∈ submissions (zip_with (λ id k, (id, request_bytes id k)) ids ks) →
     ∃ k, ids !! Submit.completion s = Some (Submit.id s) ∧ ks !! Submit.completion s = Some k ∧
          Submit.bytes s = request_bytes (Submit.id s) k).
Proof.
  intros Hl. unfold submissions. split; [|split].
  - apply list_eq. intros i. rw list_lookup_fmap list_lookup_imap lookup_zip_with.
    destruct (ids !! i) as [id|] eqn:Ei; [|done].
    destruct (lookup_lt_is_Some_2 ks i) as [k Hk]; [rw -Hl; by eapply lookup_lt_Some|].
    by rw Hk.
  - intros i id k Hi Hk. apply list_elem_of_lookup. exists i.
    by rw list_lookup_imap lookup_zip_with Hi Hk.
  - intros s [i Hs]%list_elem_of_lookup. rw list_lookup_imap lookup_zip_with in Hs.
    destruct (ids !! i) as [id|] eqn:Ei; [|done]. destruct (ks !! i) as [k|] eqn:Ek; [|done].
    injection Hs as <-. cbn. by exists k.
Qed.

Lemma len_request_bytes id k : len (request_bytes id k) = HEADER_LENGTH + len (payload k).
Proof. apply len_request_frame. Qed.

End calls.

Section properties.
Context {S A : Type}.
Implicit Types (c : Shared S) (ks : list (call A)).

Lemma answers_names c ids ks :
  Forall2 (answers_id c) ids ks → names <$> (answered_by <$> ks) = ids.
Proof.
  induction 1 as [|id k ids ks [Hn _] _ IH]; [done|]. cbn. by rw Hn IH.
Qed.

(** The deliveries are those of the calls, whatever the order of arrival. *)
Lemma deliveries_of_calls ids ks (m : gmap Z sender) arrival out :
  names <$> (answered_by <$> ks) = ids → arrival ≡ₚ answered_by <$> ks →
  (∀ i id k, ids !! i = Some id → ks !! i = Some k → m !! id = Some i) →
  Forall2 (λ f e, m !! names f = Some e.1 ∧ e.2 = Ok (frame_bytes f)) arrival out →
  out ≡ₚ imap (λ i (k : call A), (i, Ok (frame_bytes (answered_by k)) :> result _ DriverError.t)) ks.
Proof.
  intros Hids Hp Hm Hout.
  assert (out = (λ f, (default 0%nat (m !! names f), Ok (frame_bytes f))) <$> arrival) as ->.
  { clear - Hout. induction Hout as [|f [c o] fs out [Hc Ho] _ IH]; [done|].
    cbn in *. by rw Hc Ho IH. }
  rw Hp. apply reflexive_eq, list_eq. intros i.
  rw !list_lookup_fmap list_lookup_imap. destruct (ks !! i) as [k|] eqn:Ek; [|done]. cbn.
  rw (Hm i (names (answered_by k)) k); [|done|done]. by rw -Hids !list_lookup_fmap Ek.
Qed.

(** The driver's part: submissions of fresh requests and answers in any order. *)
Lemma driver_serves limits subs arrival rs ws n :
  (1 ≤ rs)%N → (length (concat (frame_bytes <$> arrival)) ≤ n)%nat →
  Forall (λ s, len (Submit.bytes s) ≤ USIZE_MAX ∧ Submit.id s ≠ 0) subs →
  NoDup (Submit.id <$> subs) → names <$> arrival ≡ₚ Submit.id <$> subs →
  Forall (λ f, frame_wf (driver_admission limits (InFlightRegistry.mk {[names f]})) f) arrival →
  ∃ d' (m : gmap Z sender) out,
    run_driver limits
      (spawn (InMemoryTransport.new (concat (frame_bytes <$> arrival)) rs ws) ConnectionState.Usable)
      (((λ s, Received (Some s)) <$> subs) ++ replicate n ReadReady) = Some (d', None, []) ∧
    InMemoryTransport.written (transport d') = concat (Submit.bytes <$> subs) ∧
    Session.log (session d') = out ∧ pending (session d') = [] ∧
    (∀ s, s ∈ subs → m !! Submit.id s = Some (Submit.completion s)) ∧
    Forall2 (λ f e, m !! names f = Some e.1 ∧ e.2 = Ok (frame_bytes f)) arrival out.
Proof.
  intros Hrs Hn Hsubs Hnd Hnames Hwf. set (t := InMemoryTransport.new _ rs ws).
  destruct (submit_turns limits subs (spawn t ConnectionState.Usable)) as
    (d1 & Hrun & Ho & Ht & Hg & Hb & Hdom & Hin & _); [|done|done|set_solver|].
  { split; [|done]. split; [split; cbn; set_solver | by apply idle_empty]. }
  pose proof Ho as ([Hinv Hidle] & Hsc & Hcl). cbn in Hg, Hb, Hdom.
  assert (∀ f, f ∈ arrival → names f ∈ Submit.id <$> subs) as Hsub.
  { intros f Hf. rw -Hnames. by apply list_elem_of_fmap_2. }
  destruct (drain_answers limits arrival (extend (session d1) (concat (frame_bytes <$> arrival))))
    as (s' & out & Hdr & _ & Hlog & Hout & Hkeep & Hgone).
  - done.
  - cbn. by rw Hb.
  - by rw Hnames.
  - apply Forall_forall. intros f Hf. specialize (Hsub f Hf). rw Forall_forall in Hwf. split.
    + apply (frame_wf_live limits (InFlightRegistry.mk {[names f]})); [by apply Hwf|].
      cbn. rw -(proj1 Hinv) Hdom. set_solver.
    + cbn. apply elem_of_dom. rw Hdom. set_solver.
  - assert (Session.completions s' = ∅) as Hempty.
    { apply map_empty. intros id. destruct (decide (id ∈ names <$> arrival)) as [Hi|Hi]; [by apply Hgone|].
      rw Hkeep; [done|]. cbn. apply not_elem_of_dom. rw Hdom. rw Hnames in Hi. set_solver. }
    destruct (read_turns limits n d1 s') as (d' & Hread & Hs & Hw); [done | by rw Ht | by rw Ht | |done|].
    { rw Ht. exact Hdr. }
    exists d', (Session.completions (session d1)), out. rw Hrun Hread Hs Hw Ht.
    split; [done|]. split; [done|]. cbn in Hlog. rw Hlog Hg. split; [done|]. split; [|done].
    unfold pending. by rw Hempty map_to_list_empty.
Qed.


End properties.

(** ** Witnesses

    Two concurrent reads, of a present and of an absent key. The answer to the second arrives
    first; the stream is read three bytes at a time and written two at a time. *)
Definition absent8 : Frame.t := answer Kind.Response 1 8 (OutgoingPayload.Opaque_ []).
Definition two_calls : list (call GetOutcome.t) :=
  [mk_call GET_OPCODE [x6b] interpret_get answer7; mk_call GET_OPCODE [x6c] interpret_get absent8].

