(* ===== verification/Lifecycle.v ===== *)
(** * Closing a connection

    [close] and the functions it calls in [src/src/connection/mod.rs], interleaved with the
    driver's changes of the shared state. Every lock section is one atomic step; several
    handles may be closing at once, and the driver may fail, be told to shut down, or finish
    shutting down between any two of their steps. *)

From S2P Require Export Driver.
Local Open Scope Z_scope.

(** ** The shared state and the program points *)

(** How far the driver task is; [Aborted] when dropping the connection stopped it. *)
Inductive driver_phase := Running | ShuttingDown | Exited (exit : DriverExit.t) | Aborted.

(** The lifecycle part of [Shared]: which [Option]s are still filled, whether the shutdown
    signal was sent, and, for a driverless session, how its transport will shut down. *)
Record lifecycle := mk_lifecycle {
  life : ConnectionState.t;
  admission_open : bool;
  shutdown_held : bool;
  signalled : bool;
  handle_held : bool;
  phase : driver_phase;
  memory : option (result unit IoError.t)
}.

(** The points of [close] between its lock sections. *)
Inductive point :=
| AtTerminalCheck
| AtBeginClosing
| AtAdmissionClose
| AtHasDriver
| AtTakeShutdown
| AtTakeHandle
| AtJoin
| AtFinish (next : ConnectionState.t) (r : result unit IoError.t)
| AtTakeTransport
| AtStore (next : ConnectionState.t) (r : result unit IoError.t)
| Returned (r : result unit IoError.t).

(** ** The lock sections *)

Definition is_terminal (s : ConnectionState.t) : bool :=
  match s with
  | ConnectionState.Closed | ConnectionState.Failed | ConnectionState.Unusable => true
  | _ => false
  end.

(** [begin_closing]: an unconditional store. *)
Definition begin_closing (_ : ConnectionState.t) : ConnectionState.t := ConnectionState.Closing.

Definition finish_close (s next : ConnectionState.t) : ConnectionState.t :=
  match s with ConnectionState.Closing => next | _ => s end.

Definition with_life (w : lifecycle) (s : ConnectionState.t) : lifecycle :=
  mk_lifecycle s (admission_open w) (shutdown_held w) (signalled w) (handle_held w) (phase w)
    (memory w).

Definition close_admission (w : lifecycle) : lifecycle :=
  mk_lifecycle (life w) false (shutdown_held w) (signalled w) (handle_held w) (phase w) (memory w).

(** One step of a [close] call; [None] while it waits for the driver to end. *)
Definition close_step (w : lifecycle) (p : point) : option (lifecycle * point) :=
  match p with
  | AtTerminalCheck =>
      Some (w, if is_terminal (life w) then Returned (Ok tt) else AtBeginClosing)
  | AtBeginClosing => Some (with_life w (begin_closing (life w)), AtAdmissionClose)
  | AtAdmissionClose => Some (close_admission w, AtHasDriver)
  | AtHasDriver => Some (w, if handle_held w then AtTakeShutdown else AtTakeTransport)
  | AtTakeShutdown =>
      Some (mk_lifecycle (life w) (admission_open w) false (signalled w || shutdown_held w)
              (handle_held w) (phase w) (memory w), AtTakeHandle)
  | AtTakeHandle =>
      Some (mk_lifecycle (life w) (admission_open w) (shutdown_held w) (signalled w) false
              (phase w) (memory w),
            if handle_held w then AtJoin else Returned (Ok tt))
  | AtJoin =>
      match phase w with
      | Exited DriverExit.Closed => Some (w, AtFinish ConnectionState.Closed (Ok tt))
      | Exited DriverExit.Failed =>
          Some (w, AtFinish ConnectionState.Failed (Err IoError.BrokenPipe))
      | Exited DriverExit.Unusable => Some (w, Returned (Ok tt))
      | _ => None
      end
  | AtFinish next r => Some (with_life w (finish_close (life w) next), Returned r)
  | AtTakeTransport =>
      Some (mk_lifecycle (life w) (admission_open w) (shutdown_held w) (signalled w)
              (handle_held w) (phase w) None,
            match memory w with
            | None => AtStore ConnectionState.Closed (Ok tt)
            | Some (Ok _) => AtStore ConnectionState.Closed (Ok tt)
            | Some (Err e) => AtStore ConnectionState.Failed (Err e)
            end)
  | AtStore next r => Some (with_life w next, Returned r)
  | Returned _ => None
  end.

(** ** The driver's side *)

(** What the driver task may do to the shared state. *)
Inductive driver_action :=
| DriverEnds (next : ConnectionState.t) (exit : DriverExit.t)
| DriverSignalled
| DriverShutDown (outcome : result unit IoError.t).

(** A transport failure or a broken protocol ends the task; a shutdown signal makes it mark the
    state and then shut the transport down. (The task also ends when every handle is dropped,
    which cannot happen while one is closing.) *)
Definition driver_action_step (w : lifecycle) (a : driver_action) : option lifecycle :=
  match a, phase w with
  | DriverEnds next exit, Running =>
      let allowed :=
        match next, exit with
        | ConnectionState.Failed, DriverExit.Failed
        | ConnectionState.Unusable, DriverExit.Unusable => true
        | _, _ => false
        end in
      if allowed then
        Some (mk_lifecycle (mark_state (life w) next) false (shutdown_held w) (signalled w)
                (handle_held w) (Exited exit) (memory w))
      else None
  | DriverSignalled, Running =>
      if signalled w then
        Some (mk_lifecycle (mark_state (life w) ConnectionState.Closed) false (shutdown_held w)
                (signalled w) (handle_held w) ShuttingDown (memory w))
      else None
  | DriverShutDown (Ok _), ShuttingDown =>
      Some (mk_lifecycle (life w) (admission_open w) (shutdown_held w) (signalled w)
              (handle_held w) (Exited DriverExit.Closed) (memory w))
  | DriverShutDown (Err _), ShuttingDown =>
      Some (mk_lifecycle (mark_state (life w) ConnectionState.Failed) (admission_open w)
              (shutdown_held w) (signalled w) (handle_held w) (Exited DriverExit.Failed) (memory w))
  | _, _ => None
  end.

(** ** Dropping the connection, and the test helper *)

(** [Drop for Shared]: a driver whose handle is still held is aborted. *)
Definition drop_shared (w : lifecycle) : lifecycle :=
  if handle_held w then
    mk_lifecycle (life w) (admission_open w) (shutdown_held w) (signalled w) false
      (match phase w with Running | ShuttingDown => Aborted | p => p end) (memory w)
  else w.

(** [mark_unusable_for_test]: terminal states are kept, otherwise admission stops too. *)
Definition mark_unusable_for_test (w : lifecycle) : lifecycle :=
  if is_terminal (life w) then w
  else close_admission (with_life w ConnectionState.Unusable).

(** ** Interleavings *)

(** The session and the [close] calls in progress. *)
Record world := mk_world { shared : lifecycle; closers : list point }.

Inductive step : world → world → Prop :=
| step_closer w i p w' p' :
    closers w !! i = Some p → close_step (shared w) p = Some (w', p') →
    step w (mk_world w' (<[i := p']> (closers w)))
| step_driver w a w' :
    driver_action_step (shared w) a = Some w' → step w (mk_world w' (closers w)).

Definition reachable : world → world → Prop := rtc step.

(** An established session and [n] handles about to close it: over TCP the driver owns the
    transport; a driverless session holds one that will shut down with the given outcome. *)
Definition established (held : option (result unit IoError.t)) (n : nat) : world :=
  let tcp := match held with None => true | Some _ => false end in
  mk_world
    (mk_lifecycle ConnectionState.Usable true tcp false tcp
       (if tcp then Running else Exited DriverExit.Closed) held)
    (replicate n AtTerminalCheck).

(** Runs a schedule: closer [i], or an action of the driver. *)
Definition run_label (w : world) (l : nat + driver_action) : option world :=
  match l with
  | inl i =>
      let? p := closers w !! i in
      let? (w', p') := close_step (shared w) p in
      Some (mk_world w' (<[i := p']> (closers w)))
  | inr a =>
      let? w' := driver_action_step (shared w) a in
      Some (mk_world w' (closers w))
  end.

Fixpoint run_labels (w : world) (ls : list (nat + driver_action)) : option world :=
  match ls with
  | [] => Some w
  | l :: ls => let? w' := run_label w l in run_labels w' ls
  end.

(** ** Lemmas *)

Lemma run_labels_reachable ls w w' : run_labels w ls = Some w' → reachable w w'.
Proof.
  revert w. induction ls as [|l ls IH]; intros w; cbn.
  - intros [= <-]. apply rtc_refl.
  - destruct (run_label w l) as [w1|] eqn:E; [|done]. intros Hr.
    eapply rtc_l; [|by apply IH]. destruct l as [i|a]; cbn in E.
    + destruct (closers w !! i) as [p|] eqn:Ep; [|done].
      destruct (close_step (shared w) p) as [[w2 p']|] eqn:Es; [|done].
      injection E as <-. by eapply step_closer.
    + destruct (driver_action_step (shared w) a) as [w2|] eqn:Es; [|done].
      injection E as <-. by eapply step_driver.
Qed.

(** The points only ever carry terminal states to store. *)
Definition point_ok (p : point) : Prop :=
  match p with
  | AtFinish next _ | AtStore next _ => is_terminal next = true
  | _ => True
  end.

Lemma close_step_point w p w' p' : close_step w p = Some (w', p') → point_ok p → point_ok p'.
Proof. destruct p; cbn; intros H _; repeat case_match; by simplify_eq/=. Qed.

Lemma close_step_usable w p w' p' :
  close_step w p = Some (w', p') → point_ok p → life w ≠ ConnectionState.Usable →
  life w' ≠ ConnectionState.Usable.
Proof.
  destruct p as [| | | | | | |next r| |next r|]; cbn; intros H Hok Hw;
    repeat case_match; simplify_eq/=; try done.
  - by destruct (life w), next.
  - by destruct next.
Qed.

Lemma driver_action_usable w a w' :
  driver_action_step w a = Some w' → life w ≠ ConnectionState.Usable →
  life w' ≠ ConnectionState.Usable.
Proof.
  unfold driver_action_step. intros H Hw. repeat case_match; simplify_eq/=; try done;
    by destruct (life w).
Qed.

(** Every closer of a reachable world is at a legitimate point. *)
Definition world_ok (w : world) : Prop := Forall point_ok (closers w).

Lemma step_world_ok w w' : step w w' → world_ok w → world_ok w'.
Proof.
  unfold world_ok. intros [w0 i p w1 p' Hp Hs|w0 a w1 Hs] Hok; simpl; [|done].
  apply Forall_insert; [done|]. eapply close_step_point; [done|].
  by eapply Forall_lookup_1.
Qed.

Lemma established_ok held n : world_ok (established held n).
Proof. by apply Forall_replicate. Qed.

(** A driver that has not exited is reachable through its handle, or a closing call waits
    for it. *)
Definition driver_owned (w : world) : Prop :=
  (∃ exit, phase (shared w) = Exited exit) ∨ handle_held (shared w) = true ∨
  ∃ i, closers w !! i = Some AtJoin.

Lemma driver_owned_other w i p p' sh :
  driver_owned w → closers w !! i = Some p → p ≠ AtJoin →
  phase sh = phase (shared w) → handle_held sh = handle_held (shared w) →
  driver_owned (mk_world sh (<[i := p']> (closers w))).
Proof.
  intros Ho Hi Hp Hph Hh. unfold driver_owned. cbn. rw Hph Hh.
  destruct Ho as [Ho|[Ho|[j Hj]]]; [by left | by right; left|]. right; right. exists j.
  rw list_lookup_insert_ne; [|done]. intros ->. congruence.
Qed.

Lemma step_driver_owned w w' : step w w' → driver_owned w → driver_owned w'.
Proof.
  intros [w0 i p sh p' Hi Hs|w0 a sh Hs] Ho.
  - assert (p = AtTakeHandle ∨ p = AtJoin ∨ p ≠ AtTakeHandle ∧ p ≠ AtJoin) as
      [->|[->|[Hp Hj]]] by (destruct p; auto).
    + cbn in Hs. injection Hs as <- <-. destruct (handle_held (shared w0)) eqn:Hh.
      * right; right. exists i. apply list_lookup_insert_eq. by eapply lookup_lt_Some.
      * eapply driver_owned_other; [done..|]. by rw Hh.
    + cbn in Hs. left. destruct (phase (shared w0)) as [| |[]|] eqn:Eph; try done;
        injection Hs as <- <-; cbn; rw Eph; eauto.
    + eapply driver_owned_other; [done..| |]; destruct p; cbn in Hs; repeat case_match;
        by simplify_eq/=.
  - unfold driver_action_step in Hs.
    destruct Ho as [[e He]|[Ho|[j Hj]]].
    + rw He in Hs. by destruct a as [| |[]].
    + right; left. repeat case_match; by simplify_eq/=.
    + right; right. by exists j.
Qed.

(** ** Properties *)


(** A driverless [close] does what it documents: alone, it ends closed when the transport
    shuts down and failed, with the transport's error, when it does not. *)
Theorem close_driverless outcome :
  run_labels (established (Some outcome) 1) (replicate 6 (inl 0%nat)) =
    Some (mk_world
            (mk_lifecycle
               (match outcome with Ok _ => ConnectionState.Closed | Err _ => ConnectionState.Failed end)
               false false false false (Exited DriverExit.Closed) None)
            [Returned outcome]).
Proof. by destruct outcome as [[]|e]. Qed.

(** A lone [close] through a healthy driver ends closed: it signals the driver, waits for
    it, and returns success with admission stopped. *)
Theorem close_healthy_driver :
  ∃ w, run_labels (established None 1)
         (replicate 6 (inl 0%nat) ++ [inr DriverSignalled; inr (DriverShutDown (Ok tt)); inl 0%nat; inl 0%nat]) =
       Some w ∧ life (shared w) = ConnectionState.Closed ∧ admission_open (shared w) = false ∧
       closers w = [Returned (Ok tt)].
Proof. eexists. split; [vm_compute; reflexivity | by repeat split]. Qed.

(** A failed shutdown is reported to the caller but leaves the connection closed, not
    failed: the driver marked the state before it shut the transport down, and neither it nor
    the closing handle overwrites a terminal state. *)
Theorem failed_shutdown_stays_closed (e : IoError.t) :
  ∃ w, reachable (established None 1) w ∧ life (shared w) = ConnectionState.Closed ∧
       phase (shared w) = Exited DriverExit.Failed ∧ closers w = [Returned (Err IoError.BrokenPipe)].
Proof.
  eexists. split.
  - apply (run_labels_reachable
      (replicate 6 (inl 0%nat) ++
       [inr DriverSignalled; inr (DriverShutDown (Err e)); inl 0%nat; inl 0%nat])).
    vm_compute. reflexivity.
  - by repeat split.
Qed.


(** A second [close] can report the connection closed while the driver still runs and has
    not shut the transport down: it finds the driver's handle taken and stores the closed state
    itself. *)
Theorem second_close_too_early :
  ∃ w, reachable (established None 2) w ∧ life (shared w) = ConnectionState.Closed ∧
       phase (shared w) = Running ∧ closers w !! 1%nat = Some (Returned (Ok tt)).
Proof.
  eexists. split.
  - apply (run_labels_reachable
      (inl 1%nat :: replicate 6 (inl 0%nat) ++ replicate 5 (inl 1%nat))).
    vm_compute. reflexivity.
  - by repeat split.
Qed.

(** No driver outlives its connection: under every interleaving, when every [close] call has
    returned and the last handle is dropped, the driver task has exited or is aborted. *)
Theorem drop_leaves_no_driver held n w :
  reachable (established held n) w → Forall (λ p, ∃ r, p = Returned r) (closers w) →
  (∃ exit, phase (drop_shared (shared w)) = Exited exit) ∨
  phase (drop_shared (shared w)) = Aborted.
Proof.
  intros Hr Hret. assert (driver_owned w) as Ho.
  { revert Hr. apply (rtc_ind_r driver_owned); [|intros; by eapply step_driver_owned].
    destruct held; [by left; eexists | by right; left]. }
  unfold drop_shared. destruct Ho as [[e He]|[Hh|[i Hi]]].
  - left. destruct (handle_held _); cbn; rw He; eauto.
  - rw Hh. cbn. destruct (phase (shared w)) as [| |e|]; eauto.
  - apply (Forall_lookup_1 _ _ _ _ Hret) in Hi as [r Hr']. done.
Qed.

(** The test helper simulates the driver: it changes the state as a driver that ends the session
    as unusable does, and stops admission unless the session had ended. *)
Theorem mark_unusable_simulates w :
  life (mark_unusable_for_test w) = mark_state (life w) ConnectionState.Unusable ∧
  (admission_open (mark_unusable_for_test w) = true →
   is_terminal (life w) = true ∧ admission_open w = true).
Proof. unfold mark_unusable_for_test. destruct (life w) eqn:E; cbn; rw ?E; naive_solver. Qed.

(** ** Witnesses *)

Lemma drop_leaves_no_driver_witness :
  ∃ w, run_labels (established None 1) [] = Some w ∧ phase (shared w) = Running ∧
    (∃ w', run_labels (established None 1)
             [inr (DriverEnds ConnectionState.Failed DriverExit.Failed); inl 0%nat] = Some w' ∧
       ((∃ exit, phase (drop_shared (shared w')) = Exited exit) ∨
        phase (drop_shared (shared w')) = Aborted)).
Proof.
  eexists. split; [reflexivity|]. split; [reflexivity|].
  destruct (run_labels (established None 1)
    [inr (DriverEnds ConnectionState.Failed DriverExit.Failed); inl 0%nat]) as [w'|] eqn:E;
    [|discriminate].
  exists w'. split; [reflexivity|].
  apply (drop_leaves_no_driver None 1 w'); [exact (run_labels_reachable _ _ _ E)|].
  injection E as <-. repeat constructor. by eexists.
Defined.

