(* ===== verification/System.v ===== *)
(** * The session as a whole

    Any number of callers, closing handles, the driver and the peer act on one established
    session at the same time. A caller of an operation ([Connection::execute] and what it calls)
    is a program point that advances one lock section or one [await] at a time, and may be
    dropped at any [await]; the admission semaphore and the submit channel are part of the state;
    a turn of the driver is the one of [Driver], but a turn that ends the session is cut where
    other tasks can run in between. Closing is that of [Lifecycle]. The properties are in
    [SystemTheorems]. *)

From S2P Require Export ClientTheorems Lifecycle.
Local Open Scope Z_scope.

Module System.

(** ** The state *)

(** What the driver still has to do to the shared state once it has failed its waiters. *)
Inductive stop :=
| Ends (next : ConnectionState.t) (exit : DriverExit.t)
| Signalled
| ShutsDown.

Section system.
Context {T : Type} `{Transport T} (negotiated : Negotiated.t).

(** The lifecycle fields of [Shared]; the permits left in the admission semaphore; the
    allocator; the submissions in the channel; and the driver's transport and session. *)
Record t := mk {
  conn : lifecycle;
  permits : Z;
  ids : RequestIdAllocator.t;
  queue : list Submit.t;
  stream : T;
  sess : Session.t;
  stopping : list stop
}.

(** The effective bounds, under which frames are sent and decoded. *)
Definition frame_limit : Z := Negotiated.effective_maximum_frame_size negotiated.
Definition metadata_limit : Z := Negotiated.effective_maximum_metadata_size negotiated.
Definition limits : Limits.t := Limits.mk frame_limit metadata_limit.

(** [mpsc::channel(64)]. *)
Definition CHANNEL_CAPACITY : nat := 64.

(** The receiver of the submit channel lives as long as the driver task. *)
Definition receiving (w : t) : bool :=
  match phase (conn w) with Running | ShuttingDown => true | _ => false end.

Definition with_permits (w : t) (n : Z) : t :=
  mk (conn w) n (ids w) (queue w) (stream w) (sess w) (stopping w).

(** Dropping a permit. *)
Definition release (w : t) : t := with_permits w (permits w + 1).

(** ** Callers *)

Inductive caller :=
| AtCheck (opcode : Z) (payload : list byte)
| AtRefusal
| AtAcquire (opcode : Z) (payload : list byte)
| AtAcquireFailed
| AtAllocate (opcode : Z) (payload : list byte)
| AtSend (id : Z) (bytes : list byte)
| AtAwait (id : Z)
| AtLost
| Done (outcome : result (Z * list byte) CommandError.t)
| Cancelled (submitted : option Z).

(** What was sent on a completion channel. *)
Definition received (s : Session.t) (channel : sender) : option (result (list byte) DriverError.t) :=
  snd <$> List.find (λ e, (e.1 =? channel)%nat) (Session.log s).

(** Whether the sender of a completion channel still exists: with the waiters, or in a submission
    the driver may yet take. *)
Definition sender_alive (w : t) (channel : sender) : bool :=
  bool_decide (channel ∈ pending (sess w)) ||
  (receiving w && bool_decide (channel ∈ Submit.completion <$> queue w)).

(** One section of caller number [channel], which is also the number of the completion channel
    it makes; [None] while it waits for a permit, for room in the channel or for its answer. *)
Definition caller_step (w : t) (channel : sender) (c : caller) : option (t * caller) :=
  match c with
  | AtCheck opcode payload =>
      Some (w,
        if ConnectionState.is_usable (life (conn w)) then
          if frame_limit <? wire_size (len payload)
          then Done (Err (CommandError.LocalLimitExceeded (wire_size (len payload)) frame_limit))
          else AtAcquire opcode payload
        else AtRefusal)
  | AtRefusal => Some (w, Done (Err (completion_lost (life (conn w)))))
  | AtAcquire opcode payload =>
      if negb (admission_open (conn w)) then Some (w, AtAcquireFailed) else
      if 1 <=? permits w then Some (with_permits w (permits w - 1), AtAllocate opcode payload)
      else None
  | AtAcquireFailed => Some (w, Done (Err (completion_lost (life (conn w)))))
  | AtAllocate opcode payload =>
      let '(id, a) := RequestIdAllocator.allocate (ids w) in
      let w := mk (conn w) (permits w) a (queue w) (stream w) (sess w) (stopping w) in
      Some (if id =? 0 then (release w, Done (Err CommandError.Unusable)) else
            match encode_request opcode payload id frame_limit metadata_limit with
            | Err e => (release w, Done (Err e))
            | Ok bytes => (w, AtSend id bytes)
            end)
  | AtSend id bytes =>
      if negb (receiving w) then Some (w, AtLost) else
      if (length (queue w) <? CHANNEL_CAPACITY)%nat then
        Some (mk (conn w) (permits w) (ids w) (queue w ++ [Submit.mk id bytes channel]) (stream w)
                (sess w) (stopping w), AtAwait id)
      else None
  | AtAwait id =>
      match received (sess w) channel with
      | Some (Ok frame_bytes) => Some (release w, Done (Ok (id, frame_bytes)))
      | Some (Err e) => Some (release w, Done (Err (CommandError.from_driver e)))
      | None => if sender_alive w channel then None else Some (w, AtLost)
      end
  | AtLost => Some (release w, Done (Err (completion_lost (life (conn w)))))
  | Done _ | Cancelled _ => None
  end.

(** A caller's future dropped at an [await]; a permit it holds is released. *)
Definition cancel (w : t) (c : caller) : option (t * caller) :=
  match c with
  | AtAcquire _ _ => Some (w, Cancelled None)
  | AtSend _ _ => Some (release w, Cancelled None)
  | AtAwait id => Some (release w, Cancelled (Some id))
  | _ => None
  end.

(** ** The driver *)

Inductive turn := TakeShutdown | TakeSubmission | TakeRead | GoOnStopping.

(** The driver's locals and the shared state it sees, as [Driver] has them. *)
Definition as_driver (w : t) : driver T :=
  mk_driver (stream w) (sess w) false (life (conn w)) (negb (admission_open (conn w))).

(** What is left to do after a turn: nothing when it goes on. *)
Definition stops (exit : option DriverExit.t) : list stop :=
  match exit with
  | Some DriverExit.Failed => [Ends ConnectionState.Failed DriverExit.Failed]
  | Some DriverExit.Unusable => [Ends ConnectionState.Unusable DriverExit.Unusable]
  | _ => []
  end.

Definition after_turn (w : t) (queue : list Submit.t) (r : driver T * option DriverExit.t) : t :=
  mk (conn w) (permits w) (ids w) queue (transport r.1) (session r.1) (stops r.2).

(** One turn; [None] when it is not enabled. *)
Definition driver_turn (w : t) (tn : turn) : option t :=
  match phase (conn w), stopping w, tn with
  | Running, [], TakeShutdown =>
      if signalled (conn w) then
        Some (mk (conn w) (permits w) (ids w) (queue w) (stream w)
                (fail_all (sess w) DriverError.Closed) [Signalled; ShutsDown])
      else None
  | Running, [], TakeSubmission =>
      match queue w with
      | [] => None
      | submit :: rest => let? r := on_submit (as_driver w) submit in Some (after_turn w rest r)
      end
  | Running, [], TakeRead => Some (after_turn w (queue w) (on_read limits (as_driver w)))
  | _, action :: rest, GoOnStopping =>
      let '(stream', lifecycle_action) :=
        match action with
        | Ends next exit => (stream w, DriverEnds next exit)
        | Signalled => (stream w, DriverSignalled)
        | ShutsDown => let '(s, r) := shutdown (stream w) in (s, DriverShutDown r)
        end in
      let? conn' := driver_action_step (conn w) lifecycle_action in
      Some (mk conn' (permits w) (ids w) (queue w) stream' (sess w) rest)
  | _, _, _ => None
  end.

(** ** Interleavings *)

(** The session, the calls made on it, and the handles closing it. *)
Record world := mk_world { sys : t; callers : list caller; closers : list point }.

Definition with_conn (w : t) (l : lifecycle) : t :=
  mk l (permits w) (ids w) (queue w) (stream w) (sess w) (stopping w).

Inductive step : world → world → Prop :=
| step_caller w i c s c' :
    callers w !! i = Some c → caller_step (sys w) i c = Some (s, c') →
    step w (mk_world s (<[i := c']> (callers w)) (closers w))
| step_cancel w i c s c' :
    callers w !! i = Some c → cancel (sys w) c = Some (s, c') →
    step w (mk_world s (<[i := c']> (callers w)) (closers w))
| step_driver w tn s :
    driver_turn (sys w) tn = Some s → step w (mk_world s (callers w) (closers w))
| step_closer w i p l p' :
    closers w !! i = Some p → close_step (conn (sys w)) p = Some (l, p') →
    step w (mk_world (with_conn (sys w) l) (callers w) (<[i := p']> (closers w))).

Definition reachable : world → world → Prop := rtc step.

(** A session just established over a driver: the handshake has used the first id, and
    [maximum] permits are left. Calls are about to be made and [n] handles about to close it. *)
Definition established (s : T) (maximum : Z) (calls : list (Z * list byte)) (n : nat) : world :=
  mk_world
    (mk (mk_lifecycle ConnectionState.Usable true true false true Running None) maximum
       (RequestIdAllocator.allocate RequestIdAllocator.new).2 [] s initial_session [])
    ((λ k, AtCheck k.1 k.2) <$> calls) (replicate n AtTerminalCheck).

End system.

Arguments t : clear implicits.
Arguments world : clear implicits.

(** What [establish] leaves behind, with the driver it spawned. *)
Definition of_shared {S : Type} `{Transport S} (c : Shared S) (d : driver (AnyTransport.t S))
    : t (AnyTransport.t S) :=
  mk
    (mk_lifecycle (shared_state c) (negb (Semaphore.closed (admission c))) (shutdown_tx c) false
       (bool_decide (is_Some (driver_task c))) Running
       ((λ t, (shutdown t).2) <$> shared_transport c))
    (Semaphore.permits (admission c)) (allocator c) [] (transport d) (session d) [].

End System.
