(* ===== verification/SystemFacts.v ===== *)
(** * The session as a whole: lemmas

    The invariants every interleaving of callers, closing handles, the driver and the peer keeps:
    permits are conserved, each completion channel is used once and by the caller that made it,
    the outcomes are those of [execute], ids in flight are distinct, and admission is closed
    before the driver ends. *)

From S2P Require Export System EndToEnd.
From Stdlib Require Import Strings.Byte.
Local Open Scope Z_scope.

Import System.

(** ** Counting callers *)

Section counting.
Context {A : Type} (P : A → bool).

Definition count (l : list A) : Z := Z.of_nat (length (List.filter P l)).

Lemma count_app l k : count (l ++ k) = count l + count k.
Proof. unfold count. rw List.filter_app length_app. lia. Qed.

Lemma count_cons x l : count (x :: l) = Z.b2z (P x) + count l.
Proof. unfold count. cbn. destruct (P x); cbn [length Z.b2z]; lia. Qed.

Lemma count_insert l i x y :
  l !! i = Some x → count (<[i := y]> l) = count l - Z.b2z (P x) + Z.b2z (P y).
Proof.
  intros Hi. rw insert_take_drop; [by apply lookup_lt_Some in Hi|].
  assert (count l = count (take i l ++ x :: drop (S i) l)) as -> by by rw take_drop_middle.
  rw !count_app !count_cons. lia.
Qed.

(** The positions whose elements satisfy the predicate. *)
Definition positions (l : list A) : list nat :=
  List.filter (λ i, match l !! i with Some x => P x | None => false end) (seq 0 (length l)).

Lemma length_positions l : Z.of_nat (length (positions l)) = count l.
Proof.
  induction l as [|x l IH] using rev_ind; [done|].
  rw count_app -IH. unfold positions, count. rw length_app Nat.add_1_r seq_S List.filter_app.
  rw length_app Nat2Z.inj_add. f_equal.
  - do 2 f_equal. apply List.filter_ext_in. intros i Hi%in_seq. rw lookup_app_l; [lia | done].
  - cbn. rw lookup_app_r; [lia|]. rw Nat.sub_diag. cbn. by destruct (P x).
Qed.

Lemma positions_count l (ps : list nat) :
  NoDup ps → (∀ i, i ∈ ps → ∃ x, l !! i = Some x ∧ P x = true) → Z.of_nat (length ps) ≤ count l.
Proof.
  intros Hnd Hps. rw -length_positions. apply inj_le, submseteq_length, NoDup_submseteq; [done|].
  intros i (x & Hi & Hx)%Hps. apply list_elem_of_In, filter_In. split.
  - apply in_seq. apply lookup_lt_Some in Hi. lia.
  - by rw Hi.
Qed.
End counting.

(** ** Invariants along the interleavings *)

Section invariants.
Context {T : Type} `{Transport T} (negotiated : Negotiated.t).
#[local] Abbreviation step := (step (T := T) negotiated).
#[local] Abbreviation limits := (limits negotiated).
#[local] Abbreviation caller_step := (caller_step negotiated).
#[local] Abbreviation driver_turn := (driver_turn negotiated).
Implicit Types (w : world T) (s : System.t T).

(** What one step does, whoever takes it. *)
Lemma reachable_invariant (I : world T → Prop) w w' :
  I w → (∀ w w', step w w' → I w → I w') → reachable negotiated w w' → I w'.
Proof. intros Hw Hs Hr. revert Hw. induction Hr; eauto. Qed.

(** A section of a caller leaves the driver's part alone, but for a submission it sends. *)
Lemma caller_step_driver s i c s' c' :
  caller_step s i c = Some (s', c') →
  conn s' = conn s ∧ stream s' = stream s ∧ sess s' = sess s ∧ stopping s' = stopping s ∧
  (queue s' = queue s ∨
   ∃ id bytes, c = AtSend id bytes ∧ c' = AtAwait id ∧ receiving s = true ∧
     queue s' = queue s ++ [Submit.mk id bytes i]).
Proof.
  destruct c; cbn; try done.
  - intros [= <- <-]. eauto 10.
  - intros [= <- <-]. eauto 10.
  - repeat case_match; try done; intros [= <- <-]; eauto 10.
  - intros [= <- <-]. eauto 10.
  - repeat case_match; intros [= <- <-]; cbn; eauto 10.
  - destruct (receiving s) eqn:Er; cbn; [|intros [= <- <-]; eauto 10].
    case_match; [|done]. intros [= <- <-]. cbn. repeat split. right. eauto 10.
  - repeat case_match; try done; intros [= <- <-]; cbn; eauto 10.
  - intros [= <- <-]. cbn. eauto 10.
Qed.

Lemma cancel_driver s c s' c' :
  cancel s c = Some (s', c') →
  conn s' = conn s ∧ stream s' = stream s ∧ sess s' = sess s ∧ stopping s' = stopping s ∧
  queue s' = queue s.
Proof. by destruct c; cbn; try done; intros [= <- <-]. Qed.

(** ** Permits *)

(** The callers that hold a permit. *)
Definition holds (c : caller) : bool :=
  match c with AtAllocate _ _ | AtSend _ _ | AtAwait _ | AtLost => true | _ => false end.

(** Every permit is in the semaphore or held by one caller. *)
Definition permits_conserved (maximum : Z) w : Prop :=
  0 ≤ permits (sys w) ∧ permits (sys w) + count holds (callers w) = maximum.

Lemma caller_step_permits s i c s' c' :
  caller_step s i c = Some (s', c') → 0 ≤ permits s →
  0 ≤ permits s' ∧ permits s' + Z.b2z (holds c') = permits s + Z.b2z (holds c).
Proof.
  destruct c; cbn; try done; repeat case_match; try done; intros [= <- <-] ?; cbn in *; breflect; lia.
Qed.

Lemma cancel_permits s c s' c' :
  cancel s c = Some (s', c') → 0 ≤ permits s →
  0 ≤ permits s' ∧ permits s' + Z.b2z (holds c') = permits s + Z.b2z (holds c).
Proof. destruct c; cbn; try done; intros [= <- <-]; cbn; lia. Qed.

(** The four kinds of turn. *)
Lemma driver_turn_cases s tn s' :
  driver_turn s tn = Some s' →
  (phase (conn s) = Running ∧ stopping s = [] ∧ signalled (conn s) = true ∧
   s' = mk (conn s) (permits s) (ids s) (queue s) (stream s) (fail_all (sess s) DriverError.Closed)
          [Signalled; ShutsDown]) ∨
  (phase (conn s) = Running ∧ stopping s = [] ∧
   ∃ submit rest r, queue s = submit :: rest ∧ on_submit (as_driver s) submit = Some r ∧
     s' = after_turn s rest r) ∨
  (phase (conn s) = Running ∧ stopping s = [] ∧
   s' = after_turn s (queue s) (on_read limits (as_driver s))) ∨
  (∃ action rest a l t, stopping s = action :: rest ∧ driver_action_step (conn s) a = Some l ∧
   s' = mk l (permits s) (ids s) (queue s) t (sess s) rest).
Proof.
  destruct (stopping s) as [|action rest] eqn:Es.
  - cbn. unfold System.driver_turn. rw Es.
    destruct (phase (conn s)) eqn:Ep, tn; try done.
    + destruct (signalled (conn s)); [|done]. intros [= <-]. by left.
    + destruct (queue s) as [|submit q]; [done|].
      destruct (on_submit (as_driver s) submit) as [r|] eqn:Er; [|done].
      intros [= <-]. right; left. eauto 10.
    + intros [= <-]. by right; right; left.
  - intros Hd. do 3 right. assert (tn = GoOnStopping) as ->.
    { unfold System.driver_turn in Hd. rw Es in Hd. by destruct (phase (conn s)), tn. }
    assert (∃ t a, (let? l := driver_action_step (conn s) a in
      Some (mk l (permits s) (ids s) (queue s) t (sess s) rest)) = Some s') as (t & a & Ha).
    { unfold System.driver_turn in Hd. rw Es in Hd. destruct action as [next exit| |].
      - exists (stream s), (DriverEnds next exit). by destruct (phase (conn s)).
      - exists (stream s), DriverSignalled. by destruct (phase (conn s)).
      - destruct (shutdown (stream s)) as [t r] eqn:Esh. exists t, (DriverShutDown r).
        by destruct (phase (conn s)). }
    destruct (driver_action_step (conn s) a) as [l|] eqn:El; [|done]. injection Ha as <-.
    eauto 10.
Qed.

Lemma driver_turn_permits s tn s' :
  driver_turn s tn = Some s' → permits s' = permits s ∧ ids s' = ids s.
Proof.
  by intros [(_ & _ & _ & ->)|[(_ & _ & ? & ? & ? & _ & _ & ->)|[(_ & _ & ->)|
    (? & ? & ? & ? & ? & _ & _ & ->)]]]%driver_turn_cases.
Qed.

Lemma permits_conserved_step maximum w w' :
  step w w' → permits_conserved maximum w → permits_conserved maximum w'.
Proof.
  unfold permits_conserved. intros Hs. destruct Hs as [w i c s c' Hi Hc|w i c s c' Hi Hc|w tn s Hd|w i p l p' Hi Hc];
    cbn; intros [H0 Hp].
  - apply caller_step_permits in Hc as [??]; [|done]. rw (count_insert _ _ _ _ _ Hi). lia.
  - apply cancel_permits in Hc as [??]; [|done]. rw (count_insert _ _ _ _ _ Hi). lia.
  - by apply driver_turn_permits in Hd as [-> _].
  - done.
Qed.

(** ** What the driver owes *)

(** The requests the driver holds or will find in its channel, with their channels. *)
Definition outstanding s : list (Z * sender) :=
  map_to_list (Session.completions (sess s)) ++
  ((λ m, (Submit.id m, Submit.completion m)) <$> queue s).

(** The frame a caller may be given as the answer to request [id]. *)
Definition answers_request (id : Z) (bytes : list byte) : Prop :=
  ∃ f live, bytes = frame_bytes f ∧ names f = id ∧ frame_wf (driver_admission limits live) f.

(** What one channel was sent is an answer to request [id]. *)
Definition answer_for (id : Z) (out : result (list byte) DriverError.t) : Prop :=
  match out with Ok bytes => answers_request id bytes | Err _ => True end.

(** From [s] to [s'] the session keeps only what it owed and answers only what it owed. *)
Definition serves (owed : Z → sender → Prop) (a b : Session.t) : Prop :=
  (∀ id i, Session.completions b !! id = Some i → owed id i) ∧
  ∃ new, Session.log b = Session.log a ++ new ∧
    Forall (λ e, ∃ id, owed id e.1 ∧ answer_for id e.2) new.

Definition owes (a : Session.t) (id : Z) (i : sender) : Prop :=
  Session.completions a !! id = Some i.

Lemma serves_quiet a b :
  Session.completions b = Session.completions a → Session.log b = Session.log a →
  serves (owes a) a b.
Proof. intros Hc Hl. split; [by rw Hc|]. exists []. by rw app_nil_r. Qed.

Lemma serves_trans owed a b c : serves owed a b → serves (owes b) b c → serves owed a c.
Proof.
  intros [Hab (n1 & Hb & H1)] [Hbc (n2 & Hc & H2)]. split; [intros; by eapply Hab, Hbc|].
  exists (n1 ++ n2). split; [by rw Hc Hb app_assoc|]. apply Forall_app. split; [done|].
  eapply Forall_impl; [exact H2|]. intros e (id & Ho & Ha). exists id. split; [by apply Hab | done].
Qed.

Lemma serves_fail_all a error : session_inv a → serves (owes a) a (fail_all a error).
Proof.
  intros (_ & Hc & _ & Hl)%(fail_all_spec a error). split; [by rw Hc|].
  eexists. split; [exact Hl|]. apply Forall_fmap, Forall_forall.
  intros i ([id j] & -> & Hin%elem_of_map_to_list)%list_elem_of_fmap. by exists id.
Qed.

Lemma serves_resolve a rest id out b :
  resolve a rest id out = Again b → answer_for id out → serves (owes a) a b.
Proof.
  unfold resolve. destruct (Session.completions a !! id) as [i|] eqn:Ei; [|done].
  intros [= <-] Ha. split.
  - cbn. by intros j k [_ ?]%lookup_delete_Some.
  - exists [(i, out)]. split; [done|]. apply Forall_singleton. by exists id.
Qed.

Lemma serves_drain a : serves (owes a) a (drain_frames limits a).1.
Proof.
  apply (drain_frames_ind limits (λ a b _, serves (owes a) a b)); clear a.
  - intros a b fatal Hd. destruct (drain_iteration_cases limits a)
      as [(E & _)|[(front & rest & id & out & _ & _ & E)|[g E]]]; rw E in Hd.
    + injection Hd as <- _. by apply serves_quiet.
    + apply resolve_done in Hd as [_ ->]. by apply serves_quiet.
    + injection Hd as <- _. by apply serves_quiet.
  - intros a a1 b fatal Hd Hb. eapply serves_trans; [|exact Hb].
    pose proof Hd as Hd0. unfold drain_iteration in Hd0.
    destruct (decode (Session.buffer a) _) as [n|f|g c] eqn:Ed; [done| |].
    + pose proof Ed as (Hwf & rest & Hbuf)%decode_frame_sound.
      rw (drain_iteration_frame limits a f rest Hwf Hbuf) in Hd.
      eapply serves_resolve; [exact Hd|]. by exists f, (Session.live a).
    + destruct (bool_decide _); [|done]. destruct (header_request_id _); [|done].
      by eapply serves_resolve.
Qed.

(** A turn that fails the waiters does so after it served them. *)
Lemma serves_terminate owed a b error :
  session_inv b → serves owed a b → serves owed a (fail_all b error).
Proof. intros Hb Hs. eapply serves_trans; [exact Hs | by apply serves_fail_all]. Qed.

Lemma serves_read s :
  session_inv (sess s) →
  serves (owes (sess s)) (sess s) (session (on_read limits (as_driver s)).1).
Proof.
  intros Hi. unfold on_read. cbn [transport session submit_closed as_driver].
  destruct (read_chunk (stream s)) as [t [[chunk|]|e]].
  - set (s1 := Session.mk _ _ _ _). pose proof (serves_drain s1) as Hs.
    pose proof (drain_frames_facts limits s1) as Hf.
    destruct (drain_frames limits s1) as [s2 [g|]]; destruct Hf as (Hi2 & _ & _); cbn in Hs |- *.
    + apply serves_terminate; [by apply Hi2|]. exact Hs.
    + exact Hs.
  - destruct (bool_decide _); cbn; [by apply serves_quiet | by apply serves_fail_all].
  - destruct (bool_decide _); cbn; [by apply serves_quiet | by apply serves_fail_all].
Qed.

(** What the driver owes once it has taken a submission. *)
Definition owes_also (a : Session.t) (m : Submit.t) (id : Z) (i : sender) : Prop :=
  owes a id i ∨ (id, i) = (Submit.id m, Submit.completion m).

Lemma serves_submit s m r :
  session_inv (sess s) → on_submit (as_driver s) m = Some r →
  serves (owes_also (sess s) m) (sess s) (session r.1).
Proof.
  intros [Hdom Hz]. unfold on_submit. cbn [session transport as_driver].
  destruct (InFlightRegistry.insert _ _) as [[[]|e] live] eqn:Ei; cbn [is_err].
  - apply registry_insert_ok in Ei as (Hne & Hni & Hlive). set (s1 := Session.mk _ _ _ _).
    assert (serves (owes_also (sess s) m) (sess s) s1) as Hs.
    { split; [|exists []; by rw app_nil_r]. cbn. unfold owes_also, owes.
      intros id i [[<- <-]|[_ ?]]%lookup_insert_Some; [by right | by left]. }
    destruct (write_all _ _) as [[t [|e]]|]; cbn; [| |done]; intros [= <-]; [exact Hs|].
    apply serves_terminate; [|exact Hs].
    unfold session_inv. cbn. rw dom_insert_L Hdom Hlive. set_solver.
  - apply registry_insert_err in Ei as ->. intros [= <-]. cbn.
    apply serves_terminate; [done|]. split.
    + cbn. intros id i Hi. by left.
    + eexists. split; [done|]. apply Forall_singleton. exists (Submit.id m). by split; [right|].
Qed.

(** ** Whose answer it is *)

(** The caller has sent its submission or will never send one. *)
Definition past_send (c : caller) : bool :=
  match c with AtAwait _ | AtLost | System.Done _ | Cancelled _ => true | _ => false end.

(** The caller waits for the answer to [id], or stopped waiting for it. *)
Definition awaits (id : Z) (c : caller) : Prop := c = AtAwait id ∨ c = Cancelled (Some id).

Record delivery w : Prop := {
  delivery_session : session_inv (sess (sys w));
  delivery_idle :
    phase (conn (sys w)) = Running → stopping (sys w) = [] → idle limits (sess (sys w));
  delivery_stopped :
    phase (conn (sys w)) ≠ Running ∨ stopping (sys w) ≠ [] →
    Session.completions (sess (sys w)) = ∅;
  delivery_channels : NoDup (resolved (sess (sys w)) ++ (outstanding (sys w)).*2);
  delivery_sent i :
    i ∈ resolved (sess (sys w)) ++ (outstanding (sys w)).*2 →
    ∃ c, callers w !! i = Some c ∧ past_send c = true;
  delivery_awaited id i :
    receiving (sys w) = true → (id, i) ∈ outstanding (sys w) →
    ∃ c, callers w !! i = Some c ∧ awaits id c;
  delivery_answers id i bytes :
    callers w !! i = Some (AtAwait id) → (i, Ok bytes) ∈ Session.log (sess (sys w)) →
    answers_request id bytes;
  delivery_done id i bytes :
    callers w !! i = Some (System.Done (Ok (id, bytes))) → answers_request id bytes
}.

Lemma received_log a i out : received a i = Some out → (i, out) ∈ Session.log a.
Proof.
  unfold received. destruct (List.find _ _) as [[j o]|] eqn:Ef; [|done]. intros [= <-].
  apply find_some in Ef as [Hin Hj]. cbn in Hj. apply Nat.eqb_eq in Hj as <-.
  by apply list_elem_of_In.
Qed.

Lemma received_none a i : received a i = None → i ∉ resolved a.
Proof.
  unfold received, resolved. destruct (List.find _ _) eqn:Ef; [done|]. intros _ Hin.
  apply list_elem_of_fmap in Hin as ([j o] & -> & Hin%list_elem_of_In).
  pose proof (find_none _ _ Ef _ Hin) as Hne. cbn in Hne. by rw Nat.eqb_refl in Hne.
Qed.

Lemma log_resolved a i out : (i, out) ∈ Session.log a → i ∈ resolved a.
Proof. intros Hin. apply list_elem_of_fmap. by exists (i, out). Qed.

Lemma caller_step_past_send s i c s' c' :
  caller_step s i c = Some (s', c') → past_send c = true → past_send c' = true.
Proof. destruct c; cbn; try done; repeat case_match; try done; by intros [= <- <-]. Qed.

Lemma caller_step_done s i c s' id bytes :
  caller_step s i c = Some (s', System.Done (Ok (id, bytes))) →
  c = AtAwait id ∧ (i, Ok bytes) ∈ Session.log (sess s).
Proof.
  destruct c; cbn; try done; repeat case_match; try done. intros [= _ <- <-].
  split; [done|]. by apply received_log.
Qed.

(** A caller leaves its [await] only when its submission is no longer outstanding. *)
Lemma caller_step_await w i id s' c' :
  delivery w → receiving (sys w) = true → caller_step (sys w) i (AtAwait id) = Some (s', c') →
  i ∉ (outstanding (sys w)).*2.
Proof.
  intros Hd Hr Hc Hin. cbn in Hc. destruct (received (sess (sys w)) i) as [out|] eqn:Er.
  - apply received_log, log_resolved in Er.
    pose proof (delivery_channels _ Hd) as (_ & Hdis & _)%NoDup_app. by apply (Hdis i).
  - replace (sender_alive (sys w) i) with true in Hc; [done|]. symmetry.
    unfold sender_alive. rw Hr. apply orb_true_iff.
    unfold outstanding in Hin. rw fmap_app in Hin. apply elem_of_app in Hin as [Hin|Hin].
    + left. by apply bool_decide_eq_true.
    + right. apply bool_decide_eq_true. by rw -list_fmap_compose in Hin.
Qed.

Lemma caller_step_to_await s i c s' id :
  caller_step s i c = Some (s', AtAwait id) → ∃ bytes, c = AtSend id bytes.
Proof. destruct c; cbn; try done; repeat case_match; try done. intros [= _ <-]. eauto. Qed.

(** The channel a section of a caller hands over. *)
Lemma caller_step_outstanding s i c s' c' :
  caller_step s i c = Some (s', c') →
  outstanding s' = outstanding s ∨
  ∃ id bytes, c = AtSend id bytes ∧ c' = AtAwait id ∧ outstanding s' = outstanding s ++ [(id, i)].
Proof.
  intros (_ & _ & Hs & _ & [Hq|(id & bytes & -> & -> & _ & Hq)])%caller_step_driver;
    unfold outstanding; rw Hs Hq; [by left|].
  right. exists id, bytes. by rw fmap_app app_assoc.
Qed.

(** A caller that has not sent has no channel yet. *)
Lemma unsent_fresh w i c :
  delivery w → callers w !! i = Some c → past_send c = false →
  i ∉ resolved (sess (sys w)) ++ (outstanding (sys w)).*2.
Proof.
  intros Hd Hi Hp (x & Hx & Hpx)%(delivery_sent _ Hd). rw Hi in Hx. injection Hx as <-. congruence.
Qed.

Lemma caller_delivery w i c s' c' :
  delivery w → callers w !! i = Some c → caller_step (sys w) i c = Some (s', c') →
  delivery (mk_world s' (<[i := c']> (callers w)) (closers w)).
Proof.
  intros Hd Hi Hc.
  assert (i < length (callers w))%nat as Hlt by by apply lookup_lt_Some in Hi.
  pose proof (caller_step_driver _ _ _ _ _ Hc) as (Hcn & _ & Hse & Hst & _).
  assert (receiving s' = receiving (sys w)) as Hr by (unfold receiving; by rw Hcn).
  pose proof (caller_step_outstanding _ _ _ _ _ Hc) as Ho.
  split; cbn; rw ?Hcn ?Hse ?Hst ?Hr; try apply Hd.
  - destruct Ho as [->|(id & bytes & -> & -> & ->)]; [apply Hd|].
    rw fmap_app app_assoc. apply NoDup_app. split; [apply Hd|].
    split; [|apply NoDup_singleton]. intros j Hj ->%list_elem_of_singleton.
    by eapply unsent_fresh.
  - intros j Hj. destruct (decide (i = j)) as [<-|Hne].
    + exists c'. rw list_lookup_insert_eq; [done|]. split; [done|].
      destruct Ho as [Ho|(id & bytes & -> & -> & Ho)]; [|done].
      rw Ho in Hj. apply (delivery_sent _ Hd) in Hj as (x & Hx & Hpx).
      rw Hi in Hx. injection Hx as <-. by eapply caller_step_past_send.
    + rw list_lookup_insert_ne; [done|]. apply (delivery_sent _ Hd).
      destruct Ho as [<-|(id & bytes & -> & -> & Ho)]; [done|].
      rw Ho fmap_app app_assoc in Hj. apply elem_of_app in Hj as [?|?%list_elem_of_singleton]; [done|].
      by destruct Hne.
  - intros id j Hrec Hin.
    assert ((id, j) ∈ outstanding (sys w) ∨ (j = i ∧ c' = AtAwait id)) as [Hold|[-> ->]].
    { destruct Ho as [<-|(id' & bytes & -> & -> & Ho)]; [by left|]. rw Ho in Hin.
      apply elem_of_app in Hin as [?|[= -> ->]%list_elem_of_singleton]; [by left | by right]. }
    + destruct (delivery_awaited _ Hd id j Hrec Hold) as (x & Hj & Hx).
      destruct (decide (i = j)) as [<-|Hne]; [|exists x; by rw list_lookup_insert_ne].
      rw Hi in Hj. injection Hj as <-. destruct Hx as [->| ->]; [|done].
      exfalso. eapply caller_step_await; [done..|]. apply list_elem_of_fmap. by exists (id, i).
    + exists (AtAwait id). rw list_lookup_insert_eq; [done|]. split; [done | by left].
  - intros id j bytes Hj Hin. destruct (decide (i = j)) as [<-|Hne].
    + rw list_lookup_insert_eq in Hj; [done|]. injection Hj as ->.
      apply caller_step_to_await in Hc as [b ->]. destruct (unsent_fresh w i _ Hd Hi eq_refl).
      apply elem_of_app. left. by eapply log_resolved.
    + rw list_lookup_insert_ne in Hj; [done|]. by eapply delivery_answers.
  - intros id j bytes Hj. destruct (decide (i = j)) as [<-|Hne].
    + rw list_lookup_insert_eq in Hj; [done|]. injection Hj as ->.
      apply caller_step_done in Hc as [-> Hin]. by eapply delivery_answers.
    + rw list_lookup_insert_ne in Hj; [done|]. by eapply delivery_done.
Qed.

Lemma cancel_caller s c s' c' :
  cancel s c = Some (s', c') →
  (∀ id, awaits id c → awaits id c') ∧ past_send c' = true ∧ ∃ submitted, c' = Cancelled submitted.
Proof.
  destruct c; cbn; try done; intros [= <- <-]; (split; [|eauto]); intros i [Hi|Hi]; try done.
  injection Hi as <-. by right.
Qed.

Lemma cancel_delivery w i c s' c' :
  delivery w → callers w !! i = Some c → cancel (sys w) c = Some (s', c') →
  delivery (mk_world s' (<[i := c']> (callers w)) (closers w)).
Proof.
  intros Hd Hi Hc.
  assert (i < length (callers w))%nat as Hlt by by apply lookup_lt_Some in Hi.
  pose proof (cancel_driver _ _ _ _ Hc) as (Hcn & _ & Hse & Hst & Hq).
  pose proof (cancel_caller _ _ _ _ Hc) as (Haw & Hps & submitted & Hc').
  assert (receiving s' = receiving (sys w)) as Hr by (unfold receiving; by rw Hcn).
  assert (outstanding s' = outstanding (sys w)) as Ho by (unfold outstanding; by rw Hse Hq).
  split; cbn; rw ?Hcn ?Hse ?Hst ?Hr ?Ho; try apply Hd.
  - intros j (x & Hj & Hx)%(delivery_sent _ Hd). destruct (decide (i = j)) as [<-|Hne].
    + exists c'. by rw list_lookup_insert_eq.
    + exists x. by rw list_lookup_insert_ne.
  - intros id j Hrec Hin. destruct (delivery_awaited _ Hd id j Hrec Hin) as (x & Hj & Hx).
    destruct (decide (i = j)) as [<-|Hne]; [|exists x; by rw list_lookup_insert_ne].
    rw Hi in Hj. injection Hj as <-. exists c'. rw list_lookup_insert_eq; [done|]. auto.
  - intros id j bytes Hj Hin. destruct (decide (i = j)) as [<-|Hne].
    + rw list_lookup_insert_eq in Hj; [done|]. congruence.
    + rw list_lookup_insert_ne in Hj; [done|]. by eapply delivery_answers.
  - intros id j bytes Hj. destruct (decide (i = j)) as [<-|Hne].
    + rw list_lookup_insert_eq in Hj; [done|]. congruence.
    + rw list_lookup_insert_ne in Hj; [done|]. by eapply delivery_done.
Qed.

(** A turn in which the driver serves what it owes. *)
Lemma served_delivery w s' :
  delivery w → conn s' = conn (sys w) → phase (conn (sys w)) = Running →
  session_inv (sess s') → (stopping s' = [] → idle limits (sess s')) →
  (stopping s' ≠ [] → Session.completions (sess s') = ∅) →
  resolved (sess s') ++ (outstanding s').*2 ≡ₚ resolved (sess (sys w)) ++ (outstanding (sys w)).*2 →
  serves (λ id i, (id, i) ∈ outstanding (sys w)) (sess (sys w)) (sess s') →
  (∀ m, m ∈ queue s' → m ∈ queue (sys w)) →
  delivery (mk_world s' (callers w) (closers w)).
Proof.
  intros Hd Hcn Hrun Hi Hidle Hstop Hperm [Hkeep (new & Hlog & Hnew)] Hq.
  assert (receiving (sys w) = true) as Hr by (unfold receiving; by rw Hrun).
  split; cbn; rw ?Hcn; try done.
  - intros [Hne|Hne]; [by destruct Hne | by apply Hstop].
  - rw Hperm. apply Hd.
  - intros i. rw Hperm. apply Hd.
  - intros id i _ Hin. apply (delivery_awaited _ Hd id i Hr). unfold outstanding in Hin.
    apply elem_of_app in Hin as [Hin%elem_of_map_to_list|Hin]; [by apply Hkeep|].
    apply list_elem_of_fmap in Hin as (m & Hm & Hin%Hq). apply elem_of_app. right.
    apply list_elem_of_fmap. by exists m.
  - intros id i bytes Hc Hin. rw Hlog in Hin. apply elem_of_app in Hin as [Hin|Hin].
    + by eapply delivery_answers.
    + rw Forall_forall in Hnew. apply Hnew in Hin as (id' & Ho & Ha).
      apply (delivery_awaited _ Hd _ _ Hr) in Ho as (x & Hx & Haw). cbn in Hx, Ha.
      injection (eq_trans (eq_sym Hc) Hx) as <-. by destruct Haw as [[= <-]|?].
  - apply Hd.
Qed.

Lemma driver_action_phase l a l' :
  driver_action_step l a = Some l' →
  phase l' ≠ Running ∧ (phase l = Running ∨ phase l = ShuttingDown) ∧
  (phase l' = ShuttingDown → phase l = Running).
Proof.
  unfold driver_action_step. destruct a as [next exit| |[]], (phase l) eqn:Ep; try done;
    repeat case_match; try done; intros [= <-]; cbn; (split; [done|]); split; auto; done.
Qed.

Lemma stop_delivery w action rest a l t :
  delivery w → stopping (sys w) = action :: rest → driver_action_step (conn (sys w)) a = Some l →
  delivery (mk_world (mk l (permits (sys w)) (ids (sys w)) (queue (sys w)) t (sess (sys w)) rest)
              (callers w) (closers w)).
Proof.
  intros Hd Hst (Hne & Hp & Hph)%driver_action_phase.
  split; cbn; try apply Hd; try done.
  - intros _. apply (delivery_stopped _ Hd). right. by rw Hst.
  - intros id i Hr. apply (delivery_awaited _ Hd). unfold receiving in *. cbn in Hr.
    by destruct Hp as [->| ->].
Qed.

Lemma close_step_phase l p l' p' : close_step l p = Some (l', p') → phase l' = phase l.
Proof. destruct p; cbn; repeat case_match; try done; by intros [= <- <-]. Qed.

Lemma closer_delivery w l ps :
  phase l = phase (conn (sys w)) → delivery w →
  delivery (mk_world (with_conn (sys w) l) (callers w) ps).
Proof.
  intros Hp Hd. assert (receiving (with_conn (sys w) l) = receiving (sys w)) as Hr.
  { unfold receiving. cbn. by rw Hp. }
  split; cbn; rw ?Hp; try apply Hd. rw Hr. apply Hd.
Qed.

(** The outcome of a turn, as the session sees it. *)
Lemma as_driver_inv w :
  delivery w → phase (conn (sys w)) = Running → stopping (sys w) = [] →
  driver_inv limits (as_driver (sys w)).
Proof. intros Hd Hp Hs. split; [apply Hd | by apply (delivery_idle _ Hd)]. Qed.

Lemma pending_empty a : pending a = [] → Session.completions a = ∅.
Proof.
  unfold pending. intros He%fmap_nil_inv. by apply map_to_list_empty_iff.
Qed.

(** With a handle left the loop never ends because nobody can submit any more. *)
Lemma on_read_exit s : (on_read limits (as_driver s)).2 ≠ Some DriverExit.Closed.
Proof.
  unfold on_read, settle. cbn [transport session submit_closed as_driver]. rw !andb_false_r.
  repeat case_match; by simplify_eq/=.
Qed.

Lemma on_submit_exit s m r :
  on_submit (as_driver s) m = Some r → r.2 ≠ Some DriverExit.Closed.
Proof.
  unfold on_submit, settle. cbn [transport session submit_closed as_driver].
  repeat case_match; try done; intros; by simplify_eq/=.
Qed.

Lemma turn_stops (d : driver T) arrived r :
  turn_ok limits d arrived r → r.2 ≠ Some DriverExit.Closed →
  (stops r.2 = [] → idle limits (session r.1)) ∧
  (stops r.2 ≠ [] → Session.completions (session r.1) = ∅).
Proof.
  intros (_ & _ & Ht) Hne. destruct r.2 as [[]|]; cbn; try done; split; try done.
  - intros _. by apply pending_empty.
  - intros _. by apply pending_empty.
  - intros _. apply Ht.
Qed.

Lemma after_turn_delivery w rest r (owed : Z → sender → Prop) arrived :
  delivery w → phase (conn (sys w)) = Running →
  turn_ok limits (as_driver (sys w)) (Submit.completion <$> arrived) r →
  r.2 ≠ Some DriverExit.Closed → queue (sys w) = arrived ++ rest →
  serves owed (sess (sys w)) (session r.1) →
  (∀ id i, owed id i → (id, i) ∈ outstanding (sys w)) →
  delivery (mk_world (after_turn (sys w) rest r) (callers w) (closers w)).
Proof.
  intros Hd Hp Hok Hne Hq [Hk (new & Hlog & Hnew)] Ho.
  pose proof (turn_stops _ _ _ Hok Hne) as [Hidle Hstop]. destruct Hok as (Hperm & Hi & _).
  apply served_delivery; try done.
  - unfold channels in Hperm. cbn in Hperm |- *. unfold outstanding. cbn. rw !fmap_app Hq.
    fold (pending (session r.1)) (pending (sess (sys w))).
    rw app_assoc Hperm -!list_fmap_compose -!app_assoc. by rw fmap_app.
  - split; [intros; by apply Ho, Hk|]. exists new. split; [done|].
    eapply Forall_impl; [exact Hnew|]. intros e (id & He & Ha). eauto.
  - cbn. intros m Hm. rw Hq. apply elem_of_app. by right.
Qed.

Lemma delivery_step w w' : step w w' → delivery w → delivery w'.
Proof.
  intros Hs. destruct Hs as [w i c s c' Hi Hc|w i c s c' Hi Hc|w tn s Hdr|w i p l p' Hi Hc];
    intros Hd.
  - by eapply caller_delivery.
  - by eapply cancel_delivery.
  - apply driver_turn_cases in Hdr as [(Hp & Hst & _ & ->)|[(Hp & Hst & m & rest & r & Hq & Hm & ->)
      |[(Hp & Hst & ->)|(action & rest & a & l & t & Hst & Ha & ->)]]].
    + pose proof (delivery_session _ Hd) as Hi.
      destruct (fail_all_resolved _ DriverError.Closed Hi) as [Hpe Hre].
      pose proof (fail_all_spec _ DriverError.Closed Hi) as (_ & He & _).
      apply served_delivery; cbn; try done; [by apply fail_all_inv| |].
      * unfold outstanding. cbn. rw He map_to_list_empty Hre !fmap_app -!app_assoc. done.
      * destruct (serves_fail_all _ DriverError.Closed Hi) as [_ (new & Hl & Hn)].
        split; [by rw He|]. exists new. split; [done|]. eapply Forall_impl; [exact Hn|].
        intros e (id & Ho & Hae). exists id. split; [|done]. apply elem_of_app. left.
        by apply elem_of_map_to_list.
    + eapply (after_turn_delivery _ _ _ (owes_also (sess (sys w)) m) [m]); try done.
      * apply on_submit_turn; [by apply as_driver_inv | done].
      * by eapply on_submit_exit.
      * apply serves_submit; [apply Hd | done].
      * intros id i [Ho| ->]; apply elem_of_app; [left; by apply elem_of_map_to_list|right].
        rw Hq. left.
    + eapply (after_turn_delivery _ _ _ (owes (sess (sys w))) []); try done.
      * apply on_read_ok. by apply as_driver_inv.
      * apply on_read_exit.
      * apply serves_read, Hd.
      * intros id i Ho. apply elem_of_app. left. by apply elem_of_map_to_list.
    + by eapply stop_delivery.
  - apply closer_delivery; [by eapply close_step_phase | done].
Qed.

(** ** Every outcome is one of [execute] *)

(** The connection as [execute] finds it, with the state and the allocator of some moment. *)
Definition seen (state : ConnectionState.t) (a : RequestIdAllocator.t) : Shared T :=
  mk_shared negotiated state None (Semaphore.mk 0 false) 0 true a None true.

(** [outcome] is what [execute] returns for call [k] when the semaphore and the channel answer as
    [a] and [became] say; an answer of the driver is one that channel [i] was sent. *)
Definition outcome_explained (log : deliveries) (i : sender) (k : Z * list byte)
    (outcome : result (Z * list byte) CommandError.t) : Prop :=
  ∃ state alloc a became,
    (Client.execute (seen state alloc) k.1 k.2 a became).2 = outcome ∧
    ∀ out, became = Completed out → (i, out) ∈ log.

(** Past the size check, with an id. *)
Definition admitted (k : Z * list byte) : Prop :=
  (frame_limit negotiated <? wire_size (len k.2)) = false.

Definition named (k : Z * list byte) (id : Z) : Prop :=
  admitted k ∧ ∃ a bytes, (RequestIdAllocator.allocate a).1 = id ∧ id ≠ 0 ∧
    encode_request k.1 k.2 id (frame_limit negotiated) (metadata_limit negotiated) = Ok bytes.

Definition explained (log : deliveries) (i : sender) (k : Z * list byte) (c : caller) : Prop :=
  match c with
  | AtCheck opcode payload => k = (opcode, payload)
  | AtAcquire opcode payload | AtAllocate opcode payload => k = (opcode, payload) ∧ admitted k
  | AtAcquireFailed => admitted k
  | AtSend id _ | AtAwait id => named k id
  | AtLost => ∃ id, named k id
  | System.Done outcome => outcome_explained log i k outcome
  | AtRefusal | Cancelled _ => True
  end.

Lemma execute_refused k state a alloc :
  state ≠ ConnectionState.Usable →
  (Client.execute (seen state alloc) k.1 k.2 a (SendFailed state)).2 = Err (completion_lost state).
Proof. by destruct state. Qed.

Lemma execute_named k id :
  named k id → ∃ alloc, ∀ became,
    (Client.execute (seen ConnectionState.Usable alloc) k.1 k.2 Granted became).2 =
    match became with
    | SendFailed state | CompletionDropped state => Err (completion_lost state)
    | Completed (Ok frame_bytes) => Ok (id, frame_bytes)
    | Completed (Err e) => Err (CommandError.from_driver e)
    end.
Proof.
  intros (Had & a & bytes & Hid & Hne & Hb). exists a. intros became.
  unfold Client.execute, admitted, frame_limit, metadata_limit in *. cbn -[RequestIdAllocator.allocate].
  rw Had. unfold allocate_id. cbn -[RequestIdAllocator.allocate].
  destruct (RequestIdAllocator.allocate a) as [id' a']. cbn in Hid. subst id'.
  destruct (Z.eqb_spec id 0); [done|]. rw Hb. by destruct became as [| |[]].
Qed.

Lemma allocate_explained log i s k s' c' :
  admitted k → caller_step s i (AtAllocate k.1 k.2) = Some (s', c') → explained log i k c'.
Proof.
  intros Had. cbn -[RequestIdAllocator.allocate].
  destruct (RequestIdAllocator.allocate (ids s)) as [id a'] eqn:Ea. intros [= Hc].
  assert (∀ e, id = 0 ∧ e = CommandError.Unusable ∨
    id ≠ 0 ∧ encode_request k.1 k.2 id (frame_limit negotiated) (metadata_limit negotiated) = Err e →
    outcome_explained log i k (Err e)) as Hex.
  { intros e He. exists ConnectionState.Usable, (ids s), Granted, (SendFailed ConnectionState.Usable).
    split; [|done]. unfold Client.execute, admitted, frame_limit, metadata_limit in *.
    cbn -[RequestIdAllocator.allocate]. rw Had. unfold allocate_id.
    cbn -[RequestIdAllocator.allocate]. rw Ea.
    destruct He as [[-> ->]|[Hne He]]; [done|]. apply Z.eqb_neq in Hne. by rw Hne He. }
  destruct (Z.eqb_spec id 0) as [->|Hne]; [injection Hc as _ <-; cbn; auto|].
  destruct (encode_request _ _ _ _ _) as [bytes|e] eqn:Eb; injection Hc as _ <-; cbn; [|auto].
  split; [done|]. exists (ids s), bytes. by rw Ea.
Qed.

Lemma caller_step_explained s i k c s' c' :
  caller_step s i c = Some (s', c') → explained (Session.log (sess s)) i k c →
  (c = AtRefusal → life (conn s) ≠ ConnectionState.Usable) →
  explained (Session.log (sess s)) i k c'.
Proof.
  intros Hc He Hu. destruct c as [op p| |op p| |op p|id bytes|id| | |]; cbn in He; try done.
  - subst k. injection Hc as _ <-. destruct (ConnectionState.is_usable _); [|done].
    destruct (frame_limit negotiated <? _) eqn:Ef; [|done]. cbn.
    exists ConnectionState.Usable, RequestIdAllocator.new, Granted,
      (SendFailed ConnectionState.Usable).
    split; [|done]. unfold Client.execute, frame_limit in *. cbn. by rw Ef.
  - injection Hc as _ <-. cbn. eexists _, RequestIdAllocator.new, Granted, _.
    split; [by apply execute_refused, Hu | done].
  - destruct He as [-> Had]. cbn in Hc. repeat case_match; simplify_eq/=; done.
  - injection Hc as _ <-. cbn.
    exists ConnectionState.Usable, RequestIdAllocator.new, (AcquireClosed (life (conn s))),
      (SendFailed ConnectionState.Usable).
    split; [|done]. unfold Client.execute, admitted, frame_limit in *. cbn. by rw He.
  - destruct He as [-> Had]. by eapply (allocate_explained _ _ _ (op, p)).
  - cbn in Hc. repeat case_match; simplify_eq/=; [by exists id | done].
  - destruct (execute_named k id He) as [alloc Hex]. cbn in Hc.
    destruct (received _ i) as [out|] eqn:Er.
    + assert (c' = System.Done (Client.execute (seen ConnectionState.Usable alloc) k.1 k.2 Granted
                               (Completed out)).2) as ->.
      { rw Hex. by destruct out; injection Hc as _ <-. }
      exists ConnectionState.Usable, alloc, Granted, (Completed out). split; [done|].
      intros o [= <-]. by apply received_log.
    + destruct (sender_alive s i); [done|]. injection Hc as _ <-. by exists id.
  - destruct He as [id (alloc & Hex)%execute_named]. injection Hc as _ <-. cbn.
    exists ConnectionState.Usable, alloc, Granted, (SendFailed (life (conn s))).
    by rw Hex.
Qed.

Lemma explained_later log new i k c : explained log i k c → explained (log ++ new) i k c.
Proof.
  destruct c; cbn; try done. intros (state & alloc & a & became & He & Hin).
  exists state, alloc, a, became. split; [done|]. intros out Hb. apply elem_of_app. left. auto.
Qed.

Lemma driver_turn_log w tn s' :
  delivery w → driver_turn (sys w) tn = Some s' →
  ∃ new, Session.log (sess s') = Session.log (sess (sys w)) ++ new.
Proof.
  intros Hd [(_ & _ & _ & ->)|[(_ & _ & m & rest & r & _ & Hm & ->)|[(_ & _ & ->)|
    (action & rest & a & l & t & _ & _ & ->)]]]%driver_turn_cases; cbn.
  - eexists. apply fail_all_spec, Hd.
  - destruct (serves_submit _ _ _ (delivery_session _ Hd) Hm) as [_ (new & Hl & _)]. by exists new.
  - destruct (serves_read _ (delivery_session _ Hd)) as [_ (new & Hl & _)]. by exists new.
  - exists []. by rw app_nil_r.
Qed.

Lemma driver_turn_usable s tn s' :
  driver_turn s tn = Some s' → life (conn s) ≠ ConnectionState.Usable →
  life (conn s') ≠ ConnectionState.Usable.
Proof.
  intros [(_ & _ & _ & ->)|[(_ & _ & ? & ? & ? & _ & _ & ->)|[(_ & _ & ->)|
    (? & ? & a & l & t & _ & Ha & ->)]]]%driver_turn_cases Hu; try done.
  by eapply driver_action_usable.
Qed.

(** The calls explain what their callers do. *)
Record explains (calls : list (Z * list byte)) w : Prop := {
  explains_callers i c :
    callers w !! i = Some c →
    ∃ k, calls !! i = Some k ∧ explained (Session.log (sess (sys w))) i k c;
  explains_refusal i :
    callers w !! i = Some AtRefusal → life (conn (sys w)) ≠ ConnectionState.Usable;
  explains_closers : Forall point_ok (closers w)
}.

Lemma caller_step_refusal s i c s' :
  caller_step s i c = Some (s', AtRefusal) → life (conn s) ≠ ConnectionState.Usable.
Proof.
  destruct c; cbn; repeat case_match; try done. intros _. by destruct (life (conn s)).
Qed.

Lemma explains_step calls w w' :
  step w w' → delivery w → explains calls w → explains calls w'.
Proof.
  intros Hs. destruct Hs as [w i c s c' Hi Hc|w i c s c' Hi Hc|w tn s Hdr|w i p l p' Hi Hc];
    intros Hd He.
  - pose proof (caller_step_driver _ _ _ _ _ Hc) as (Hcn & _ & Hse & _).
    split; cbn; [| |apply He]; intros j.
    + intros x [(<- & -> & _)|[_ Hx]]%list_lookup_insert_Some; rw Hse; [|by apply He].
      destruct (explains_callers _ _ He i c Hi) as (k & Hk & Hex). exists k. split; [done|].
      eapply caller_step_explained; [done..|]. intros ->. by eapply explains_refusal.
    + rw Hcn. intros [(<- & -> & _)|[_ Hx]]%list_lookup_insert_Some.
      * by eapply caller_step_refusal.
      * by eapply explains_refusal.
  - pose proof (cancel_driver _ _ _ _ Hc) as (Hcn & _ & Hse & _).
    pose proof (cancel_caller _ _ _ _ Hc) as (_ & _ & submitted & ->).
    split; cbn; [| |apply He]; intros j.
    + intros x [(<- & <- & _)|[_ Hx]]%list_lookup_insert_Some; rw Hse; [|by apply He].
      destruct (explains_callers _ _ He i c Hi) as (k & Hk & _). by exists k.
    + rw Hcn. intros [(_ & ? & _)|[_ Hx]]%list_lookup_insert_Some; [done|].
      by eapply explains_refusal.
  - destruct (driver_turn_log _ _ _ Hd Hdr) as [new Hl]. split; cbn; [| |apply He].
    + intros i c (k & Hk & Hex)%(explains_callers _ _ He). exists k. split; [done|].
      rw Hl. by apply explained_later.
    + intros i Hi. eapply driver_turn_usable; [done|]. by eapply explains_refusal.
  - pose proof (explains_closers _ _ He) as Hok. split; cbn; [apply He| |].
    + intros j Hj. eapply close_step_usable; [done | by eapply Forall_lookup_1|].
      by eapply explains_refusal.
    + apply Forall_insert; [done|]. eapply close_step_point; [done|]. by eapply Forall_lookup_1.
Qed.

(** ** Ids *)

(** The id a caller was given and may still have in flight or got its answer under. *)
Definition id_of (c : caller) : option Z :=
  match c with
  | AtSend id _ | AtAwait id | Cancelled (Some id) | System.Done (Ok (id, _)) => Some id
  | _ => None
  end.

(** The caller has yet to be given an id, if it ever is. *)
Definition unnamed (c : caller) : bool :=
  match c with AtCheck _ _ | AtAcquire _ _ | AtAllocate _ _ => true | _ => false end.

(** The ids in flight are distinct, nonzero, and behind the allocator, which has room for the
    callers still to come. *)
Record ids_distinct w : Prop := {
  distinct_ids i j c c' id :
    callers w !! i = Some c → callers w !! j = Some c' → id_of c = Some id → id_of c' = Some id →
    i = j;
  distinct_behind i c id :
    callers w !! i = Some c → id_of c = Some id → 1 ≤ id < RequestIdAllocator.next (ids (sys w));
  distinct_room :
    1 ≤ RequestIdAllocator.next (ids (sys w)) ∧
    RequestIdAllocator.next (ids (sys w)) + count unnamed (callers w) ≤ U64_MAX
}.

Lemma allocate_next a :
  1 ≤ RequestIdAllocator.next a < U64_MAX →
  RequestIdAllocator.allocate a =
    (RequestIdAllocator.next a, RequestIdAllocator.mk (RequestIdAllocator.next a + 1)).
Proof.
  intros Ha. unfold RequestIdAllocator.allocate, wrapping_add. set (n := RequestIdAllocator.next a) in *.
  destruct (Z.eqb_spec n 0); [lia|]. rw Z.mod_small; [lia|]. by destruct (Z.eqb_spec (n + 1) 0); [lia|].
Qed.

Lemma caller_step_id s i c s' c' :
  caller_step s i c = Some (s', c') →
  (ids s' = ids s ∧ (∀ id, id_of c' = Some id → id_of c = Some id) ∧
   Z.b2z (unnamed c') ≤ Z.b2z (unnamed c)) ∨
  (unnamed c = true ∧ unnamed c' = false ∧ ids s' = (RequestIdAllocator.allocate (ids s)).2 ∧
   ∀ id, id_of c' = Some id → id = (RequestIdAllocator.allocate (ids s)).1).
Proof.
  destruct c; cbn -[RequestIdAllocator.allocate]; try done.
  5: { destruct (RequestIdAllocator.allocate _) as [id a]. intros [= Hc]. right. split; [done|].
       destruct (id =? 0); [by injection Hc as <- <-|].
       destruct (encode_request _ _ _ _ _); injection Hc as <- <-; [|done].
       repeat split. cbn. by intros ? [= <-]. }
  all: repeat case_match; try done; intros [= <- <-]; left; cbn; repeat split; try done; lia.
Qed.

(** Replacing caller [i] by one that has no id of its own. *)
Lemma ids_distinct_insert w s' i c c' :
  ids_distinct w → callers w !! i = Some c → ids s' = ids (sys w) →
  (∀ id, id_of c' = Some id → id_of c = Some id) → Z.b2z (unnamed c') ≤ Z.b2z (unnamed c) →
  ids_distinct (mk_world s' (<[i := c']> (callers w)) (closers w)).
Proof.
  intros [Hd Hb Hr] Hi Hs Hid Hu.
  assert (∀ j x id, <[i := c']> (callers w) !! j = Some x → id_of x = Some id →
    ∃ y, callers w !! j = Some y ∧ id_of y = Some id) as Hold.
  { intros j x id [(<- & <- & _)|[_ Hx]]%list_lookup_insert_Some Hx'; eauto. }
  split; cbn.
  - intros j k x y id Hj Hk Hx Hy. destruct (Hold _ _ _ Hj Hx) as (x' & ? & ?).
    destruct (Hold _ _ _ Hk Hy) as (y' & ? & ?). by eapply (Hd j k x' y').
  - intros j x id Hj Hx. destruct (Hold _ _ _ Hj Hx) as (x' & ? & ?). rw Hs. by eapply Hb.
  - rw Hs (count_insert _ _ _ _ _ Hi). lia.
Qed.

(** Replacing caller [i] by one that was just given an id. *)
Lemma ids_distinct_allocate w s' i c c' :
  ids_distinct w → callers w !! i = Some c → unnamed c = true → unnamed c' = false →
  ids s' = (RequestIdAllocator.allocate (ids (sys w))).2 →
  (∀ id, id_of c' = Some id → id = (RequestIdAllocator.allocate (ids (sys w))).1) →
  ids_distinct (mk_world s' (<[i := c']> (callers w)) (closers w)).
Proof.
  intros [Hd Hb Hr] Hi Hu Hu' Hs Hid.
  assert (1 ≤ count unnamed (callers w)) as Hc.
  { apply (positions_count unnamed _ [i]); [apply NoDup_singleton|].
    intros j ->%list_elem_of_singleton. eauto. }
  rw allocate_next in Hs; [lia|]. rw allocate_next in Hid; [lia|]. cbn in Hs, Hid.
  assert (∀ j x id, <[i := c']> (callers w) !! j = Some x → id_of x = Some id →
    j = i ∧ id = RequestIdAllocator.next (ids (sys w)) ∨
    (∃ y, callers w !! j = Some y ∧ id_of y = Some id)) as Hold.
  { intros j x id [(<- & <- & _)|[_ Hx]]%list_lookup_insert_Some Hx'; eauto. }
  split; cbn.
  - intros j k x y id Hj Hk Hx Hy.
    destruct (Hold _ _ _ Hj Hx) as [[-> ->]|(x' & ? & ?)],
      (Hold _ _ _ Hk Hy) as [[-> He]|(y' & Hy1 & Hy2)].
    + done.
    + pose proof (Hb _ _ _ Hy1 Hy2). lia.
    + subst id. assert (1 ≤ RequestIdAllocator.next (ids (sys w)) <
        RequestIdAllocator.next (ids (sys w))) by by eapply Hb. lia.
    + by eapply (Hd j k x' y').
  - intros j x id Hj Hx. rw Hs. cbn.
    destruct (Hold _ _ _ Hj Hx) as [[-> ->]|(x' & ? & ?)]; [lia|].
    assert (1 ≤ id < RequestIdAllocator.next (ids (sys w))) by by eapply Hb. lia.
  - rw Hs (count_insert _ _ _ _ _ Hi) Hu Hu'. cbn. lia.
Qed.

Lemma ids_distinct_step w w' : step w w' → ids_distinct w → ids_distinct w'.
Proof.
  intros Hs. destruct Hs as [w i c s c' Hi Hc|w i c s c' Hi Hc|w tn s Hdr|w i p l p' Hi Hc];
    intros Hd.
  - destruct (caller_step_id _ _ _ _ _ Hc) as [(? & ? & ?)|(? & ? & ? & ?)].
    + by eapply ids_distinct_insert.
    + by eapply ids_distinct_allocate.
  - eapply ids_distinct_insert; [done | done | | |]; destruct c; cbn in Hc; try done;
      injection Hc as <- <-; done.
  - apply driver_turn_permits in Hdr as [_ Hids]. split; cbn; rw ?Hids; apply Hd.
  - split; cbn; apply Hd.
Qed.

(** A session just established has all of this. *)
Lemma established_callers (s : T) maximum calls n i c :
  callers (established s maximum calls n : world T) !! i = Some c →
  ∃ k, calls !! i = Some k ∧ c = AtCheck k.1 k.2.
Proof. cbn. rw list_lookup_fmap. destruct (calls !! i); [|done]. intros [= <-]. eauto. Qed.

Lemma established_count (P : caller → bool) (s : T) maximum calls n b :
  (∀ opcode payload, P (AtCheck opcode payload) = b) →
  count P (callers (established s maximum calls n : world T)) =
    if b then Z.of_nat (length calls) else 0.
Proof.
  intros HP. cbn. unfold count. induction calls as [|k calls IH]; [by destruct b|].
  cbn. rw HP. destruct b; [|done]. cbn. lia.
Qed.

Lemma established_conserves (s : T) maximum calls n :
  0 ≤ maximum → permits_conserved maximum (established s maximum calls n : world T).
Proof. split; [done|]. rw (established_count holds _ _ _ _ false); [done | cbn; lia]. Qed.

Lemma established_delivery (s : T) maximum calls n :
  delivery (established s maximum calls n : world T).
Proof.
  split; cbn; try done.
  - intros _ _. by apply idle_empty.
  - apply NoDup_nil_2.
  - by intros i ?%elem_of_nil.
  - by intros id i _ ?%elem_of_nil.
  - by intros id i bytes _ ?%elem_of_nil.
  - intros id i bytes Hi%(established_callers s maximum calls n). by destruct Hi as (k & _ & ?).
Qed.

Lemma established_explains (s : T) maximum calls n :
  explains calls (established s maximum calls n : world T).
Proof.
  split.
  - intros i c (k & Hk & ->)%established_callers. exists k. split; [done | by destruct k].
  - intros i (k & _ & ?)%established_callers. done.
  - by apply Forall_replicate.
Qed.

Lemma established_distinct (s : T) maximum calls n :
  Z.of_nat (length calls) + 2 ≤ U64_MAX → ids_distinct (established s maximum calls n : world T).
Proof.
  intros Hn. split.
  - intros i j c c' id (k & _ & ->)%established_callers. done.
  - intros i c id (k & _ & ->)%established_callers. done.
  - rw (established_count unnamed _ _ _ _ true); [done|].
    change (RequestIdAllocator.next _) with 2. lia.
Qed.

(** ** Once the driver has ended *)

(** How many sections a caller has at most in front of it. *)
Definition rank (c : caller) : nat :=
  match c with
  | AtCheck _ _ => 6
  | AtAcquire _ _ => 5
  | AtAllocate _ _ => 4
  | AtSend _ _ => 3
  | AtAwait _ => 2
  | AtRefusal | AtAcquireFailed | AtLost => 1
  | System.Done _ | Cancelled _ => 0
  end.

Definition finished (c : caller) : bool :=
  match c with System.Done _ | Cancelled _ => true | _ => false end.

(** Callers that have returned hold no permits. *)
Lemma no_holders cs : Forall (λ c, finished c = true) cs → count holds cs = 0.
Proof. induction 1 as [|c cs Hf _ IH]; [done|]. rw count_cons IH. by destruct c. Qed.

Lemma caller_step_rank s i c s' c' :
  caller_step s i c = Some (s', c') → (rank c' < rank c)%nat.
Proof. destruct c; cbn; try done; repeat case_match; try done; intros [= <- <-]; cbn; lia. Qed.

Lemma rank_insert cs i c c' :
  cs !! i = Some c → (rank c' < rank c)%nat →
  (list_sum (rank <$> <[i := c']> cs) < list_sum (rank <$> cs))%nat.
Proof.
  intros Hi Hr. rw insert_take_drop; [by apply lookup_lt_Some in Hi|].
  assert (list_sum (rank <$> cs) = list_sum (rank <$> take i cs ++ c :: drop (S i) cs)) as ->
    by by rw take_drop_middle.
  rw !fmap_app !fmap_cons !list_sum_app. cbn. lia.
Qed.

(** Admission is closed before the driver leaves its loop. *)
Definition gate_closed w : Prop :=
  phase (conn (sys w)) ≠ Running → admission_open (conn (sys w)) = false.

Lemma driver_action_gate l a l' :
  driver_action_step l a = Some l' → (phase l ≠ Running → admission_open l = false) →
  admission_open l' = false.
Proof.
  unfold driver_action_step. destruct a as [next exit| |[]], (phase l) eqn:Ep; try done;
    repeat case_match; try done; intros [= <-] Hg; cbn; auto; by apply Hg.
Qed.

Lemma close_step_gate l p l' p' :
  close_step l p = Some (l', p') → admission_open l = false → admission_open l' = false.
Proof. destruct p; cbn; repeat case_match; try done; by intros [= <- <-]. Qed.

Lemma gate_closed_step w w' : step w w' → gate_closed w → gate_closed w'.
Proof.
  unfold gate_closed. intros Hs.
  destruct Hs as [w i c s c' Hi Hc|w i c s c' Hi Hc|w tn s Hdr|w i p l p' Hi Hc]; cbn; intros Hg.
  - by apply caller_step_driver in Hc as (-> & _).
  - by apply cancel_driver in Hc as (-> & _).
  - apply driver_turn_cases in Hdr as [(_ & _ & _ & ->)|[(_ & _ & ? & ? & ? & _ & _ & ->)|
      [(_ & _ & ->)|(? & ? & a & l & t & _ & Ha & ->)]]]; try done.
    intros _. by eapply driver_action_gate.
  - rw (close_step_phase _ _ _ _ Hc). intros Hp. eapply close_step_gate; [done | auto].
Qed.

Definition exited w : Prop := ∃ exit, phase (conn (sys w)) = Exited exit.

(** No caller waits on a driver that has ended. *)
Lemma exited_enabled w i c :
  delivery w → gate_closed w → exited w → callers w !! i = Some c → finished c = false →
  is_Some (caller_step (sys w) i c).
Proof.
  intros Hd Hg [exit He] Hi Hf.
  assert (admission_open (conn (sys w)) = false) as Hgate by (apply Hg; by rw He).
  assert (receiving (sys w) = false) as Hr by (unfold receiving; by rw He).
  assert (∀ j, sender_alive (sys w) j = false) as Ha.
  { intros j. unfold sender_alive, pending. rw Hr (delivery_stopped _ Hd); [left; by rw He|].
    rw map_to_list_empty. by case_bool_decide as Hin; [apply elem_of_nil in Hin|]. }
  destruct c; try done; cbn -[RequestIdAllocator.allocate].
  - by rw Hgate.
  - by rw Hr.
  - rw Ha. by destruct (received _ _) as [[]|].
Qed.

(** While admission is open the driver receives. *)
Lemma open_receiving w :
  gate_closed w → admission_open (conn (sys w)) = true → receiving (sys w) = true.
Proof.
  unfold gate_closed, receiving. intros Hg Ho.
  destruct (phase (conn (sys w))) eqn:Ep; try done; rw Hg in Ho; done.
Qed.

(** A channel whose sender exists belongs to an outstanding request of a driver that receives. *)
Lemma alive_outstanding w i :
  delivery w → sender_alive (sys w) i = true →
  receiving (sys w) = true ∧ ∃ id, (id, i) ∈ outstanding (sys w).
Proof.
  intros Hd [Hp%bool_decide_eq_true|[Hr Hq%bool_decide_eq_true]%andb_true_iff]%orb_true_iff.
  - split.
    + assert (phase (conn (sys w)) = Running ∨ phase (conn (sys w)) ≠ Running) as [Hrun|Hrun].
      { destruct (phase (conn (sys w))); auto. }
      * unfold receiving. by rw Hrun.
      * unfold pending in Hp. rw (delivery_stopped _ Hd (or_introl Hrun)) in Hp.
        by rw map_to_list_empty elem_of_nil in Hp.
    + apply list_elem_of_fmap in Hp as ([id j] & -> & Hin). exists id.
      apply elem_of_app. by left.
  - split; [done|]. apply list_elem_of_fmap in Hq as (m & -> & Hin). exists (Submit.id m).
    apply elem_of_app. right. apply list_elem_of_fmap. by exists m.
Qed.

(** Everything shown so far about a reachable state. *)
Record session_ok (maximum : Z) (calls : list (Z * list byte)) w : Prop := {
  ok_permits : permits_conserved maximum w;
  ok_delivery : delivery w;
  ok_explains : explains calls w;
  ok_gate : gate_closed w
}.

Lemma session_ok_step maximum calls w w' :
  step w w' → session_ok maximum calls w → session_ok maximum calls w'.
Proof.
  intros Hs []. split; [by eapply permits_conserved_step | by eapply delivery_step |
    by eapply explains_step | by eapply gate_closed_step].
Qed.

Lemma session_ok_reachable (s : T) maximum calls n w :
  0 ≤ maximum → reachable negotiated (established s maximum calls n) w → session_ok maximum calls w.
Proof.
  intros Hm. apply (reachable_invariant (session_ok maximum calls));
    [|intros; by eapply session_ok_step].
  split; [by apply established_conserves | apply established_delivery |
    apply established_explains | by intros Hp].
Qed.

Lemma ids_distinct_reachable (s : T) maximum calls n w :
  Z.of_nat (length calls) + 2 ≤ U64_MAX →
  reachable negotiated (established s maximum calls n) w → ids_distinct w.
Proof.
  intros Hn. apply (reachable_invariant ids_distinct); [by apply established_distinct|].
  intros. by eapply ids_distinct_step.
Qed.

Lemma exited_finish maximum calls w :
  session_ok maximum calls w → exited w →
  ∃ w', reachable negotiated w w' ∧ session_ok maximum calls w' ∧
    Forall (λ c, finished c = true) (callers w').
Proof.
  remember (list_sum (rank <$> callers w)) as m eqn:Em. revert w Em.
  induction m as [m IH] using lt_wf_ind. intros w -> Hok Hex.
  destruct (decide (Forall (λ c, finished c = true) (callers w))) as [Hall|Hnot].
  { exists w. split; [apply rtc_refl | done]. }
  apply not_Forall_Exists, Exists_exists in Hnot as (c & (i & Hi)%list_elem_of_lookup & Hf);
    [|apply _].
  apply not_true_is_false in Hf.
  destruct (exited_enabled w i c (ok_delivery _ _ _ Hok) (ok_gate _ _ _ Hok) Hex Hi Hf)
    as [[s' c'] Hc].
  pose proof (step_caller negotiated w i c s' c' Hi Hc) as Hs.
  destruct (IH (list_sum (rank <$> <[i := c']> (callers w)))
              (rank_insert _ _ _ _ Hi (caller_step_rank _ _ _ _ _ Hc))
              (mk_world s' (<[i := c']> (callers w)) (closers w)) eq_refl)
    as (w' & Hr & Hw'); [by eapply session_ok_step| |].
  - destruct Hex as [exit He]. exists exit. cbn.
    by apply caller_step_driver in Hc as (-> & _).
  - exists w'. split; [|done]. by eapply rtc_l.
Qed.

End invariants.
