(* ===== verification/SystemTheorems.v ===== *)
(** * The session as a whole: theorems

    What holds in every interleaving of callers, closing handles, the driver and the peer on one
    established session: how many requests are in flight, whose answer a caller gets, that the
    atomic [execute] of [Client] explains every outcome, that no submission is refused, that
    nobody waits for ever once the driver has ended, and what abandoned calls leave behind. *)

From S2P Require Export SystemFacts.
From Stdlib Require Import Strings.Byte.
Local Open Scope Z_scope.

Import System.

(** ** Lemmas *)

Section lemmas.
Context {T : Type} `{Transport T} (negotiated : Negotiated.t).
#[local] Abbreviation limits := (limits negotiated).
#[local] Abbreviation driver_turn := (driver_turn negotiated).
Implicit Types (w : world T) (s : System.t T).

(** A caller that stopped waiting for a request it had sent. *)
Definition abandoned (c : caller) : bool :=
  match c with Cancelled (Some _) => true | _ => false end.

Lemma live_len (a : Session.t) :
  session_inv a → InFlightRegistry.len (Session.live a) = Z.of_nat (length (pending a)).
Proof.
  intros [Hdom _]. unfold InFlightRegistry.len, pending.
  rw -Hdom length_fmap size_dom length_map_to_list. done.
Qed.

(** Distinct channels belong to distinct callers that wait or stopped waiting. *)
Lemma outstanding_count w :
  delivery negotiated w → receiving (sys w) = true →
  Z.of_nat (length (outstanding (sys w))) ≤
    count holds (callers w) + count abandoned (callers w).
Proof.
  intros Hd Hr. rw -(length_fmap snd).
  etrans; [apply (positions_count (λ c, holds c || abandoned c) (callers w))|].
  - by pose proof (delivery_channels _ _ Hd) as (_ & _ & ?)%NoDup_app.
  - intros i ([id j] & -> & Hin)%list_elem_of_fmap.
    destruct (delivery_awaited _ _ Hd id j Hr Hin) as (c & Hc & [->| ->]); eauto.
  - clear. induction (callers w) as [|c cs IH]; [done|]. rw !count_cons.
    destruct c; cbn in *; try destruct submitted; cbn in *; lia.
Qed.

(** The request at the head of the channel is not in flight. *)
Lemma head_fresh w m rest :
  delivery negotiated w → ids_distinct w → receiving (sys w) = true → queue (sys w) = m :: rest →
  (InFlightRegistry.insert (Session.live (sess (sys w))) (Submit.id m)).1 = Ok tt.
Proof.
  intros Hd Hi Hr Hq. destruct (delivery_session _ _ Hd) as [Hdom _].
  assert ((Submit.id m, Submit.completion m) ∈ outstanding (sys w)) as Hm.
  { apply elem_of_app. right. rw Hq. left. }
  destruct (delivery_awaited _ _ Hd _ _ Hr Hm) as (c & Hc & Haw).
  assert (id_of c = Some (Submit.id m)) as Hid by by destruct Haw as [->| ->].
  pose proof (distinct_behind _ Hi _ _ _ Hc Hid) as Hne.
  unfold InFlightRegistry.insert, InFlightRegistry.contains.
  destruct (Z.eqb_spec (Submit.id m) 0); [lia|]. case_bool_decide as Hin; [|done].
  rw -Hdom in Hin. apply elem_of_dom in Hin as [j Hj].
  assert ((Submit.id m, j) ∈ outstanding (sys w)) as Hjo.
  { apply elem_of_app. left. by apply elem_of_map_to_list. }
  destruct (delivery_awaited _ _ Hd _ _ Hr Hjo) as (c' & Hc' & Haw').
  assert (Submit.completion m = j) as Hsame.
  { eapply (distinct_ids _ Hi _ _ _ _ _ Hc Hc' Hid). by destruct Haw' as [->| ->]. }
  pose proof (delivery_channels _ _ Hd) as (_ & _ & Hnd)%NoDup_app.
  unfold outstanding in Hnd. rw fmap_app in Hnd. apply NoDup_app in Hnd as (_ & Hdis & _).
  exfalso. eapply (Hdis j).
  - apply list_elem_of_fmap. exists (Submit.id m, j). split; [done|]. by apply elem_of_map_to_list.
  - rw Hq -Hsame. cbn. left.
Qed.

Lemma on_submit_fresh (d : driver T) m r :
  (InFlightRegistry.insert (Session.live (session d)) (Submit.id m)).1 = Ok tt →
  on_submit d m = Some r → r.2 ≠ Some DriverExit.Unusable.
Proof.
  unfold on_submit, settle. destruct (InFlightRegistry.insert _ _) as [? live]. cbn. intros ->. cbn.
  repeat case_match; try done; intros; by simplify_eq/=.
Qed.

End lemmas.

(** ** Turns without interruption *)

Section turns.
Context {T : Type} `{Transport T} (negotiated : Negotiated.t).
#[local] Abbreviation driver_turn := (driver_turn negotiated).
#[local] Abbreviation limits := (limits negotiated).
Implicit Types (s : System.t T).

(** A turn and the stops it leaves, with nobody in between. *)
Fixpoint go_on (n : nat) s : option (System.t T) :=
  match n with
  | O => Some s
  | S n => let? next := driver_turn s GoOnStopping in go_on n next
  end.

Definition uninterrupted s (tn : turn) : option (System.t T) :=
  let? next := driver_turn s tn in go_on (length (stopping next)) next.

(** The event of [Driver]'s loop. *)
Definition event_of s (tn : turn) : option event :=
  match tn with
  | TakeShutdown => Some ShutdownSignal
  | TakeSubmission =>
      match queue s with m :: _ => Some (Received (Some m)) | [] => None end
  | TakeRead => Some ReadReady
  | GoOnStopping => None
  end.

(** The state a turn leaves is that of [Driver]'s turn. *)
Definition turn_agrees s (r : driver T * option DriverExit.t) : Prop :=
  stream s = transport r.1 ∧ sess s = session r.1 ∧ stopping s = [] ∧
  life (conn s) = state r.1 ∧ negb (admission_open (conn s)) = admission_closed r.1 ∧
  phase (conn s) = match r.2 with None => Running | Some exit => Exited exit end.

(** An exit that the loop reaches by failing its waiters. *)
Definition exits_by_terminating s (r : driver T * option DriverExit.t) : Prop :=
  match r.2 with
  | None => state r.1 = life (conn s) ∧ admission_closed r.1 = negb (admission_open (conn s))
  | Some DriverExit.Failed =>
      state r.1 = mark_state (life (conn s)) ConnectionState.Failed ∧ admission_closed r.1 = true
  | Some DriverExit.Unusable =>
      state r.1 = mark_state (life (conn s)) ConnectionState.Unusable ∧ admission_closed r.1 = true
  | Some DriverExit.Closed => False
  end.

Lemma on_submit_terminates s m r :
  on_submit (as_driver s) m = Some r → exits_by_terminating s r.
Proof.
  unfold on_submit, settle, exits_by_terminating. cbn [transport session submit_closed as_driver].
  repeat case_match; try done; intros; by simplify_eq/=.
Qed.

Lemma on_read_terminates s : exits_by_terminating s (on_read limits (as_driver s)).
Proof.
  unfold on_read, settle, exits_by_terminating.
  cbn [transport session submit_closed as_driver]. rw !andb_false_r.
  repeat case_match; try done; by simplify_eq/=.
Qed.

Lemma after_turn_agrees s rest r :
  phase (conn s) = Running → exits_by_terminating s r →
  ∃ s', go_on (length (stopping (after_turn s rest r))) (after_turn s rest r) = Some s' ∧
    turn_agrees s' r.
Proof.
  intros Hp He. unfold exits_by_terminating in He. destruct r as [d [[]|]]; cbn in *; try done.
  - unfold System.driver_turn, driver_action_step. cbn. rw Hp. cbn.
    eexists. split; [done|]. unfold turn_agrees. cbn. by destruct He as [-> ->].
  - unfold System.driver_turn, driver_action_step. cbn. rw Hp. cbn.
    eexists. split; [done|]. unfold turn_agrees. cbn. by destruct He as [-> ->].
  - eexists. split; [done|]. unfold turn_agrees. cbn. by destruct He as [-> ->].
Qed.

Lemma shutdown_turn_agrees s :
  phase (conn s) = Running → stopping s = [] → signalled (conn s) = true →
  ∃ s', uninterrupted s TakeShutdown = Some s' ∧ turn_agrees s' (on_shutdown (as_driver s)).
Proof.
  intros Hp Hs Hsig. unfold uninterrupted. unfold System.driver_turn at 1. rw Hp Hs Hsig.
  cbn. unfold System.driver_turn, driver_action_step, on_shutdown. cbn. rw Hp Hsig. cbn.
  destruct (shutdown (stream s)) as [t [[]|e]]; cbn; eexists; (split; [done|]); done.
Qed.

End turns.

(** ** Abandoned calls *)

Section abandoned_calls.
Context (negotiated : Negotiated.t).
#[local] Abbreviation memory := InMemoryTransport.t.
#[local] Abbreviation step := (System.step (T := memory) negotiated).
Implicit Types (w : world memory).

(** The bounds a handshake can negotiate. *)
Definition bounds_typed : Prop :=
  HEADER_LENGTH ≤ frame_limit negotiated ≤ U32_MAX ∧ 0 ≤ metadata_limit negotiated ≤ U16_MAX.

(** The session is idle but for [k] requests, with its one permit free and calls from [k] on
    not begun. *)
Record ready (k : nat) w : Prop := {
  ready_running : phase (conn (sys w)) = Running;
  ready_not_stopping : stopping (sys w) = [];
  ready_usable : life (conn (sys w)) = ConnectionState.Usable;
  ready_open : admission_open (conn (sys w)) = true;
  ready_permit : permits (sys w) = 1;
  ready_queue : queue (sys w) = [];
  ready_stream : InMemoryTransport.closed (stream (sys w)) = false;
  ready_live : InFlightRegistry.len (Session.live (sess (sys w))) = Z.of_nat k;
  ready_callers i : (k ≤ i < length (callers w))%nat → callers w !! i = Some (AtCheck PING_OPCODE [])
}.

(** A caller runs on its own. *)
Definition alone (k : sender) (p q : System.t memory * caller) : Prop :=
  caller_step negotiated p.1 k p.2 = Some q.

Lemma alone_steps w k p q :
  rtc (alone k) p q → sys w = p.1 → callers w !! k = Some p.2 →
  rtc step w (mk_world q.1 (<[k := q.2]> (callers w)) (closers w)).
Proof.
  intros Hr. revert w. induction Hr as [p|p p1 q Hp Hr IH]; intros w Hs Hk.
  - rw list_insert_id; [done|]. destruct w. cbn in *. subst. apply rtc_refl.
  - destruct p1 as [s1 c1]. eapply rtc_l.
    + eapply step_caller; [exact Hk|]. rw Hs. exact Hp.
    + rw -(list_insert_insert_eq (callers w) k q.2 c1). apply (IH (mk_world s1 _ _)); [done|].
      cbn. apply list_lookup_insert_eq. by eapply lookup_lt_Some.
Qed.

(** The permit a ping takes and the frame it sends. *)
Lemma ping_sends w k :
  bounds_typed → ids_distinct w → ready k w → (k < length (callers w))%nat →
  ∃ id a bytes, len bytes ≤ USIZE_MAX ∧ rtc (alone k) (sys w, AtCheck PING_OPCODE [])
    (mk (conn (sys w)) 0 a [Submit.mk id bytes k] (stream (sys w)) (sess (sys w)) [], AtAwait id).
Proof.
  intros [Hf Hmd] Hi [Hp Hs Hu Ho Hpm Hq Hcl Hl Hc] Hk. pose proof (Hc k ltac:(lia)) as Hck.
  assert (1 ≤ count unnamed (callers w)) as Hcount.
  { apply (positions_count unnamed _ [k]); [apply NoDup_singleton|].
    intros j ->%list_elem_of_singleton. eauto. }
  destruct (distinct_room _ Hi) as [Hn Hroom].
  set (id := RequestIdAllocator.next (ids (sys w))) in *.
  assert (HEADER_LENGTH + len (@nil byte) ≤ frame_limit negotiated) as Hfit
    by (change (len (@nil byte)) with 0; lia).
  pose proof (encode_request_ok PING_OPCODE [] id (frame_limit negotiated) (metadata_limit negotiated)
    ltac:(split; discriminate) ltac:(lia) Hmd ltac:(lia) Hfit) as He.
  set (bytes := frame_bytes _) in He.
  exists id, (RequestIdAllocator.mk (id + 1)), bytes. split.
  { unfold bytes. rw len_request_frame. unfold U32_MAX, USIZE_MAX, U64_MAX in *. lia. }
  assert ((frame_limit negotiated <? wire_size (len (@nil byte))) = false) as Hw.
  { apply Z.ltb_ge. rw wire_size_spec; [auto with rp1|]. lia. }
  eapply rtc_l; [unfold alone; cbn [caller_step fst snd]; rw Hu; cbn [ConnectionState.is_usable]; rw Hw; done|].
  eapply rtc_l; [unfold alone; cbn [caller_step fst snd]; rw Ho Hpm; done|].
  eapply rtc_l.
  { unfold alone. cbn [caller_step fst snd with_permits ids permits conn queue stream sess stopping].
    rw allocate_next; [lia|]. fold id. destruct (Z.eqb_spec id 0); [lia|]. rw He. done. }
  apply rtc_once. unfold alone. cbn [caller_step fst snd queue conn permits ids stream sess stopping].
  unfold receiving. cbn [conn]. rw Hp Hq Hs. done.
Qed.

(** The driver takes the frame, and its caller goes away. *)
Lemma ping_abandoned w k :
  bounds_typed → delivery negotiated w → ids_distinct w → ready k w → (k < length (callers w))%nat →
  ∃ w', rtc step w w' ∧ ready (S k) w' ∧ length (callers w') = length (callers w).
Proof.
  intros Hb Hd Hi Hrd Hk. destruct (ping_sends w k Hb Hi Hrd Hk) as (id & a & bytes & Hlen & Hr).
  pose proof Hrd as [Hp Hs Hu Ho Hpm Hq Hcl Hl Hc]. pose proof (Hc k ltac:(lia)) as Hck.
  pose proof (alone_steps w k _ _ Hr eq_refl Hck) as Hr1. cbn [fst snd] in Hr1.
  set (w1 := mk_world _ _ _) in Hr1.
  assert (delivery negotiated w1) as Hd1.
  { eapply (reachable_invariant negotiated (delivery negotiated)); [exact Hd | | exact Hr1].
    intros. by eapply delivery_step. }
  assert (ids_distinct w1) as Hi1.
  { eapply (reachable_invariant negotiated ids_distinct); [exact Hi | | exact Hr1].
    intros. by eapply ids_distinct_step. }
  assert (receiving (sys w1) = true) as Hrec by (unfold receiving; cbn; by rw Hp).
  pose proof (head_fresh _ w1 _ [] Hd1 Hi1 Hrec eq_refl) as Hfr. cbn in Hfr.
  destruct (InFlightRegistry.insert _ id) as [? live] eqn:Ei. cbn in Hfr. subst.
  pose proof (registry_insert_ok _ _ _ Ei) as (_ & Hni & Hlive).
  set (se := Session.mk (Session.buffer (sess (sys w)))
               (<[id := k]> (Session.completions (sess (sys w)))) live (Session.log (sess (sys w)))).
  set (s2 := mk (conn (sys w)) 0 a [] (wrote (stream (sys w)) bytes) se []).
  assert (step w1 (mk_world s2 (callers w1) (closers w1))) as Hs2.
  { apply (step_driver negotiated w1 TakeSubmission).
    assert (on_submit (as_driver (sys w1)) (Submit.mk id bytes k) =
      Some (mk_driver (wrote (stream (sys w)) bytes) se false (life (conn (sys w)))
              (negb (admission_open (conn (sys w)))), None)) as Hon.
    { unfold on_submit. cbn [session transport as_driver w1 sys sess stream Submit.id
        Submit.completion Submit.bytes].
      rw Ei. cbn [is_err]. by rw memory_write_all. }
    unfold driver_turn. cbn [w1 sys conn stopping queue]. rw Hp. unfold w1 in Hon. cbn [sys] in Hon.
    rw Hon. done. }
  exists (mk_world (mk (conn (sys w)) 1 a [] (wrote (stream (sys w)) bytes) se [])
            (<[k := Cancelled (Some id)]> (<[k := AtAwait id]> (callers w))) (closers w)).
  split; [|split; [split; cbn; try done|by rw !length_insert]].
  - eapply rtc_r; [by eapply rtc_r|]. 
    apply (step_cancel negotiated (mk_world s2 (callers w1) (closers w1)) k (AtAwait id) _
             (Cancelled (Some id))); [|done].
    cbn. by rw list_lookup_insert_eq.
  - unfold InFlightRegistry.len in *. rw Hlive size_union; [set_solver|]. rw size_singleton. lia.
  - rw !length_insert. intros i Hi'. rw !list_lookup_insert_ne; [lia..|]. apply Hc. lia.
Qed.

Lemma pings_abandoned (m : memory) n k :
  bounds_typed → InMemoryTransport.closed m = false → Z.of_nat n + 2 ≤ U64_MAX → (k ≤ n)%nat →
  ∃ w, System.reachable negotiated (established m 1 (replicate n (PING_OPCODE, [])) 0) w ∧
    ready k w ∧ length (callers w) = n.
Proof.
  intros Hb Hm Hn. induction k as [|k IH]; intros Hk.
  - eexists. split; [apply rtc_refl|]. cbn. rw length_fmap length_replicate. split; [|done].
    split; try done. cbn. intros i. rw length_fmap length_replicate. intros Hi.
    by rw list_lookup_fmap lookup_replicate_2; [lia|].
  - destruct (IH ltac:(lia)) as (w & Hr & Hrd & Hl).
    destruct (ping_abandoned w k Hb) as (w' & Hr' & Hrd' & Hl'); [| |done|lia|].
    + by destruct (session_ok_reachable _ _ _ _ _ _ (ltac:(lia) : 0 ≤ 1) Hr).
    + eapply ids_distinct_reachable; [|exact Hr]. by rw length_replicate.
    + exists w'. split; [by etrans|]. split; [done | lia].
Qed.

End abandoned_calls.

(** ** Properties *)

Section properties.
Context {T : Type} `{Transport T} (negotiated : Negotiated.t).
#[local] Abbreviation reachable := (System.reachable (T := T) negotiated).

(** C9. The admission bound: in every state any interleaving reaches while the driver is there,
    the requests it holds, those in the channel and the free permits are together at most the
    configured maximum plus the number of calls abandoned after they were sent. *)
Theorem in_flight_bounded (s : T) maximum calls n w :
  0 ≤ maximum → reachable (established s maximum calls n) w → receiving (sys w) = true →
  0 ≤ permits (sys w) ∧
  InFlightRegistry.len (Session.live (sess (sys w))) + Z.of_nat (length (queue (sys w))) +
    permits (sys w) ≤ maximum + count abandoned (callers w).
Proof.
  intros Hm Hr Hrec. destruct (session_ok_reachable _ _ _ _ _ _ Hm Hr) as [[Hp Hc] Hd _ _].
  pose proof (outstanding_count _ _ Hd Hrec) as Ho. unfold outstanding in Ho.
  rw length_app length_fmap -(length_fmap snd (map_to_list _)) in Ho.
  fold (pending (sess (sys w))) in Ho. rw (live_len _ (delivery_session _ _ Hd)). lia.
Qed.

(** C5. A caller gets its own answer: when a call returns a frame, the driver decoded exactly
    those bytes as one acceptable terminal frame that names the id of this call's request, and
    no other call returned an answer under that id. *)
Theorem answer_belongs (s : T) maximum calls n w i id bytes :
  0 ≤ maximum → Z.of_nat (length calls) + 2 ≤ U64_MAX →
  reachable (established s maximum calls n) w →
  callers w !! i = Some (System.Done (Ok (id, bytes))) →
  (∃ f live, bytes = frame_bytes f ∧ names f = id ∧
     frame_wf (driver_admission (limits negotiated) live) f) ∧
  ∀ j bytes', callers w !! j = Some (System.Done (Ok (id, bytes'))) → j = i.
Proof.
  intros Hm Hn Hr Hi. split.
  - apply (delivery_done _ w (ok_delivery _ _ _ _ (session_ok_reachable _ _ _ _ _ _ Hm Hr)) _ _ _ Hi).
  - intros j bytes' Hj.
    by eapply (distinct_ids _ (ids_distinct_reachable _ _ _ _ _ _ Hn Hr) _ _ _ _ id Hj Hi).
Qed.


(** C33. The driver never refuses a submission of these callers: taking one either goes on or,
    when the transport cannot be written, fails the session; the exit for an id that is zero or
    already in flight is not reachable. *)
Theorem submission_accepted (s : T) maximum calls n w s' :
  0 ≤ maximum → Z.of_nat (length calls) + 2 ≤ U64_MAX →
  reachable (established s maximum calls n) w →
  driver_turn negotiated (sys w) TakeSubmission = Some s' →
  stopping s' = [] ∨ stopping s' = [Ends ConnectionState.Failed DriverExit.Failed].
Proof.
  intros Hm Hn Hr. destruct (session_ok_reachable _ _ _ _ _ _ Hm Hr) as [_ Hd _ _].
  pose proof (ids_distinct_reachable _ _ _ _ _ _ Hn Hr) as Hi.
  unfold driver_turn. destruct (phase (conn (sys w))) eqn:Ep, (stopping (sys w)); try done.
  destruct (queue (sys w)) as [|m rest] eqn:Eq; [done|].
  assert (receiving (sys w) = true) as Hrec by (unfold receiving; by rw Ep).
  pose proof (head_fresh _ _ _ _ Hd Hi Hrec Eq) as Hf.
  destruct (on_submit _ m) as [r|] eqn:Er; [|done]. intros [= <-]. cbn.
  pose proof (on_submit_fresh (as_driver (sys w)) m r Hf Er). destruct r as [d [[]|]]; cbn in *; auto; done.
Qed.

(** C7. Nobody is left waiting: once the driver has ended, however it ended, every call that has
    not returned can take its next step, and the calls that are left can all return, each of
    them after at most six steps, with every permit back in the semaphore. *)
Theorem callers_finish (s : T) maximum calls n w exit :
  0 ≤ maximum → reachable (established s maximum calls n) w →
  phase (conn (sys w)) = Exited exit →
  (∀ i c, callers w !! i = Some c → finished c = false →
     ∃ s' c', caller_step negotiated (sys w) i c = Some (s', c') ∧ (rank c' < rank c ≤ 6)%nat) ∧
  ∃ w', reachable w w' ∧ Forall (λ c, finished c = true) (callers w') ∧
    permits (sys w') = maximum.
Proof.
  intros Hm Hr Hex. pose proof (session_ok_reachable _ _ _ _ _ _ Hm Hr) as Hok.
  assert (exited w) as Hexd by by exists exit. split.
  - intros i c Hi Hf. destruct (exited_enabled _ _ _ _ (ok_delivery _ _ _ _ Hok)
      (ok_gate _ _ _ _ Hok) Hexd Hi Hf) as [[s' c'] Hc].
    exists s', c'. split; [done|]. split; [by eapply caller_step_rank|]. destruct c; cbn; lia.
  - destruct (exited_finish _ _ _ _ Hok Hexd) as (w' & Hr' & [[_ Hc] _ _ _] & Hall).
    exists w'. split; [done|]. split; [done|].
    rw (no_holders _ Hall) in Hc. lia.
Qed.

(** C34. A call waits only for a reason: a call that has not returned and cannot take its next step
    waits on a driver that is there, and either for a permit while admission is open and the
    maximum number of calls hold one, or for room in a channel that is full, or for the answer
    to its request, which is in the channel or registered with the driver under its id. *)
Theorem waits_for_a_reason (s : T) maximum calls n w i c :
  0 ≤ maximum → reachable (established s maximum calls n) w →
  callers w !! i = Some c → finished c = false → caller_step negotiated (sys w) i c = None →
  receiving (sys w) = true ∧
  match c with
  | AtAcquire _ _ =>
      admission_open (conn (sys w)) = true ∧ permits (sys w) = 0 ∧
      count holds (callers w) = maximum
  | AtSend _ _ => (CHANNEL_CAPACITY ≤ length (queue (sys w)))%nat
  | AtAwait id => received (sess (sys w)) i = None ∧ (id, i) ∈ outstanding (sys w)
  | _ => False
  end.
Proof.
  intros Hm Hr Hi Hf Hn. destruct (session_ok_reachable _ _ _ _ _ _ Hm Hr) as [[Hp Hc] Hd _ Hg].
  destruct c as [| |op pl| | |id bytes|id| | |]; cbn in Hf, Hn; try done.
  - destruct (admission_open (conn (sys w))) eqn:Ea; [|done]. cbn in Hn. case_match; [done|].
    breflect. split; [|split; [done|]; lia]. apply (open_receiving _ Hg Ea).
  - destruct (receiving (sys w)); [|done]. cbn in Hn. case_match eqn:El; [done|].
    apply Nat.leb_gt in El. split; [done|]. unfold CHANNEL_CAPACITY. lia.
  - destruct (received (sess (sys w)) i) as [[]|] eqn:Er; [done..|].
    destruct (sender_alive (sys w) i) eqn:Ea; [|done].
    destruct (alive_outstanding _ _ _ Hd Ea) as (Hrec & id' & Ho).
    destruct (delivery_awaited _ _ Hd _ _ Hrec Ho) as (c & Hc' & Haw).
    rw Hi in Hc'. injection Hc' as <-. destruct Haw as [[= ->]|]; done.
Qed.

(** Cutting an ending turn where other tasks can run changes nothing by itself: a turn whose
    stops follow at once leaves exactly the transport, session, lifecycle state, admission and
    exit of the atomic turn of the driver loop. *)
Theorem turn_atomic (s : System.t T) tn ev :
  phase (conn s) = Running → stopping s = [] → event_of s tn = Some ev →
  is_Some (driver_turn negotiated s tn) →
  ∃ s' r, uninterrupted negotiated s tn = Some s' ∧
    driver_step (limits negotiated) (as_driver s) ev = Some r ∧ turn_agrees s' r.
Proof.
  intros Hp Hs Hev Hen. unfold driver_turn in Hen. rw Hp Hs in Hen. destruct tn; cbn in Hev.
  - injection Hev as <-. destruct (signalled (conn s)) eqn:Esig; [|by destruct Hen].
    destruct (shutdown_turn_agrees negotiated s Hp Hs Esig) as (s' & Hu & Ha).
    by exists s', (on_shutdown (as_driver s)).
  - destruct (queue s) as [|m rest] eqn:Eq; [done|]. injection Hev as <-.
    destruct (on_submit (as_driver s) m) as [r|] eqn:Er; [|by destruct Hen].
    destruct (after_turn_agrees negotiated s rest r Hp (on_submit_terminates _ _ _ Er))
      as (s' & Hg & Ha).
    exists s', r. split; [|done]. unfold uninterrupted. unfold driver_turn at 1. by rw Hp Hs Eq Er.
  - injection Hev as <-.
    destruct (after_turn_agrees negotiated s (queue s) _ Hp (on_read_terminates negotiated s))
      as (s' & Hg & Ha).
    eexists s', _. split; [|done]. unfold uninterrupted. unfold driver_turn at 1. by rw Hp Hs.
  - done.
Qed.

End properties.

(** C40. The admission bound does not bound the bookkeeping of abandoned calls: with a maximum of
    one request in flight, any number of calls can be sent, given up by their callers and left
    in flight, the one permit being free again after each. *)
Theorem abandoned_unbounded (negotiated : Negotiated.t) (m : InMemoryTransport.t) n :
  bounds_typed negotiated → InMemoryTransport.closed m = false → Z.of_nat n + 2 ≤ U64_MAX →
  ∃ w, reachable negotiated (established m 1 (replicate n (PING_OPCODE, [])) 0) w ∧
    receiving (sys w) = true ∧ life (conn (sys w)) = ConnectionState.Usable ∧
    permits (sys w) = 1 ∧ InFlightRegistry.len (Session.live (sess (sys w))) = Z.of_nat n.
Proof.
  intros Hb Hm Hn. destruct (pings_abandoned negotiated m n n Hb Hm Hn ltac:(lia))
    as (w & Hr & [Hp _ Hu _ Hpm _ _ Hl _] & _).
  exists w. unfold receiving. by rw Hp.
Qed.

(** ** Where a session starts *)

(** C32. [establish] over TCP returns the session the interleavings start from: its shared state,
    semaphore, allocator and driver are those of [established] with the configured maximum, the
    driver decodes under the limits the callers send under, and these are the negotiated ones. *)
Theorem establish_session {S : Type} {sent : S → list byte} `{LawfulTransport S sent}
    (t t' : AnyTransport.t S) config c d calls n :
  ConnectionConfig.typed config → establish t config = Some (t', Ok c) → driver_task c = Some d →
  of_shared c d = sys (established t' (ConnectionConfig.maximum_in_flight config) calls n) ∧
  0 ≤ ConnectionConfig.maximum_in_flight config ∧
  driver_limits config (negotiated c) = limits (negotiated c) ∧
  driver_limits config (negotiated c) =
    Limits.mk (Negotiated.maximum_frame_size (negotiated c))
      (Negotiated.maximum_metadata_size (negotiated c)).
Proof.
  intros Hty He Hd. destruct (establish_consistent _ _ _ _ Hty He) as (_ & _ & E1 & E2 & Hcons).
  rw Hd in Hcons. destruct Hcons as (_ & _ & El & _). split; [|split; [apply Hty|]].
  - unfold establish in He. destruct (exchange t config) as [[t1 [neg|]]|]; try done.
    cbn in He. destruct (is_tcp t1); injection He as <- <-; [|done].
    injection Hd as <-. done.
  - split; [|done]. unfold limits, frame_limit, metadata_limit. by rw E1 E2.
Qed.

(** ** Schedules

    Which task takes the next step. *)
Inductive label := LCaller (i : nat) | LCancel (i : nat) | LDriver (tn : turn) | LCloser (i : nat).

Section schedules.
Context {T : Type} `{Transport T} (negotiated : Negotiated.t).

Definition run_label (w : world T) (l : label) : option (world T) :=
  match l with
  | LCaller i =>
      let? c := callers w !! i in
      let? (s, c') := caller_step negotiated (sys w) i c in
      Some (mk_world s (<[i := c']> (callers w)) (closers w))
  | LCancel i =>
      let? c := callers w !! i in
      let? (s, c') := cancel (sys w) c in
      Some (mk_world s (<[i := c']> (callers w)) (closers w))
  | LDriver tn =>
      let? s := driver_turn negotiated (sys w) tn in Some (mk_world s (callers w) (closers w))
  | LCloser i =>
      let? p := closers w !! i in
      let? (l, p') := close_step (conn (sys w)) p in
      Some (mk_world (with_conn (sys w) l) (callers w) (<[i := p']> (closers w)))
  end.

Definition run_labels (w : world T) (ls : list label) : option (world T) :=
  foldl (λ w l, let? w := w in run_label w l) (Some w) ls.

Lemma run_label_step w l w' : run_label w l = Some w' → step negotiated w w'.
Proof.
  destruct l as [i|i|tn|i]; cbn.
  - destruct (callers w !! i) as [c|] eqn:Ec; [|done]. cbn.
    destruct (caller_step _ _ _ _) as [[s c']|] eqn:Es; [|done]. intros [= <-]. by eapply step_caller.
  - destruct (callers w !! i) as [c|] eqn:Ec; [|done]. cbn.
    destruct (cancel _ _) as [[s c']|] eqn:Es; [|done]. intros [= <-]. by eapply step_cancel.
  - destruct (driver_turn _ _ _) as [s|] eqn:Es; [|done]. intros [= <-]. by eapply step_driver.
  - destruct (closers w !! i) as [p|] eqn:Ec; [|done]. cbn.
    destruct (close_step _ _) as [[l p']|] eqn:Es; [|done]. intros [= <-]. by eapply step_closer.
Qed.

Lemma run_labels_reach ls w w' :
  run_labels w ls = Some w' → System.reachable negotiated w w'.
Proof.
  unfold run_labels. revert w. induction ls as [|l ls IH]; intros w; cbn.
  - intros [= <-]. apply rtc_refl.
  - destruct (run_label w l) as [w1|] eqn:E; cbn.
    + intros Hr. eapply rtc_l; [by eapply run_label_step | by apply IH].
    + intros Hr. exfalso. clear - Hr. by induction ls.
Qed.

End schedules.

(** ** Witnesses

    Two pings under a maximum of one: the first is answered; the second waits for the permit,
    sends its request and is caught by a closing handle. *)
Definition sample_bounds : Negotiated.t := Negotiated.mk 0 65536 4096 [] 65536 4096.
Definition pong2 : Frame.t := answer Kind.Response 0 2 (OutgoingPayload.Opaque_ []).
Definition sample_stream : InMemoryTransport.t := InMemoryTransport.new (frame_bytes pong2) 64 7.
Definition two_pings : world InMemoryTransport.t :=
  established sample_stream 1 [(PING_OPCODE, []); (PING_OPCODE, [])] 1.

(** The first ping, to its answer. *)
Definition first_ping : list label :=
  replicate 4 (LCaller 0) ++ [LDriver TakeSubmission; LDriver TakeRead; LCaller 0].
(** The second, up to its submission, and the closing that catches it. *)
Definition second_ping : list label := replicate 4 (LCaller 1).
Definition closing : list label :=
  replicate 5 (LCloser 0) ++ [LDriver TakeShutdown; LDriver GoOnStopping; LDriver GoOnStopping].

(** The world a schedule leads to. *)
Definition world_after (ls : list label) : world InMemoryTransport.t :=
  default two_pings (run_labels sample_bounds two_pings ls).

Lemma world_after_reachable ls :
  System.reachable sample_bounds two_pings (world_after ls).
Proof.
  unfold world_after. destruct (run_labels sample_bounds two_pings ls) as [w|] eqn:E; cbn.
  - by eapply run_labels_reach.
  - apply rtc_refl.
Qed.

Lemma establish_session_witness :
  ∃ t' c d, establish (AnyTransport.Tcp (TokioTransport.mk sample_peer)) sample_config =
      Some (t', Ok c) ∧
    of_shared c d = sys (established t' 64 [] 1).
Proof.
  destruct (establish (AnyTransport.Tcp (TokioTransport.mk sample_peer)) sample_config)
    as [[t' [c|e]]|] eqn:E; [|vm_compute in E; discriminate..].
  destruct (driver_task c) as [d|] eqn:Ed.
  - exists t', c, d. split; [reflexivity|].
    apply (establish_session (sent := InMemoryTransport.written)
      (AnyTransport.Tcp (TokioTransport.mk sample_peer)) t' sample_config c d [] 1
      sample_config_typed E Ed).
  - exfalso. apply (f_equal (λ r, match r with Some (_, Ok c) => bool_decide (is_Some (driver_task c)) | _ => true end)) in E.
    rw Ed in E. vm_compute in E. discriminate.
Defined.

Lemma in_flight_bounded_witness :
  let w := world_after (first_ping ++ second_ping) in
  (length (queue (sys w)) = 1)%nat ∧
  InFlightRegistry.len (Session.live (sess (sys w))) + Z.of_nat (length (queue (sys w))) +
    permits (sys w) ≤ 1 + count abandoned (callers w).
Proof.
  intros w. split; [vm_compute; reflexivity|].
  apply (in_flight_bounded sample_bounds sample_stream 1 [(PING_OPCODE, []); (PING_OPCODE, [])] 1 w).
  - discriminate.
  - apply world_after_reachable.
  - vm_compute. reflexivity.
Defined.

Lemma answer_belongs_witness :
  ∃ f live, frame_bytes pong2 = frame_bytes f ∧ names f = 2 ∧
    frame_wf (driver_admission (limits sample_bounds) live) f.
Proof.
  refine (proj1 (answer_belongs sample_bounds sample_stream 1 [(PING_OPCODE, []); (PING_OPCODE, [])]
    1 (world_after first_ping) 0%nat 2 (frame_bytes pong2) _ _ _ _)).
  - discriminate.
  - discriminate.
  - apply world_after_reachable.
  - vm_compute. reflexivity.
Defined.


Lemma submission_accepted_witness :
  let w := world_after (first_ping ++ second_ping) in
  ∃ s', driver_turn sample_bounds (sys w) TakeSubmission = Some s' ∧
    (stopping s' = [] ∨ stopping s' = [Ends ConnectionState.Failed DriverExit.Failed]).
Proof.
  intros w.
  pose proof (submission_accepted sample_bounds sample_stream 1
    [(PING_OPCODE, []); (PING_OPCODE, [])] 1 w) as H.
  assert (is_Some (driver_turn sample_bounds (sys w) TakeSubmission)) as [s' Hs'].
  { vm_compute. eexists. reflexivity. }
  exists s'. split; [exact Hs'|]. apply H; [discriminate | discriminate | | exact Hs'].
  apply world_after_reachable.
Defined.

Lemma callers_finish_witness :
  ∃ w', System.reachable sample_bounds (world_after (first_ping ++ second_ping ++ closing)) w' ∧
    Forall (λ c, finished c = true) (callers w') ∧ permits (sys w') = 1.
Proof.
  refine (proj2 (callers_finish sample_bounds sample_stream 1 [(PING_OPCODE, []); (PING_OPCODE, [])]
    1 (world_after (first_ping ++ second_ping ++ closing)) DriverExit.Closed _ _ _)).
  - discriminate.
  - apply world_after_reachable.
  - vm_compute. reflexivity.
Defined.

(** The second ping, at the semaphore while the first waits for its answer. *)
Lemma waits_for_a_reason_witness :
  let w := world_after (replicate 4 (LCaller 0) ++ [LCaller 1]) in
  permits (sys w) = 0 ∧ count holds (callers w) = 1.
Proof.
  intros w.
  apply (proj2 (waits_for_a_reason sample_bounds sample_stream 1
    [(PING_OPCODE, []); (PING_OPCODE, [])] 1 w 1%nat (AtAcquire PING_OPCODE []) ltac:(discriminate)
    (world_after_reachable _) ltac:(vm_compute; reflexivity) ltac:(vm_compute; reflexivity)
    ltac:(vm_compute; reflexivity))).
Defined.

Lemma turn_atomic_witness :
  let s := sys (world_after (replicate 4 (LCaller 0))) in
  ∃ s' r, uninterrupted sample_bounds s TakeSubmission = Some s' ∧
    driver_step (limits sample_bounds) (as_driver s)
      (Received (head (queue s))) = Some r ∧ turn_agrees s' r.
Proof.
  intros s. apply (turn_atomic sample_bounds s TakeSubmission (Received (head (queue s)))).
  - vm_compute. reflexivity.
  - vm_compute. reflexivity.
  - vm_compute. reflexivity.
  - vm_compute. eexists. reflexivity.
Defined.

Lemma abandoned_unbounded_witness :
  ∃ w, System.reachable sample_bounds
         (established sample_stream 1 (replicate 1000 (PING_OPCODE, [])) 0) w ∧
    receiving (sys w) = true ∧ life (conn (sys w)) = ConnectionState.Usable ∧
    permits (sys w) = 1 ∧ InFlightRegistry.len (Session.live (sess (sys w))) = 1000.
Proof.
  apply (abandoned_unbounded sample_bounds sample_stream 1000).
  - repeat split; discriminate.
  - reflexivity.
  - discriminate.
Defined.
