(* ===== verification/SystemLiveness.v ===== *)
(** * The session under fair schedules

    A schedule says, moment by moment, which task is polled; a task that cannot go on stays
    where it is. The driver takes the branch [select!] prefers ([biased]: the shutdown signal,
    then a submission, then a read). When every task is polled again and again, a session that
    some handle closes comes to an end: the driver exits and every call and every [close]
    returns. That a poll of the driver completes the turn it starts is part of the model: a
    write the transport never accepts keeps the source's driver in its turn for ever. *)

From S2P Require Export SystemTheorems.
Local Open Scope Z_scope.

Import System.

(** ** Schedules *)

(** Who is polled: caller [i], the drop of caller [i], the driver (with or without bytes to
    read), closing handle [i]. *)
Inductive task := Runs (i : nat) | Drops (i : nat) | Drives (readable : bool) | Closes (i : nat).

(** What the schedule polls again and again. *)
Definition often (sched : nat → task) (P : task → Prop) : Prop :=
  ∀ n, ∃ m, (n ≤ m)%nat ∧ P (sched m).

Record fair (sched : nat → task) (calls handles : nat) : Prop := {
  fair_callers i : (i < calls)%nat → often sched (λ t, t = Runs i);
  fair_closers i : (i < handles)%nat → often sched (λ t, t = Closes i);
  fair_driver : often sched (λ t, ∃ readable, t = Drives readable)
}.

Section schedules.
Context {T : Type} `{Transport T} (negotiated : Negotiated.t).
Implicit Types (w : world T) (t : task).

(** The branch [select!] takes, in its order of preference; a driver that is ending goes on. *)
Definition driver_choice (s : System.t T) (readable : bool) : option turn :=
  match stopping s with
  | _ :: _ => Some GoOnStopping
  | [] =>
      if signalled (conn s) then Some TakeShutdown else
      match queue s with
      | _ :: _ => Some TakeSubmission
      | [] => if readable then Some TakeRead else None
      end
  end.

Definition label_of w t : option label :=
  match t with
  | Runs i => Some (LCaller i)
  | Drops i => Some (LCancel i)
  | Drives readable => let? tn := driver_choice (sys w) readable in Some (LDriver tn)
  | Closes i => Some (LCloser i)
  end.

Definition advance w t : option (world T) :=
  let? l := label_of w t in run_label negotiated w l.

(** One poll. *)
Definition perform w t : world T := default w (advance w t).

Fixpoint execution w (sched : nat → task) (n : nat) : world T :=
  match n with O => w | S n => perform (execution w sched n) (sched n) end.

(** ** Executions are interleavings *)

Lemma perform_cases w t : perform w t = w ∨ step negotiated w (perform w t).
Proof.
  unfold perform, advance. destruct (label_of w t) as [l|]; cbn; [|by left].
  destruct (run_label negotiated w l) as [w'|] eqn:E; [|by left]. right. by eapply run_label_step.
Qed.

(** What every step keeps, every poll keeps. *)
Lemma perform_invariant (I : world T → Prop) w t :
  (∀ w w', step negotiated w w' → I w → I w') → I w → I (perform w t).
Proof. intros Hs Hw. destruct (perform_cases w t) as [->|]; eauto. Qed.

Lemma execution_invariant (I : world T → Prop) w sched n m :
  (∀ w w', step negotiated w w' → I w → I w') → (n ≤ m)%nat →
  I (execution w sched n) → I (execution w sched m).
Proof. intros Hs Hle Hn. induction Hle; [done|]. cbn. by apply perform_invariant. Qed.

Lemma perform_runs w i c :
  callers w !! i = Some c →
  perform w (Runs i) = match caller_step negotiated (sys w) i c with
                       | Some (s, c') => mk_world s (<[i := c']> (callers w)) (closers w)
                       | None => w
                       end.
Proof.
  intros Hi. unfold perform, advance. cbn. rw Hi. cbn.
  by destruct (caller_step negotiated (sys w) i c) as [[s c']|].
Qed.

Lemma perform_closes w i p :
  closers w !! i = Some p →
  perform w (Closes i) = match close_step (conn (sys w)) p with
                         | Some (l, p') => mk_world (with_conn (sys w) l) (callers w)
                                             (<[i := p']> (closers w))
                         | None => w
                         end.
Proof.
  intros Hi. unfold perform, advance. cbn. rw Hi. cbn.
  by destruct (close_step (conn (sys w)) p) as [[l p']|].
Qed.

(** ** Reaching a goal

    A measure that no poll raises and that every poll of some kind lowers, unless the goal is
    reached: if the schedule makes such polls again and again, the goal is reached. *)
Lemma leads_to w sched (P : task → Prop) (Q : world T → Prop) (m : world T → nat) n0 :
  often sched P →
  (∀ n, (n0 ≤ n)%nat →
     Q (execution w sched n) ∨
     (m (execution w sched (S n)) ≤ m (execution w sched n))%nat ∧
     (P (sched n) → m (execution w sched (S n)) < m (execution w sched n))%nat) →
  ∀ n, (n0 ≤ n)%nat → ∃ k, (n ≤ k)%nat ∧ Q (execution w sched k).
Proof.
  intros Hoft Hm n. remember (m (execution w sched n)) as x eqn:Ex. revert n Ex.
  induction x as [x IH] using lt_wf_ind. intros n -> Hn.
  destruct (Hoft n) as (j & Hj & HP). remember (j - n)%nat as d eqn:Ed.
  assert (∀ a, (n0 ≤ a ≤ j)%nat → (n ≤ a)%nat →
    (m (execution w sched a) ≤ m (execution w sched n))%nat →
    ∃ k, (n ≤ k)%nat ∧ Q (execution w sched k)) as Hgo; [|apply (Hgo n); lia].
  clear d Ed. intros a. remember (j - a)%nat as d eqn:Ed. revert a Ed.
  induction d as [|d IHd]; intros a Ed Ha Hna Hma.
  - assert (a = j) as -> by lia. destruct (Hm j ltac:(lia)) as [HQ|[_ Hlt]]; [by exists j|].
    destruct (IH (m (execution w sched (S j))) ltac:(specialize (Hlt HP); lia) (S j) eq_refl
                ltac:(lia)) as (k & Hk & HQ). exists k. split; [lia | done].
  - destruct (Hm a ltac:(lia)) as [HQ|[Hle _]]; [by exists a|].
    apply (IHd (S a)); lia.
Qed.

(** Finitely many goals that stay reached are reached together. *)
Lemma all_reached (e : nat → world T) (Q : nat → world T → Prop) n0 k :
  (∀ i n m, (n ≤ m)%nat → Q i (e n) → Q i (e m)) →
  (∀ i, (i < k)%nat → ∃ n, (n0 ≤ n)%nat ∧ Q i (e n)) →
  ∃ n, (n0 ≤ n)%nat ∧ ∀ i, (i < k)%nat → Q i (e n).
Proof.
  intros Hst. induction k as [|k IH]; intros Hr; [exists n0; split; [lia | intros; lia]|].
  destruct IH as (n & Hn & Hall); [intros; apply Hr; lia|].
  destruct (Hr k ltac:(lia)) as (n' & Hn' & Hk). exists (Nat.max n n'). split; [lia|].
  intros i Hi. destruct (decide (i = k)) as [->|Hne].
  - apply (Hst _ n'); [lia | done].
  - apply (Hst _ n); [lia | apply Hall; lia].
Qed.

(** ** A session that is ending *)

(** The driver has been told to shut down or has left its loop. *)
Definition ending (l : lifecycle) : Prop := signalled l = true ∨ phase l ≠ Running.

(** What the point of a handle tells about the session: behind the signal it was sent, and a
    handle that returned also may have found that the session had ended. *)
Definition point_told (l : lifecycle) (p : point) : Prop :=
  match p with
  | AtTakeHandle | AtJoin | AtFinish _ _ | AtTakeTransport | AtStore _ _ => signalled l = true
  | Returned _ => ending l
  | _ => True
  end.

Record closing_ok (l : lifecycle) (ps : list point) : Prop := {
  closing_sender : shutdown_held l = false → signalled l = true;
  closing_handle : handle_held l = false → signalled l = true;
  closing_state : is_terminal (life l) = true → ending l;
  closing_points : Forall (point_told l) ps
}.

(** The signal stays sent, and an ending session goes on ending. *)
Definition tells_more (l l' : lifecycle) : Prop :=
  (signalled l = true → signalled l' = true) ∧ (ending l → ending l').

Lemma point_told_more l l' p : tells_more l l' → point_told l p → point_told l' p.
Proof. intros [Hs He]. destruct p; cbn; auto. Qed.

Lemma close_step_more l p l' p' : close_step l p = Some (l', p') → tells_more l l'.
Proof.
  intros Hc. assert (signalled l = true → signalled l' = true) as Hs.
  { destruct p; cbn in Hc; repeat case_match; try done; injection Hc as <- <-; cbn; try done.
    by intros ->. }
  split; [done|]. unfold ending. rw (close_step_phase _ _ _ _ Hc). intros [?|]; auto.
Qed.

Lemma driver_action_more l a l' :
  driver_action_step l a = Some l' → tells_more l l' ∧ ending l' ∧
    shutdown_held l' = shutdown_held l ∧ handle_held l' = handle_held l.
Proof.
  unfold driver_action_step, tells_more, ending.
  repeat case_match; try done; intros [= <-]; cbn; repeat split; auto.
Qed.

Lemma closing_ok_driver l a l' ps :
  driver_action_step l a = Some l' → closing_ok l ps → closing_ok l' ps.
Proof.
  intros (Hm & He & E1 & E2)%driver_action_more [Hs Hh _ Hp]. pose proof Hm as [Hsig _].
  split; rw ?E1 ?E2; auto. eapply Forall_impl; [done|]. intros p. by apply point_told_more.
Qed.

Lemma closing_ok_closer l ps i p l' p' :
  closing_ok l ps → ps !! i = Some p → close_step l p = Some (l', p') →
  closing_ok l' (<[i := p']> ps).
Proof.
  intros [Hs Hh Ht Hp] Hi Hc. pose proof (close_step_more _ _ _ _ Hc) as Hm.
  pose proof (Forall_lookup_1 _ _ _ _ Hp Hi) as Htold.
  assert (point_told l' p' ∧ (shutdown_held l' = false → signalled l' = true) ∧
    (handle_held l' = false → signalled l' = true) ∧ (is_terminal (life l') = true → ending l'))
    as (Hp' & Hs' & Hh' & Ht').
  { assert (signalled l = true → ending l) as Hl by by left.
    destruct p; cbn in Hc, Htold; try done; repeat case_match; try done; injection Hc as <- <-;
      cbn; repeat split; intros; try (by auto); try (by left); try congruence.
    all: try (by left; cbn; destruct (shutdown_held l); rw ?orb_true_r ?orb_false_r; auto).
    all: destruct (shutdown_held l); rw ?orb_true_r ?orb_false_r; auto. }
  split; try done. apply Forall_insert; [|done].
  eapply Forall_impl; [done|]. intros q. by apply point_told_more.
Qed.

Lemma closing_ok_step w w' :
  step negotiated w w' → closing_ok (conn (sys w)) (closers w) →
  closing_ok (conn (sys w')) (closers w').
Proof.
  intros [w0 i c s c' Hi Hc|w0 i c s c' Hi Hc|w0 tn s Hd|w0 i p l p' Hi Hc]; cbn; intros Ho.
  - by apply caller_step_driver in Hc as (-> & _).
  - by apply cancel_driver in Hc as (-> & _).
  - apply driver_turn_cases in Hd as [(_ & _ & _ & ->)|[(_ & _ & ? & ? & ? & _ & _ & ->)|
      [(_ & _ & ->)|(? & ? & a & l & t & _ & Ha & ->)]]]; try done.
    by eapply closing_ok_driver.
  - by eapply closing_ok_closer.
Qed.

(** ** The driver's end *)

(** What is left of a turn that ends the session fits how far the driver is. *)
Definition stopping_ok (l : lifecycle) (rest : list stop) : Prop :=
  match rest with
  | [] => phase l = Running ∨ ∃ exit, phase l = Exited exit
  | [Ends ConnectionState.Failed DriverExit.Failed]
  | [Ends ConnectionState.Unusable DriverExit.Unusable] => phase l = Running
  | [Signalled; ShutsDown] => phase l = Running ∧ signalled l = true
  | [ShutsDown] => phase l = ShuttingDown
  | _ => False
  end.

Lemma stopping_ok_closer l p l' p' rest :
  close_step l p = Some (l', p') → stopping_ok l rest → stopping_ok l' rest.
Proof.
  intros Hc. pose proof (close_step_phase _ _ _ _ Hc) as Ep.
  destruct (close_step_more _ _ _ _ Hc) as [Hs _]. unfold stopping_ok. rw Ep.
  repeat case_match; try done. intros []; auto.
Qed.

Lemma stops_ok l exit : phase l = Running → stopping_ok l (stops exit).
Proof. intros Hp. destruct exit as [[]|]; cbn; auto. Qed.

(** The action that is next can be taken, and then the rest still fits. *)
Lemma stop_taken (s : System.t T) action rest :
  stopping s = action :: rest → stopping_ok (conn s) (stopping s) →
  ∃ s', driver_turn negotiated s GoOnStopping = Some s' ∧ stopping s' = rest ∧
    stopping_ok (conn s') rest ∧ (rest = [] → phase (conn s') ≠ Running).
Proof.
  intros Es. unfold driver_turn. rw Es. intros Hok.
  destruct action as [next exit| |], rest as [|[] [|]]; cbn in Hok; try done;
    try by (destruct next, exit).
  - assert (phase (conn s) = Running ∧ driver_action_step (conn s) (DriverEnds next exit) =
      Some (mk_lifecycle (mark_state (life (conn s)) next) false (shutdown_held (conn s))
        (signalled (conn s)) (handle_held (conn s)) (Exited exit) (memory (conn s)))) as [Ep Ea].
    { unfold driver_action_step. by destruct next, exit; try done; rw Hok. }
    rw Ep Ea. cbn. eexists. split; [reflexivity|]. cbn. split; [done|]. split; [by right; eexists | done].
  - destruct Hok as [Ep Hsig]. rw Ep. cbn. rw Ep Hsig. cbn. eexists. split; [reflexivity|].
    by split.
  - rw Hok. destruct (shutdown (stream s)) as [t [u|e]]; cbn; rw Hok; cbn; eexists;
      (split; [reflexivity|]); cbn; (split; [done|]); (split; [by right; eexists | done]).
Qed.

Lemma turn_stopping (s : System.t T) tn s' :
  driver_turn negotiated s tn = Some s' → stopping_ok (conn s) (stopping s) →
  stopping_ok (conn s') (stopping s').
Proof.
  intros Hd Hok. destruct (stopping s) as [|action rest] eqn:Es.
  - apply driver_turn_cases in Hd as [(Hp & _ & Hs & ->)|[(Hp & _ & ? & ? & r & _ & _ & ->)|
      [(Hp & _ & ->)|(? & ? & ? & ? & ? & Hs & _)]]]; cbn; [done | by apply stops_ok.. |].
    by rw Es in Hs.
  - rw -Es in Hok. destruct (stop_taken _ _ _ Es Hok) as (s1 & Hs1 & <- & Hok1 & _).
    assert (tn = GoOnStopping) as ->; [|by rw Hs1 in Hd; injection Hd as <-].
    unfold driver_turn in Hd. rw Es in Hd. by destruct (phase (conn s)), tn.
Qed.

Lemma stopping_ok_step w w' :
  step negotiated w w' → stopping_ok (conn (sys w)) (stopping (sys w)) →
  stopping_ok (conn (sys w')) (stopping (sys w')).
Proof.
  intros [w0 i c s c' Hi Hc|w0 i c s c' Hi Hc|w0 tn s Hd|w0 i p l p' Hi Hc]; cbn.
  - by apply caller_step_driver in Hc as (-> & _ & _ & -> & _).
  - by apply cancel_driver in Hc as (-> & _ & _ & -> & _).
  - by apply (turn_stopping _ tn).
  - by eapply stopping_ok_closer.
Qed.

(** How many turns an ending driver has in front of it. *)
Definition turns_left (s : System.t T) : nat :=
  match stopping s, phase (conn s) with
  | [], Running => 3
  | rest, _ => length rest
  end.

(** What the session is between its polls. *)
Record live_ok w : Prop := {
  live_closing : closing_ok (conn (sys w)) (closers w);
  live_stopping : stopping_ok (conn (sys w)) (stopping (sys w))
}.

Lemma live_ok_step w w' : step negotiated w w' → live_ok w → live_ok w'.
Proof. intros Hs []. split; [by eapply closing_ok_step | by eapply stopping_ok_step]. Qed.

Lemma ending_step w w' :
  step negotiated w w' → ending (conn (sys w)) → ending (conn (sys w')).
Proof.
  intros [w0 i c s c' Hi Hc|w0 i c s c' Hi Hc|w0 tn s Hd|w0 i p l p' Hi Hc]; cbn.
  - by apply caller_step_driver in Hc as (-> & _).
  - by apply cancel_driver in Hc as (-> & _).
  - apply driver_turn_cases in Hd as [(_ & _ & _ & ->)|[(_ & _ & ? & ? & ? & _ & _ & ->)|
      [(_ & _ & ->)|(? & ? & a & l & t & _ & Ha & ->)]]]; try done.
    by apply driver_action_more in Ha as (_ & He & _).
  - by apply close_step_more in Hc as [_ He].
Qed.

(** A poll of an ending driver that has not exited is one of its last turns. *)
Lemma drives_ending w readable :
  live_ok w → ending (conn (sys w)) → ¬ exited w →
  (turns_left (sys (perform w (Drives readable))) < turns_left (sys w))%nat.
Proof.
  intros [_ Hok] He Hx. unfold perform, advance, label_of, driver_choice.
  destruct (stopping (sys w)) as [|action rest] eqn:Es.
  - destruct Hok as [Hp|]; [|done]. destruct He as [Hs|]; [|done]. rw Hs. cbn.
    unfold driver_turn. rw Hp Es Hs. cbn. unfold turns_left. cbn. rw Hp Es. lia.
  - rw -Es in Hok. destruct (stop_taken _ _ _ Es Hok) as (s' & Hs' & Er & _ & Hp). cbn.
    rw Hs'. cbn. unfold turns_left. rw Es Er. destruct rest; cbn; [|destruct (phase (conn (sys w))); lia].
    specialize (Hp eq_refl). destruct (phase (conn s')), (phase (conn (sys w))); try done; cbn; lia.
Qed.

(** Polls of the others leave the driver's end alone. *)
Lemma other_turns_left w t :
  (∀ readable, t ≠ Drives readable) → turns_left (sys (perform w t)) = turns_left (sys w).
Proof.
  intros Ht. unfold perform, advance. destruct t as [i|i|readable|i]; [| |by destruct (Ht readable)|];
    cbn.
  - destruct (callers w !! i) as [c|]; [|done]. cbn.
    destruct (caller_step negotiated (sys w) i c) as [[s c']|] eqn:E; [|done]. cbn.
    apply caller_step_driver in E as (Ec & _ & _ & Es & _). unfold turns_left. by rw Ec Es.
  - destruct (callers w !! i) as [c|]; [|done]. cbn.
    destruct (cancel (sys w) c) as [[s c']|] eqn:E; [|done]. cbn.
    apply cancel_driver in E as (Ec & _ & _ & Es & _). unfold turns_left. by rw Ec Es.
  - destruct (closers w !! i) as [p|]; [|done]. cbn.
    destruct (close_step (conn (sys w)) p) as [[l p']|] eqn:E; [|done]. cbn.
    unfold turns_left. cbn. by rw (close_step_phase _ _ _ _ E).
Qed.

(** ** Callers and handles *)

(** The sections handle [i] and caller [i] have at most in front of them. *)
Definition point_rank (p : point) : nat :=
  match p with
  | AtTerminalCheck => 8
  | AtBeginClosing => 7
  | AtAdmissionClose => 6
  | AtHasDriver => 5
  | AtTakeShutdown => 4
  | AtTakeHandle => 3
  | AtJoin | AtTakeTransport => 2
  | AtFinish _ _ | AtStore _ _ => 1
  | Returned _ => 0
  end.
Definition closer_rank (i : nat) w : nat := default 0%nat (point_rank <$> closers w !! i).
Definition caller_rank (i : nat) w : nat := default 0%nat (rank <$> callers w !! i).

Lemma close_step_rank l p l' p' : close_step l p = Some (l', p') → (point_rank p' < point_rank p)%nat.
Proof. destruct p; cbn; repeat case_match; try done; intros [= <- <-]; cbn; lia. Qed.

Lemma cancel_rank (s : System.t T) c s' c' : cancel s c = Some (s', c') → (rank c' ≤ rank c)%nat.
Proof. destruct c; cbn; try done; intros [= <- <-]; cbn; lia. Qed.

(** An element replaced by one of lower rank. *)
Lemma lookup_rank {A} (f : A → nat) (l : list A) i j x y :
  l !! j = Some x → (f y ≤ f x)%nat →
  (default 0%nat (f <$> <[j := y]> l !! i) ≤ default 0%nat (f <$> l !! i))%nat.
Proof.
  intros Hj Hle. destruct (decide (i = j)) as [->|Hne].
  - rw list_lookup_insert_eq; [by eapply lookup_lt_Some|]. by rw Hj.
  - by rw list_lookup_insert_ne.
Qed.

Lemma ranks_perform i w t :
  (caller_rank i (perform w t) ≤ caller_rank i w)%nat ∧
  (closer_rank i (perform w t) ≤ closer_rank i w)%nat.
Proof.
  destruct (perform_cases w t) as [->|Hs]; [done|]. unfold caller_rank, closer_rank.
  destruct Hs as [w0 j c s c' Hj Hc|w0 j c s c' Hj Hc|w0 tn s Hd|w0 j p l p' Hj Hc]; cbn;
    split; try done.
  - eapply lookup_rank; [done|]. apply caller_step_rank in Hc. lia.
  - eapply lookup_rank; [done|]. by eapply cancel_rank.
  - eapply lookup_rank; [done|]. apply close_step_rank in Hc. lia.
Qed.

Lemma lengths_perform w t :
  length (callers (perform w t)) = length (callers w) ∧
  length (closers (perform w t)) = length (closers w).
Proof.
  destruct (perform_cases w t) as [->|[]]; [done|..]; cbn; by rw ?length_insert.
Qed.

Lemma lengths_execution w sched n :
  length (callers (execution w sched n)) = length (callers w) ∧
  length (closers (execution w sched n)) = length (closers w).
Proof.
  induction n as [|n [IH1 IH2]]; [done|]. cbn.
  destruct (lengths_perform (execution w sched n) (sched n)) as [-> ->]. done.
Qed.

(** A handle that is polled goes on, unless it waits for a driver that is still there. *)
Lemma closes_rank w i :
  exited w ∨ (∃ p, closers w !! i = Some p ∧ p ≠ AtJoin) → (0 < closer_rank i w)%nat →
  (closer_rank i (perform w (Closes i)) < closer_rank i w)%nat.
Proof.
  unfold closer_rank. destruct (closers w !! i) as [p|] eqn:Hi; [|cbn; lia]. intros Hw Hp.
  rw (perform_closes _ _ _ Hi).
  destruct (close_step (conn (sys w)) p) as [[l p']|] eqn:Hc.
  - cbn. rw list_lookup_insert_eq; [by eapply lookup_lt_Some|]. by eapply close_step_rank.
  - exfalso. destruct p; cbn in Hc, Hp; try done; [|lia].
    destruct Hw as [[exit Hx]|(p & [= <-] & Hne)]; [|done]. rw Hx in Hc. by destruct exit.
Qed.

(** A caller that is polled once the driver has ended goes on. *)
Lemma runs_rank maximum calls w i :
  session_ok negotiated maximum calls w → exited w → (0 < caller_rank i w)%nat →
  (caller_rank i (perform w (Runs i)) < caller_rank i w)%nat.
Proof.
  unfold caller_rank. intros [_ Hd _ Hg] Hx. destruct (callers w !! i) as [c|] eqn:Hi; [|cbn; lia].
  intros Hc. assert (finished c = false) as Hf by (destruct c; cbn in *; done || lia).
  destruct (exited_enabled _ _ _ _ Hd Hg Hx Hi Hf) as [[s c'] Hs].
  rw (perform_runs _ _ _ Hi) Hs. cbn.
  rw list_lookup_insert_eq; [by eapply lookup_lt_Some|]. by eapply caller_step_rank.
Qed.

End schedules.

(** ** A session that is closed *)

Section closed.
Context {T : Type} `{Transport T} (negotiated : Negotiated.t).
Context (stream0 : T) (maximum : Z) (calls : list (Z * list byte)) (handles : nat).
Context (sched : nat → task).
Context (Hmax : 0 ≤ maximum) (Hfair : fair sched (length calls) handles).

(** The session after [n] polls. *)
#[local] Abbreviation at_ n :=
  (execution negotiated (established stream0 maximum calls handles) sched n).

Lemma session_ok_at n : session_ok negotiated maximum calls (at_ n).
Proof using Hmax.
  apply (execution_invariant _ _ _ _ 0 n); [|lia|].
  - intros. by eapply session_ok_step.
  - eapply session_ok_reachable; [done | apply rtc_refl].
Qed.

Lemma live_ok_at n : live_ok (at_ n).
Proof.
  apply (execution_invariant _ _ _ _ 0 n); [intros; by eapply live_ok_step | lia |].
  split; [split; try done; by apply Forall_replicate | by left].
Qed.

Lemma lengths_at n : length (callers (at_ n)) = length calls ∧ length (closers (at_ n)) = handles.
Proof.
  destruct (lengths_execution negotiated (established stream0 maximum calls handles) sched n)
    as [-> ->]. cbn. by rw length_fmap length_replicate.
Qed.

Lemma ending_later n m : (n ≤ m)%nat → ending (conn (sys (at_ n))) → ending (conn (sys (at_ m))).
Proof.
  intros Hle. apply (execution_invariant _ (λ w, ending (conn (sys w))) _ _ n m); [|done].
  intros. by eapply ending_step.
Qed.

(** An exited driver stays exited: it keeps its phase and takes no turn. *)
Lemma exited_later n m : (n ≤ m)%nat → exited (at_ n) → exited (at_ m).
Proof.
  intros Hle. apply (execution_invariant _ exited _ _ n m); [|done]. clear.
  intros w w' [w0 i c s c' Hi Hc|w0 i c s c' Hi Hc|w0 tn s Hd|w0 i p l p' Hi Hc] [exit Hx]; exists exit; cbn in *.
  - by apply caller_step_driver in Hc as (-> & _).
  - by apply cancel_driver in Hc as (-> & _).
  - apply driver_turn_cases in Hd as [(Hp & _)|[(Hp & _)|[(Hp & _)|(? & ? & a & l & t & _ & Ha & _)]]];
      [by rw Hx in Hp..|]. unfold driver_action_step in Ha. rw Hx in Ha. by destruct a as [| |[]].
  - by rw (close_step_phase _ _ _ _ Hc).
Qed.

Lemma exited_dec w : exited w ∨ ¬ exited (T := T) w.
Proof.
  unfold exited. destruct (phase (conn (sys w))) as [| |exit|]; [right|right|left|right];
    [by intros [? ?]..|by exists exit|by intros [? ?]].
Qed.

(** Some handle gets past the signal. *)
Lemma ends (Hn : (0 < handles)%nat) : ∃ k, ending (conn (sys (at_ k))).
Proof using Hfair.
  cut (∃ k, (0 ≤ k)%nat ∧ ending (conn (sys (at_ k)))); [intros (k & _ & Hk); by exists k|].
  apply (leads_to negotiated _ sched (λ t, t = Closes 0%nat)
    (λ w, ending (conn (sys w))) (closer_rank 0) 0 (fair_closers _ _ _ Hfair 0%nat Hn)); [|lia].
  intros n _. pose proof (live_closing _ (live_ok_at n)) as [_ _ _ Hp].
  destruct (lookup_lt_is_Some_2 (closers (at_ n)) 0) as [p Hi].
  { by rw (proj2 (lengths_at n)). }
  pose proof (Forall_lookup_1 _ _ _ _ Hp Hi) as Ht.
  destruct p; cbn in Ht; try (by left; left); try (by left).
  all: right; split; [apply ranks_perform|]; cbn; intros ->; apply closes_rank;
    [right; by eexists | unfold closer_rank; rw Hi; cbn; lia].
Qed.

(** The driver exits. *)
Lemma exits k : ending (conn (sys (at_ k))) → ∃ m, (k ≤ m)%nat ∧ exited (at_ m).
Proof using Hfair.
  intros Hk. apply (leads_to negotiated _ sched (λ t, ∃ readable, t = Drives readable) exited
    (λ w, turns_left (sys w)) k (fair_driver _ _ _ Hfair)); [|lia].
  intros n Hn. destruct (exited_dec (at_ n)) as [|Hx]; [by left|]. right. cbn.
  assert (∀ readable, sched n = Drives readable →
    turns_left (sys (perform negotiated (at_ n) (sched n))) < turns_left (sys (at_ n)))%nat as Hd.
  { intros readable ->. apply drives_ending; [apply live_ok_at | | done]. by eapply ending_later. }
  split; [|intros [readable Hr]; by eapply Hd].
  destruct (sched n) as [i|i|readable|i] eqn:E; [| |by apply Nat.lt_le_incl, (Hd readable)|];
    by rw other_turns_left.
Qed.

(** A rank that polls lower and nobody raises reaches zero. *)
Lemma reaches_zero k t (rank_of : world T → nat) :
  often sched (λ t', t' = t) →
  (∀ w t', rank_of (perform negotiated w t') ≤ rank_of w)%nat →
  (∀ n, (k ≤ n)%nat → 0 < rank_of (at_ n) →
     rank_of (perform negotiated (at_ n) t) < rank_of (at_ n))%nat →
  ∃ m, (k ≤ m)%nat ∧ rank_of (at_ m) = 0%nat.
Proof.
  intros Ho Hle Hlt. apply (leads_to negotiated _ sched (λ t', t' = t) (λ w, rank_of w = 0%nat)
    rank_of k Ho); [|lia].
  intros n Hn. destruct (decide (rank_of (at_ n) = 0)%nat) as [|Hne]; [by left|]. right.
  split; [apply Hle|]. cbn. intros ->. apply Hlt; lia.
Qed.

Lemma rank_zero_later (rank_of : world T → nat) n m :
  (∀ w t', rank_of (perform negotiated w t') ≤ rank_of w)%nat → (n ≤ m)%nat →
  rank_of (at_ n) = 0%nat → rank_of (at_ m) = 0%nat.
Proof. intros Hle Hnm Hn. induction Hnm as [|m _ IH]; [done|]. specialize (Hle (at_ m) (sched m)). cbn in *. lia. Qed.

(** Everybody returns. *)
Lemma all_return k :
  exited (at_ k) →
  ∃ m, (k ≤ m)%nat ∧ (∀ i, (i < length calls)%nat → caller_rank i (at_ m) = 0%nat) ∧
    (∀ i, (i < handles)%nat → closer_rank i (at_ m) = 0%nat).
Proof using Hmax Hfair.
  intros Hx.
  destruct (all_reached (λ n, at_ n) (λ i w, caller_rank i w = 0%nat) k (length calls))
    as (m1 & Hm1 & Hcallers).
  { intros i n m. apply rank_zero_later. apply ranks_perform. }
  { intros i Hi. apply (reaches_zero k (Runs i)); [by eapply fair_callers | apply ranks_perform |].
    intros n Hn. apply (runs_rank _ maximum calls); [apply session_ok_at | by eapply exited_later]. }
  destruct (all_reached (λ n, at_ n) (λ i w, closer_rank i w = 0%nat) m1 handles)
    as (m2 & Hm2 & Hclosers).
  { intros i n m. apply rank_zero_later. apply ranks_perform. }
  { intros i Hi. apply (reaches_zero m1 (Closes i)); [by eapply fair_closers | apply ranks_perform |].
    intros n Hn. apply closes_rank. left. eapply (exited_later k); [lia | done]. }
  exists m2. split; [lia|]. split; [|done]. intros i Hi.
  apply (rank_zero_later _ m1); [apply ranks_perform | done | by apply Hcallers].
Qed.

End closed.


(** ** Witness

    The two pings and the closing handle of [SystemTheorems], polled in turn. *)
Definition round_robin (n : nat) : task :=
  match (n mod 4)%nat with
  | 0%nat => Runs 0
  | 1%nat => Runs 1
  | 2%nat => Drives true
  | _ => Closes 0
  end.

Lemma round_robin_often k : (k < 4)%nat → often round_robin (λ t, t = round_robin k).
Proof.
  intros Hk n. exists (k + n * 4)%nat. split; [lia|]. unfold round_robin.
  by rw Nat.Div0.mod_add.
Qed.

Lemma round_robin_fair : fair round_robin 2 1.
Proof.
  split.
  - intros i Hi. assert (i = 0 ∨ i = 1)%nat as [->| ->] by lia.
    + apply (round_robin_often 0). lia.
    + apply (round_robin_often 1). lia.
  - intros i Hi. assert (i = 0)%nat as -> by lia. apply (round_robin_often 3). lia.
  - intros n. destruct (round_robin_often 2 ltac:(lia) n) as (m & Hm & E). exists m.
    split; [done|]. by exists true.
Qed.

