(* ===== verification/Harness.v ===== *)
(** * The test dispatcher

    The second driver of [src/src/connection/dispatch.rs], compiled for the multiplexing
    tests: it runs the frame decoder and the request identity under a duplex stream. The
    three mutexes it shares with its callers are fields of one state; a caller of [execute]
    or [submit_and_abandon] is a program point that advances one lock section at a time, and
    a turn of the driver loop is one event. Its properties are in [HarnessTheorems]. *)

From Stdlib Require Import Strings.Byte.
From S2P Require Export Text DriverTheorems.
Local Open Scope Z_scope.

Module Terminal.
Record t := mk { payload : list byte }.
End Terminal.

Module RequestError.
Inductive t := Closed | Unusable | Transport.
#[global] Instance eq_dec : EqDecision t.
Proof. solve_decision. Defined.

Definition display (e : t) : text :=
  match e with
  | Closed => str "the session closed"
  | Unusable => str "the session is unusable"
  | Transport => str "the transport failed"
  end.
End RequestError.

Module SessionState.
Inductive t := Usable | Unusable | Closed.
#[global] Instance eq_dec : EqDecision t.
Proof. solve_decision. Defined.
End SessionState.

Module ReadOutcome.
Inductive t := NeedMore | Fatal | Closed.
End ReadOutcome.

(** What a completion channel carries. *)
Definition answer_of_test : Type := result Terminal.t RequestError.t.

Module TestDispatcher.

(** ** The session the driver serves *)

(** The state and the registry behind their mutexes, the driver's waiters and buffer, and what
    was sent on which channel. *)
Record dispatch := mk_dispatch {
  state : SessionState.t;
  live : InFlightRegistry.t;
  completions : gmap Z sender;
  buffer : list byte;
  log : list (sender * answer_of_test)
}.

(** The [for id in ids] loop of [fail_all]. *)
Fixpoint fail_loop (ids : list Z) (error : RequestError.t) (d : dispatch) : dispatch :=
  match ids with
  | [] => d
  | id :: ids =>
      let '(completions, log) :=
        match completions d !! id with
        | Some sender => (delete id (completions d), log d ++ [(sender, Err error)])
        | None => (completions d, log d)
        end in
      let live := (InFlightRegistry.retire (live d) id).2 in
      fail_loop ids error (mk_dispatch (state d) live completions (buffer d) log)
  end.

(** [fail_all]: the state is overwritten, every waiter is answered, every id released. *)
Definition fail_all (d : dispatch) (error : RequestError.t) : dispatch :=
  let state :=
    match error with
    | RequestError.Unusable => SessionState.Unusable
    | _ => SessionState.Closed
    end in
  fail_loop (map_to_list (completions d)).*1 error
    (mk_dispatch state (live d) (completions d) (buffer d) (log d)).

(** [header_request_id]: the request id and the total length of the frame at the front. *)
Definition header_request_id (buffer : list byte) : option (Z * Z) :=
  if len buffer <? HEADER_LENGTH then None else
  let? b6 := get_at buffer 6 in
  let? b7 := get_at buffer 7 in
  let metadata_length := from_le_bytes [b6; b7] in
  let? b8 := get_at buffer 8 in
  let? b9 := get_at buffer 9 in
  let? b10 := get_at buffer 10 in
  let? b11 := get_at buffer 11 in
  let payload_length := from_le_bytes [b8; b9; b10; b11] in
  let? id_bytes := mapM (λ index, get_at buffer (12 + index)) [0; 1; 2; 3; 4; 5; 6; 7] in
  let? head := checked_add USIZE_MAX HEADER_LENGTH metadata_length in
  let payload_length := unwrap_or (try_from USIZE_MAX payload_length) USIZE_MAX in
  let? total := checked_add USIZE_MAX head payload_length in
  Some (from_le_bytes id_bytes, total).

(** [frame_total_len]: the length the header states, or that of the buffer. *)
Definition frame_total_len (buffer : list byte) : Z :=
  if len buffer <? HEADER_LENGTH then len buffer else
  let byte_at i := unwrap_or (get_at buffer i) x00 in
  let metadata_length := from_le_bytes [byte_at 6; byte_at 7] in
  let payload_length := from_le_bytes [byte_at 8; byte_at 9; byte_at 10; byte_at 11] in
  unwrap_or
    (let? total := checked_add USIZE_MAX HEADER_LENGTH metadata_length in
     checked_add USIZE_MAX total (unwrap_or (try_from USIZE_MAX payload_length) USIZE_MAX))
    (len buffer).

(** [drain_bytes]. *)
Definition drain_bytes (buffer : list byte) (count : Z) : list byte :=
  drain_front (Z.min count (len buffer)) buffer.

(** [encode_test_request] and [encode_test_response]. *)
Definition encode_test_request (id : Z) (payload : list byte) : list byte :=
  match encode (Outgoing.mk Kind.Request 0xFFFF id [] (OutgoingPayload.Opaque_ payload)) with
  | Ok bytes => bytes
  | Err _ => []
  end.

Definition encode_test_response (id : Z) (payload : list byte) : list byte :=
  match encode (Outgoing.mk Kind.Response 0 id [] (OutgoingPayload.Opaque_ payload)) with
  | Ok bytes => bytes
  | Err _ => []
  end.

(** [write_peer_bytes]: the writes the peer makes, one per byte or one for all. *)
Definition write_peer_bytes (bytes : list byte) (bytewise : bool) : list (list byte) :=
  if bytewise then (λ b, [b]) <$> bytes else [bytes].

(** How one round of the [drain_frames] loop ends. *)
Inductive round :=
| NextRound (d : dispatch)
| Leave (d : dispatch) (outcome : ReadOutcome.t).

(** The payload handed to the caller: that of an opaque frame, otherwise nothing. *)
Definition terminal_of (frame : Frame.t) : Terminal.t :=
  Terminal.mk (match Frame.payload frame with Payload.Opaque_ bytes => bytes | _ => [] end).

Definition drain_round (d : dispatch) : round :=
  match decode (buffer d) (driver_admission Limits.PRE_NEGOTIATION (live d)) with
  | Step.Need _ => Leave d ReadOutcome.NeedMore
  | Step.Frame frame =>
      let retiring := RequestId.value (Header.request_id (Frame.header frame)) in
      let total := frame_total_len (buffer d) in
      let buffer' := drain_bytes (buffer d) total in
      let sender := completions d !! retiring in
      let d' := mk_dispatch (state d) (InFlightRegistry.retire (live d) retiring).2
                  (delete retiring (completions d)) buffer' (log d) in
      match sender with
      | Some sender =>
          NextRound (mk_dispatch (state d') (live d') (completions d') (buffer d')
                       (log d' ++ [(sender, Ok (terminal_of frame))]))
      | None => Leave (fail_all d' RequestError.Unusable) ReadOutcome.Fatal
      end
  | Step.Failure _ _ => Leave (fail_all d RequestError.Unusable) ReadOutcome.Fatal
  end.

(** The [loop]; every round but the last removes a frame, so the length of the buffer is
    enough fuel. *)
Fixpoint drain_loop (fuel : nat) (d : dispatch) : dispatch * ReadOutcome.t :=
  match drain_round d with
  | Leave d outcome => (d, outcome)
  | NextRound d' =>
      match fuel with
      | O => (d', ReadOutcome.NeedMore)
      | S fuel => drain_loop fuel d'
      end
  end.

Definition drain_frames (d : dispatch) : dispatch * ReadOutcome.t :=
  drain_loop (length (buffer d)) d.

(** [handle_read]: an error or the end of the stream, or the bytes appended to the buffer. *)
Definition handle_read (d : dispatch) (read : result (list byte) IoError.t)
    : dispatch * ReadOutcome.t :=
  match read with
  | Err _ | Ok [] =>
      if bool_decide (completions d = ∅) then (d, ReadOutcome.Closed)
      else (fail_all d RequestError.Transport, ReadOutcome.Closed)
  | Ok bytes =>
      drain_frames (mk_dispatch (state d) (live d) (completions d) (buffer d ++ bytes) (log d))
  end.

(** [handle_submit]; [wrote] tells whether the write and the flush succeeded. *)
Definition handle_submit (d : dispatch) (submit : Submit.t) (wrote : bool)
    : dispatch * result unit RequestError.t :=
  let d := mk_dispatch (state d) (live d)
             (<[Submit.id submit := Submit.completion submit]> (completions d))
             (buffer d) (log d) in
  if negb wrote then (fail_all d RequestError.Transport, Err RequestError.Transport)
  else (d, Ok tt).

(** ** The driver task and its channel *)

Inductive phase := Running | Ended | Aborted.

(** The dispatcher: the session, the allocator, the submissions waiting in the channel, the
    driver's [submit_closed], how far the task is, and whether its handle and the sending side
    of the channel are still held. *)
Record t := mk {
  session : dispatch;
  allocator : RequestIdAllocator.t;
  queue : list Submit.t;
  submit_closed : bool;
  task : phase;
  handle_held : bool;
  sender_held : bool
}.

Definition CHANNEL_CAPACITY : nat := 64.

(** [TestDispatcher::new]. *)
Definition new : t :=
  mk (mk_dispatch SessionState.Usable InFlightRegistry.new ∅ [] []) RequestIdAllocator.new []
    false Running true true.

(** The branches of [select!] with what the stream did: a submission received and whether it
    could be written, the end of the submit channel, and a read. *)
Inductive event :=
| Received (wrote : bool)
| SubmitClosed
| ReadReady (read : result (list byte) IoError.t).

Definition with_session (t : t) (d : dispatch) : TestDispatcher.t :=
  mk d (allocator t) (queue t) (submit_closed t) (task t) (handle_held t) (sender_held t).

(** [return]: the task ends and the receiver is dropped. *)
Definition finish (t : t) : TestDispatcher.t :=
  mk (session t) (allocator t) (queue t) (submit_closed t) Ended (handle_held t)
    (sender_held t).

(** [break]: the code behind the loop answers whoever is left. *)
Definition leave_loop (t : t) : TestDispatcher.t :=
  finish (if bool_decide (completions (session t) = ∅) then t
          else with_session t (fail_all (session t) RequestError.Closed)).

(** The test at the end of the loop's body. *)
Definition end_of_turn (t : t) : TestDispatcher.t :=
  if submit_closed t && bool_decide (completions (session t) = ∅) then leave_loop t else t.

(** One turn of [run_driver]; [None] when the branch is disabled. *)
Definition run_driver (t : t) (ev : event) : option TestDispatcher.t :=
  match task t with
  | Running =>
      match ev with
      | Received wrote =>
          if submit_closed t then None else
          match queue t with
          | [] => None
          | submit :: rest =>
              let '(d, outcome) := handle_submit (session t) submit wrote in
              let t := mk d (allocator t) rest (submit_closed t) (task t) (handle_held t)
                         (sender_held t) in
              Some (if is_err outcome then leave_loop t else end_of_turn t)
          end
      | SubmitClosed =>
          if submit_closed t || sender_held t then None else
          match queue t with
          | [] =>
              let t := mk (session t) (allocator t) (queue t) true (task t) (handle_held t)
                         (sender_held t) in
              Some (if bool_decide (completions (session t) = ∅) then leave_loop t
                    else end_of_turn t)
          | _ => None
          end
      | ReadReady read =>
          let '(d, outcome) := handle_read (session t) read in
          let t := with_session t d in
          Some (match outcome with
                | ReadOutcome.NeedMore => end_of_turn t
                | ReadOutcome.Fatal => finish t
                | ReadOutcome.Closed => leave_loop t
                end)
      end
  | _ => None
  end.

(** ** Callers *)

(** A caller of [execute], or of [submit_and_abandon] when [abandon] is set, between its lock
    sections. *)
Inductive caller :=
| Calling (payload : list byte) (abandon : bool)
| Allocated (id : Z) (payload : list byte) (abandon : bool)
| Checked (id : Z) (payload : list byte) (abandon : bool)
| Registered (id : Z) (payload : list byte) (abandon : bool)
| Awaiting (id : Z)
| Finished (r : answer_of_test)
| Abandoned (r : result Z RequestError.t).

(** [return Err(error)], in the type of the function called. *)
Definition refuse_call (abandon : bool) (error : RequestError.t) : caller :=
  if abandon then Abandoned (Err error) else Finished (Err error).

(** What was sent on a channel. *)
Definition received (d : dispatch) (channel : sender) : option answer_of_test :=
  snd <$> List.find (λ e, (e.1 =? channel)%nat) (log d).

(** Whether the sender of a channel still exists: it is with the waiters, or in a submission the
    running driver may yet take. *)
Definition sender_alive (t : t) (channel : sender) : bool :=
  bool_decide (channel ∈ (map_to_list (completions (session t))).*2) ||
  (bool_decide (channel ∈ Submit.completion <$> queue t) &&
   match task t with Running => true | _ => false end).

(** One lock section of caller number [channel], which is also the number of the completion
    channel it makes; [None] while it waits, for a place in the channel or for its answer. *)
Definition execute (t : t) (channel : sender) (c : caller) : option (TestDispatcher.t * caller) :=
  match c with
  | Calling payload abandon =>
      let '(id, a) := RequestIdAllocator.allocate (allocator t) in
      Some (mk (session t) a (queue t) (submit_closed t) (task t) (handle_held t) (sender_held t),
            Allocated id payload abandon)
  | Allocated id payload abandon =>
      Some (t, if bool_decide (state (session t) = SessionState.Usable)
               then Checked id payload abandon
               else refuse_call abandon RequestError.Unusable)
  | Checked id payload abandon =>
      let d := session t in
      let '(inserted, registry) := InFlightRegistry.insert (live d) id in
      Some (with_session t
              (mk_dispatch (state d) registry (completions d) (buffer d) (log d)),
            if is_err inserted then refuse_call abandon RequestError.Unusable
            else Registered id payload abandon)
  | Registered id payload abandon =>
      let d := session t in
      match task t with
      | Running =>
          if (length (queue t) <? CHANNEL_CAPACITY)%nat then
            let submit := Submit.mk id (encode_test_request id payload) channel in
            Some (mk d (allocator t) (queue t ++ [submit]) (submit_closed t) (task t)
                    (handle_held t) (sender_held t),
                  if abandon then Abandoned (Ok id) else Awaiting id)
          else None
      | _ =>
          Some (with_session t
                  (mk_dispatch (state d) (InFlightRegistry.retire (live d) id).2 (completions d)
                     (buffer d) (log d)),
                refuse_call abandon RequestError.Closed)
      end
  | Awaiting id =>
      match received (session t) channel with
      | Some answer => Some (t, Finished answer)
      | None => if sender_alive t channel then None
                else Some (t, Finished (Err RequestError.Closed))
      end
  | Finished _ | Abandoned _ => None
  end.

(** [live_len]. *)
Definition live_len (t : t) : Z := InFlightRegistry.len (live (session t)).

(** [join]: takes the handle, and returns once the task has ended. *)
Definition join (t : t) : TestDispatcher.t * bool :=
  (mk (session t) (allocator t) (queue t) (submit_closed t) (task t) false
     (sender_held t),
   negb (handle_held t) || match task t with Running => false | _ => true end).

(** [Drop]: a handle that is still held is used to abort the task; then the fields go. *)
Definition drop_ (t : t) : TestDispatcher.t :=
  mk (session t) (allocator t) (queue t) (submit_closed t)
    (if handle_held t then match task t with Running => Aborted | p => p end else task t)
    false false.

(** ** Interleavings *)

(** The dispatcher and the calls in progress. *)
Record world := mk_world { dispatcher : t; callers : list caller }.

Definition call_over (c : caller) : Prop :=
  match c with Finished _ | Abandoned _ => True | _ => False end.

(** Callers, the driver and [join] interleave freely; the dispatcher is dropped when no call
    borrows it any more. *)
Inductive step : world → world → Prop :=
| step_caller w i c t c' :
    callers w !! i = Some c → execute (dispatcher w) i c = Some (t, c') →
    step w (mk_world t (<[i := c']> (callers w)))
| step_driver w ev t :
    run_driver (dispatcher w) ev = Some t → step w (mk_world t (callers w))
| step_join w : step w (mk_world (join (dispatcher w)).1 (callers w))
| step_drop w :
    Forall call_over (callers w) → step w (mk_world (drop_ (dispatcher w)) (callers w)).

Definition reachable : world → world → Prop := rtc step.

(** A new dispatcher and calls about to be made. *)
Definition started (calls : list (list byte * bool)) : world :=
  mk_world new ((λ c, Calling c.1 c.2) <$> calls).

End TestDispatcher.
