(* ===== verification/HarnessTheorems.v ===== *)
(** * Test dispatcher: lemmas and theorems

    Where the dispatcher of the multiplexing tests agrees with the driver it stands in for and
    where it does not, that it leaves no waiter behind, and which ids are live at any moment of
    any interleaving of its callers, its driver and the peer. *)

From stdpp Require Import sorting.
From S2P Require Export Harness.
From Stdlib Require Import Strings.Byte.
Local Open Scope Z_scope.

Module TD := TestDispatcher.

(** ** Failing every waiter *)

(** The waiting channels. *)
Definition waiting (d : TD.dispatch) : list sender := (map_to_list (TD.completions d)).*2.

Lemma test_fail_loop_spec m error ids d :
  TD.completions d = m → NoDup ids → (∀ id, id ∈ ids ↔ id ∈ dom m) →
  let d' := TD.fail_loop ids error d in
  TD.state d' = TD.state d ∧ TD.buffer d' = TD.buffer d ∧ TD.completions d' = ∅ ∧
  InFlightRegistry.live (TD.live d') = InFlightRegistry.live (TD.live d) ∖ dom m ∧
  TD.log d' = TD.log d ++ omap (λ id, (λ c, (c, Err error)) <$> m !! id) ids.
Proof.
  revert m d. induction ids as [|id ids IH]; intros m d Hm Hnd Hids.
  - assert (dom m = ∅) as He by set_solver. cbn. rw app_nil_r He. repeat split; try done.
    + rw Hm. by apply dom_empty_inv_L.
    + set_solver.
  - apply NoDup_cons in Hnd as [Hni Hnd].
    assert (id ∈ dom m) as [c Hc]%elem_of_dom by (apply Hids; left).
    cbn [TD.fail_loop omap list_omap]. rw Hm Hc. set (d' := TD.mk_dispatch _ _ _ _ _).
    destruct (IH (delete id m) d') as (-> & -> & -> & -> & ->); try done.
    + intros j. rw dom_delete_L elem_of_difference -Hids elem_of_cons not_elem_of_singleton.
      set_solver.
    + cbn. repeat split.
      * apply elem_of_dom_2 in Hc. rw dom_delete_L. apply set_eq. intros j.
        destruct (decide (j = id)) as [->|]; set_solver.
      * rw -app_assoc. f_equal. cbn. f_equal.
        clear - Hni. induction ids as [|j ids IH]; [done|]. cbn.
        rw lookup_delete_ne; [set_solver|]. rw IH; [set_solver | done].
Qed.

(** Every waiter is answered with the error, its id is released, and the state is overwritten. *)
Lemma test_fail_all_spec d error :
  let d' := TD.fail_all d error in
  TD.state d' ≠ SessionState.Usable ∧ TD.buffer d' = TD.buffer d ∧ TD.completions d' = ∅ ∧
  InFlightRegistry.live (TD.live d') = InFlightRegistry.live (TD.live d) ∖ dom (TD.completions d) ∧
  TD.log d' = TD.log d ++ ((λ c, (c, Err error)) <$> waiting d).
Proof.
  intros d'. unfold d', TD.fail_all. set (d0 := TD.mk_dispatch _ _ _ _ _).
  destruct (test_fail_loop_spec (TD.completions d) error (map_to_list (TD.completions d)).*1 d0
              eq_refl) as (Hs & Hb & Hc & Hl & Hg).
  - apply NoDup_fst_map_to_list.
  - intros id. rw elem_of_dom list_elem_of_fmap. split.
    + intros ([i c] & -> & Hi%elem_of_map_to_list). by exists c.
    + intros [c Hi]. exists (id, c). split; [done|]. by apply elem_of_map_to_list.
  - rw Hs. split; [by destruct error|]. split; [done|]. split; [done|]. split; [done|].
    etrans; [exact Hg|]. cbn [d0 TD.log]. f_equal. unfold waiting. rw omap_lookup_keys.
    + by intros [i c] Hi%elem_of_map_to_list.
    + by rw list_fmap_compose.
Qed.

(** ** The header readers *)

Lemma test_total_len buffer h :
  RawHeader.parse buffer = Some h → TD.frame_total_len buffer = raw_total h.
Proof.
  intros Hh. pose proof (frame_total_len_parse _ _ Hh) as Ht.
  unfold TD.frame_total_len. unfold frame_total_len in Ht.
  destruct (len buffer <? HEADER_LENGTH) eqn:El; [done|].
  repeat (destruct (get_at buffer _) as [?|]; [|done]). cbn [unwrap_or].
  destruct (checked_add USIZE_MAX HEADER_LENGTH _); [|done]. by rw Ht.
Qed.

(** Both drivers read the same id and the same length from a header. *)
Lemma test_header_agrees buffer h :
  RawHeader.parse buffer = Some h →
  TD.header_request_id buffer = Some (RawHeader.request_id h, raw_total h).
Proof.
  intros Hh. pose proof (frame_total_len_parse _ _ Hh) as Ht.
  pose proof (header_request_id_parse _ _ Hh) as Hi.
  unfold TD.header_request_id. unfold frame_total_len in Ht. unfold header_request_id in Hi.
  destruct (len buffer <? HEADER_LENGTH) eqn:El; [done|]. apply Z.ltb_ge in El.
  unfold HEADER_LENGTH, len in El.
  do 20 (destruct buffer as [|? buffer]; [cbn in El; lia|]). clear El.
  rw (slice_get_at _ [b11; b12; b13; b14; b15; b16; b17; b18]) in Hi; [done | unfold len; cbn; lia|].
  cbv [get_at mapM Z.add Pos.add Pos.succ Z.to_nat Pos.to_nat Pos.iter_op Nat.add] in Ht |- *.
  cbn [lookup list_lookup] in Ht |- *.
  destruct (checked_add USIZE_MAX HEADER_LENGTH (from_le_bytes [b5; b6])) as [head|]; [|done].
  cbn [mbind option_bind] in Ht |- *. rw Ht. by injection Hi as <-.
Qed.

(** ** Rounds of the loop *)

(** What a round does to a frame. *)
Lemma drain_round_frame d f rest :
  frame_wf (driver_admission Limits.PRE_NEGOTIATION (TD.live d)) f →
  TD.buffer d = frame_bytes f ++ rest →
  TD.drain_round d =
    let id := RequestId.value (Header.request_id (Frame.header f)) in
    let retired := (InFlightRegistry.retire (TD.live d) id).2 in
    let others := delete id (TD.completions d) in
    match TD.completions d !! id with
    | Some c =>
        TD.NextRound (TD.mk_dispatch (TD.state d) retired others rest
                        (TD.log d ++ [(c, Ok (TD.terminal_of f))]))
    | None =>
        TD.Leave (TD.fail_all (TD.mk_dispatch (TD.state d) retired others rest (TD.log d))
                    RequestError.Unusable) ReadOutcome.Fatal
    end.
Proof.
  intros Hwf Hb. unfold TD.drain_round. rw Hb.
  pose proof (decode_frame_complete _ f rest Hwf) as Hd. rw Hd.
  rw (test_total_len _ _ (decode_frame_parse _ _ _ Hd)) (frame_raw_total _ _ Hwf).
  unfold TD.drain_bytes. rw drain_front_app.
  - pose proof (len_nonneg rest). rw len_app. lia.
  - by destruct (TD.completions d !! _).
Qed.

Lemma drain_round_shrinks d d' :
  TD.drain_round d = TD.NextRound d' → (length (TD.buffer d') < length (TD.buffer d))%nat.
Proof.
  intros H. pose proof H as H0. unfold TD.drain_round in H0.
  destruct (decode _ _) as [n|f|g c] eqn:Hd; [done| |done]. clear H0.
  pose proof Hd as (Hwf & rest & Hb)%decode_frame_sound.
  rw (drain_round_frame d f rest Hwf Hb) in H. cbv zeta in H.
  destruct (TD.completions d !! _); [|done]. injection H as <-. cbn.
  pose proof (len_frame_bytes f). rw Hb length_app. unfold HEADER_LENGTH, len in *. lia.
Qed.

Lemma test_drain_loop_fuel n m d :
  (length (TD.buffer d) ≤ n)%nat → (length (TD.buffer d) ≤ m)%nat →
  TD.drain_loop n d = TD.drain_loop m d.
Proof.
  revert m d. induction n as [|n IH]; intros m d Hn Hm.
  - destruct m; cbn; destruct (TD.drain_round d) eqn:E; try done.
    apply drain_round_shrinks in E. lia.
  - cbn. destruct m as [|m]; cbn; destruct (TD.drain_round d) as [d'|] eqn:E; try done;
      apply drain_round_shrinks in E; [lia|]. apply IH; lia.
Qed.

(** The loop without fuel. *)
Lemma test_drain_unfold d :
  TD.drain_frames d =
    match TD.drain_round d with
    | TD.Leave d' outcome => (d', outcome)
    | TD.NextRound d' => TD.drain_frames d'
    end.
Proof.
  unfold TD.drain_frames at 1. destruct (length (TD.buffer d)) as [|n] eqn:El; cbn;
    destruct (TD.drain_round d) as [d'|] eqn:E; try done;
    apply drain_round_shrinks in E; [lia|]. apply test_drain_loop_fuel; lia.
Qed.

(** Induction along the rounds of the loop. *)
Lemma test_drain_ind (P : TD.dispatch → TD.dispatch → ReadOutcome.t → Prop) :
  (∀ d d' out, TD.drain_round d = TD.Leave d' out → P d d' out) →
  (∀ d d1 d' out, TD.drain_round d = TD.NextRound d1 → P d1 d' out → P d d' out) →
  ∀ d, P d (TD.drain_frames d).1 (TD.drain_frames d).2.
Proof.
  intros Hleave Hnext d. remember (length (TD.buffer d)) as n eqn:En. revert d En.
  induction n as [n IH] using lt_wf_ind. intros d ->. rw test_drain_unfold.
  destruct (TD.drain_round d) as [d1|d' out] eqn:E; [|by apply Hleave].
  eapply Hnext; [done|]. eapply IH; [|done]. by eapply drain_round_shrinks.
Qed.

(** ** Agreement with the driver *)

(** The same bytes and the same waiters. *)
Definition mirrors (s : Session.t) (d : TD.dispatch) : Prop :=
  Session.buffer s = TD.buffer d ∧ Session.completions s = TD.completions d ∧
  Session.live s = TD.live d.

(** The same answer: the driver hands the frame over, the dispatcher its payload. *)
Definition same_answer (a : sender * result (list byte) DriverError.t)
  (b : sender * answer_of_test) : Prop :=
  a.1 = b.1 ∧ ∃ f, a.2 = Ok (frame_bytes f) ∧ b.2 = Ok (TD.terminal_of f).

(** No answer is the refusal of a single request. *)
Definition none_refused (new : deliveries) : Prop :=
  ∀ c e, (c, Err e) ∉ new.

(** The driver took [s] to [s'] and reports [fatal]; the dispatcher gives, from [d], the same
    answers, and after a fatal frame answers the waiters that are left. *)
Definition drains_alike (d : TD.dispatch) (s s' : Session.t) (fatal : option Failure.t) : Prop :=
  ∃ new, Session.log s' = Session.log s ++ new ∧
  (none_refused new →
   ∃ new', Forall2 same_answer new new' ∧
     match fatal with
     | None => (TD.drain_frames d).2 = ReadOutcome.NeedMore ∧ mirrors s' (TD.drain_frames d).1 ∧
               TD.log (TD.drain_frames d).1 = TD.log d ++ new'
     | Some _ =>
         (TD.drain_frames d).2 = ReadOutcome.Fatal ∧
         TD.completions (TD.drain_frames d).1 = ∅ ∧
         TD.log (TD.drain_frames d).1 =
           TD.log d ++ new' ++ ((λ c, (c, Err RequestError.Unusable)) <$> pending s')
     end).

(** A round that ends the session fails every waiter of both. *)
Lemma fatal_round_alike s s' d d0 g :
  mirrors s d → Session.log s' = Session.log s → Session.completions s' = Session.completions s →
  TD.completions d0 = TD.completions d → TD.log d0 = TD.log d →
  TD.drain_round d = TD.Leave (TD.fail_all d0 RequestError.Unusable) ReadOutcome.Fatal →
  drains_alike d s s' (Some g).
Proof.
  intros (_ & Hm & _) Hl Hc Hc0 Hl0 Hr. exists []. rw Hl app_nil_r. split; [done|]. intros _.
  exists []. split; [constructor|]. rw test_drain_unfold Hr. cbn.
  destruct (test_fail_all_spec d0 RequestError.Unusable) as (_ & _ & H0 & _ & Hg).
  split; [done|]. split; [done|]. rw Hg Hl0. f_equal.
  unfold waiting, pending. by rw Hc0 Hc Hm.
Qed.

(** The round that ends the loop. *)
Lemma drain_last_alike s s' fatal d :
  drain_iteration Limits.PRE_NEGOTIATION s = Done s' fatal → mirrors s d →
  drains_alike d s s' fatal.
Proof.
  intros Hi Hm. pose proof Hm as (Hb & Hc & Hv).
  pose proof Hi as H0. unfold drain_iteration in H0. rw Hb Hv in H0.
  destruct (decode (TD.buffer d) _) as [n|f|g c] eqn:Hd.
  - injection H0 as <- <-. exists []. rw app_nil_r. split; [done|]. intros _. exists [].
    split; [constructor|]. rw app_nil_r test_drain_unfold. unfold TD.drain_round. by rw Hd.
  - pose proof Hd as (Hwf & rest & Hbr)%decode_frame_sound.
    rw (drain_iteration_frame _ s f rest) in Hi; [by rw Hv | by rw Hb|].
    pose proof (drain_round_frame d f rest Hwf Hbr) as Hr. cbv zeta in Hr.
    apply resolve_done in Hi as Hi'. destruct Hi' as [-> ->].
    unfold resolve in Hi. rw Hc in Hi.
    destruct (TD.completions d !! _) as [w|] eqn:Ew; [done|].
    eapply fatal_round_alike; [exact Hm | done | done | | | exact Hr]; [|done].
    cbn. by apply delete_id.
  - assert (TD.drain_round d = TD.Leave (TD.fail_all d RequestError.Unusable) ReadOutcome.Fatal)
      as Hr by (unfold TD.drain_round; by rw Hd).
    assert (∃ g', fatal = Some g' ∧ Session.log s' = Session.log s ∧
                  Session.completions s' = Session.completions s) as (g' & -> & Hl & Hc').
    { destruct (bool_decide_reflect (Failure.scope g = FailureScope.RequestScoped)).
      * destruct (header_request_id _); [|by injection H0 as <- <-; eauto].
        apply resolve_done in H0 as [-> ->]. eauto.
      * injection H0 as <- <-. eauto. }
    by eapply fatal_round_alike.
Qed.

(** A round behind which the loop goes on. *)
Lemma drain_next_alike s s1 s' fatal d :
  drain_iteration Limits.PRE_NEGOTIATION s = Again s1 →
  (∀ d, mirrors s1 d → drains_alike d s1 s' fatal) → mirrors s d → drains_alike d s s' fatal.
Proof.
  intros Hi IH Hm. pose proof Hm as (Hb & Hc & Hv).
  pose proof Hi as H0. unfold drain_iteration in H0. rw Hb Hv in H0.
  destruct (decode (TD.buffer d) _) as [n|f|g c] eqn:Hd; [done| |].
  - pose proof Hd as (Hwf & rest & Hbr)%decode_frame_sound.
    rw (drain_iteration_frame _ s f rest) in Hi; [by rw Hv | by rw Hb|].
    pose proof (drain_round_frame d f rest Hwf Hbr) as Hr. cbv zeta in Hr.
    unfold resolve in Hi. rw Hc Hv in Hi.
    destruct (TD.completions d !! _) as [w|] eqn:Ew; [|done]. injection Hi as <-.
    set (d1 := TD.mk_dispatch _ _ _ _ _) in Hr.
    destruct (IH d1) as (new & Hl & Hnew); [done|].
    exists ((w, Ok (frame_bytes f)) :: new). split; [by rw Hl -app_assoc|].
    intros Hok. destruct Hnew as (new' & Hf & Hres).
    { intros c e Hin. apply (Hok c e). by right. }
    exists ((w, Ok (TD.terminal_of f)) :: new').
    split; [constructor; [|done]; split; [done|]; by exists f|].
    rw test_drain_unfold Hr. destruct fatal as [g|].
    + destruct Hres as (-> & -> & ->). split; [done|]. split; [done|].
      cbn [d1 TD.log]. by rw -app_assoc.
    + destruct Hres as (-> & Hmr & ->). split; [done|]. split; [done|].
      cbn [d1 TD.log]. by rw -app_assoc.
  - destruct (IH (TD.mk_dispatch (TD.state d) (Session.live s1) (Session.completions s1)
                    (Session.buffer s1) (TD.log d))) as (new & Hl & _); [done|].
    destruct (bool_decide_reflect (Failure.scope g = FailureScope.RequestScoped)); [|done].
    destruct (header_request_id _) as [id|]; [|done]. unfold resolve in H0.
    destruct (Session.completions s !! id) as [w|]; [|done]. injection H0 as <-.
    exists ((w, Err (DriverError.RequestFailed g)) :: new). split; [by rw Hl -app_assoc|].
    intros Hok. destruct (Hok w (DriverError.RequestFailed g)). left.
Qed.

Lemma drain_drains_alike s : ∀ d, mirrors s d →
  drains_alike d s (drain_frames Limits.PRE_NEGOTIATION s).1
    (drain_frames Limits.PRE_NEGOTIATION s).2.
Proof.
  apply (drain_frames_ind _ (λ s s' fatal, ∀ d, mirrors s d → drains_alike d s s' fatal));
    intros; [by apply drain_last_alike | by eapply drain_next_alike].
Qed.

(** ** Which ids are live *)

(** The ids of the callers that registered one and have not submitted yet. *)
Definition registered_id (c : TD.caller) : option Z :=
  match c with TD.Registered id _ _ => Some id | _ => None end.
Definition registered (cs : list TD.caller) : list Z := omap registered_id cs.

(** The ids of the waiting requests. *)
Definition waiting_ids (d : TD.dispatch) : list Z := (map_to_list (TD.completions d)).*1.

(** Every request that is under way: registered, in the channel, or waiting for its answer. *)
Definition under_way (w : TD.world) : list Z :=
  registered (TD.callers w) ++ (Submit.id <$> TD.queue (TD.dispatcher w)) ++
  waiting_ids (TD.session (TD.dispatcher w)).

(** The channels the driver has answered, holds, or will find in its channel. *)
Definition handled (d : TD.dispatch) : list sender := (TD.log d).*1 ++ waiting d.
Definition handed_over (t : TD.t) : list sender :=
  handled (TD.session t) ++ (Submit.completion <$> TD.queue t).

Definition submitted (c : TD.caller) : Prop :=
  match c with
  | TD.Calling _ _ | TD.Allocated _ _ _ | TD.Checked _ _ _ | TD.Registered _ _ _ => False
  | _ => True
  end.

Definition live_exact (d : TD.dispatch) (others : list Z) : Prop :=
  elements (InFlightRegistry.live (TD.live d)) ≡ₚ others ++ waiting_ids d.

Record harness_inv (w : TD.world) : Prop := {
  inv_live : TD.task (TD.dispatcher w) = TD.Running →
    live_exact (TD.session (TD.dispatcher w))
      (registered (TD.callers w) ++ (Submit.id <$> TD.queue (TD.dispatcher w)));
  inv_ended : TD.task (TD.dispatcher w) = TD.Ended →
    TD.completions (TD.session (TD.dispatcher w)) = ∅;
  inv_channels : NoDup (handed_over (TD.dispatcher w));
  inv_submitted : ∀ i, i ∈ handed_over (TD.dispatcher w) →
    ∃ c, TD.callers w !! i = Some c ∧ submitted c
}.

Lemma fail_all_handled d error : handled (TD.fail_all d error) = handled d.
Proof.
  destruct (test_fail_all_spec d error) as (_ & _ & Hc & _ & Hg).
  unfold handled, waiting at 1. rw Hc Hg map_to_list_empty fmap_app -list_fmap_compose app_nil_r.
  f_equal. by rw list_fmap_id.
Qed.

(** Draining keeps the books, and leaves no waiter when it ends the session. *)
Lemma drain_accounts d :
  (∀ others, live_exact d others → (TD.drain_frames d).2 = ReadOutcome.NeedMore →
     live_exact (TD.drain_frames d).1 others) ∧
  ((TD.drain_frames d).2 ≠ ReadOutcome.NeedMore → TD.completions (TD.drain_frames d).1 = ∅) ∧
  handled (TD.drain_frames d).1 ≡ₚ handled d.
Proof.
  apply (test_drain_ind (λ d d' out,
    (∀ others, live_exact d others → out = ReadOutcome.NeedMore → live_exact d' others) ∧
    (out ≠ ReadOutcome.NeedMore → TD.completions d' = ∅) ∧ handled d' ≡ₚ handled d)); clear d.
  - intros d d' out H. unfold TD.drain_round in H.
    destruct (decode _ _) as [n|f|g c]; [by injection H as <- <-| |].
    + destruct (TD.completions d !! _) eqn:Ew; [done|]. injection H as <- <-.
      split; [done|]. split; [intros _; apply test_fail_all_spec|]. rw fail_all_handled.
      unfold handled, waiting. cbn [TD.log TD.completions]. by rw delete_id.
    + injection H as <- <-. split; [done|]. split; [intros _; apply test_fail_all_spec|].
      by rw fail_all_handled.
  - intros d d1 d' out H (IHl & IHe & IHh).
    assert (∃ id c e, TD.completions d !! id = Some c ∧ ∃ rest,
      d1 = TD.mk_dispatch (TD.state d) (InFlightRegistry.retire (TD.live d) id).2
             (delete id (TD.completions d)) rest (TD.log d ++ [(c, e)])) as
      (id & c & e & Hc & rest & ->).
    { unfold TD.drain_round in H. destruct (decode _ _) as [n|f|g c]; [done| |done].
      destruct (TD.completions d !! _) eqn:Ew; [|done]. injection H as <-. eauto 10. }
    pose proof (map_to_list_delete _ _ _ Hc) as Hp. split; [|split; [done|]].
    + intros others Hx Hn. apply IHl; [|done]. unfold live_exact, waiting_ids in *.
      cbn [TD.live TD.completions InFlightRegistry.retire snd InFlightRegistry.live].
      apply (Permutation_cons_inv (a := id)).
      assert (id ∈ InFlightRegistry.live (TD.live d)) as Hin.
      { apply elem_of_elements. rw Hx elem_of_app. right. apply list_elem_of_fmap.
        exists (id, c). split; [done|]. by apply elem_of_map_to_list. }
      rw -elements_union_singleton; [set_solver|]. rw -union_difference_singleton_L; [done|].
      rw Hx Permutation_middle. apply Permutation_app; [done|].
      symmetry. exact (fmap_Permutation fst _ _ Hp).
    + rw IHh. unfold handled, waiting. cbn [TD.log TD.completions]. rw fmap_app -app_assoc.
      apply Permutation_app; [done|]. exact (fmap_Permutation snd _ _ Hp).
Qed.

(** A caller's step touches at most its own entry of the registered ids. *)
Lemma registered_update cs i c c' :
  cs !! i = Some c → ∃ rest, registered cs ≡ₚ option_list (registered_id c) ++ rest ∧
    registered (<[i := c']> cs) ≡ₚ option_list (registered_id c') ++ rest.
Proof.
  intros Hi. exists (registered (take i cs) ++ registered (drop (S i) cs)).
  assert (∀ x, registered (take i cs ++ x :: drop (S i) cs) ≡ₚ
    option_list (registered_id x) ++ registered (take i cs) ++ registered (drop (S i) cs)) as Hx.
  { intros x. unfold registered. rw omap_app. cbn.
    destruct (registered_id x) as [id|]; [|done]. by rw -Permutation_middle. }
  split.
  - rw -{1}(take_drop_middle cs i c Hi). apply Hx.
  - rw insert_take_drop; [by eapply lookup_lt_Some|]. apply Hx.
Qed.

(** A step that does not change the driver's side of the books. *)
Lemma caller_update_inv w i c c' t :
  harness_inv w → TD.callers w !! i = Some c →
  TD.task t = TD.task (TD.dispatcher w) →
  TD.completions (TD.session t) = TD.completions (TD.session (TD.dispatcher w)) →
  TD.log (TD.session t) = TD.log (TD.session (TD.dispatcher w)) →
  TD.queue t = TD.queue (TD.dispatcher w) → (submitted c → submitted c') →
  (TD.task t = TD.Running →
     elements (InFlightRegistry.live (TD.live (TD.session t))) ++ option_list (registered_id c) ≡ₚ
     elements (InFlightRegistry.live (TD.live (TD.session (TD.dispatcher w)))) ++
       option_list (registered_id c')) →
  harness_inv (TD.mk_world t (<[i := c']> (TD.callers w))).
Proof.
  intros [Hl He Hc Hs] Hi Ht Hcp Hlg Hq Hsub Hlive.
  assert (handed_over t = handed_over (TD.dispatcher w)) as Hh.
  { unfold handed_over, handled, waiting. by rw Hlg Hcp Hq. }
  split; cbn [TD.dispatcher TD.callers]; rw ?Ht ?Hh ?Hcp; [|done|done|].
  - intros Hr. specialize (Hlive (eq_trans Ht Hr)). specialize (Hl Hr).
    destruct (registered_update _ _ _ c' Hi) as (rest & H1 & H2).
    unfold live_exact, waiting_ids in *. rw Hcp Hq.
    rw Hl H1 in Hlive. rw H2. apply (Permutation_app_inv_r (option_list (registered_id c))).
    rw Hlive. solve_Permutation.
  - intros j Hj. destruct (Hs j Hj) as (x & Hx & Hxs).
    destruct (decide (j = i)) as [->|Hne].
    + exists c'. split; [apply list_lookup_insert_eq; by eapply lookup_lt_Some|].
      apply Hsub. by injection (eq_trans (eq_sym Hi) Hx) as <-.
    + exists x. by rw list_lookup_insert_ne; [congruence|].
Qed.

(** Handing a submission to the driver. *)
Lemma submit_inv w i id payload abandon :
  let t := TD.dispatcher w in
  harness_inv w → TD.callers w !! i = Some (TD.Registered id payload abandon) →
  TD.task t = TD.Running →
  harness_inv (TD.mk_world
    (TD.mk (TD.session t) (TD.allocator t)
       (TD.queue t ++ [Submit.mk id (TD.encode_test_request id payload) i]) (TD.submit_closed t)
       (TD.task t) (TD.handle_held t) (TD.sender_held t))
    (<[i := if abandon then TD.Abandoned (Ok id) else TD.Awaiting id]> (TD.callers w))).
Proof.
  intros t [Hl He Hc Hs] Hi Hr. fold t in Hl, He, Hc, Hs. specialize (Hl Hr).
  destruct (registered_update _ _ _ (if abandon then TD.Abandoned (Ok id) else TD.Awaiting id) Hi)
    as (rest & H1 & H2).
  set (u := TD.mk _ _ _ _ _ _ _).
  assert (handed_over u = handed_over t ++ [i]) as Hh.
  { unfold handed_over. cbn [u TD.session TD.queue]. by rw fmap_app app_assoc. }
  assert (i ∉ handed_over t) as Hni.
  { intros Hin. destruct (Hs i Hin) as (x & Hx & Hxs). by injection (eq_trans (eq_sym Hi) Hx) as <-. }
  split; cbn [TD.dispatcher TD.callers].
  - intros _. unfold live_exact in *. cbn [u TD.session TD.queue]. rw Hl H1 H2 fmap_app.
    by destruct abandon; cbn; rw -!Permutation_middle app_nil_r.
  - by cbn [u TD.task]; rw Hr.
  - rw Hh. apply NoDup_app. split; [done|]. split; [|apply NoDup_singleton].
    intros j Hj ->%list_elem_of_singleton. done.
  - intros j. rw Hh elem_of_app list_elem_of_singleton. intros Hj.
    destruct (decide (j = i)) as [->|Hne].
    + eexists. split; [apply list_lookup_insert_eq; by eapply lookup_lt_Some|]. by destruct abandon.
    + destruct Hj as [Hj|]; [|done]. destruct (Hs j Hj) as (x & Hx & ?). exists x.
      by rw list_lookup_insert_ne; [congruence|].
Qed.

Lemma execute_inv w i c t c' :
  harness_inv w → TD.callers w !! i = Some c → TD.execute (TD.dispatcher w) i c = Some (t, c') →
  harness_inv (TD.mk_world t (<[i := c']> (TD.callers w))).
Proof.
  intros Hinv Hi Hx.
  destruct c as [p a|id p a|id p a|id p a|id|r|r]; cbn [TD.execute] in Hx; try done.
  - destruct (RequestIdAllocator.allocate _) as [id al]. injection Hx as <- <-.
    by eapply caller_update_inv.
  - injection Hx as <- <-. eapply caller_update_inv; try done.
    by case_bool_decide; destruct a.
  - destruct (InFlightRegistry.insert _ id) as [res reg] eqn:Ei. injection Hx as <- <-.
    eapply caller_update_inv; try done. intros _. cbn [TD.session TD.with_session TD.live].
    destruct res as [[]|e]; cbn.
    + apply registry_insert_ok in Ei as (_ & Hni & Hlv). rw Hlv app_nil_r.
      rw elements_union_singleton; [done|]. by rw -Permutation_cons_append.
    + apply registry_insert_err in Ei as ->. by destruct a.
  - destruct (TD.task (TD.dispatcher w)) eqn:Et.
    + destruct (_ <? _)%nat; [|done]. injection Hx as <- <-. rw -Et. by eapply submit_inv.
    + injection Hx as <- <-. eapply caller_update_inv; try done. cbn. by rw Et.
    + injection Hx as <- <-. eapply caller_update_inv; try done. cbn. by rw Et.
  - destruct (TD.received _ i); [|destruct (TD.sender_alive _ i); [done|]];
      injection Hx as <- <-; by eapply caller_update_inv.
Qed.

(** A turn of the driver that keeps the callers' side of the books. *)
Lemma driver_update_inv w t :
  harness_inv w →
  (TD.task t = TD.Running →
     live_exact (TD.session t)
       (registered (TD.callers w) ++ (Submit.id <$> TD.queue t))) →
  (TD.task t = TD.Ended → TD.completions (TD.session t) = ∅) →
  handed_over t ≡ₚ handed_over (TD.dispatcher w) →
  harness_inv (TD.mk_world t (TD.callers w)).
Proof.
  intros [_ _ Hc Hs] Hl He Hp. split; cbn [TD.dispatcher TD.callers]; [done..| |].
  - by rw Hp.
  - intros i. rw Hp. apply Hs.
Qed.

(** Leaving the loop answers whoever is left. *)
Lemma leave_loop_facts t :
  TD.task (TD.leave_loop t) = TD.Ended ∧
  TD.completions (TD.session (TD.leave_loop t)) = ∅ ∧ TD.queue (TD.leave_loop t) = TD.queue t ∧
  handled (TD.session (TD.leave_loop t)) = handled (TD.session t).
Proof.
  unfold TD.leave_loop. case_bool_decide as Hc; [done|]. cbn.
  split; [done|]. split; [apply test_fail_all_spec|]. split; [done | apply fail_all_handled].
Qed.

Lemma leave_loop_inv w t :
  harness_inv w → handed_over t ≡ₚ handed_over (TD.dispatcher w) →
  harness_inv (TD.mk_world (TD.leave_loop t) (TD.callers w)).
Proof.
  intros Hinv Hp. destruct (leave_loop_facts t) as (Ht & Hc & Hq & Hh).
  apply driver_update_inv; [done | by rw Ht | done|]. unfold handed_over. by rw Hq Hh.
Qed.

Lemma end_of_turn_inv w t :
  harness_inv w → TD.task t = TD.Running →
  live_exact (TD.session t) (registered (TD.callers w) ++ (Submit.id <$> TD.queue t)) →
  handed_over t ≡ₚ handed_over (TD.dispatcher w) →
  harness_inv (TD.mk_world (TD.end_of_turn t) (TD.callers w)).
Proof.
  intros Hinv Ht Hl Hp. unfold TD.end_of_turn.
  destruct (TD.submit_closed t && _); [by apply leave_loop_inv|].
  apply driver_update_inv; [done | done | by rw Ht | done].
Qed.

(** Taking a submission out of the channel. *)
Lemma handle_submit_facts w submit rest wrote :
  let t := TD.dispatcher w in
  let '(d, outcome) := TD.handle_submit (TD.session t) submit wrote in
  harness_inv w → TD.task t = TD.Running → TD.queue t = submit :: rest →
  (outcome = Ok tt → live_exact d (registered (TD.callers w) ++ (Submit.id <$> rest))) ∧
  handled d ++ (Submit.completion <$> rest) ≡ₚ handed_over t.
Proof.
  intros t. unfold TD.handle_submit. set (d1 := TD.mk_dispatch _ _ _ _ _).
  assert (harness_inv w → TD.task t = TD.Running → TD.queue t = submit :: rest →
    live_exact d1 (registered (TD.callers w) ++ (Submit.id <$> rest)) ∧
    handled d1 ++ (Submit.completion <$> rest) ≡ₚ handed_over t) as H1.
  { intros [Hl _ _ _] Hr Hq. specialize (Hl Hr). fold t in Hl. rw Hq in Hl.
    unfold handed_over. rw Hq. cbn [fmap list_fmap] in *.
    assert (TD.completions (TD.session t) !! Submit.id submit = None) as Hn.
    { apply eq_None_not_Some. intros [c Hc%elem_of_map_to_list].
      pose proof (NoDup_elements (InFlightRegistry.live (TD.live (TD.session t)))) as Hnd.
      rw Hl in Hnd. apply NoDup_app in Hnd as (_ & Hnd & _). apply (Hnd (Submit.id submit)).
      - set_solver.
      - apply list_elem_of_fmap. by exists (Submit.id submit, c). }
    pose proof (map_to_list_insert _ _ (Submit.completion submit) Hn) as Hp. split.
    - unfold live_exact, waiting_ids in *. cbn [d1 TD.live TD.completions]. rw Hl.
      etrans; [|apply Permutation_app; [done|]; symmetry; exact (fmap_Permutation fst _ _ Hp)].
      cbn. by rw -!Permutation_middle.
    - unfold handled, waiting. cbn [d1 TD.log TD.completions].
      etrans; [apply Permutation_app; [|done]; apply Permutation_app; [done|];
               exact (fmap_Permutation snd _ _ Hp)|].
      cbn. by rw -!Permutation_middle. }
  destruct wrote; cbn [negb]; intros Hinv Hr Hq; destruct (H1 Hinv Hr Hq) as [Ha Hb]; [done|].
  split; [done|]. by rw fail_all_handled.
Qed.

Lemma run_driver_inv w ev t :
  harness_inv w → TD.run_driver (TD.dispatcher w) ev = Some t →
  harness_inv (TD.mk_world t (TD.callers w)).
Proof.
  intros Hinv Hx. unfold TD.run_driver in Hx.
  destruct (TD.task (TD.dispatcher w)) eqn:Et; [|done..].
  pose proof (inv_live w Hinv Et) as Hl. destruct ev as [wrote| |read].
  - destruct (TD.submit_closed _); [done|]. destruct (TD.queue _) as [|submit rest] eqn:Eq; [done|].
    pose proof (handle_submit_facts w submit rest wrote) as Hs. cbv zeta in Hs.
    destruct (TD.handle_submit _ _ _) as [d [[]|e]]; destruct (Hs Hinv Et Eq) as [Hd Hh];
      injection Hx as <-; [apply end_of_turn_inv | apply leave_loop_inv]; try done. by apply Hd.
  - destruct (TD.submit_closed _ || _); [done|]. destruct (TD.queue _) eqn:Eq; [|done].
    assert (handed_over (TD.mk (TD.session (TD.dispatcher w)) (TD.allocator (TD.dispatcher w)) []
      true TD.Running (TD.handle_held (TD.dispatcher w)) (TD.sender_held (TD.dispatcher w))) =
      handed_over (TD.dispatcher w)) as Hh by (unfold handed_over; by rw Eq).
    injection Hx as <-. case_bool_decide; [apply leave_loop_inv | apply end_of_turn_inv];
      try done; by rw Hh.
  - unfold TD.handle_read in Hx.
    destruct read as [[|b bytes]|e].
    + case_bool_decide; injection Hx as <-; apply leave_loop_inv; try done.
      unfold handed_over. cbn. by rw fail_all_handled.
    + set (d1 := TD.mk_dispatch _ _ _ _ _) in Hx. destruct (drain_accounts d1) as (Ha & Hb & Hc).
      destruct (TD.drain_frames d1) as [d out]. cbn [fst snd] in *.
      assert (handed_over (TD.with_session (TD.dispatcher w) d) ≡ₚ handed_over (TD.dispatcher w))
        as Hh by (unfold handed_over; cbn; by rw Hc).
      injection Hx as <-. destruct out.
      * apply end_of_turn_inv; [done | by cbn; rw Et | by apply Ha | done].
      * apply driver_update_inv; [done | done | intros _; by apply Hb | done].
      * by apply leave_loop_inv.
    + case_bool_decide; injection Hx as <-; apply leave_loop_inv; try done.
      unfold handed_over. cbn. by rw fail_all_handled.
Qed.

Lemma harness_step_inv w w' : harness_inv w → TD.step w w' → harness_inv w'.
Proof.
  intros Hinv Hs. revert Hinv. destruct Hs as [w i c t c' Hi Hx|w ev t Hx|w|w _]; intros Hinv.
  - by eapply execute_inv.
  - by eapply run_driver_inv.
  - by apply driver_update_inv; [|apply Hinv..|].
  - apply driver_update_inv; [done| | |done]; cbn [TD.drop_ TD.task TD.session TD.queue];
      destruct (TD.handle_held _), (TD.task _) eqn:Et; try done; intros _; by apply Hinv.
Qed.

Lemma harness_reachable_inv calls w : TD.reachable (TD.started calls) w → harness_inv w.
Proof.
  apply (rtc_ind_r harness_inv).
  - split; cbn; try done.
    + intros _. unfold live_exact, registered, waiting_ids. cbn.
      rw elements_empty map_to_list_empty app_nil_r. clear w.
      assert (omap registered_id ((λ c, TD.Calling c.1 c.2) <$> calls) = []) as ->; [|done].
      by induction calls.
    + unfold handed_over, handled, waiting. cbn. rw map_to_list_empty. constructor.
    + intros i. unfold handed_over, handled, waiting. cbn. rw map_to_list_empty. set_solver.
  - intros w1 w2 _ Hs Hinv. by eapply harness_step_inv.
Qed.

(** ** Properties *)

(** The dispatcher of the tests stands in for the driver: given the same buffer, waiters and
    live ids, both answer the same requests in the same order from the same frames, stop at
    the same point with the same waiters and bytes left, and find the session broken by the
    same inputs, as long as no single request is refused. After a fatal frame the dispatcher
    answers exactly the waiters the driver has left. *)
Theorem harness_agrees (s : Session.t) (d : TD.dispatch) (Hm : mirrors s d) :
  let '(s', fatal) := drain_frames Limits.PRE_NEGOTIATION s in
  drains_alike d s s' fatal.
Proof. pose proof (drain_drains_alike s d Hm) as H. by destruct (drain_frames _ s). Qed.

(** The dispatcher departs from the driver on a refused frame: where the driver answers the one
    request a request-scoped failure names and goes on, the dispatcher of the tests ends the
    session and fails every waiter. *)
Theorem harness_diverges (s : Session.t) (d : TD.dispatch) (g : Failure.t) (c id : Z) (w : sender)
  (Hm : mirrors s d)
  (Hd : decode (TD.buffer d) (driver_admission Limits.PRE_NEGOTIATION (TD.live d)) =
        Step.Failure g c)
  (Hg : Failure.scope g = FailureScope.RequestScoped)
  (Hi : header_request_id (TD.buffer d) = Some id) (Hw : TD.completions d !! id = Some w) :
  (∃ s1, drain_frames Limits.PRE_NEGOTIATION s = drain_frames Limits.PRE_NEGOTIATION s1 ∧
     Session.completions s1 = delete id (Session.completions s) ∧
     Session.log s1 = Session.log s ++ [(w, Err (DriverError.RequestFailed g))]) ∧
  (TD.drain_frames d).2 = ReadOutcome.Fatal ∧ TD.completions (TD.drain_frames d).1 = ∅ ∧
  TD.log (TD.drain_frames d).1 =
    TD.log d ++ ((λ c, (c, Err RequestError.Unusable)) <$> pending s).
Proof.
  destruct Hm as (Hb & Hc & Hv). split.
  - eexists. rw drain_frames_unfold. unfold drain_iteration. rw Hb Hv Hd Hg Hi.
    unfold resolve. cbn [bool_decide]. rw Hc Hw. cbn. split; [reflexivity|]. done.
  - rw test_drain_unfold. unfold TD.drain_round. rw Hd. cbn [fst snd].
    destruct (test_fail_all_spec d RequestError.Unusable) as (_ & _ & H0 & _ & Hl).
    split; [done|]. split; [done|]. rw Hl. unfold waiting, pending. by rw Hc.
Qed.

(** A scripted response reaches its caller: bytes the peer wrote with [encode_test_response] for
    a waiting request hand its payload to that request's waiter, release the id, and leave the
    rest of the buffer to the next round. *)
Theorem test_response_delivered (d : TD.dispatch) (id : Z) (payload rest : list byte) (w : sender)
  (Hid : 0 < id ≤ U64_MAX) (Hlen : HEADER_LENGTH + len payload ≤ MAX_FRAME_SIZE)
  (Hl : id ∈ InFlightRegistry.live (TD.live d)) (Hw : TD.completions d !! id = Some w)
  (Hb : TD.buffer d = TD.encode_test_response id payload ++ rest) :
  TD.drain_frames d =
  TD.drain_frames
    (TD.mk_dispatch (TD.state d) (InFlightRegistry.mk (InFlightRegistry.live (TD.live d) ∖ {[id]}))
       (delete id (TD.completions d)) rest (TD.log d ++ [(w, Ok (Terminal.mk payload))])).
Proof.
  set (o := Outgoing.mk Kind.Response 0 id [] (OutgoingPayload.Opaque_ payload)).
  assert (outgoing_typed o) as Ht.
  { repeat split; cbn; try done; lia. }
  assert (len (frame_bytes (frame_of o)) ≤ MAX_FRAME_SIZE) as Htot.
  { unfold frame_bytes. rw len_app len_header_bytes len_app frame_region_of.
    change (len (region_bytes _) + _) with (0 + len payload). lia. }
  assert (payload_representable o) as Hrep.
  { unfold MAX_FRAME_SIZE, HEADER_LENGTH in Hlen. split; [done|]. cbn. unfold U32_MAX. lia. }
  assert (metadata_ascends o) as Hasc by done.
  pose proof (encode_with_max_cases o MAX_FRAME_SIZE MAX_METADATA_SIZE Ht ltac:(done)) as He.
  unfold TD.encode_test_response, encode in Hb. fold o in Hb.
  destruct (encode_with_max o _ _) as [bytes|[]]; [|by destruct (He Hasc) |naive_solver|].
  2:{ by destruct He as [_ He]. }
  destruct He as (_ & _ & _ & _ & ->).
  assert (frame_wf (driver_admission Limits.PRE_NEGOTIATION (TD.live d)) (frame_of o)) as Hwf.
  { apply (sent_frame_wf o MAX_FRAME_SIZE MAX_METADATA_SIZE); try done.
    - by intros [??].
    - cbn. split; [lia|]. unfold InFlightRegistry.live_ids. by apply elem_of_elements.
    - cbn. by exists payload. }
  rw test_drain_unfold (drain_round_frame d _ rest Hwf Hb). cbn. by rw Hw.
Qed.

(** The books of the dispatcher balance in every interleaving of any calls with the driver, the
    peer, [join] and [drop]: while the driver runs, the live ids are exactly those of the
    requests under way, each once; no channel is ever answered twice; and once the driver has
    ended, no caller is left waiting. *)
Theorem harness_accounts (calls : list (list byte * bool)) (w : TD.world)
  (H : TD.reachable (TD.started calls) w) :
  let t := TD.dispatcher w in
  (TD.task t = TD.Running →
     elements (InFlightRegistry.live (TD.live (TD.session t))) ≡ₚ under_way w) ∧
  NoDup (TD.log (TD.session t)).*1 ∧
  (TD.task t = TD.Ended → ∀ i c, TD.callers w !! i = Some c →
     TD.call_over c ∨ is_Some (TD.execute t i c)).
Proof.
  intros t. destruct (harness_reachable_inv calls w H) as [Hl He Hc _]. fold t in Hl, He, Hc.
  split; [intros Ht; unfold under_way; rw app_assoc; by apply Hl|]. split.
  - unfold handed_over, handled in Hc. by apply NoDup_app in Hc as [[? _]%NoDup_app _].
  - intros Ht i c _. destruct c as [p a|id p a|id p a|id p a|id|r|r]; cbn [TD.execute TD.call_over].
    + right. by destruct (RequestIdAllocator.allocate _).
    + by right.
    + right. by destruct (InFlightRegistry.insert _ _).
    + right. by rw Ht.
    + right. destruct (TD.received _ i); [done|]. unfold TD.sender_alive.
      rw (He Ht) Ht map_to_list_empty. by rw andb_false_r.
    + by left.
    + by left.
Qed.

(** ** Witnesses *)

(** Requests 7 and 9 wait; the buffer holds their answers, 9 first. *)
Definition sample_dispatch (buffer : list byte) : TD.dispatch :=
  TD.mk_dispatch SessionState.Usable (InFlightRegistry.mk {[7; 9]})
    (<[7 := 0%nat]> (<[9 := 1%nat]> ∅)) buffer [].

Lemma harness_agrees_witness :
  let buffer := TD.encode_test_response 9 [x61] ++ TD.encode_test_response 7 [x62; x63] in
  (TD.drain_frames (sample_dispatch buffer)).2 = ReadOutcome.NeedMore ∧
  TD.log (TD.drain_frames (sample_dispatch buffer)).1 =
    [(1%nat, Ok (Terminal.mk [x61])); (0%nat, Ok (Terminal.mk [x62; x63]))] ∧
  (let '(s', fatal) := drain_frames Limits.PRE_NEGOTIATION (sample_session buffer) in
   drains_alike (sample_dispatch buffer) (sample_session buffer) s' fatal).
Proof.
  intros buffer. split; [vm_compute; reflexivity|]. split; [vm_compute; reflexivity|].
  apply harness_agrees. done.
Defined.

Lemma harness_diverges_witness :
  (TD.drain_frames (sample_dispatch refused7)).2 = ReadOutcome.Fatal ∧
  ∃ s1, drain_frames Limits.PRE_NEGOTIATION (sample_session refused7) =
          drain_frames Limits.PRE_NEGOTIATION s1 ∧
        Session.log s1 = [(0%nat, Err (DriverError.RequestFailed Failure.invalid_argument))].
Proof.
  destruct (harness_diverges (sample_session refused7) (sample_dispatch refused7)
              Failure.invalid_argument 24 7 0%nat) as ((s1 & E & _ & Hl) & Hf & _);
    [done | vm_compute; reflexivity | vm_compute; reflexivity | vm_compute; reflexivity |
     vm_compute; reflexivity|].
  split; [exact Hf|]. exists s1. split; [exact E | exact Hl].
Defined.

Lemma test_response_delivered_witness :
  TD.drain_frames (sample_dispatch (TD.encode_test_response 7 [x61] ++ [])) =
  TD.drain_frames
    (TD.mk_dispatch SessionState.Usable (InFlightRegistry.mk ({[7; 9]} ∖ {[7]}))
       (delete 7 (<[7 := 0%nat]> (<[9 := 1%nat]> ∅))) [] [(0%nat, Ok (Terminal.mk [x61]))]).
Proof.
  apply (test_response_delivered (sample_dispatch (TD.encode_test_response 7 [x61] ++ [])) 7 [x61]
           [] 0%nat).
  - done.
  - vm_compute. discriminate.
  - set_solver.
  - reflexivity.
  - reflexivity.
Defined.

Ltac caller_goes i :=
  eapply rtc_l; [eapply (TD.step_caller _ i); [reflexivity | vm_compute; reflexivity]|].
Ltac driver_goes ev :=
  eapply rtc_l; [eapply (TD.step_driver _ ev); vm_compute; reflexivity|].

(** A call is submitted and answered, and the peer disconnects. *)
Lemma harness_accounts_witness :
  ∃ w, TD.reachable (TD.started [([x61], false)]) w ∧
    TD.task (TD.dispatcher w) = TD.Ended ∧ NoDup (TD.log (TD.session (TD.dispatcher w))).*1 ∧
    TD.callers w = [TD.Finished (Ok (Terminal.mk [x62]))].
Proof.
  assert (∃ w, TD.reachable (TD.started [([x61], false)]) w ∧
    TD.task (TD.dispatcher w) = TD.Ended ∧
    TD.callers w = [TD.Finished (Ok (Terminal.mk [x62]))]) as (w & Hw & Ht & Hc).
  { eexists. split; [|split].
    - caller_goes 0%nat. caller_goes 0%nat. caller_goes 0%nat. caller_goes 0%nat.
      driver_goes (TD.Received true).
      driver_goes (TD.ReadReady (Ok (TD.encode_test_response 1 [x62]))).
      driver_goes (TD.ReadReady (Ok [])). caller_goes 0%nat. apply rtc_refl.
    - reflexivity.
    - reflexivity. }
  exists w. split; [exact Hw|]. split; [exact Ht|]. split; [|exact Hc].
  apply (harness_accounts [([x61], false)] w Hw).
Defined.
