(* ===== verification/Display.v ===== *)
(** * Error messages

    The [Display] and [Error] implementations of [protocol.rs], [command.rs] and
    [connection/mod.rs] as functions to text. The text of an I/O error is the standard
    library's and, behind it, the operating system's: it is an argument. *)

From S2P Require Export Text Client.
Local Open Scope Z_scope.

(** [Display for EncodeError]. *)
Definition encode_error_text (e : EncodeError.t) : text :=
  match e with
  | EncodeError.MetadataNotAscending => str "metadata identifiers must be strictly ascending"
  | EncodeError.FrameTooLarge => str "frame exceeds the maximum frame size"
  | EncodeError.MetadataTooLarge => str "metadata region exceeds the maximum metadata size"
  end.

(** [Display for SetEncodeError]. *)
Definition set_encode_error_text (e : SetEncodeError.t) : text :=
  match e with
  | SetEncodeError.KeyTooLong length =>
      str "the SET key length " ++ decimal length ++ str " exceeds the u32 range"
  | SetEncodeError.PayloadTooLarge => str "the SET payload exceeds the u32 range"
  end.

(** [Display for CommandFailure]. *)
Definition command_failure_text (f : CommandFailure.t) : text :=
  str (ErrorClass.name (CommandFailure.class f)).

(** [Display for ConnectionConfigError]. *)
Definition config_error_text (e : ConnectionConfigError.t) : text :=
  match e with
  | ConnectionConfigError.EmptyEndpoint => str "the endpoint is empty"
  | ConnectionConfigError.FrameSizeBelowFloor proposed =>
      str "the desired maximum frame size " ++ decimal proposed ++ str " is below the floor 65536"
  | ConnectionConfigError.LocalFrameSizeBelowFloor proposed =>
      str "the local maximum frame size " ++ decimal proposed ++ str " is below the floor 65536"
  | ConnectionConfigError.LocalMetadataSizeBelowFloor proposed =>
      str "the local maximum metadata size " ++ decimal proposed ++ str " is below the floor 4096"
  | ConnectionConfigError.InFlightBoundBelowMinimum proposed =>
      str "the maximum in-flight bound " ++ decimal proposed ++ str " is below the minimum 1"
  end.

(** What [Error::source] returns: the wrapped error. *)
Inductive error_source :=
| ConfigSource (e : ConnectionConfigError.t)
| IoSource (e : IoError.t).

Section messages.
Context (io_text : IoError.t → text).

(** [Display for ConnectError] and its [source]. *)
Definition connect_error_text (e : ConnectError.t) : text :=
  match e with
  | ConnectError.InvalidConfiguration error =>
      str "invalid configuration: " ++ config_error_text error
  | ConnectError.Transport error => str "transport failure: " ++ io_text error
  | ConnectError.HandshakeFailure failure =>
      str "handshake failed: " ++ str (ErrorClass.name (Failure.class failure))
  | ConnectError.ClosedDuringHandshake => str "the peer closed during the handshake"
  | ConnectError.NegotiatedFrameSizeAboveLocal negotiated local =>
      str "the negotiated maximum frame size " ++ decimal negotiated ++
      str " exceeds the local cap " ++ decimal local
  | ConnectError.NegotiatedMetadataSizeAboveLocal negotiated local =>
      str "the negotiated maximum metadata size " ++ decimal negotiated ++
      str " exceeds the local cap " ++ decimal local
  | ConnectError.UnexpectedFrame => str "the peer sent an unexpected frame"
  end.

Definition connect_error_source (e : ConnectError.t) : option error_source :=
  match e with
  | ConnectError.InvalidConfiguration error => Some (ConfigSource error)
  | ConnectError.Transport error => Some (IoSource error)
  | _ => None
  end.

(** [Display for CommandError] and its [source]. *)
Definition command_error_text (e : CommandError.t) : text :=
  match e with
  | CommandError.LocalLimitExceeded requested limit =>
      str "the request size " ++ decimal requested ++
      str " exceeds the effective limit " ++ decimal limit
  | CommandError.InvalidRequest => str "the request cannot be represented"
  | CommandError.UnsupportedOperation => str "unsupported operation"
  | CommandError.InvalidArgument => str "invalid argument"
  | CommandError.Overloaded => str "overloaded"
  | CommandError.WrongType => str "wrong type"
  | CommandError.InternalError =>
      str "internal error: the mutation may have taken effect; re-read to decide"
  | CommandError.ProtocolViolation => str "protocol violation"
  | CommandError.MalformedRequest => str "malformed request"
  | CommandError.ResourceLimit => str "resource limit"
  | CommandError.UnsupportedProtocolVersion => str "unsupported protocol version"
  | CommandError.Transport error => str "transport failure: " ++ io_text error
  | CommandError.Closed => str "the connection closed"
  | CommandError.Unusable => str "the session is unusable"
  end.

Definition command_error_source (e : CommandError.t) : option error_source :=
  match e with CommandError.Transport error => Some (IoSource error) | _ => None end.

(** The text of a wrapped error. *)
Definition source_text (s : error_source) : text :=
  match s with ConfigSource e => config_error_text e | IoSource e => io_text e end.

(** ** Lemmas *)

Lemma decimal_inj a b : 0 ≤ a → 0 ≤ b → decimal a = decimal b → a = b.
Proof.
  intros Ha Hb He. pose proof (parse_decimal (Z.max a b) a ltac:(lia)) as Hp.
  rw He parse_decimal in Hp; [lia|]. by injection Hp.
Qed.

(** Digits end where the first other character stands. *)
Lemma digits_end (p q x y : text) (c : Z) :
  Forall (λ c, is_ascii_digit c = true) p → Forall (λ c, is_ascii_digit c = true) q →
  is_ascii_digit c = false → p ++ c :: x = q ++ c :: y → p = q ∧ x = y.
Proof.
  intros Hp. revert q. induction Hp as [|d p Hd Hp IH]; intros q Hq Hc He.
  - destruct Hq as [|d q Hd Hq]; [by injection He | injection He as He1 He2; congruence].
  - destruct Hq as [|d' q Hd' Hq]; injection He as He1 He2; [congruence|]. subst.
    by destruct (IH q Hq Hc He2) as [-> ->].
Qed.

(** A number in the middle of a message can be read back. *)
Lemma number_in_text (a b : Z) (c : Z) (x y : text) :
  0 ≤ a → 0 ≤ b → is_ascii_digit c = false →
  decimal a ++ c :: x = decimal b ++ c :: y → a = b ∧ x = y.
Proof.
  intros Ha Hb Hc He. apply digits_end in He as [He ->]; [|by apply decimal_digits..|done].
  by apply decimal_inj in He as ->.
Qed.

(** The numbers an error carries are unsigned. *)
Definition config_error_typed (e : ConnectionConfigError.t) : Prop :=
  match e with
  | ConnectionConfigError.EmptyEndpoint => True
  | ConnectionConfigError.FrameSizeBelowFloor n
  | ConnectionConfigError.LocalFrameSizeBelowFloor n
  | ConnectionConfigError.LocalMetadataSizeBelowFloor n
  | ConnectionConfigError.InFlightBoundBelowMinimum n => 0 ≤ n
  end.

Definition command_error_typed (e : CommandError.t) : Prop :=
  match e with CommandError.LocalLimitExceeded r l => 0 ≤ r ∧ 0 ≤ l | _ => True end.

(** ** Properties *)

(** A refused configuration is explained truthfully: the message quotes the value the caller
    proposed and the bound [validate] compared it with, and the value is below that bound. *)
Theorem config_message_true (c : ConnectionConfig.t) (e : ConnectionConfigError.t)
  (H : ConnectionConfig.validate c = Err e) (Hne : e ≠ ConnectionConfigError.EmptyEndpoint) :
  ∃ subject proposed bound floor,
    config_error_text e =
      str "the " ++ subject ++ str " " ++ decimal proposed ++ str " is below the " ++ bound ++
      str " " ++ decimal floor ∧
    proposed < floor ∧
    floor ∈ [MINIMUM_NEGOTIATED_FRAME_SIZE; MINIMUM_NEGOTIATED_METADATA_SIZE;
             MINIMUM_MAXIMUM_IN_FLIGHT].
Proof.
  unfold ConnectionConfig.validate in H.
  destruct (trims_to_empty _); [by injection H as <-|].
  destruct (_ <? _) eqn:E1 in H; [|destruct (_ <? _) eqn:E2 in H;
    [|destruct (_ <? _) eqn:E3 in H; [|destruct (_ <? _) eqn:E4 in H; [|done]]]];
    injection H as <-; breflect.
  - exists (str "desired maximum frame size"), (ConnectionConfig.desired_maximum_frame_size c),
      (str "floor"), MINIMUM_NEGOTIATED_FRAME_SIZE. split; [reflexivity|]. split; [done|]. set_solver.
  - exists (str "local maximum frame size"), (ConnectionConfig.local_maximum_frame_size c),
      (str "floor"), MINIMUM_NEGOTIATED_FRAME_SIZE. split; [reflexivity|]. split; [done|]. set_solver.
  - exists (str "local maximum metadata size"), (ConnectionConfig.local_maximum_metadata_size c),
      (str "floor"), MINIMUM_NEGOTIATED_METADATA_SIZE.
    split; [reflexivity|]. split; [done|]. set_solver.
  - exists (str "maximum in-flight bound"), (ConnectionConfig.maximum_in_flight c),
      (str "minimum"), MINIMUM_MAXIMUM_IN_FLIGHT. split; [reflexivity|]. split; [done|]. set_solver.
Qed.

(** The message identifies the error: two command errors with the same text are the same error,
    numbers included, unless both are transport failures the standard library describes alike. *)
Theorem command_message_identifies (e1 e2 : CommandError.t)
  (H1 : command_error_typed e1) (H2 : command_error_typed e2)
  (H : command_error_text e1 = command_error_text e2) :
  e1 = e2 ∨
  ∃ i1 i2, e1 = CommandError.Transport i1 ∧ e2 = CommandError.Transport i2 ∧
           io_text i1 = io_text i2.
Proof.
  destruct e1, e2; try (by left); try (exfalso; revert H; clear; cbn; discriminate).
  - left. destruct H1, H2. apply app_inv_head in H.
    apply number_in_text in H as [-> H]; try done.
    apply (app_inv_head (str "exceeds the effective limit ")) in H.
    by apply decimal_inj in H as ->.
  - right. eexists _, _. split; [done|]. split; [done|]. by apply app_inv_head in H.
Qed.

(** The source of an error is the error its message ends with. *)
Theorem source_in_message (s : error_source) :
  (∀ e, connect_error_source e = Some s → ∃ p, connect_error_text e = p ++ source_text s) ∧
  (∀ e, command_error_source e = Some s → ∃ p, command_error_text e = p ++ source_text s).
Proof.
  split; intros e He; destruct e; cbn in He; try done; injection He as <-; by eexists.
Qed.

End messages.
