(* ===== verification/Host.v ===== *)
(** * The host of the validation runner

    [src/tools/validation-runner/src/error.rs] and what the runner uses of the
    operating system: files below the records directory, the two clocks, and child
    processes. What the system answers is a [Host], one answer per interaction,
    indexed by the number of interactions so far; the runner's code is a state
    transformer on a [World], so that a failure leaves the world as the code left it. *)

From S2P Require Export Text.

(** ** Errors ([error.rs]) *)

Module Error.
Inductive t :=
| Io (message : text)
| Runner (message : text).
#[global] Instance eq_dec : EqDecision t.
Proof. solve_decision. Defined.

(** [fmt::Display]. *)
Definition display (e : t) : text :=
  match e with Io error => error | Runner message => message end.

(** [std::error::Error::source]. *)
Definition source (e : t) : option text :=
  match e with Io error => Some error | Runner _ => None end.
End Error.

Abbreviation Result A := (result A Error.t).

Definition failed {A} (message : text) : Result A := Err (Error.Runner message).

(** ** Files *)

(** The files of one record directory; [segments] is a directory of its own. *)
Module Dir.
Record t := mk {
  manifest : option text;
  journal : option text;
  summary : option text;
  segments : option (gmap text text)
}.
Definition empty : t := mk None None None None.
End Dir.

(** An entry of a tier directory. *)
Inductive node :=
| Directory (d : Dir.t)
| PlainFile.

(** The records directory: by tier, the entries of the tier's directory. *)
Definition disk : Type := gmap text (gmap text node).

(** A record's directory, below the records directory. *)
Record location := At { tier_name : text; record_name : text }.
#[global] Instance location_eq_dec : EqDecision location.
Proof. solve_decision. Defined.

(** A file of a record. *)
Inductive file :=
| Manifest
| Journal
| Summary
| Evidence (name : text).
#[global] Instance file_eq_dec : EqDecision file.
Proof. solve_decision. Defined.

Definition contents (d : Dir.t) (f : file) : option text :=
  match f with
  | Manifest => Dir.manifest d
  | Journal => Dir.journal d
  | Summary => Dir.summary d
  | Evidence name => let? files := Dir.segments d in files !! name
  end.

(** [None] when the file's directory does not exist. *)
Definition set_contents (d : Dir.t) (f : file) (s : text) : option Dir.t :=
  let '(Dir.mk m j y e) := d in
  match f with
  | Manifest => Some (Dir.mk (Some s) j y e)
  | Journal => Some (Dir.mk m (Some s) y e)
  | Summary => Some (Dir.mk m j (Some s) e)
  | Evidence name => let? files := e in Some (Dir.mk m j y (Some (<[name := s]> files)))
  end.

Definition lookup_dir (fs : disk) (l : location) : option Dir.t :=
  let? entries := fs !! tier_name l in
  match entries !! record_name l with
  | Some (Directory d) => Some d
  | _ => None
  end.

Definition insert_dir (fs : disk) (l : location) (d : Dir.t) : disk :=
  <[tier_name l := <[record_name l := Directory d]> (default ∅ (fs !! tier_name l))]> fs.

(** ** Processes *)

(** [ExitStatus]: the exit code, none when a signal ended the process. *)
Record exit_status := Exit { code : option Z }.
Definition success (s : exit_status) : bool := bool_decide (code s = Some 0).

(** A child process: what its [n]-th [try_wait] answers, how much longer than asked
    the sleeps before it took, what [kill] and the [wait] after it answer, and what the
    process has written when it ends or is killed. *)
Module Child.
Record t := mk {
  try_wait : nat → result (option exit_status) text;
  delay : nat → N;
  kill : result unit text;
  output : text
}.
End Child.

(** What a command that was run to its end left ([std::process::Output]), its output
    decoded. *)
Module Output.
Record t := mk { status : exit_status; stdout : text; stderr : text }.
End Output.

(** ** The host *)

(** A failed system call: for a write, how much of it reached the file. *)
Record io_fault := Fault { written : nat; message : text }.

Record Host := mk_host {
  fault : nat → option io_fault;
  instant : nat → Z;
  utc : nat → option Z;
  spawn : nat → disk → text → list text → result Child.t text;
  probes : nat → text → list text → bool;
  commands : nat → text → list text → result Output.t text
}.

Record World := mk_world { tick : nat; files : disk }.

Definition M (A : Type) : Type := World → World * Result A.

Definition ret {A} (a : A) : M A := λ w, (w, Ok a).
Definition lift {A} (r : Result A) : M A := λ w, (w, r).
Definition bind {A B} (m : M A) (k : A → M B) : M B :=
  λ w, let (w', r) := m w in
       match r with Ok a => k a w' | Err e => (w', Err e) end.

Notation "'do*' x '<-' m ';' k" := (bind m (λ x, k))
  (at level 10, x pattern, m at level 200, k at level 200) : rust_scope.
Notation "'run*' m ';' k" := (bind m (λ _, k))
  (at level 10, m at level 200, k at level 200) : rust_scope.

(** What the system reports for a path that does not exist. *)
Definition NOT_FOUND : text := str "No such file or directory (os error 2)".

Section host.
Context (h : Host).

(** One system call with no effect of its own. *)
Definition system_call : M unit := λ w,
  (mk_world (S (tick w)) (files w),
   match fault h (tick w) with Some f => Err (Error.Io (message f)) | None => Ok tt end).

(** One question to the host. *)
Definition ask {A} (answer : Host → nat → A) : M A := λ w,
  (mk_world (S (tick w)) (files w), Ok (answer h (tick w))).

(** [Command::spawn]: the process may look at the files as they are when it starts. *)
Definition start (program : text) (args : list text) : M (result Child.t text) := λ w,
  (mk_world (S (tick w)) (files w), Ok (spawn h (tick w) (files w) program args)).

(** Replaces a file's contents by [change] of the old ones. *)
Definition write_file (l : location) (f : file) (change : option text → text) : M unit := λ w,
  match let? d := lookup_dir (files w) l in set_contents d f (change (contents d f)) with
  | Some d => (mk_world (tick w) (insert_dir (files w) l d), Ok tt)
  | None => (w, Err (Error.Io NOT_FOUND))
  end.

(** [File::create]. *)
Definition create_file (l : location) (f : file) : M unit :=
  run* system_call; write_file l f (λ _, []).

(** [OpenOptions::new().create(true).append(true).open]. *)
Definition open_append (l : location) (f : file) : M unit :=
  run* system_call; write_file l f (λ old, unwrap_or old []).

(** [write!] at the end of an open file: a failed write may leave a part of it. *)
Definition append_text (l : location) (f : file) (s : text) : M unit := λ w,
  let w' := mk_world (S (tick w)) (files w) in
  match fault h (tick w) with
  | None => write_file l f (λ old, unwrap_or old [] ++ s) w'
  | Some e =>
      ((write_file l f (λ old, unwrap_or old [] ++ take (written e) s) w').1,
       Err (Error.Io (message e)))
  end.

(** [File::sync_all] and [File::flush]. *)
Definition sync_all : M unit := system_call.

(** [process::capture]: the trimmed standard output of a command. *)
Definition capture (program : text) (args : list text) : M text :=
  do* output <- ask (λ h n, commands h n program args);
  match output with
  | Err e => lift (Err (Error.Io e))
  | Ok output =>
      if negb (success (Output.status output)) then
        lift (failed (str "`" ++ program ++ str " " ++ join (str " ") args ++ str "` failed: " ++
                      trim (Output.stderr output)))
      else ret (trim (Output.stdout output))
  end.

End host.

(** ** Lemmas: runs that succeed *)

Lemma bind_Ok {A B} (m : M A) (k : A → M B) w w' b :
  bind m k w = (w', Ok b) → ∃ w1 a, m w = (w1, Ok a) ∧ k a w1 = (w', Ok b).
Proof.
  unfold bind. destruct (m w) as [w1 [a|e]]; intros H; [by eexists _, _ | by simplify_eq].
Qed.

Lemma bind_eq {A B} (m : M A) (k : A → M B) w w1 a :
  m w = (w1, Ok a) → bind m k w = k a w1.
Proof. intros H. unfold bind. by rw H. Qed.

(** A run is given by the world it ends in and its result. *)
Lemma run_eq {A} (m : M A) w r : (m w).2 = r → m w = ((m w).1, r).
Proof. intros <-. apply surjective_pairing. Qed.

(** Takes a successful run apart: [H] says that a chain of steps ended in [Ok]. *)
Ltac inv_run H :=
  lazymatch type of H with
  | bind _ _ _ = (_, Ok _) =>
      let w := fresh "w" in let a := fresh "a" in let E := fresh "E" in
      apply bind_Ok in H as (w & a & E & H)
  end.

(** ** Lemmas: the state of files *)

(** The contents of a file of a record. *)
Definition file_of (fs : disk) (l : location) (f : file) : option text :=
  let? d := lookup_dir fs l in contents d f.

Lemma lookup_insert_dir fs l d l' :
  lookup_dir (insert_dir fs l d) l' = if bool_decide (l' = l) then Some d else lookup_dir fs l'.
Proof.
  destruct l as [t r], l' as [t' r']. unfold lookup_dir, insert_dir. cbn [tier_name record_name].
  destruct (decide (t' = t)) as [->|Ht].
  - rw lookup_insert_eq. destruct (decide (r' = r)) as [->|Hr].
    + rw lookup_insert_eq. by rw bool_decide_eq_true_2.
    + rw lookup_insert_ne; [done|]. rw bool_decide_eq_false_2; [congruence|].
      by destruct (fs !! t).
  - rw lookup_insert_ne; [done|]. rw bool_decide_eq_false_2; [congruence | done].
Qed.

Lemma contents_set d f s d' g :
  set_contents d f s = Some d' →
  contents d' g = if bool_decide (g = f) then Some s else contents d g.
Proof.
  destruct d as [m j y e]. unfold set_contents. intros H.
  destruct f as [| | |n]; [..|destruct e as [files|]; [|done]]; simplify_eq;
    destruct g as [| | |k]; try done.
  cbn [contents Dir.segments]. destruct (decide (k = n)) as [->|Hne].
  - rw lookup_insert_eq. by rw bool_decide_eq_true_2.
  - rw lookup_insert_ne; [done|]. by rw bool_decide_eq_false_2; [congruence|].
Qed.

(** A file was set to [s] and nothing else changed. *)
Definition updated (fs fs' : disk) (l : location) (f : file) (s : text) : Prop :=
  ∀ l' f', file_of fs' l' f' = if bool_decide (l' = l ∧ f' = f) then Some s else file_of fs l' f'.

Lemma updated_eq fs fs' l f s : updated fs fs' l f s → file_of fs' l f = Some s.
Proof. intros H. rw H. by rw bool_decide_eq_true_2. Qed.

Lemma updated_ne fs fs' l f s l' f' :
  updated fs fs' l f s → ¬ (l' = l ∧ f' = f) → file_of fs' l' f' = file_of fs l' f'.
Proof. intros H Hne. rw H. by rw bool_decide_eq_false_2. Qed.

Lemma updated_again fs fs1 fs2 l f s s' :
  updated fs fs1 l f s → updated fs1 fs2 l f s' → updated fs fs2 l f s'.
Proof.
  intros H1 H2 l' f'. rw H2. destruct (bool_decide_reflect (l' = l ∧ f' = f)) as [?|Hne]; [done|].
  by rw (updated_ne _ _ _ _ _ _ _ H1 Hne).
Qed.

Lemma write_file_ext l f c1 c2 w :
  (∀ old, c1 old = c2 old) → write_file l f c1 w = write_file l f c2 w.
Proof. intros H. unfold write_file. destruct (lookup_dir _ _); [|done]. by rw H. Qed.

Lemma write_file_spec l f change w w' r :
  write_file l f change w = (w', r) →
  (r = Ok tt ∧ updated (files w) (files w') l f (change (file_of (files w) l f)) ∧ tick w' = tick w) ∨
  (is_err r = true ∧ w' = w).
Proof.
  unfold write_file. destruct (lookup_dir (files w) l) as [d|] eqn:El; [|intros; simplify_eq; by right].
  destruct (set_contents d f _) as [d'|] eqn:Es; intros; simplify_eq; [|by right].
  left. split; [done|]. split; [|done]. intros l' f'. cbn [files]. unfold file_of.
  rw lookup_insert_dir. destruct (bool_decide_reflect (l' = l)) as [->|Hne].
  - rw (contents_set _ _ _ _ f' Es) El. destruct (bool_decide_reflect (f' = f)) as [->|].
    + by rw bool_decide_eq_true_2.
    + rw bool_decide_eq_false_2; [by intros [_ ?] | done].
  - rw bool_decide_eq_false_2; [by intros [? _] | done].
Qed.

Section runs.
Context (h : Host).

Lemma system_call_files w : files (system_call h w).1 = files w.
Proof. done. Qed.

Lemma system_call_Ok w w' a : system_call h w = (w', Ok a) → files w' = files w.
Proof. intros H. pose proof (system_call_files w) as F. by rw H in F. Qed.

Lemma ask_Ok {A} (g : Host → nat → A) w w' a :
  ask h g w = (w', Ok a) → files w' = files w ∧ a = g h (tick w).
Proof. unfold ask. intros. by simplify_eq. Qed.

Lemma start_Ok program args w w' a :
  start h program args w = (w', Ok a) →
  files w' = files w ∧ a = spawn h (tick w) (files w) program args.
Proof. unfold start. intros. by simplify_eq. Qed.

Lemma append_text_Ok l f s w w' a :
  append_text h l f s w = (w', Ok a) →
  updated (files w) (files w') l f (unwrap_or (file_of (files w) l f) [] ++ s).
Proof.
  unfold append_text. destruct (fault h (tick w)); [done|]. intros H.
  apply write_file_spec in H as [(_ & H & _)|[? _]]; done.
Qed.

End runs.

(** ** Lemmas: what every run does to the files, failed ones included *)

(** The run relates the files before and after it by [R]. *)
Definition respects (R : disk → disk → Prop) {A} (m : M A) : Prop :=
  ∀ w, R (files w) (files (m w).1).

Section respects.
Context (R : disk → disk → Prop) `{!PreOrder R}.

Lemma respects_ret {A} (a : A) : respects R (ret a).
Proof using Type*. intros w. reflexivity. Qed.

Lemma respects_lift {A} (r : Result A) : respects R (lift r).
Proof using Type*. intros w. reflexivity. Qed.

Lemma respects_bind {A B} (m : M A) (k : A → M B) :
  respects R m → (∀ a, respects R (k a)) → respects R (bind m k).
Proof using Type*.
  intros Hm Hk w. unfold bind. specialize (Hm w). destruct (m w) as [w1 [a|e]]; [|done].
  etrans; [exact Hm | apply Hk].
Qed.

Lemma respects_system_call h : respects R (system_call h).
Proof using Type*. intros w. reflexivity. Qed.

Lemma respects_ask {A} h (g : Host → nat → A) : respects R (ask h g).
Proof using Type*. intros w. reflexivity. Qed.

Lemma respects_start h program args : respects R (start h program args).
Proof using Type*. intros w. reflexivity. Qed.

End respects.

Create HintDb respects.
#[export] Hint Resolve respects_ret respects_lift respects_system_call respects_ask
  respects_start : respects.
#[export] Hint Extern 0 (PreOrder _) => apply _ : respects.

(** Walks a run: each step is one whose effect is known, or a choice between runs. *)
Ltac respects_tac :=
  repeat first
    [ solve [eauto with respects]
    | apply respects_bind; [apply _ | | intros ?]
    | match goal with
      | |- respects _ (match ?x with _ => _ end) => destruct x
      end ].

(** ** Lemmas: a host without failures *)

(** The file's directory exists. *)
Definition writable (fs : disk) (l : location) (f : file) : Prop :=
  match lookup_dir fs l with
  | Some d => match f with Evidence _ => is_Some (Dir.segments d) | _ => True end
  | None => False
  end.

(** Directories are kept. *)
Definition kept (fs fs' : disk) : Prop := ∀ l f, writable fs l f → writable fs' l f.

#[global] Instance kept_preorder : PreOrder kept.
Proof. split; [intros fs l f; done | intros fs fs1 fs2 H1 H2 l f H; by apply H2, H1]. Qed.

Lemma write_file_total l f change w :
  writable (files w) l f →
  ∃ w', write_file l f change w = (w', Ok tt) ∧ kept (files w) (files w').
Proof.
  unfold writable, write_file. destruct (lookup_dir (files w) l) as [d|] eqn:El; [|done].
  intros Hw. assert (∃ d', set_contents d f (change (contents d f)) = Some d' ∧
    (is_Some (Dir.segments d) → is_Some (Dir.segments d'))) as (d' & Es & Hd).
  { destruct d as [m j y e], f; try (eexists; split; [reflexivity|]; done).
    destruct Hw as [files Hf]. cbn in Hf. subst. eexists. split; [reflexivity|]. done. }
  rw Es. eexists. split; [reflexivity|]. intros l' f'. unfold writable. cbn [files].
  rw lookup_insert_dir. destruct (bool_decide_reflect (l' = l)) as [->|]; [|done].
  rw El. destruct f'; [done..|]. apply Hd.
Qed.

(** No system call fails. *)
Definition quiet (h : Host) : Prop := ∀ n, fault h n = None.

(** The run succeeds and keeps the directories. *)
Definition succeeds {A} (m : M A) (w : World) : Prop :=
  ∃ w' a, m w = (w', Ok a) ∧ kept (files w) (files w').

Lemma succeeds_ret {A} (a : A) w : succeeds (ret a) w.
Proof. by eexists _, _. Qed.

Lemma succeeds_bind {A B} (m : M A) (k : A → M B) w :
  succeeds m w → (∀ w' a, kept (files w) (files w') → succeeds (k a) w') → succeeds (bind m k) w.
Proof.
  intros (w1 & a & E & H1) Hk. destruct (Hk w1 a H1) as (w2 & b & E2 & H2).
  eexists w2, b. split; [by rw (bind_eq _ _ _ _ _ E)|]. by etrans.
Qed.

(** After a step that only reads. *)
Lemma succeeds_read {A B} (m : M A) (k : A → M B) w w1 a :
  m w = (w1, Ok a) → files w1 = files w → succeeds (k a) w1 → succeeds (bind m k) w.
Proof.
  intros E F (w2 & b & E2 & K). exists w2, b. rw (bind_eq _ _ _ _ _ E). split; [done|]. by rw -F.
Qed.

Lemma succeeds_ask {A} h (g : Host → nat → A) w : succeeds (ask h g) w.
Proof. by eexists _, _. Qed.

Section quiet.
Context (h : Host) (Hq : quiet h).

Lemma succeeds_system_call w : succeeds (system_call h) w.
Proof using Hq. unfold system_call. eexists _, tt. rw Hq. done. Qed.

Lemma succeeds_write_file l f change w : writable (files w) l f → succeeds (write_file l f change) w.
Proof. intros H. destruct (write_file_total l f change w H) as (w' & E & K). by eexists _, _. Qed.

Lemma succeeds_append_text l f s w : writable (files w) l f → succeeds (append_text h l f s) w.
Proof using Hq.
  intros H. unfold succeeds, append_text. rw Hq.
  destruct (write_file_total l f (λ old, unwrap_or old [] ++ s) (mk_world (S (tick w)) (files w)) H)
    as (w' & E & K). by eexists _, _.
Qed.

Lemma succeeds_create_file l f w : writable (files w) l f → succeeds (create_file h l f) w.
Proof using Hq.
  intros H. apply succeeds_bind; [apply succeeds_system_call|]. intros w' _ K.
  by apply succeeds_write_file, K.
Qed.

Lemma succeeds_open_append l f w : writable (files w) l f → succeeds (open_append h l f) w.
Proof using Hq.
  intros H. apply succeeds_bind; [apply succeeds_system_call|]. intros w' _ K.
  by apply succeeds_write_file, K.
Qed.

End quiet.
