(* ===== verification/Json.v ===== *)
(** * JSON records

    [src/tools/validation-runner/src/json.rs]: the object builder and its encoding,
    string literals, and the reader of flat objects. A [Peekable<Chars>] is the text
    that is left; each parser returns what it read and the text after it. *)

From S2P Require Export Host.

Definition QUOTATION : Z := 34.
Definition BACKSLASH : Z := 92.

(** ** Writing *)

(** [hex_digit]. *)
Definition hex_digit (value : Z) : Z := unwrap_or (from_digit value 16) 48.

(** One character of a string literal; a [char] is not negative. *)
Definition quote_char (c : Z) : text :=
  if c =? QUOTATION then [BACKSLASH; QUOTATION]
  else if c =? BACKSLASH then [BACKSLASH; BACKSLASH]
  else if c =? 10 then [BACKSLASH; 110]
  else if c =? 13 then [BACKSLASH; 114]
  else if c =? 9 then [BACKSLASH; 116]
  else if (0 <=? c) && (c <? 0x20) then
    [BACKSLASH; 117; 48; 48; hex_digit (c / 16); hex_digit (c mod 16)]
  else [c].

Definition quote (value : text) : text :=
  QUOTATION :: concat (map quote_char value) ++ [QUOTATION].

Module Object.
Record t := mk { body : text }.

Definition new : t := mk [].

(** [Object::key]. *)
Definition add_key (o : t) (key : text) : t :=
  mk (body o ++ (if negb (is_empty (body o)) then [44] else []) ++ quote key ++ [58]).

Definition string (o : t) (key value : text) : t :=
  mk (body (add_key o key) ++ quote value).

Definition number (o : t) (key : text) (value : Z) : t :=
  mk (body (add_key o key) ++ decimal value).

(** The loop of [Object::strings]: a comma before every element but the first. *)
Fixpoint push_strings (index : nat) (values : list text) : text :=
  match values with
  | [] => []
  | v :: vs => (if (0 <? index)%nat then [44] else []) ++ quote v ++ push_strings (S index) vs
  end.

Definition strings (o : t) (key : text) (values : list text) : t :=
  mk (body (add_key o key) ++ [91] ++ push_strings 0 values ++ [93]).

Definition encode (o : t) : text := [123] ++ body o ++ [125].

Definition object (o : t) (key : text) (value : t) : t :=
  mk (body (add_key o key) ++ encode value).
End Object.

(** ** Reading *)

Module Value.
Inductive t :=
| String (s : text)
| Number (n : Z).
#[global] Instance eq_dec : EqDecision t.
Proof. solve_decision. Defined.
End Value.

(** [skip_whitespace]. *)
Definition skip_whitespace (characters : text) : text := trim_start characters.

Fixpoint hex_digits (n : nat) (digits characters : text) : Result (text * text) :=
  match n with
  | O => Ok (digits, characters)
  | S n' =>
      match characters with
      | digit :: rest =>
          if is_ascii_hexdigit digit then hex_digits n' (digits ++ [digit]) rest
          else failed (str "a unicode escape needs four hexadecimal digits")
      | [] => failed (str "a unicode escape needs four hexadecimal digits")
      end
  end.

Definition parse_unicode_escape (characters : text) : Result (Z * text) :=
  let! (digits, rest) := hex_digits 4 [] characters in
  let? code := from_str_radix U32_MAX 16 digits
    else failed (str "a unicode escape holds a value the runner cannot read") in
  if is_scalar code then Ok (code, rest)
  else failed (str "a unicode escape holds a value that is not a character").

Definition parse_escape (characters : text) : Result (Z * text) :=
  match characters with
  | c :: rest =>
      if c =? QUOTATION then Ok (QUOTATION, rest)
      else if c =? BACKSLASH then Ok (BACKSLASH, rest)
      else if c =? 47 then Ok (47, rest)
      else if c =? 110 then Ok (10, rest)
      else if c =? 114 then Ok (13, rest)
      else if c =? 116 then Ok (9, rest)
      else if c =? 98 then Ok (8, rest)
      else if c =? 102 then Ok (12, rest)
      else if c =? 117 then parse_unicode_escape rest
      else failed (str "a JSON string holds an escape the runner does not read")
  | [] => failed (str "a JSON string holds an escape the runner does not read")
  end.

(** The loop of [parse_string]; every round takes a character. *)
Fixpoint parse_string_loop (fuel : nat) (value characters : text) : Result (text * text) :=
  match fuel with
  | O => failed (str "a JSON string must be closed")
  | S f =>
      match characters with
      | [] => failed (str "a JSON string must be closed")
      | c :: rest =>
          if c =? QUOTATION then Ok (value, rest)
          else if c =? BACKSLASH then
            let! (e, rest') := parse_escape rest in
            parse_string_loop f (value ++ [e]) rest'
          else parse_string_loop f (value ++ [c]) rest
      end
  end.

Definition parse_string (characters : text) : Result (text * text) :=
  match characters with
  | c :: rest =>
      if c =? QUOTATION then parse_string_loop (S (length rest)) [] rest
      else failed (str "a JSON string must start with a quotation mark")
  | [] => failed (str "a JSON string must start with a quotation mark")
  end.

(** The loop of [parse_number]. *)
Fixpoint take_digits (digits characters : text) : text * text :=
  match characters with
  | c :: rest => if is_ascii_digit c then take_digits (digits ++ [c]) rest else (digits, characters)
  | [] => (digits, [])
  end.

Definition parse_number (characters : text) : Result (Z * text) :=
  let (digits, rest) := take_digits [] characters in
  let? number := parse_unsigned U64_MAX digits
    else failed (str "a journal entry holds a number the runner cannot read") in
  Ok (number, rest).

(** The value of a field. *)
Definition parse_value (characters : text) : Result (Value.t * text) :=
  match characters with
  | c :: _ =>
      if c =? QUOTATION then
        let! (s, rest) := parse_string characters in Ok (Value.String s, rest)
      else if is_ascii_digit c then
        let! (n, rest) := parse_number characters in Ok (Value.Number n, rest)
      else failed (str "a journal entry value must be a string or a number")
  | [] => failed (str "a journal entry value must be a string or a number")
  end.

(** One round of the loop of [parse_flat_object], up to the character after the value. *)
Definition parse_field (characters : text) : Result ((text * Value.t) * text) :=
  let start := skip_whitespace characters in
  if negb (bool_decide (head start = Some QUOTATION))
  then failed (str "a journal entry key must be a string") else
  let! (key, rest) := parse_string start in
  match skip_whitespace rest with
  | c :: rest' =>
      if c =? 58 then
        let! (value, rest'') := parse_value (skip_whitespace rest') in
        Ok ((key, value), skip_whitespace rest'')
      else failed (str "a journal entry key must be followed by a value")
  | [] => failed (str "a journal entry key must be followed by a value")
  end.

Fixpoint parse_fields (fuel : nat) (fields : list (text * Value.t)) (characters : text) :
  Result (list (text * Value.t)) :=
  match fuel with
  | O => failed (str "a journal entry must end after its last value")
  | S f =>
      let! (field, rest) := parse_field characters in
      match rest with
      | c :: rest' =>
          if c =? 44 then parse_fields f (fields ++ [field]) rest'
          else if c =? 125 then Ok (fields ++ [field])
          else failed (str "a journal entry must end after its last value")
      | [] => failed (str "a journal entry must end after its last value")
      end
  end.

Definition parse_flat_object (source : text) : Result (list (text * Value.t)) :=
  match trim source with
  | c :: rest =>
      if c =? 123 then
        let rest := skip_whitespace rest in
        if bool_decide (head rest = Some 125) then Ok []
        else parse_fields (S (length rest)) [] rest
      else failed (str "a journal entry must be a JSON object")
  | [] => failed (str "a journal entry must be a JSON object")
  end.

(** [string_field] and [number_field]: the first field of that name and kind. *)
Fixpoint string_field (fields : list (text * Value.t)) (key : text) : option text :=
  match fields with
  | [] => None
  | (name, Value.String s) :: rest =>
      if bool_decide (name = key) then Some s else string_field rest key
  | _ :: rest => string_field rest key
  end.

Fixpoint number_field (fields : list (text * Value.t)) (key : text) : option Z :=
  match fields with
  | [] => None
  | (name, Value.Number n) :: rest =>
      if bool_decide (name = key) then Some n else number_field rest key
  | _ :: rest => number_field rest key
  end.
