(* ===== verification/JsonTheorems.v ===== *)
(** * JSON records: lemmas and properties

    What the object builder writes is read back exactly ([json_round_trip]); the
    loops of the reader never run out of fuel ([parse_string_loop_fuel],
    [parse_fields_fuel]); text after the closing brace is not looked at
    ([trailing_text_ignored]). *)

From S2P Require Export Json.

(** ** Reading back a string literal *)

Lemma hex_digit_char d : 0 ≤ d < 16 → hex_digit d = digit_char d.
Proof.
  intros Hd. unfold hex_digit, from_digit, digit_char. zbool. by destruct (d <? 10).
Qed.

Lemma hexdigit_digit_char d : 0 ≤ d < 16 → is_ascii_hexdigit (digit_char d) = true.
Proof.
  intros Hd. unfold is_ascii_hexdigit, is_ascii_digit, digit_char.
  destruct (d <? 10) eqn:E; breflect; by zbool.
Qed.

(** The escape of a control character denotes it. *)
Lemma parse_control_escape c rest :
  0 ≤ c < 0x20 →
  parse_unicode_escape ([48; 48; hex_digit (c / 16); hex_digit (c mod 16)] ++ rest) = Ok (c, rest).
Proof.
  intros Hc.
  assert (0 ≤ c / 16 < 16) as Hq by (pose proof (Z.div_mod c 16); pose proof (Z.mod_pos_bound c 16); lia).
  pose proof (Z.mod_pos_bound c 16 ltac:(lia)) as Hr.
  rw !hex_digit_char; [done..|]. unfold parse_unicode_escape.
  cbn [hex_digits app]. change (is_ascii_hexdigit 48) with true. cbn [app].
  rw (hexdigit_digit_char (c / 16)); [done|]. rw (hexdigit_digit_char (c mod 16)); [done|].
  change [48; 48; digit_char (c / 16); digit_char (c mod 16)]
    with (map digit_char [0; 0; c / 16; c mod 16]).
  rw from_str_radix_digits; [lia | repeat constructor; lia | |].
  all: assert (value_from 16 0 [0; 0; c / 16; c mod 16] = c) as ->
    by (cbn; pose proof (Z.div_mod c 16); lia).
  - unfold U32_MAX. lia.
  - unfold is_scalar. by zbool.
Qed.

(** One written character is read back in one round. *)
Lemma parse_string_loop_char f value c rest :
  parse_string_loop (S f) value (quote_char c ++ rest) = parse_string_loop f (value ++ [c]) rest.
Proof.
  unfold quote_char.
  destruct (c =? QUOTATION) eqn:E1; breflect; [by subst|].
  destruct (c =? BACKSLASH) eqn:E2; breflect; [by subst|].
  destruct (c =? 10) eqn:E3; breflect; [by subst|].
  destruct (c =? 13) eqn:E4; breflect; [by subst|].
  destruct (c =? 9) eqn:E5; breflect; [by subst|].
  destruct ((0 <=? c) && (c <? 0x20)) eqn:E6.
  1: breflect.
  - change ([BACKSLASH; 117; 48; 48; hex_digit (c / 16); hex_digit (c mod 16)] ++ rest)
      with (BACKSLASH :: 117 :: ([48; 48; hex_digit (c / 16); hex_digit (c mod 16)] ++ rest)).
    pose proof (parse_control_escape c rest ltac:(lia)) as E. revert E.
    generalize ([48; 48; hex_digit (c / 16); hex_digit (c mod 16)] ++ rest). intros s E.
    cbn -[parse_unicode_escape]. by rw E.
  - cbn [parse_string_loop app]. by zbool.
Qed.

Lemma length_quote_char c : (1 ≤ length (quote_char c))%nat.
Proof. unfold quote_char. repeat case_match; simpl; lia. Qed.

Lemma length_quoted s : (length s ≤ length (concat (map quote_char s)))%nat.
Proof.
  induction s as [|c s IH]; simpl; [lia|]. rw length_app. pose proof (length_quote_char c). lia.
Qed.

Lemma parse_string_loop_quoted fuel value s rest :
  (length s < fuel)%nat →
  parse_string_loop fuel value (concat (map quote_char s) ++ QUOTATION :: rest) =
    Ok (value ++ s, rest).
Proof.
  revert fuel value. induction s as [|c s IH]; intros [|f] value Hf;
    simpl in Hf; try lia.
  - by rw app_nil_r.
  - rw map_cons. cbn [concat]. rw -app_assoc parse_string_loop_char.
    rw IH; [lia|]. by rw -app_assoc.
Qed.

Lemma parse_string_quote s rest :
  parse_string (quote s ++ rest) = Ok (s, rest).
Proof.
  unfold quote, parse_string. cbn [app]. rw Z.eqb_refl -app_assoc.
  rw parse_string_loop_quoted; [|done].
  rw length_app. pose proof (length_quoted s). lia.
Qed.

(** ** Reading back a number *)

Lemma take_digits_app acc ds rest :
  Forall (λ c, is_ascii_digit c = true) ds →
  match rest with c :: _ => is_ascii_digit c = false | [] => True end →
  take_digits acc (ds ++ rest) = (acc ++ ds, rest).
Proof.
  intros H Hr. revert acc. induction H as [|c ds Hc Hds IH]; intros acc; simpl.
  - rw app_nil_r. destruct rest as [|c r]; [done|]. simpl. by rw Hr.
  - by rw Hc IH -app_assoc.
Qed.

Lemma parse_number_decimal n c rest :
  0 ≤ n ≤ U64_MAX → is_ascii_digit c = false →
  parse_number (decimal n ++ c :: rest) = Ok (n, c :: rest).
Proof.
  intros Hn Hc. unfold parse_number.
  rw take_digits_app; [apply decimal_digits; lia | done|].
  cbn [app]. by rw parse_decimal.
Qed.

(** ** Reading back an object *)

(** Text that does not start with whitespace is not skipped. *)
Lemma skip_whitespace_id c s : is_whitespace c = false → skip_whitespace (c :: s) = c :: s.
Proof. apply trim_start_id. Qed.

Definition value_text (v : Value.t) : text :=
  match v with Value.String s => quote s | Value.Number n => decimal n end.

Definition field_text (f : text * Value.t) : text := quote f.1 ++ [58] ++ value_text f.2.

(** The numbers fit [u64]. *)
Definition value_typed (v : Value.t) : Prop :=
  match v with
  | Value.String _ => True
  | Value.Number n => 0 ≤ n ≤ U64_MAX
  end.
Definition field_typed (f : text * Value.t) : Prop := value_typed f.2.

(** What may follow a value: neither whitespace nor a digit. *)
Definition delimiter (c : Z) : Prop := is_whitespace c = false ∧ is_ascii_digit c = false.

Lemma quote_cons s r : quote s ++ r = QUOTATION :: (concat (map quote_char s) ++ [QUOTATION]) ++ r.
Proof. done. Qed.

Lemma digit_not_whitespace c :
  is_ascii_digit c = true → is_whitespace c = false ∧ (c =? QUOTATION) = false.
Proof.
  intros H. unfold is_ascii_digit in H. breflect. unfold is_whitespace, QUOTATION. by zbool.
Qed.

Lemma parse_value_text v c rest :
  value_typed v → delimiter c →
  parse_value (skip_whitespace (value_text v ++ c :: rest)) = Ok (v, c :: rest).
Proof.
  intros Hv [Hw Hd]. destruct v as [s|n]; cbn [value_text value_typed] in *.
  - rw quote_cons skip_whitespace_id; [done|]. unfold parse_value.
    by rw Z.eqb_refl -quote_cons parse_string_quote.
  - destruct (decimal_cons n ltac:(lia)) as (d & ds & E).
    pose proof (decimal_digits n ltac:(lia)) as Hds. rw E in Hds.
    apply Forall_cons in Hds as [Hdd _]. apply digit_not_whitespace in Hdd as Hc.
    rw E. cbn [app]. rw skip_whitespace_id; [apply Hc|].
    unfold parse_value. rw (proj2 Hc) Hdd app_comm_cons -E parse_number_decimal; [done..|]. done.
Qed.

Lemma parse_field_text f c rest :
  field_typed f → delimiter c → parse_field (field_text f ++ c :: rest) = Ok (f, c :: rest).
Proof.
  intros Hv Hc. destruct f as [k v]. unfold parse_field, field_text, field_typed in *. cbn [fst snd] in *.
  rw -!app_assoc quote_cons skip_whitespace_id; [done|]. cbn [head].
  rw bool_decide_eq_true_2; [done|]. cbn [negb]. rw -quote_cons parse_string_quote.
  cbn [app]. rw skip_whitespace_id; [done|]. rw Z.eqb_refl parse_value_text; [done..|].
  rw skip_whitespace_id; [apply Hc|]. done.
Qed.

(** The fields after the first, each behind a comma. *)
Definition more_fields (fs : list (text * Value.t)) : text :=
  concat (map (λ f, 44 :: field_text f) fs).

Lemma parse_fields_text fuel acc f fs tail :
  Forall field_typed (f :: fs) → (length fs < fuel)%nat →
  parse_fields fuel acc (field_text f ++ more_fields fs ++ 125 :: tail) = Ok (acc ++ f :: fs).
Proof.
  intros H. revert fuel acc f H. induction fs as [|g fs IH]; intros [|fu] acc f H Hf;
    simpl in Hf; try lia; apply Forall_cons in H as [Hty H].
  - cbn [parse_fields more_fields map concat app]. by rw parse_field_text.
  - change (more_fields (g :: fs)) with (44 :: field_text g ++ more_fields fs).
    cbn [app parse_fields]. rw parse_field_text; [done..|].
    rw Z.eqb_refl -app_assoc IH; [done | lia |]. by rw -app_assoc.
Qed.

(** The builder, one field at a time. *)
Definition add_field (o : Object.t) (f : text * Value.t) : Object.t :=
  match f.2 with
  | Value.String s => Object.string o f.1 s
  | Value.Number n => Object.number o f.1 n
  end.
Definition object_of (fs : list (text * Value.t)) : Object.t := fold_left add_field fs Object.new.

Lemma add_field_body o f :
  Object.body (add_field o f) =
    Object.body o ++ (if is_empty (Object.body o) then [] else [44]) ++ field_text f.
Proof.
  destruct o as [b], f as [k v]. unfold add_field, field_text. cbn [fst snd].
  destruct v as [s|n]; unfold Object.string, Object.number, Object.add_key; cbn [Object.body].
  all: destruct (is_empty b); cbn [negb value_text]; by rw -!app_assoc.
Qed.

Lemma add_fields_body fs o :
  Object.body o ≠ [] → Object.body (fold_left add_field fs o) = Object.body o ++ more_fields fs.
Proof.
  revert o. induction fs as [|f fs IH]; intros o Ho; simpl; [by rw app_nil_r|].
  rw IH.
  - rw add_field_body. by destruct (Object.body o).
  - rw add_field_body. destruct (Object.body o) eqn:E; [done|]. cbn [is_empty].
    change (more_fields (f :: fs)) with ([44] ++ field_text f ++ more_fields fs).
    by rw -!app_assoc.
Qed.

Lemma object_of_body f fs :
  Object.body (object_of (f :: fs)) = field_text f ++ more_fields fs.
Proof.
  unfold object_of. cbn [fold_left]. rw add_fields_body; [by rw add_field_body|].
  by rw add_field_body.
Qed.

(** Trimming stops at the closing brace. *)
Lemma trim_object s tail :
  trim (123 :: s ++ 125 :: tail) = 123 :: s ++ 125 :: trim_end tail.
Proof.
  unfold trim, trim_end. rw trim_start_id; [done|].
  rw app_comm_cons reverse_app reverse_cons.
  assert (∀ l, trim_start ((l ++ [125]) ++ reverse (123 :: s)) =
               (trim_start l ++ [125]) ++ reverse (123 :: s)) as E.
  { induction l as [|c l IH]; [done|]. simpl. by destruct (is_whitespace c). }
  by rw E reverse_app reverse_involutive reverse_app.
Qed.

Lemma length_more_fields fs : (length fs ≤ length (more_fields fs))%nat.
Proof.
  induction fs as [|f fs IH]; simpl; [lia|]. unfold more_fields in *. rw length_app. lia.
Qed.

(** The reader, on an object the builder wrote and whatever follows it. *)
Lemma parse_encoded fs tail :
  Forall field_typed fs →
  parse_flat_object (Object.encode (object_of fs) ++ tail) = Ok fs.
Proof.
  intros H. unfold Object.encode. rw -!app_assoc. cbn [app].
  unfold parse_flat_object. rw trim_object Z.eqb_refl.
  destruct fs as [|f fs]; [done|].
  rw object_of_body. rw -app_assoc {1 2 3}/field_text -!app_assoc quote_cons.
  rw skip_whitespace_id; [done|]. cbn [head]. rw bool_decide_eq_false_2; [done|].
  rw -quote_cons app_assoc app_assoc -(app_assoc (quote _)). fold (field_text f).
  rw parse_fields_text; [done | | done].
  rw !length_app. pose proof (length_more_fields fs). lia.
Qed.

(** ** The loops have fuel enough *)

Lemma hex_digits_length n ds s ds' r : hex_digits n ds s = Ok (ds', r) → (length r ≤ length s)%nat.
Proof.
  revert ds s. induction n as [|n IH]; intros ds s H; simpl in H; [by simplify_eq|].
  destruct s as [|c s]; [done|]. destruct (is_ascii_hexdigit c); [|done].
  apply IH in H. simpl. lia.
Qed.

Lemma parse_escape_length s c r : parse_escape s = Ok (c, r) → (length r < length s)%nat.
Proof.
  unfold parse_escape. destruct s as [|d s]; [done|]. intros H.
  repeat match type of H with
  | (if ?b then Ok _ else _) = _ => destruct b; [simplify_eq; simpl; lia|]
  end.
  destruct (d =? 117); [|done]. unfold parse_unicode_escape in H.
  destruct (hex_digits 4 [] s) as [[ds r']|] eqn:E; [|done].
  apply hex_digits_length in E.
  destruct (from_str_radix _ _ _); [|done]. destruct (is_scalar _); simplify_eq. simpl. lia.
Qed.

Lemma parse_string_loop_fuel f g value s :
  (length s < f)%nat → (length s < g)%nat →
  parse_string_loop f value s = parse_string_loop g value s.
Proof.
  revert g value s. induction f as [|f IH]; intros [|g] value s Hf Hg; try lia.
  destruct s as [|c s]; [done|]. simpl in *.
  destruct (c =? QUOTATION); [done|]. destruct (c =? BACKSLASH).
  - destruct (parse_escape s) as [[e r]|] eqn:E; [|done]. apply parse_escape_length in E.
    apply IH; lia.
  - apply IH; lia.
Qed.

Lemma parse_string_loop_length f value s v r :
  parse_string_loop f value s = Ok (v, r) → (length r < length s)%nat.
Proof.
  revert value s. induction f as [|f IH]; intros value s H; simpl in H; [done|].
  destruct s as [|c s]; [done|]. simpl.
  destruct (c =? QUOTATION); [simplify_eq; lia|]. destruct (c =? BACKSLASH).
  - destruct (parse_escape s) as [[e r']|] eqn:E; [|done]. apply parse_escape_length in E.
    apply IH in H. lia.
  - apply IH in H. lia.
Qed.

Lemma parse_string_length s v r : parse_string s = Ok (v, r) → (length r < length s)%nat.
Proof.
  destruct s as [|c s]; [done|]. unfold parse_string. destruct (c =? QUOTATION); [|done].
  intros H. apply parse_string_loop_length in H. simpl. lia.
Qed.

Lemma skip_whitespace_length s : (length (skip_whitespace s) ≤ length s)%nat.
Proof.
  unfold skip_whitespace. induction s as [|c s IH]; simpl; [lia|].
  destruct (is_whitespace c); simpl; lia.
Qed.

Lemma take_digits_length acc s ds r : take_digits acc s = (ds, r) → (length r ≤ length s)%nat.
Proof.
  revert acc. induction s as [|c s IH]; intros acc H; simpl in H; [by simplify_eq|].
  destruct (is_ascii_digit c); [|by simplify_eq]. apply IH in H. simpl. lia.
Qed.

Lemma parse_value_length s v r : parse_value s = Ok (v, r) → (length r ≤ length s)%nat.
Proof.
  destruct s as [|c s]; [done|]. unfold parse_value. destruct (c =? QUOTATION).
  - destruct (parse_string (c :: s)) as [[t r']|] eqn:E; [|done]. intros. simplify_eq.
    apply parse_string_length in E. lia.
  - destruct (is_ascii_digit c); [|done]. unfold parse_number.
    destruct (take_digits [] (c :: s)) as [ds r'] eqn:E. apply take_digits_length in E.
    destruct (parse_unsigned _ _); [|done]. intros. by simplify_eq.
Qed.

Lemma parse_field_length s f r : parse_field s = Ok (f, r) → (length r < length s)%nat.
Proof.
  unfold parse_field. destruct (negb _); [done|].
  destruct (parse_string (skip_whitespace s)) as [[k r1]|] eqn:E1; [|done].
  apply parse_string_length in E1. pose proof (skip_whitespace_length s).
  pose proof (skip_whitespace_length r1).
  destruct (skip_whitespace r1) as [|c r2]; [done|]. destruct (c =? 58); [|done].
  destruct (parse_value (skip_whitespace r2)) as [[v r3]|] eqn:E3; [|done].
  apply parse_value_length in E3. pose proof (skip_whitespace_length r2).
  pose proof (skip_whitespace_length r3). intros. simplify_eq. simpl in *. lia.
Qed.

Lemma parse_fields_fuel f g acc s :
  (length s < f)%nat → (length s < g)%nat → parse_fields f acc s = parse_fields g acc s.
Proof.
  revert g acc s. induction f as [|f IH]; intros [|g] acc s Hf Hg; try lia.
  cbn [parse_fields]. destruct (parse_field s) as [[fd r]|] eqn:E; [|done].
  apply parse_field_length in E. destruct r as [|c r]; [done|]. simpl in E.
  destruct (c =? 44); [apply IH; lia | done].
Qed.

(** ** An encoded object is one line *)

Lemma quote_char_line c : Forall (λ x, x ≠ NEWLINE) (quote_char c).
Proof.
  unfold quote_char, NEWLINE, QUOTATION, BACKSLASH.
  repeat case_match; breflect; repeat constructor; try lia.
  - assert (0 ≤ c / 16 < 16) by (pose proof (Z.div_mod c 16); pose proof (Z.mod_pos_bound c 16); lia).
    rw hex_digit_char; [done|]. unfold digit_char. case_match; lia.
  - rw hex_digit_char; [apply Z.mod_pos_bound; lia|]. unfold digit_char.
    pose proof (Z.mod_pos_bound c 16). case_match; lia.
Qed.

Lemma quote_line s : Forall (λ x, x ≠ NEWLINE) (quote s).
Proof.
  unfold quote. constructor; [done|]. apply Forall_app. split; [|by repeat constructor].
  apply Forall_concat, Forall_map, Forall_true, quote_char_line.
Qed.

Lemma field_text_line f : field_typed f → Forall (λ x, x ≠ NEWLINE) (field_text f).
Proof.
  intros Hv. unfold field_text, field_typed in *. apply Forall_app. split; [by apply quote_line|].
  constructor; [done|]. destruct f as [k [s|n]]; cbn [value_text fst snd value_typed] in *.
  - by apply quote_line.
  - eapply Forall_impl; [apply decimal_digits; lia|]. intros c Hc. simpl in Hc.
    unfold is_ascii_digit in Hc. breflect. unfold NEWLINE. lia.
Qed.

Lemma encode_line fs :
  Forall field_typed fs → Forall (λ x, x ≠ NEWLINE) (Object.encode (object_of fs)).
Proof.
  intros H. unfold Object.encode. constructor; [done|]. apply Forall_app.
  split; [|by repeat constructor]. destruct fs as [|f fs]; [constructor|].
  apply Forall_cons in H as [Hf H]. rw object_of_body. apply Forall_app.
  split; [by apply field_text_line|]. unfold more_fields.
  apply Forall_concat, Forall_map. eapply Forall_impl; [done|]. intros g Hg.
  constructor; [done | by apply field_text_line].
Qed.

(** ** Properties *)

(** C29. A journal entry is read back as it was written: for every sequence of string and
    number fields the object builder is given, with any characters in names and values
    (quotation marks, backslashes, control characters included) and any [u64] numbers,
    [parse_flat_object] of the encoded object returns exactly those fields, in order. *)
Theorem json_round_trip (fs : list (text * Value.t)) (H : Forall field_typed fs) :
  parse_flat_object (Object.encode (object_of fs)) = Ok fs.
Proof. by rw -(app_nil_r (Object.encode _)) parse_encoded. Qed.

Definition sample_fields : list (text * Value.t) :=
  [(str "segment", Value.String (str "unit-tests")); (str "attempt", Value.Number 2);
   (str "note", Value.String [97; 34; 92; 10; 1; 0x1F600])].

Lemma sample_fields_typed : Forall field_typed sample_fields.
Proof. repeat constructor; vm_compute; discriminate. Qed.

(** The round trip, at an entry with every kind of escape. *)
Lemma json_round_trip_witness :
  parse_flat_object (Object.encode (object_of sample_fields)) = Ok sample_fields.
Proof. apply (json_round_trip sample_fields sample_fields_typed). Defined.

(** The reader stops at the closing brace: whatever follows it on the line, a second
    entry included, is accepted and not reported. *)
Theorem trailing_text_ignored (fs : list (text * Value.t)) (tail : text)
  (H : Forall field_typed fs) :
  parse_flat_object (Object.encode (object_of fs) ++ tail) = Ok fs.
Proof. by apply parse_encoded. Qed.

Lemma trailing_text_ignored_witness :
  parse_flat_object (Object.encode (object_of sample_fields) ++
                     Object.encode (object_of sample_fields) ++ str "not json") = Ok sample_fields.
Proof. apply (trailing_text_ignored sample_fields _ sample_fields_typed). Defined.
