(* ===== verification/Calendar.v ===== *)
(** * Calendar

    [src/tools/validation-runner/src/time.rs]: the conversion of seconds since the
    epoch into a proleptic Gregorian date with [i64] arithmetic that is checked at
    every step, and the date and timestamp texts. [Utc::now] takes the clock's answer
    as an argument; [None] is a time before the epoch.

    The reference is the calendar itself: the day after a day ([next_day]), counted
    from 1970-01-01. *)

From S2P Require Export Host.

(** ** Checked [i64] arithmetic *)

Definition I64_MIN : Z := -9223372036854775808.
Definition I64_MAX : Z := 9223372036854775807.

Definition to_i64 (z : Z) : option Z :=
  if (I64_MIN <=? z) && (z <=? I64_MAX) then Some z else None.

Module I64.
Definition checked_add (a b : Z) : option Z := to_i64 (a + b).
Definition checked_sub (a b : Z) : option Z := to_i64 (a - b).
Definition checked_mul (a b : Z) : option Z := to_i64 (a * b).
(** Rounds towards zero. *)
Definition checked_div (a b : Z) : option Z := if b =? 0 then None else to_i64 (Z.quot a b).
End I64.

(** [u64::checked_div] and [u64::checked_rem]. *)
Definition u64_checked_div (a b : Z) : option Z := if b =? 0 then None else Some (a / b).
Definition u64_checked_rem (a b : Z) : option Z := if b =? 0 then None else Some (a mod b).

(** ** The source *)

Definition SECONDS_PER_DAY : Z := 86400.
Definition SECONDS_PER_HOUR : Z := 3600.
Definition SECONDS_PER_MINUTE : Z := 60.
Definition EPOCH_SHIFT_DAYS : Z := 719468.
Definition DAYS_PER_ERA : Z := 146097.

Definition civil_from_days (days : Z) : option (Z * Z * Z) :=
  let? shifted := I64.checked_add days EPOCH_SHIFT_DAYS in
  let? era_base :=
    if 0 <=? shifted then Some shifted
    else let? last := I64.checked_sub DAYS_PER_ERA 1 in I64.checked_sub shifted last in
  let? era := I64.checked_div era_base DAYS_PER_ERA in
  let? era_days := I64.checked_mul era DAYS_PER_ERA in
  let? day_of_era := I64.checked_sub shifted era_days in
  let? q1 := I64.checked_div day_of_era 1460 in
  let? y1 := I64.checked_sub day_of_era q1 in
  let? q2 := I64.checked_div day_of_era 36524 in
  let? y2 := I64.checked_add y1 q2 in
  let? q3 := I64.checked_div day_of_era 146096 in
  let? y3 := I64.checked_sub y2 q3 in
  let? year_of_era := I64.checked_div y3 365 in
  let? era_years := I64.checked_mul era 400 in
  let? shifted_year := I64.checked_add year_of_era era_years in
  let? l1 := I64.checked_div year_of_era 4 in
  let? l2 := I64.checked_div year_of_era 100 in
  let? leap_days := I64.checked_sub l1 l2 in
  let? d1 := I64.checked_mul year_of_era 365 in
  let? d2 := I64.checked_add d1 leap_days in
  let? day_of_year := I64.checked_sub day_of_era d2 in
  let? m1 := I64.checked_mul day_of_year 5 in
  let? m2 := I64.checked_add m1 2 in
  let? month_position := I64.checked_div m2 153 in
  let? e1 := I64.checked_mul month_position 153 in
  let? e2 := I64.checked_add e1 2 in
  let? e3 := I64.checked_div e2 5 in
  let? e4 := I64.checked_sub day_of_year e3 in
  let? day := I64.checked_add e4 1 in
  let? month := if month_position <? 10 then I64.checked_add month_position 3
                else I64.checked_sub month_position 9 in
  let? year := if month <=? 2 then I64.checked_add shifted_year 1 else Some shifted_year in
  let? month := try_from U32_MAX month in
  let? day := try_from U32_MAX day in
  Some (year, month, day).

Definition split_day (seconds_of_day : Z) : Result (Z * Z * Z) :=
  let parts :=
    let? hour := u64_checked_div seconds_of_day SECONDS_PER_HOUR in
    let? remainder := u64_checked_rem seconds_of_day SECONDS_PER_HOUR in
    let? minute := u64_checked_div remainder SECONDS_PER_MINUTE in
    let? second := u64_checked_rem remainder SECONDS_PER_MINUTE in
    Some (hour, minute, second) in
  let? parts := parts
    else failed (str "a time of day could not be derived from the host clock") in
  Ok parts.

Module Utc.
Record t := mk { seconds : Z }.

(** [Utc::now], given what the clock says. *)
Definition now (elapsed : option Z) : Result t :=
  let? s := elapsed
    else failed (str "the host clock reports a time before 1970-01-01") in
  Ok (mk s).

Definition from_unix_seconds (seconds : Z) : t := mk seconds.

Definition civil (u : t) : Result (Z * Z * Z) :=
  let? days := u64_checked_div (seconds u) SECONDS_PER_DAY
    else failed (str "a calendar date could not be derived from the host clock") in
  let? days := to_i64 days
    else failed (str "the host clock reports a time the runner cannot represent") in
  let? civil := civil_from_days days
    else failed (str "the host clock reports a date the runner cannot represent") in
  Ok civil.

(** [{year:04}-{month:02}-{day:02}]. *)
Definition date_text (d : Z * Z * Z) : text :=
  let '(year, month, day) := d in
  pad_signed 4 year ++ [45] ++ zero_pad 2 (decimal month) ++ [45] ++ zero_pad 2 (decimal day).

Definition date (u : t) : Result text :=
  let! d := civil u in Ok (date_text d).

Definition timestamp (u : t) : Result text :=
  let! d := civil u in
  let? seconds_of_day := u64_checked_rem (seconds u) SECONDS_PER_DAY
    else failed (str "a timestamp could not be derived from the host clock") in
  let! (hour, minute, second) := split_day seconds_of_day in
  Ok (date_text d ++ [84] ++ zero_pad 2 (decimal hour) ++ [58] ++
      zero_pad 2 (decimal minute) ++ [58] ++ zero_pad 2 (decimal second) ++ [90]).
End Utc.

(** ** The reference calendar *)

Definition is_leap (y : Z) : bool :=
  (y mod 4 =? 0) && (negb (y mod 100 =? 0) || (y mod 400 =? 0)).

Definition days_in_month (y m : Z) : Z :=
  if m =? 2 then (if is_leap y then 29 else 28)
  else if (m =? 4) || (m =? 6) || (m =? 9) || (m =? 11) then 30 else 31.

Definition next_day (d : Z * Z * Z) : Z * Z * Z :=
  let '(y, m, d) := d in
  if d <? days_in_month y m then (y, m, d + 1)
  else if m <? 12 then (y, m + 1, 1) else (y + 1, 1, 1).

Definition EPOCH : Z * Z * Z := (1970, 1, 1).

(** The date [n] days after the epoch. *)
Definition calendar (n : nat) : Z * Z * Z := Nat.iter n next_day EPOCH.

(** A date of the calendar. *)
Definition valid_date (d : Z * Z * Z) : Prop :=
  let '(y, m, d) := d in 1 ≤ m ≤ 12 ∧ 1 ≤ d ≤ days_in_month y m.
