(* ===== verification/CalendarTheorems.v ===== *)
(** * Calendar: lemmas and properties

    The source's closed formula counts days as the calendar does, day by day, over the
    whole range of a [u64] clock, without overflow ([civil_exact]); the texts it makes
    of a date sort as the dates ([date_text_sorted]). Years are counted from March, as
    in the source: [year_start] is the first day of a year, [locate] finds the year of
    a day. *)

From S2P Require Export Calendar.

(** ** Years that start in March *)

(** Days before year [y], and the number of its days: the leap day is its last. *)
Definition year_start (y : Z) : Z := 365 * y + y / 4 - y / 100 + y / 400.
Definition year_length (y : Z) : Z := if is_leap (y + 1) then 366 else 365.

Lemma is_leap_spec y :
  is_leap y = true ↔ y mod 4 = 0 ∧ (y mod 100 ≠ 0 ∨ y mod 400 = 0).
Proof.
  unfold is_leap.
  rw andb_true_iff orb_true_iff negb_true_iff !Z.eqb_eq Z.eqb_neq. done.
Qed.

Lemma year_start_succ y : year_start (y + 1) = year_start y + year_length y.
Proof.
  unfold year_start, year_length.
  destruct (is_leap (y + 1)) eqn:E.
  - apply is_leap_spec in E. Z.to_euclidean_division_equations. lia.
  - assert (¬ ((y + 1) mod 4 = 0 ∧ ((y + 1) mod 100 ≠ 0 ∨ (y + 1) mod 400 = 0))) as E'
      by (rewrite <- is_leap_spec; by rw E).
    clear E. Z.to_euclidean_division_equations. lia.
Qed.

Lemma year_length_bounds y : 365 ≤ year_length y ≤ 366.
Proof. unfold year_length. case_match; lia. Qed.

Lemma year_start_mono y k : 0 ≤ k → year_start y + 365 * k ≤ year_start (y + k).
Proof.
  intros Hk. pattern k. apply natlike_ind; [|intros n Hn IH | done].
  - rw Z.add_0_r. lia.
  - rw Z.add_succ_r -Z.add_1_r year_start_succ. pose proof (year_length_bounds (y + n)). lia.
Qed.

(** Day [d] of year [y] is day [z] of the count. *)
Definition located (z y d : Z) : Prop := z = year_start y + d ∧ 0 ≤ d < year_length y.

Lemma located_unique z y d y' d' : located z y d → located z y' d' → y = y' ∧ d = d'.
Proof.
  intros [Hz Hd] [Hz' Hd'].
  destruct (Z.lt_trichotomy y y') as [H|[->|H]]; [| lia |]; exfalso.
  - pose proof (year_start_mono (y + 1) (y' - (y + 1)) ltac:(lia)) as Hm.
    rw year_start_succ in Hm. replace (y + 1 + (y' - (y + 1))) with y' in Hm by lia. lia.
  - pose proof (year_start_mono (y' + 1) (y - (y' + 1)) ltac:(lia)) as Hm.
    rw year_start_succ in Hm. replace (y' + 1 + (y - (y' + 1))) with y in Hm by lia. lia.
Qed.

Lemma located_next z y d :
  located z y d →
  if d + 1 <? year_length y then located (z + 1) y (d + 1) else located (z + 1) (y + 1) 0.
Proof.
  intros [-> Hd]. destruct (d + 1 <? year_length y) eqn:E; breflect; unfold located.
  - lia.
  - rw year_start_succ. pose proof (year_length_bounds (y + 1)). lia.
Qed.

(** ** The year of a day of the era *)

(** [year_of_era] before the division by 365. *)
Definition era_scale (doe : Z) : Z := doe - doe / 1460 + doe / 36524 - doe / 146096.

Lemma era_scale_mono a b : 0 ≤ a ≤ b → b < 146097 → era_scale a ≤ era_scale b.
Proof.
  intros [Ha Hab] Hb. unfold era_scale.
  pose proof (Z.div_le_mono a b 36524 ltac:(lia) Hab).
  destruct (decide (b = 146096)) as [->|].
  - destruct (decide (a = 146096)) as [->|]; [lia|].
    assert (a / 36524 ≤ 3) by (apply Z.lt_succ_r, Z.div_lt_upper_bound; lia).
    rw (Z.div_small a 146096); [lia|].
    change (146096 / 36524) with 4. change (146096 / 146096) with 1.
    change (146096 / 1460) with 100.
    pose proof (Z.div_mod a 1460). pose proof (Z.mod_pos_bound a 1460). lia.
  - rw !(Z.div_small _ 146096); [lia..|].
    pose proof (Z.div_mod a 1460). pose proof (Z.mod_pos_bound a 1460).
    pose proof (Z.div_mod b 1460). pose proof (Z.mod_pos_bound b 1460). lia.
Qed.

(** The first and the last day of each year of an era fall in that year. *)
Definition year_fits (n : nat) : bool :=
  let y := Z.of_nat n in
  (365 * y <=? era_scale (year_start y)) &&
  (era_scale (year_start (y + 1) - 1) <=? 365 * y + 364).

Lemma years_fit : forallb year_fits (seq 0 400) = true.
Proof. vm_compute. reflexivity. Qed.

Lemma year_of_era_exact y d :
  0 ≤ y < 400 → 0 ≤ d < year_length y → era_scale (year_start y + d) / 365 = y.
Proof.
  intros Hy Hd. pose proof years_fit as F. rewrite -> forallb_forall in F.
  specialize (F (Z.to_nat y)). unfold year_fits in F. rewrite -> Z2Nat.id in F by lia.
  rewrite -> in_seq in F. specialize (F ltac:(lia)). breflect.
  rw year_start_succ in H0.
  assert (year_start y + year_length y ≤ 146097).
  { rw -year_start_succ. pose proof (year_start_mono (y + 1) (400 - (y + 1)) ltac:(lia)) as Hm.
    replace (y + 1 + (400 - (y + 1))) with 400 in Hm by lia.
    change (year_start 400) with 146097 in Hm. lia. }
  assert (0 ≤ year_start y) by (unfold year_start; Z.to_euclidean_division_equations; lia).
  pose proof (era_scale_mono (year_start y) (year_start y + d) ltac:(lia) ltac:(lia)).
  pose proof (era_scale_mono (year_start y + d) (year_start y + year_length y - 1) ltac:(lia) ltac:(lia)).
  symmetry. apply (Z.div_unique _ _ _ (era_scale (year_start y + d) - 365 * y)); lia.
Qed.

(** Every day belongs to a year. *)
Lemma located_exists z : 0 ≤ z → ∃ y d, 0 ≤ y ∧ located z y d.
Proof.
  intros Hz. pattern z. apply natlike_ind; [|intros n Hn IH | done].
  - exists 0, 0. split; [lia|]. split; [done|]. done.
  - destruct IH as (y & d & Hy & H). apply located_next in H. rw -Z.add_1_r.
    destruct (_ <? _); eexists _, _; (split; [|exact H]); lia.
Qed.

(** Eras of four hundred years repeat. *)
Lemma year_start_era e y : 0 ≤ y → year_start (400 * e + y) = 146097 * e + year_start y.
Proof.
  intros Hy. unfold year_start.
  replace (400 * e + y) with (y + (100 * e) * 4) at 2 by lia.
  replace (400 * e + y) with (y + (4 * e) * 100) at 2 by lia.
  replace (400 * e + y) with (y + e * 400) at 2 by lia.
  rw !Z.div_add; lia.
Qed.

Lemma year_length_era e y : year_length (400 * e + y) = year_length y.
Proof.
  unfold year_length, is_leap.
  replace (400 * e + y + 1) with (y + 1 + (100 * e) * 4) at 1 by lia.
  replace (400 * e + y + 1) with (y + 1 + (4 * e) * 100) at 1 by lia.
  replace (400 * e + y + 1) with (y + 1 + e * 400) at 1 by lia.
  by rw !Z.mod_add.
Qed.

Lemma located_era z y d :
  located z y d → 0 ≤ y →
  z / 146097 = y / 400 ∧ z mod 146097 = year_start (y mod 400) + d ∧
  d < year_length (y mod 400).
Proof.
  intros [Hz Hd] Hy.
  pose proof (Z.mod_pos_bound y 400 ltac:(lia)) as Hm.
  pose proof (Z.div_mod y 400 ltac:(lia)) as E.
  rw E year_start_era in Hz; [lia|]. rw E year_length_era in Hd.
  pose proof (year_start_mono (y mod 400 + 1) (400 - (y mod 400 + 1)) ltac:(lia)) as Hs.
  replace (y mod 400 + 1 + (400 - (y mod 400 + 1))) with 400 in Hs by lia.
  rw year_start_succ in Hs. change (year_start 400) with 146097 in Hs.
  assert (0 ≤ year_start (y mod 400)) by (unfold year_start; Z.to_euclidean_division_equations; lia).
  split; [|split; [|lia]].
  - symmetry. apply (Z.div_unique _ _ _ (year_start (y mod 400) + d)); lia.
  - symmetry. apply (Z.mod_unique _ _ (y / 400)); lia.
Qed.

(** ** The month of a day of the year *)

Definition month_day (doy : Z) : Z * Z :=
  let mp := (5 * doy + 2) / 153 in
  (if mp <? 10 then mp + 3 else mp - 9, doy - (153 * mp + 2) / 5 + 1).

Definition march_date (y doy : Z) : Z * Z * Z :=
  let (m, d) := month_day doy in (if m <=? 2 then y + 1 else y, m, d).

(** [days_in_month] with the leap rule decided. *)
Definition month_days (leap : bool) (m : Z) : Z :=
  if m =? 2 then (if leap then 29 else 28)
  else if (m =? 4) || (m =? 6) || (m =? 9) || (m =? 11) then 30 else 31.

(** A day of the year is a day of a month, and the day after it comes next. *)
Definition month_steps (leap : bool) (n : nat) : bool :=
  let doy := Z.of_nat n in
  let (m, d) := month_day doy in
  let (m', d') := month_day (doy + 1) in
  let dm := month_days leap m in
  (1 <=? m) && (m <=? 12) && (1 <=? d) && (d <=? dm) &&
  (if doy + 1 <? (if leap then 366 else 365)
   then if d <? dm then (m' =? m) && (d' =? d + 1)
        else negb (m =? 2) && (d' =? 1) && (m' =? (if m <? 12 then m + 1 else 1))
   else (m =? 2) && (d =? dm)).

Lemma months_step :
  forallb (month_steps true) (seq 0 366) = true ∧ forallb (month_steps false) (seq 0 365) = true.
Proof. vm_compute. done. Qed.

Lemma month_step y doy : 0 ≤ doy < year_length y → month_steps (is_leap (y + 1)) (Z.to_nat doy) = true.
Proof.
  intros H. destruct months_step as [Ht Hf]. unfold year_length in H.
  rewrite -> forallb_forall in Ht, Hf.
  destruct (is_leap (y + 1)); [apply Ht | apply Hf]; apply in_seq; lia.
Qed.

(** Where the month is February, the leap rule is that of the calendar year. *)
Lemma days_in_month_march y m :
  days_in_month (if m <=? 2 then y + 1 else y) m = month_days (is_leap (y + 1)) m.
Proof.
  unfold days_in_month, month_days. destruct (m =? 2) eqn:E; [|done].
  breflect. by subst.
Qed.

Lemma march_date_valid y doy : 0 ≤ doy < year_length y → valid_date (march_date y doy).
Proof.
  intros H. pose proof (month_step y doy H) as E. unfold month_steps in E.
  rewrite -> Z2Nat.id in E by lia. unfold march_date.
  destruct (month_day doy) as [m d], (month_day (doy + 1)) as [m' d'].
  unfold valid_date. rw days_in_month_march. breflect. lia.
Qed.

Lemma march_date_next y doy :
  0 ≤ doy < year_length y →
  next_day (march_date y doy) =
    if doy + 1 <? year_length y then march_date y (doy + 1) else march_date (y + 1) 0.
Proof.
  intros H. pose proof (month_step y doy H) as E. unfold month_steps in E.
  rewrite -> Z2Nat.id in E by lia. unfold march_date, next_day.
  destruct (month_day doy) as [m d], (month_day (doy + 1)) as [m' d'].
  rw days_in_month_march. fold (year_length y) in E.
  change (month_day 0) with (3, 1). cbn [Z.leb Z.compare].
  apply andb_true_iff in E as [E1 E2]. breflect.
  destruct (doy + 1 <? year_length y) eqn:El.
  - destruct (d <? _) eqn:Ed; breflect; [by subst|].
    subst. destruct (m <? 12) eqn:Em; breflect.
    + replace (m + 1 <=? 2) with (m <=? 2); [done|].
      destruct (m <=? 2) eqn:E'; breflect; symmetry; [apply Z.leb_le | apply Z.leb_gt]; lia.
    + by zbool.
  - breflect. subst. rw Z.ltb_irrefl. done.
Qed.

(** ** The source's formula *)

(** [civil_from_days] without the checks, from a day counted from 0000-03-01. *)
Definition date_of (z : Z) : Z * Z * Z :=
  let doe := z mod 146097 in
  let yoe := era_scale doe / 365 in
  march_date (400 * (z / 146097) + yoe) (doe - (365 * yoe + (yoe / 4 - yoe / 100))).

Lemma date_of_located z y d : located z y d → 0 ≤ y → date_of z = march_date y d.
Proof.
  intros H Hy. apply located_era in H as L; [|done]. destruct L as (E1 & E2 & E3).
  destruct H as [_ Hd]. pose proof (Z.mod_pos_bound y 400 ltac:(lia)) as Hm.
  unfold date_of. rw E1 E2. rw year_of_era_exact; [lia | lia |].
  pose proof (Z.div_mod y 400 ltac:(lia)). f_equal; [lia|].
  unfold year_start. rw (Z.div_small _ 400); lia.
Qed.

Lemma date_of_next z : 0 ≤ z → date_of (z + 1) = next_day (date_of z).
Proof.
  intros Hz. destruct (located_exists z Hz) as (y & d & Hy & H).
  rw (date_of_located z y d); [done..|]. rw march_date_next; [apply H|].
  apply located_next in H. destruct (_ <? _).
  - by rw (date_of_located _ y (d + 1)).
  - rw (date_of_located _ (y + 1) 0); [done | lia | done].
Qed.

Lemma date_of_calendar n : date_of (Z.of_nat n + EPOCH_SHIFT_DAYS) = calendar n.
Proof.
  induction n as [|n IH]; [done|]. unfold calendar. rw Nat.iter_succ. fold (calendar n).
  rw -IH -date_of_next; [unfold EPOCH_SHIFT_DAYS; lia|]. f_equal. lia.
Qed.

(** The largest number of days a [u64] clock reaches. *)
Definition MAX_DAYS : Z := 213503982334601.

Lemma to_i64_fits z : I64_MIN ≤ z ≤ I64_MAX → to_i64 z = Some z.
Proof. intros H. unfold to_i64. by zbool. Qed.

Lemma checked_div_fits a b :
  0 ≤ a ≤ I64_MAX → 1 ≤ b → I64.checked_div a b = Some (a / b).
Proof.
  intros Ha Hb. unfold I64.checked_div. zbool. rw Z.quot_div_nonneg; [lia | lia |].
  apply to_i64_fits. unfold I64_MIN. split; [pose proof (Z.div_pos a b); lia|].
  apply Z.div_le_upper_bound; [lia|]. nia.
Qed.

(** One checked step of the formula: the exact result is in range. *)
Ltac i64_step :=
  let fits e z :=
    change e with (to_i64 z);
    rewrite -> (to_i64_fits z) by (unfold I64_MIN, I64_MAX, MAX_DAYS in *; lia) in
  lazymatch goal with
  | |- match I64.checked_add ?a ?b with _ => _ end = _ => fits (I64.checked_add a b) (a + b)
  | |- match I64.checked_sub ?a ?b with _ => _ end = _ => fits (I64.checked_sub a b) (a - b)
  | |- match I64.checked_mul ?a ?b with _ => _ end = _ => fits (I64.checked_mul a b) (a * b)
  | |- match I64.checked_div ?a ?b with _ => _ end = _ =>
      rewrite -> (checked_div_fits a b) by (unfold era_scale, I64_MIN, I64_MAX, MAX_DAYS in *; lia)
  | |- match try_from ?m ?z with _ => _ end = _ =>
      rewrite -> (try_from_fits m z) by (unfold U32_MAX; lia)
  end.

(** The month and day of a day of the year, with the checks. *)
Lemma checked_month_day y doy :
  0 ≤ doy < 366 → 0 ≤ y ≤ 2 ^ 60 →
  (let? m1 := I64.checked_mul doy 5 in
   let? m2 := I64.checked_add m1 2 in
   let? mp := I64.checked_div m2 153 in
   let? e1 := I64.checked_mul mp 153 in
   let? e2 := I64.checked_add e1 2 in
   let? e3 := I64.checked_div e2 5 in
   let? e4 := I64.checked_sub doy e3 in
   let? day := I64.checked_add e4 1 in
   let? month := if mp <? 10 then I64.checked_add mp 3 else I64.checked_sub mp 9 in
   let? year := if month <=? 2 then I64.checked_add y 1 else Some y in
   let? month := try_from U32_MAX month in
   let? day := try_from U32_MAX day in
   Some (year, month, day)) = Some (march_date y doy).
Proof.
  intros Hd Hy.
  assert (0 ≤ (5 * doy + 2) / 153 ≤ 11) as Hmp by (Z.to_euclidean_division_equations; lia).
  assert (0 ≤ doy - (153 * ((5 * doy + 2) / 153) + 2) / 5 ≤ 30) as Hday
    by (Z.to_euclidean_division_equations; lia).
  unfold march_date, month_day.
  i64_step. i64_step. i64_step.
  rw (Z.mul_comm doy 5). set (mp := (5 * doy + 2) / 153) in *.
  i64_step. i64_step. i64_step. rw (Z.mul_comm mp 153).
  i64_step. i64_step.
  replace (if mp <? 10 then I64.checked_add mp 3 else I64.checked_sub mp 9)
    with (Some (if mp <? 10 then mp + 3 else mp - 9))
    by (destruct (mp <? 10); symmetry; apply to_i64_fits; unfold I64_MIN, I64_MAX; lia).
  set (m := if mp <? 10 then mp + 3 else mp - 9).
  assert (1 ≤ m ≤ 12) by (subst m; destruct (mp <? 10) eqn:E; breflect; lia).
  replace (if m <=? 2 then I64.checked_add y 1 else Some y)
    with (Some (if m <=? 2 then y + 1 else y))
    by (destruct (m <=? 2); [|done]; symmetry; apply to_i64_fits; unfold I64_MIN, I64_MAX; lia).
  by do 2 i64_step.
Qed.

Lemma civil_from_days_exact days :
  0 ≤ days ≤ MAX_DAYS → civil_from_days days = Some (date_of (days + EPOCH_SHIFT_DAYS)).
Proof.
  intros Hdays. set (z := days + EPOCH_SHIFT_DAYS).
  assert (0 ≤ z ≤ MAX_DAYS + 719468) as Hz by (subst z; unfold EPOCH_SHIFT_DAYS; lia).
  destruct (located_exists z ltac:(lia)) as (y & d & Hy & H).
  rw (date_of_located z y d); [done..|].
  destruct (located_era z y d H Hy) as (E1 & E2 & E3).
  pose proof (Z.mod_pos_bound y 400 ltac:(lia)) as Hm.
  pose proof (Z.div_mod y 400 ltac:(lia)) as Ey. pose proof (Z.div_mod z 146097 ltac:(lia)) as Ez.
  pose proof (Z.mod_pos_bound z 146097 ltac:(lia)) as Hdoe.
  destruct H as [_ Hd]. pose proof (year_length_bounds y) as Hlen.
  assert (era_scale (z mod 146097) / 365 = y mod 400) as Eyoe
    by (rw E2; apply year_of_era_exact; lia).
  assert (0 ≤ z / 146097 ≤ MAX_DAYS) as Hera
    by (split; [apply Z.div_pos; lia | apply Z.div_le_upper_bound; unfold MAX_DAYS in *; lia]).
  assert (365 * (y mod 400) + ((y mod 400) / 4 - (y mod 400) / 100) = z mod 146097 - d) as Estart.
  { rw E2. unfold year_start. rw (Z.div_small _ 400); lia. }
  unfold civil_from_days. fold z. i64_step. fold z. zbool.
  unfold DAYS_PER_ERA. i64_step. i64_step. i64_step.
  replace (z - z / 146097 * 146097) with (z mod 146097) by lia.
  set (doe := z mod 146097) in *.
  assert (0 ≤ doe / 1460 ≤ 101 ∧ 0 ≤ doe / 36524 ≤ 4 ∧ 0 ≤ doe / 146096 ≤ 1 ∧ doe / 1460 ≤ doe ∧
          doe / 146096 ≤ doe / 36524)
    as (? & ? & ? & ? & ?) by (Z.to_euclidean_division_equations; lia).
  do 7 i64_step. fold (era_scale doe). rw Eyoe. set (yoe := y mod 400) in *.
  assert (0 ≤ yoe / 4 ≤ 100 ∧ 0 ≤ yoe / 100 ≤ 4) as (? & ?) by (Z.to_euclidean_division_equations; lia).
  do 8 i64_step.
  replace (doe - (yoe * 365 + (yoe / 4 - yoe / 100))) with d by lia.
  replace (yoe + z / 146097 * 400) with y by lia.
  apply checked_month_day; unfold MAX_DAYS in *; lia.
Qed.

(** ** Order of dates *)

Definition date_lt (a b : Z * Z * Z) : Prop :=
  let '(y, m, d) := a in
  let '(y', m', d') := b in
  y < y' ∨ (y = y' ∧ (m < m' ∨ (m = m' ∧ d < d'))).

#[global] Instance date_lt_trans : Transitive date_lt.
Proof. intros [[y m] d] [[y' m'] d'] [[y'' m''] d'']. unfold date_lt. lia. Qed.

Lemma next_day_lt d : date_lt d (next_day d).
Proof.
  destruct d as [[y m] d]. unfold next_day.
  destruct (d <? _); [|destruct (m <? 12)]; unfold date_lt; lia.
Qed.

Lemma days_in_month_bounds y m : 28 ≤ days_in_month y m ≤ 31.
Proof. unfold days_in_month. repeat case_match; lia. Qed.

Lemma next_day_valid d : valid_date d → valid_date (next_day d).
Proof.
  destruct d as [[y m] d]. unfold next_day, valid_date. intros H.
  destruct (d <? days_in_month y m) eqn:E1; breflect; [lia|].
  destruct (m <? 12) eqn:E2; breflect.
  - pose proof (days_in_month_bounds y (m + 1)). lia.
  - pose proof (days_in_month_bounds (y + 1) 1). lia.
Qed.

Lemma calendar_succ n : calendar (S n) = next_day (calendar n).
Proof. apply Nat.iter_succ. Qed.

Lemma calendar_valid n : valid_date (calendar n).
Proof.
  induction n as [|n IH]; [vm_compute; split; split; discriminate|].
  rw calendar_succ. by apply next_day_valid.
Qed.

Lemma calendar_lt n k : (n < k)%nat → date_lt (calendar n) (calendar k).
Proof.
  induction 1 as [|k Hk IH]; rw calendar_succ; [apply next_day_lt|].
  etrans; [exact IH | apply next_day_lt].
Qed.

(** The last day of the year 9999. *)
Definition LAST_DAY : Z := 2932896.

Lemma calendar_last : calendar (Z.to_nat LAST_DAY) = (9999, 12, 31).
Proof.
  rw -date_of_calendar. unfold LAST_DAY. rw Z2Nat.id; [lia|]. by vm_compute.
Qed.

Lemma calendar_year_bound n y m d :
  Z.of_nat n ≤ LAST_DAY → calendar n = (y, m, d) → 1970 ≤ y ≤ 9999.
Proof.
  intros Hn E. split.
  - destruct n as [|n]; [injection E as <- _ _; lia|].
    pose proof (calendar_lt 0 (S n) ltac:(lia)) as H. rw E in H.
    change (calendar 0) with (1970, 1, 1) in H. unfold date_lt in H. lia.
  - destruct (decide (Z.of_nat n = LAST_DAY)) as [El|Hne].
    + replace n with (Z.to_nat LAST_DAY) in E by lia. rw calendar_last in E. by simplify_eq.
    + pose proof (calendar_lt n (Z.to_nat LAST_DAY) ltac:(lia)) as H.
      rw E calendar_last in H. unfold date_lt in H. lia.
Qed.

Lemma date_text_lt a b r s :
  valid_date a → valid_date b → date_lt a b → 0 ≤ a.1.1 → b.1.1 ≤ 9999 →
  str_lt (Utc.date_text a ++ r) (Utc.date_text b ++ s) = true.
Proof.
  destruct a as [[y m] d], b as [[y' m'] d']. unfold valid_date, date_lt, Utc.date_text. cbn [fst].
  pose proof (days_in_month_bounds y m). pose proof (days_in_month_bounds y' m').
  intros Ha Hb Hlt Hy Hy'. unfold pad_signed. zbool. rewrite <- !app_assoc.
  destruct (decide (y = y')) as [->|]; [|apply str_lt_pad; lia].
  rw !str_lt_prefix. destruct (decide (m = m')) as [->|]; [|apply str_lt_pad; lia].
  rw !str_lt_prefix. apply str_lt_pad; lia.
Qed.

Lemma length_date_text y m d :
  valid_date (y, m, d) → 0 ≤ y ≤ 9999 → length (Utc.date_text (y, m, d)) = 10%nat.
Proof.
  unfold valid_date, Utc.date_text, pad_signed. pose proof (days_in_month_bounds y m).
  intros Hv Hy. zbool.
  rewrite -> !length_app, !length_pad_decimal by lia. done.
Qed.

(** ** Properties *)

(** The day a clock value falls on. *)
Lemma civil_of_seconds s :
  0 ≤ s ≤ U64_MAX →
  Utc.civil (Utc.mk s) = Ok (calendar (Z.to_nat (s / SECONDS_PER_DAY))).
Proof.
  intros Hs. unfold Utc.civil, u64_checked_div. cbn [Utc.seconds]. change (SECONDS_PER_DAY =? 0) with false.
  cbn match. assert (0 ≤ s / SECONDS_PER_DAY ≤ MAX_DAYS) as Hd.
  { unfold SECONDS_PER_DAY, MAX_DAYS. split; [apply Z.div_pos; lia|].
    apply Z.lt_succ_r, Z.div_lt_upper_bound; unfold U64_MAX in *; lia. }
  rw to_i64_fits; [unfold I64_MIN, I64_MAX, MAX_DAYS in *; lia|].
  rw civil_from_days_exact; [done|]. rw -date_of_calendar. rw Z2Nat.id; [lia|]. done.
Qed.

Lemma date_of_seconds s :
  0 ≤ s ≤ U64_MAX →
  Utc.date (Utc.mk s) = Ok (Utc.date_text (calendar (Z.to_nat (s / SECONDS_PER_DAY)))).
Proof. intros Hs. unfold Utc.date. by rw civil_of_seconds. Qed.

(** C30. The runner's dates are the calendar's: for every value of a [u64] clock the date
    [Utc::civil] computes exists (no checked step overflows) and is the date reached by
    counting days from 1970-01-01 with the leap rule, one at a time; it is a valid day
    of a valid month. *)
Theorem civil_exact (s : Z) (H : 0 ≤ s ≤ U64_MAX) :
  Utc.civil (Utc.mk s) = Ok (calendar (Z.to_nat (s / SECONDS_PER_DAY))) ∧
  valid_date (calendar (Z.to_nat (s / SECONDS_PER_DAY))).
Proof. split; [by apply civil_of_seconds | apply calendar_valid]. Qed.

(** Noon of the leap day of 2024, and the last second a [u64] holds. *)
Lemma civil_exact_witness :
  (Utc.civil (Utc.mk 1709210096) = Ok (calendar (Z.to_nat (1709210096 / SECONDS_PER_DAY))) ∧
   valid_date (calendar (Z.to_nat (1709210096 / SECONDS_PER_DAY)))) ∧
  Utc.civil (Utc.mk 1709210096) = Ok (2024, 2, 29).
Proof.
  split; [apply (civil_exact 1709210096); unfold U64_MAX; lia | vm_compute; reflexivity].
Defined.

(** Dates sort as text: of two days up to the year 9999 the earlier one has the smaller
    text, whatever follows it, and every date has ten characters. Record names start
    with a date, so the greatest name is a latest one. *)
Theorem date_text_sorted (s1 s2 : Z) (r1 r2 : text)
  (H1 : 0 ≤ s1) (H2 : s1 / SECONDS_PER_DAY < s2 / SECONDS_PER_DAY)
  (H3 : s2 < (LAST_DAY + 1) * SECONDS_PER_DAY) :
  ∃ d1 d2, Utc.date (Utc.mk s1) = Ok d1 ∧ Utc.date (Utc.mk s2) = Ok d2 ∧
           length d1 = 10%nat ∧ length d2 = 10%nat ∧ str_lt (d1 ++ r1) (d2 ++ r2) = true.
Proof.
  assert (s1 < s2) as Hlt.
  { destruct (Z_lt_le_dec s1 s2) as [|Hle]; [done|].
    pose proof (Z.div_le_mono s2 s1 SECONDS_PER_DAY ltac:(done) Hle). lia. }
  assert (s2 / SECONDS_PER_DAY ≤ LAST_DAY) as Hlast
    by (apply Z.lt_succ_r, Z.div_lt_upper_bound; unfold SECONDS_PER_DAY in *; lia).
  pose proof (Z.div_pos s1 SECONDS_PER_DAY H1 ltac:(done)) as Hp.
  assert (0 ≤ s2 ≤ U64_MAX) by (unfold LAST_DAY, SECONDS_PER_DAY, U64_MAX in *; lia).
  assert (Hc := calendar_lt (Z.to_nat (s1 / SECONDS_PER_DAY)) (Z.to_nat (s2 / SECONDS_PER_DAY))
                  ltac:(lia)).
  pose proof (calendar_valid (Z.to_nat (s1 / SECONDS_PER_DAY))) as V1.
  pose proof (calendar_valid (Z.to_nat (s2 / SECONDS_PER_DAY))) as V2.
  eexists _, _. split; [apply date_of_seconds; lia|]. split; [apply date_of_seconds; lia|].
  destruct (calendar (Z.to_nat (s1 / _))) as [[y1 m1] d1] eqn:E1.
  destruct (calendar (Z.to_nat (s2 / _))) as [[y2 m2] d2] eqn:E2.
  apply calendar_year_bound in E1; [|lia]. apply calendar_year_bound in E2; [|lia].
  split; [apply length_date_text; [done | lia]|]. split; [apply length_date_text; [done | lia]|].
  apply date_text_lt; cbn [fst]; [done | done | done | lia | lia].
Qed.

Lemma date_text_sorted_witness :
  ∃ d1 d2, Utc.date (Utc.mk 1709210096) = Ok d1 ∧ Utc.date (Utc.mk 1789430400) = Ok d2 ∧
           length d1 = 10%nat ∧ length d2 = 10%nat ∧
           str_lt (d1 ++ str "-99-z") (d2 ++ str "-01-a") = true.
Proof.
  apply (date_text_sorted 1709210096 1789430400 (str "-99-z") (str "-01-a"));
    [lia | vm_compute; reflexivity | vm_compute; reflexivity].
Defined.

(** ** Timestamps *)

Definition clock_text (t : Z) : text :=
  zero_pad 2 (decimal (t / SECONDS_PER_HOUR)) ++ [58] ++
  zero_pad 2 (decimal (t mod SECONDS_PER_HOUR / SECONDS_PER_MINUTE)) ++ [58] ++
  zero_pad 2 (decimal (t mod SECONDS_PER_HOUR mod SECONDS_PER_MINUTE)) ++ [90].

Lemma timestamp_of_seconds s :
  0 ≤ s ≤ U64_MAX →
  Utc.timestamp (Utc.mk s) =
    Ok (Utc.date_text (calendar (Z.to_nat (s / SECONDS_PER_DAY))) ++ [84] ++
        clock_text (s mod SECONDS_PER_DAY)).
Proof. intros Hs. unfold Utc.timestamp. by rw civil_of_seconds. Qed.

Lemma clock_text_lt t u :
  0 ≤ t → t < u → u < SECONDS_PER_DAY → str_lt (clock_text t) (clock_text u) = true.
Proof.
  unfold clock_text, SECONDS_PER_DAY, SECONDS_PER_HOUR, SECONDS_PER_MINUTE. intros Ht Hu Hd.
  destruct (decide (t / 3600 = u / 3600)) as [E|].
  - rw E !str_lt_prefix.
    destruct (decide (t mod 3600 / 60 = u mod 3600 / 60)) as [E'|].
    + rw E' !str_lt_prefix. apply str_lt_pad; Z.to_euclidean_division_equations; lia.
    + apply str_lt_pad; Z.to_euclidean_division_equations; lia.
  - apply str_lt_pad; Z.to_euclidean_division_equations; lia.
Qed.

(** Timestamps sort as the instants: up to the year 9999, of two seconds the earlier one
    has the smaller timestamp, so the journal's [started] texts order its attempts. *)
Theorem timestamp_sorted (s1 s2 : Z) (H1 : 0 ≤ s1) (H2 : s1 < s2)
  (H3 : s2 < (LAST_DAY + 1) * SECONDS_PER_DAY) :
  ∃ t1 t2, Utc.timestamp (Utc.mk s1) = Ok t1 ∧ Utc.timestamp (Utc.mk s2) = Ok t2 ∧
           str_lt t1 t2 = true.
Proof.
  assert (0 ≤ s2 ≤ U64_MAX) by (unfold LAST_DAY, SECONDS_PER_DAY, U64_MAX in *; lia).
  eexists _, _. split; [apply timestamp_of_seconds; lia|].
  split; [apply timestamp_of_seconds; lia|].
  assert (s2 / SECONDS_PER_DAY ≤ LAST_DAY) as Hlast
    by (apply Z.lt_succ_r, Z.div_lt_upper_bound; unfold SECONDS_PER_DAY in *; lia).
  pose proof (Z.div_pos s1 SECONDS_PER_DAY H1 ltac:(done)) as Hp.
  pose proof (Z.div_le_mono s1 s2 SECONDS_PER_DAY ltac:(done) ltac:(lia)) as Hle.
  destruct (decide (s1 / SECONDS_PER_DAY = s2 / SECONDS_PER_DAY)) as [E|].
  - rw E !str_lt_prefix. apply clock_text_lt.
    + by apply Z.mod_pos_bound.
    + pose proof (Z.div_mod s1 SECONDS_PER_DAY ltac:(done)).
      pose proof (Z.div_mod s2 SECONDS_PER_DAY ltac:(done)). lia.
    + by apply Z.mod_pos_bound.
  - assert (Hc := calendar_lt (Z.to_nat (s1 / SECONDS_PER_DAY)) (Z.to_nat (s2 / SECONDS_PER_DAY))
                    ltac:(lia)).
    apply date_text_lt; [apply calendar_valid.. | done | |].
    + destruct (calendar (Z.to_nat (s1 / _))) as [[y m] d] eqn:E1.
      apply calendar_year_bound in E1; cbn; lia.
    + destruct (calendar (Z.to_nat (s2 / _))) as [[y m] d] eqn:E2.
      apply calendar_year_bound in E2; cbn; lia.
Qed.

Lemma timestamp_sorted_witness :
  ∃ t1 t2, Utc.timestamp (Utc.mk 1709210096) = Ok t1 ∧ Utc.timestamp (Utc.mk 1709210101) = Ok t2 ∧
           str_lt t1 t2 = true.
Proof.
  apply (timestamp_sorted 1709210096 1709210101); [lia | lia | vm_compute; reflexivity].
Defined.
