(* ===== verification/Identity.v ===== *)
(** * Evidence identity and repository facts

    [src/tools/validation-runner/src/identity.rs], [repo.rs] and [process.rs]: the
    inputs a result is valid under and their digest, and what the runner asks of git. *)

From S2P Require Export Json.

(** ** The digest ([identity.rs]) *)

Definition OFFSET_BASIS : Z := 0xcbf29ce484222325.
Definition PRIME : Z := 0x00000100000001b3.

(** One round of the loop: [hash ^= byte; hash = hash.wrapping_mul(PRIME)]. *)
Definition hash_byte (hash byte : Z) : Z := (Z.lxor hash byte * PRIME) mod (U64_MAX + 1).

Definition digest (value : text) : text :=
  zero_pad 16 (hexadecimal (fold_left hash_byte (as_bytes value) OFFSET_BASIS)).

Module EvidenceIdentity.
Record t := mk {
  subject_revision : text;
  campaign_definition : text;
  toolchain : text;
  target : text;
  features : text
}.
#[global] Instance eq_dec : EqDecision t.
Proof. solve_decision. Defined.

(** The text the digest is taken of. *)
Definition format (i : t) : text :=
  subject_revision i ++ [124] ++ campaign_definition i ++ [124] ++ toolchain i ++ [124] ++
  target i ++ [124] ++ features i.

(** The method [EvidenceIdentity::digest]. *)
Definition digest_of (i : t) : text := digest (format i).

Definition to_json (i : t) : Object.t :=
  let object := Object.new in
  let object := Object.string object (str "subject_revision") (subject_revision i) in
  let object := Object.string object (str "campaign_definition") (campaign_definition i) in
  let object := Object.string object (str "toolchain") (toolchain i) in
  let object := Object.string object (str "target") (target i) in
  let object := Object.string object (str "features") (features i) in
  Object.string object (str "digest") (digest_of i).
End EvidenceIdentity.

(** The loop of [host_target]. *)
Fixpoint find_host (ls : list text) : text :=
  match ls with
  | [] => []
  | line :: ls' =>
      match strip_prefix (str "host: ") line with
      | Some value => trim value
      | None => find_host ls'
      end
  end.

Section host.
Context (h : Host).

Definition host_target : M text :=
  do* verbose <- capture h (str "rustc") [str "--version"; str "--verbose"];
  ret (find_host (lines verbose)).

(** [EvidenceIdentity::resolve]. *)
Definition resolve (subject_revision campaign_definition : text) : M EvidenceIdentity.t :=
  do* toolchain <- capture h (str "rustc") [str "--version"];
  do* target <- host_target;
  ret (EvidenceIdentity.mk subject_revision campaign_definition toolchain target (str "default")).

(** ** The repository ([repo.rs]) *)

Definition COMMIT_IDENTITY_LENGTH : Z := 40.

Definition is_commit_identity (value : text) : bool :=
  (str_len value =? COMMIT_IDENTITY_LENGTH) && forallb is_ascii_hexdigit value.

(** [repo::root]: the path git names. *)
Definition repository_root : M text :=
  do* output <- capture h (str "git") [str "rev-parse"; str "--show-toplevel"];
  if is_empty output then lift (failed (str "the repository root could not be resolved"))
  else ret output.

Definition subject_revision : M text :=
  do* revision <- capture h (str "git") [str "rev-parse"; str "HEAD"];
  if is_commit_identity revision then ret revision
  else lift (failed (str "`git rev-parse HEAD` returned `" ++ revision ++
                     str "`, which is not a commit identity")).

Definition working_tree_changes : M (list text) :=
  do* output <- capture h (str "git") [str "status"; str "--porcelain"];
  ret (filter (λ line, negb (is_empty line)) (map trim (lines output))).

End host.

(** ** Lemmas *)

(** The prime has an inverse modulo 2^64, so a round loses nothing of the hash. *)
Definition PRIME_INVERSE : Z := 14886173955864302971.

Lemma lxor_u64 a b : 0 ≤ a ≤ U64_MAX → 0 ≤ b ≤ U64_MAX → 0 ≤ Z.lxor a b ≤ U64_MAX.
Proof.
  intros Ha Hb.
  assert (Z.lxor a b = Z.lxor a b mod 2 ^ 64) as ->.
  { rewrite <- (Z.land_ones (Z.lxor a b)) by lia.
    apply Z.bits_inj'. intros n Hn. rw Z.land_spec Z.lxor_spec Z.testbit_ones_nonneg; [lia..|].
    destruct (n <? 64) eqn:E; breflect; [by rw andb_true_r|].
    rw andb_false_r.
    assert (∀ z, 0 ≤ z ≤ U64_MAX → Z.testbit z n = false) as F.
    { intros z Hz. destruct (decide (z = 0)) as [->|]; [apply Z.bits_0|].
      apply Z.bits_above_log2; [lia|]. apply Z.log2_lt_pow2; [lia|].
      assert (2 ^ 64 ≤ 2 ^ n) by (apply Z.pow_le_mono_r; lia).
      change (2 ^ 64) with (U64_MAX + 1) in *. lia. }
    by rw !F. }
  pose proof (Z.mod_pos_bound (Z.lxor a b) (2 ^ 64) ltac:(lia)).
  change (2 ^ 64) with (U64_MAX + 1) in *. lia.
Qed.

Lemma hash_byte_bound hash b : 0 ≤ hash_byte hash b ≤ U64_MAX.
Proof.
  unfold hash_byte. pose proof (Z.mod_pos_bound (Z.lxor hash b * PRIME) (U64_MAX + 1) ltac:(done)).
  lia.
Qed.

Lemma hash_byte_inj hash hash' b b' :
  0 ≤ hash ≤ U64_MAX → 0 ≤ hash' ≤ U64_MAX → 0 ≤ b < 256 → 0 ≤ b' < 256 →
  hash_byte hash b = hash_byte hash' b' → Z.lxor hash b = Z.lxor hash' b'.
Proof.
  intros H H' Hb Hb' E. unfold hash_byte in E.
  pose proof (lxor_u64 hash b H ltac:(unfold U64_MAX; lia)) as B.
  pose proof (lxor_u64 hash' b' H' ltac:(unfold U64_MAX; lia)) as B'.
  assert (∀ x, 0 ≤ x ≤ U64_MAX →
    (x * PRIME) mod (U64_MAX + 1) * PRIME_INVERSE mod (U64_MAX + 1) = x) as I.
  { intros x Hx. rw Z.mul_mod_idemp_l; [done|]. rw -Z.mul_assoc.
    rw -Z.mul_mod_idemp_r; [done|]. change ((PRIME * PRIME_INVERSE) mod (U64_MAX + 1)) with 1.
    rw Z.mul_1_r. apply Z.mod_small. lia. }
  by rw -(I _ B) -(I _ B') E.
Qed.

Definition is_byte (b : Z) : Prop := 0 ≤ b < 256.

Lemma hash_bound bs hash : 0 ≤ hash ≤ U64_MAX → 0 ≤ fold_left hash_byte bs hash ≤ U64_MAX.
Proof.
  revert hash. induction bs as [|b bs IH]; intros hash H; simpl; [done|].
  apply IH, hash_byte_bound.
Qed.

(** The rest of the input keeps two hashes apart. *)
Lemma hash_suffix bs hash hash' :
  Forall is_byte bs → 0 ≤ hash ≤ U64_MAX → 0 ≤ hash' ≤ U64_MAX →
  fold_left hash_byte bs hash = fold_left hash_byte bs hash' → hash = hash'.
Proof.
  intros Hbs. revert hash hash'. induction Hbs as [|b bs Hb Hbs IH]; intros hash hash' H H' E;
    [done|]. simpl in E. apply IH in E; [|apply hash_byte_bound..].
  apply hash_byte_inj in E; [|done..].
  apply (f_equal (λ x, Z.lxor x b)) in E. by rw !Z.lxor_assoc Z.lxor_nilpotent !Z.lxor_0_r in E.
Qed.

Lemma hash_changed p a b s :
  Forall is_byte s → is_byte a → is_byte b → a ≠ b →
  fold_left hash_byte (p ++ a :: s) OFFSET_BASIS ≠ fold_left hash_byte (p ++ b :: s) OFFSET_BASIS.
Proof.
  intros Hs Ha Hb Hab E. rw !fold_left_app in E. cbn [fold_left] in E.
  pose proof (hash_bound p OFFSET_BASIS ltac:(done)) as Hp.
  apply hash_suffix in E; [|done | apply hash_byte_bound..].
  apply hash_byte_inj in E; [|done..].
  apply (f_equal (Z.lxor (fold_left hash_byte p OFFSET_BASIS))) in E.
  by rw -!Z.lxor_assoc Z.lxor_nilpotent !Z.lxor_0_l in E.
Qed.

Lemma as_bytes_app s r : as_bytes (s ++ r) = as_bytes s ++ as_bytes r.
Proof. unfold as_bytes. by rw map_app concat_app. Qed.

Lemma utf8_char_bytes c : 0 ≤ c ≤ 0x10FFFF → Forall is_byte (utf8_char c).
Proof.
  intros Hc. unfold utf8_char. repeat case_match; breflect; repeat constructor;
    unfold is_byte; Z.to_euclidean_division_equations; lia.
Qed.

Lemma as_bytes_bytes s : Forall (λ c, 0 ≤ c ≤ 0x10FFFF) s → Forall is_byte (as_bytes s).
Proof.
  intros H. unfold as_bytes. apply Forall_concat, Forall_map.
  eapply Forall_impl; [done|]. apply utf8_char_bytes.
Qed.

(** Hexadecimal digits of equal width determine the number. *)
Lemma hex_pad_inj w n k :
  0 ≤ n → 0 ≤ k → zero_pad w (hexadecimal n) = zero_pad w (hexadecimal k) → n = k.
Proof.
  intros Hn Hk E. unfold hexadecimal in E. rw !zero_pad_digits in E.
  set (dn := replicate (w - length (digits 16 n)) 0 ++ digits 16 n) in E.
  set (dk := replicate (w - length (digits 16 k)) 0 ++ digits 16 k) in E.
  assert (Forall (λ d, 0 ≤ d < 16) dn ∧ value 16 dn = n) as [Bn Vn].
  { split; [|subst dn; rw value_from_zeroes; [done|]; apply digits_value; lia].
    apply Forall_app. split; [apply Forall_replicate; lia | apply digits_bound; lia]. }
  assert (Forall (λ d, 0 ≤ d < 16) dk ∧ value 16 dk = k) as [Bk Vk].
  { split; [|subst dk; rw value_from_zeroes; [done|]; apply digits_value; lia].
    apply Forall_app. split; [apply Forall_replicate; lia | apply digits_bound; lia]. }
  pose proof (accumulate_digits (Z.max n k) 16 0 dn ltac:(lia) ltac:(lia) Bn ltac:(lia)) as An.
  pose proof (accumulate_digits (Z.max n k) 16 0 dk ltac:(lia) ltac:(lia) Bk ltac:(lia)) as Ak.
  rw E Ak in An. injection An as An. lia.
Qed.

(** ** Properties *)

Lemma digest_length s : length (digest s) = 16%nat.
Proof.
  unfold digest. apply length_zero_pad. unfold hexadecimal. rw length_map.
  apply digits_length; [lia | | lia].
  pose proof (hash_bound (as_bytes s) OFFSET_BASIS ltac:(done)). unfold U64_MAX in *. lia.
Qed.

Lemma digest_changed p a b s :
  Forall (λ c, 0 ≤ c ≤ 0x10FFFF) s → 0 ≤ a < 0x80 → 0 ≤ b < 0x80 → a ≠ b →
  digest (p ++ a :: s) ≠ digest (p ++ b :: s).
Proof.
  intros Hs Ha Hb Hab E. unfold digest in E.
  apply hex_pad_inj in E; [|apply hash_bound; done..].
  rw !as_bytes_app in E.
  assert (∀ c, 0 ≤ c < 0x80 → as_bytes (c :: s) = c :: as_bytes s) as C.
  { intros c Hc. unfold as_bytes. rw map_cons. cbn [concat].
    replace (utf8_char c) with [c] by (unfold utf8_char; by zbool). done. }
  rw !C in E; [done..|].
  revert E. apply hash_changed; [by apply as_bytes_bytes | unfold is_byte; lia.. | done].
Qed.

(** The identity digest detects a changed input: two inputs that differ in one ASCII
    character, anywhere, have different digests of sixteen characters each. So one
    changed digit of the revision, or one changed character of the toolchain, changes
    the digest a result is recorded under. *)
Theorem digest_detects_change (p s : text) (a b : Z)
  (Hs : Forall (λ c, 0 ≤ c ≤ 0x10FFFF) s) (Ha : 0 ≤ a < 0x80) (Hb : 0 ≤ b < 0x80) (Hab : a ≠ b) :
  digest (p ++ a :: s) ≠ digest (p ++ b :: s) ∧ length (digest (p ++ a :: s)) = 16%nat.
Proof. split; [by apply digest_changed | apply digest_length]. Qed.

Lemma digest_detects_change_witness :
  digest (str "rustc 1.9" ++ 56 :: str ".0") ≠ digest (str "rustc 1.9" ++ 57 :: str ".0") ∧
  length (digest (str "rustc 1.9" ++ 56 :: str ".0")) = 16%nat.
Proof.
  apply (digest_detects_change (str "rustc 1.9") (str ".0") 56 57); [|lia..].
  repeat constructor; vm_compute; discriminate.
Defined.
