(* ===== verification/Segment.v ===== *)
(** * Segment execution

    [src/tools/validation-runner/src/segment.rs]: statuses, steps, and one attempt of a
    segment under its wall-clock budget. A [Duration] is a number of nanoseconds.

    The abstract description of an attempt is [attempt_spec]: the steps in order up to
    the first that does not succeed, with the transcript the evidence file holds. *)

From S2P Require Export Json.

(** [Duration::from_millis(25)]. *)
Definition POLL_INTERVAL : Z := 25000000.

Module Status.
Inductive t := Pass | Fail | Timeout | Skipped | Cached.
#[global] Instance eq_dec : EqDecision t.
Proof. solve_decision. Defined.

Definition as_str (s : t) : text :=
  match s with
  | Pass => str "pass"
  | Fail => str "fail"
  | Timeout => str "timeout"
  | Skipped => str "skipped"
  | Cached => str "cached"
  end.

Definition parse (value : text) : option t :=
  if bool_decide (value = str "pass") then Some Pass
  else if bool_decide (value = str "fail") then Some Fail
  else if bool_decide (value = str "timeout") then Some Timeout
  else if bool_decide (value = str "skipped") then Some Skipped
  else if bool_decide (value = str "cached") then Some Cached
  else None.

Definition holds (s : t) : bool :=
  match s with Pass | Cached => true | _ => false end.

Definition executed (s : t) : bool :=
  match s with Cached => false | _ => true end.
End Status.

Module Step.
Record t := mk { program : text; args : list text }.

Definition display (s : t) : text :=
  if is_empty (args s) then program s
  else program s ++ str " " ++ join (str " ") (args s).
End Step.

Module Outcome.
Record t := mk { status : Status.t; duration : Z; note : option text }.
End Outcome.

Module StepResult.
Inductive t :=
| Passed
| Failed (note : text)
| TimedOut.
End StepResult.

Definition describe_exit (code : option Z) : text :=
  match code with
  | None => str "termination by signal"
  | Some code => str "exit status " ++ pad_signed 0 code
  end.

(** The notes of the three ways a step does not succeed. *)
Definition start_note (step : Step.t) (error : text) : text :=
  str "`" ++ Step.display step ++ str "` could not start: " ++ error.
Definition exit_note (step : Step.t) (status : exit_status) : text :=
  str "`" ++ Step.display step ++ str "` reported " ++ describe_exit (code status).
Definition timeout_note (step : Step.t) : text :=
  str "`" ++ Step.display step ++ str "` exceeded the segment budget".

(** ** One step *)

(** The reading of [started.elapsed()] after the [n]-th poll of a child: a sleep takes at
    least the time asked for. *)
Definition poll_elapsed (c : Child.t) (n : nat) : Z :=
  Z.of_nat n * POLL_INTERVAL + Z.of_N (Child.delay c n).

(** The loop of [run_step] on a child, from its [n]-th poll; [None] is the time limit. *)
Fixpoint poll_loop (c : Child.t) (remaining : Z) (fuel n : nat) :
  result (option exit_status) text :=
  match fuel with
  | O => Ok None
  | S f =>
      match Child.try_wait c n with
      | Err e => Err e
      | Ok (Some status) => Ok (Some status)
      | Ok None =>
          if remaining <=? poll_elapsed c n then
            match Child.kill c with Err e => Err e | Ok _ => Ok None end
          else poll_loop c remaining f (S n)
      end
  end.

(** The polls before the budget is used up. *)
Definition poll_fuel (remaining : Z) : nat := S (S (Z.to_nat (remaining / POLL_INTERVAL))).

Definition poll (c : Child.t) (remaining : Z) : result (option exit_status) text :=
  poll_loop c remaining (poll_fuel remaining) 0.

Section host.
Context (h : Host).

(** [started.elapsed()] against the monotonic clock. *)
Definition elapsed (started : Z) : M Z :=
  do* now <- ask h instant; ret (Z.max 0 (now - started)).

Definition run_step (step : Step.t) (remaining : Z) (l : location) (f : file) :
  M StepResult.t :=
  run* system_call h;
  run* system_call h;
  do* spawned <- start h (Step.program step) (Step.args step);
  match spawned with
  | Err error => ret (StepResult.Failed (start_note step error))
  | Ok child =>
      run* write_file l f (λ old, unwrap_or old [] ++ Child.output child);
      match poll child remaining with
      | Err e => lift (Err (Error.Io e))
      | Ok None => ret StepResult.TimedOut
      | Ok (Some status) =>
          ret (if success status then StepResult.Passed
               else StepResult.Failed (exit_note step status))
      end
  end.

Definition timed_out (l : location) (f : file) (step : Step.t) (duration : Z) : M Outcome.t :=
  let note := timeout_note step in
  run* append_text h l f (str "[" ++ note ++ str "]" ++ [NEWLINE]);
  run* sync_all h;
  ret (Outcome.mk Status.Timeout duration (Some note)).

Fixpoint execute_steps (steps : list Step.t) (budget started : Z) (l : location) (f : file) :
  M Outcome.t :=
  match steps with
  | [] => do* duration <- elapsed started; ret (Outcome.mk Status.Pass duration None)
  | step :: steps' =>
      run* append_text h l f (str "$ " ++ Step.display step ++ [NEWLINE]);
      run* sync_all h;
      do* used <- elapsed started;
      if budget <? used then do* duration <- elapsed started; timed_out l f step duration
      else
        do* outcome <- run_step step (budget - used) l f;
        match outcome with
        | StepResult.Passed => execute_steps steps' budget started l f
        | StepResult.Failed note =>
            run* append_text h l f (str "[" ++ note ++ str "]" ++ [NEWLINE]);
            run* sync_all h;
            do* duration <- elapsed started;
            ret (Outcome.mk Status.Fail duration (Some note))
        | StepResult.TimedOut =>
            do* duration <- elapsed started; timed_out l f step duration
        end
  end.

(** [segment::execute]; the evidence file is [f] of the record at [l]. *)
Definition execute_segment (steps : list Step.t) (budget : Z) (l : location) (f : file) :
  M Outcome.t :=
  run* create_file h l f;
  do* started <- ask h instant;
  execute_steps steps budget started l f.

(** [segment::probe]. *)
Definition probe (step : Step.t) : M bool := 
  ask h (λ h n, probes h n (Step.program step) (Step.args step)).

End host.

(** ** The abstract description *)

(** The transcript lines of a step and of a note. *)
Definition command_line (step : Step.t) : text := str "$ " ++ Step.display step ++ [NEWLINE].
Definition note_line (note : text) : text := str "[" ++ note ++ str "]" ++ [NEWLINE].

(** What an attempt of these steps may come to: a status, a note, and the transcript. *)
Inductive attempt_spec : list Step.t → Status.t → option text → text → Prop :=
| attempt_all_passed : attempt_spec [] Status.Pass None []
| attempt_step_passed step steps c remaining status st note log :
    poll c remaining = Ok (Some status) → success status = true →
    attempt_spec steps st note log →
    attempt_spec (step :: steps) st note (command_line step ++ Child.output c ++ log)
| attempt_step_failed step steps c remaining status :
    poll c remaining = Ok (Some status) → success status = false →
    attempt_spec (step :: steps) Status.Fail (Some (exit_note step status))
      (command_line step ++ Child.output c ++ note_line (exit_note step status))
| attempt_not_started step steps error :
    attempt_spec (step :: steps) Status.Fail (Some (start_note step error))
      (command_line step ++ note_line (start_note step error))
| attempt_stopped step steps c remaining :
    poll c remaining = Ok None →
    attempt_spec (step :: steps) Status.Timeout (Some (timeout_note step))
      (command_line step ++ Child.output c ++ note_line (timeout_note step))
| attempt_out_of_time step steps :
    attempt_spec (step :: steps) Status.Timeout (Some (timeout_note step))
      (command_line step ++ note_line (timeout_note step)).
