(* ===== verification/SegmentTheorems.v ===== *)
(** * Segment execution: lemmas and properties

    An attempt refines its abstract description ([attempt_refines]): its status, its note
    and the evidence file agree, and no other file changes. The poll loop ends within
    the budget ([poll_unfold], [poll_bounded]). *)

From S2P Require Export Segment.

(** ** The poll loop *)

Lemma poll_elapsed_lower c n : Z.of_nat n * POLL_INTERVAL ≤ poll_elapsed c n.
Proof. unfold poll_elapsed. lia. Qed.

(** Fuel for the polls up to the budget is fuel enough. *)
Lemma poll_loop_fuel c remaining f g n :
  remaining ≤ Z.of_nat (f + n - 1) * POLL_INTERVAL → (1 ≤ f)%nat →
  remaining ≤ Z.of_nat (g + n - 1) * POLL_INTERVAL → (1 ≤ g)%nat →
  poll_loop c remaining f n = poll_loop c remaining g n.
Proof.
  revert g n. induction f as [|f IH]; intros [|g] n Hf Hf1 Hg Hg1; try lia.
  cbn [poll_loop]. destruct (Child.try_wait c n) as [[st|]|e]; [done | | done].
  destruct (remaining <=? poll_elapsed c n) eqn:E; [done|]. breflect.
  pose proof (poll_elapsed_lower c n).
  assert (1 ≤ f ∧ 1 ≤ g)%nat as [? ?].
  { split; [destruct f | destruct g]; try lia; exfalso.
    - replace (1 + n - 1)%nat with n in Hf by lia. lia.
    - replace (1 + n - 1)%nat with n in Hg by lia. lia. }
  apply IH; try done.
  - replace (f + S n - 1)%nat with (S f + n - 1)%nat by lia. done.
  - replace (g + S n - 1)%nat with (S g + n - 1)%nat by lia. done.
Qed.

Lemma poll_fuel_enough remaining :
  0 ≤ remaining → remaining ≤ Z.of_nat (poll_fuel remaining + 0 - 1) * POLL_INTERVAL.
Proof.
  intros H. unfold poll_fuel. pose proof (Z.div_pos remaining POLL_INTERVAL H ltac:(done)).
  pose proof (Z.div_mod remaining POLL_INTERVAL ltac:(done)).
  pose proof (Z.mod_pos_bound remaining POLL_INTERVAL ltac:(done)).
  replace (Z.of_nat (S (S (Z.to_nat (remaining / POLL_INTERVAL))) + 0 - 1))
    with (remaining / POLL_INTERVAL + 1) by lia.
  unfold POLL_INTERVAL in *. lia.
Qed.

(** More polls than the fuel allows never happen. *)
Lemma poll_any_fuel c remaining f :
  0 ≤ remaining → (poll_fuel remaining ≤ f)%nat → poll c remaining = poll_loop c remaining f 0.
Proof.
  intros H Hf. pose proof (poll_fuel_enough remaining H) as E. unfold poll.
  apply poll_loop_fuel; [done | unfold poll_fuel; lia | | unfold poll_fuel in Hf; lia].
  etrans; [exact E|]. apply Z.mul_le_mono_nonneg_r; [done | lia].
Qed.

(** ** An attempt *)

Section host.
Context (h : Host).

(** The file [f] of [l] grew by [s] and no other file changed. *)
Definition grown (fs fs' : disk) (l : location) (f : file) (s : text) : Prop :=
  updated fs fs' l f (unwrap_or (file_of fs l f) [] ++ s).

Lemma grown_app fs fs1 fs2 l f s r :
  grown fs fs1 l f s → grown fs1 fs2 l f r → grown fs fs2 l f (s ++ r).
Proof.
  intros H1 H2. unfold grown in *. rw (updated_eq _ _ _ _ _ H1) in H2. cbn [unwrap_or] in H2.
  rw -app_assoc in H2. by eapply updated_again.
Qed.

Lemma write_append_Ok l f s w w' a :
  write_file l f (λ old, unwrap_or old [] ++ s) w = (w', Ok a) → grown (files w) (files w') l f s.
Proof. intros H. apply write_file_spec in H as [(_ & H & _)|[? _]]; done. Qed.

Lemma elapsed_Ok started w w' a : elapsed h started w = (w', Ok a) → files w' = files w.
Proof.
  unfold elapsed. intros H. inv_run H. apply ask_Ok in E as [E _].
  unfold ret in H. by simplify_eq.
Qed.

(** What a step did to the evidence and how its child ended. *)
Lemma run_step_Ok step remaining l f w w' r :
  run_step h step remaining l f w = (w', Ok r) →
  (∃ error, r = StepResult.Failed (start_note step error) ∧ files w' = files w) ∨
  (∃ c, grown (files w) (files w') l f (Child.output c) ∧
    match r with
    | StepResult.Passed => ∃ st, poll c remaining = Ok (Some st) ∧ success st = true
    | StepResult.Failed note =>
        ∃ st, poll c remaining = Ok (Some st) ∧ success st = false ∧ note = exit_note step st
    | StepResult.TimedOut => poll c remaining = Ok None
    end).
Proof.
  unfold run_step. intros H. do 3 inv_run H.
  apply system_call_Ok in E. apply system_call_Ok in E0. apply start_Ok in E1 as [E1 _].
  destruct a1 as [child|error].
  - right. exists child. inv_run H. apply write_append_Ok in E2. rw E1 E0 E in E2.
    destruct (poll child remaining) as [[st|]|e] eqn:Ep; unfold ret, lift in H; simplify_eq.
    + split; [done|]. destruct (success st) eqn:Es; [by eexists | by eexists].
    + split; done.
  - left. exists error. unfold ret in H. simplify_eq. split; [done|]. congruence.
Qed.

Lemma timed_out_Ok l f step d w w' o :
  timed_out h l f step d w = (w', Ok o) →
  grown (files w) (files w') l f (note_line (timeout_note step)) ∧
  o = Outcome.mk Status.Timeout d (Some (timeout_note step)).
Proof.
  unfold timed_out. intros H. do 2 inv_run H. apply append_text_Ok in E.
  apply system_call_Ok in E0. unfold ret in H. simplify_eq.
  split; [|done]. unfold grown. by rw E0.
Qed.

Lemma execute_steps_spec steps budget started l f w w' o :
  execute_steps h steps budget started l f w = (w', Ok o) →
  ∃ log, attempt_spec steps (Outcome.status o) (Outcome.note o) log ∧
         (steps ≠ [] → grown (files w) (files w') l f log) ∧
         (steps = [] → files w' = files w).
Proof.
  revert w. induction steps as [|step steps IH]; intros w H; cbn [execute_steps] in H.
  - inv_run H. apply elapsed_Ok in E. unfold ret in H. simplify_eq.
    exists []. split; [constructor|]. done.
  - do 3 inv_run H. apply append_text_Ok in E as G1. fold (command_line step) in G1.
    apply system_call_Ok in E0. apply elapsed_Ok in E1.
    assert (grown (files w) (files w2) l f (command_line step)) as G by (unfold grown; by rw E1 E0).
    clear E E0 E1 G1.
    destruct (budget <? a1).
    { inv_run H. apply elapsed_Ok in E. apply timed_out_Ok in H as [H ->]. rw E in H.
      eexists. split; [apply attempt_out_of_time|]. split; [intros _ | done].
      by eapply grown_app. }
    inv_run H. apply run_step_Ok in E as [(error & -> & E)|(c & Gc & E)].
    + do 3 inv_run H. apply append_text_Ok in E0 as Gn. apply system_call_Ok in E1.
      apply elapsed_Ok in E2. unfold ret in H. simplify_eq. rw E in Gn.
      eexists. split; [apply attempt_not_started|]. split; [intros _ | done].
      eapply grown_app; [done|]. unfold grown. by rw E2 E1.
    + destruct a2 as [|note|].
      * destruct E as (st & Ep & Es). apply IH in H as (log & Hs & Hg & Hn).
        eexists. split; [by eapply attempt_step_passed|]. split; [intros _ | done].
        destruct steps as [|s2 steps].
        -- rw Hn; [done|]. inversion Hs; subst. rw app_nil_r. by eapply grown_app.
        -- eapply grown_app; [exact G|]. eapply grown_app; [exact Gc|]. by apply Hg.
      * destruct E as (st & Ep & Es & ->). do 3 inv_run H.
        apply append_text_Ok in E as Gn. apply system_call_Ok in E0. apply elapsed_Ok in E1.
        unfold ret in H. simplify_eq.
        eexists. split; [by eapply attempt_step_failed|]. split; [intros _ | done].
        eapply grown_app; [exact G|]. eapply grown_app; [exact Gc|]. unfold grown. by rw E1 E0.
      * inv_run H. apply elapsed_Ok in E0. apply timed_out_Ok in H as [H ->]. rw E0 in H.
        eexists. split; [by eapply attempt_stopped|]. split; [intros _ | done].
        eapply grown_app; [exact G|]. by eapply grown_app.
Qed.

End host.

Lemma execute_segment_spec h steps budget l f w w' o :
  execute_segment h steps budget l f w = (w', Ok o) →
  ∃ log, attempt_spec steps (Outcome.status o) (Outcome.note o) log ∧
         updated (files w) (files w') l f log.
Proof.
  unfold execute_segment. intros H. do 2 inv_run H.
  unfold create_file in E. inv_run E. apply system_call_Ok in E1.
  apply write_file_spec in E as [(_ & E & _)|[? _]]; [|done].
  apply ask_Ok in E0 as [E0 _]. rw E1 in E.
  apply execute_steps_spec in H as (log & Hs & Hg & Hn). exists log. split; [done|].
  destruct steps as [|s steps].
  - rw Hn; [done|]. rw E0. by inversion Hs; subst.
  - specialize (Hg ltac:(done)). unfold grown in Hg. rw E0 (updated_eq _ _ _ _ _ E) in Hg.
    by eapply updated_again.
Qed.

(** A pass has one successful process per step. *)
Lemma attempt_pass steps note log :
  attempt_spec steps Status.Pass note log →
  note = None ∧
  ∃ cs, Forall2 (λ (_ : Step.t) c, ∃ r st, poll c r = Ok (Some st) ∧ success st = true) steps cs ∧
        log = concat (zip_with (λ s c, command_line s ++ Child.output c) steps cs).
Proof.
  remember Status.Pass as st eqn:Est. intros H. revert Est.
  induction H as [|step steps c r status st note log Hp Hs H IH| | | |]; intros E; try discriminate.
  - split; [done|]. exists []. split; [constructor | done].
  - destruct (IH E) as (-> & cs & Hcs & ->). split; [done|]. exists (c :: cs).
    split; [constructor; [by eexists _, _ | done]|]. cbn. by rw app_assoc.
Qed.

(** ** Totality *)

(** The process answers every question asked of it. *)
Definition answers (c : Child.t) : Prop :=
  (∀ n, ∃ st, Child.try_wait c n = Ok st) ∧ Child.kill c = Ok tt.

Lemma poll_loop_answers c remaining f n : answers c → ∃ st, poll_loop c remaining f n = Ok st.
Proof.
  intros [Hw Hk]. revert n. induction f as [|f IH]; intros n; [by eexists|]. cbn [poll_loop].
  destruct (Hw n) as [[st|] ->]; [by eexists|].
  destruct (_ <=? _); [rw Hk; by eexists | apply IH].
Qed.

Section quiet.
Context (h : Host) (Hq : quiet h) (Hc : ∀ n fs p args c, spawn h n fs p args = Ok c → answers c).

Lemma succeeds_elapsed started w : succeeds (elapsed h started) w.
Proof. apply succeeds_bind; [apply succeeds_ask|]. intros. apply succeeds_ret. Qed.

Lemma succeeds_run_step step remaining l f w :
  writable (files w) l f → succeeds (run_step h step remaining l f) w.
Proof using Hq Hc.
  intros H. apply succeeds_bind; [by apply succeeds_system_call|]. intros w1 _ K1.
  apply succeeds_bind; [by apply succeeds_system_call|]. intros w2 _ K2.
  unfold succeeds, bind. cbn [start]. destruct (spawn h (tick w2) _ _ _) as [c|e] eqn:E.
  - destruct (poll_loop_answers c remaining (poll_fuel remaining) 0 (Hc _ _ _ _ _ E)) as [st Ep].
    fold (poll c remaining) in Ep.
    destruct (write_file_total l f (λ old, unwrap_or old [] ++ Child.output c)
                (mk_world (S (tick w2)) (files w2)) (K2 _ _ (K1 _ _ H))) as (w' & -> & K).
    rw Ep. destruct st as [st|]; eexists _, _; (split; [reflexivity | exact K]).
  - by eexists _, _.
Qed.

Lemma succeeds_note l f s (k : M Outcome.t) w :
  writable (files w) l f → (∀ w', succeeds k w') →
  succeeds (run* append_text h l f s; run* sync_all h; k) w.
Proof using Hq.
  intros H Hk. apply succeeds_bind; [by apply succeeds_append_text|]. intros w1 _ K1.
  apply succeeds_bind; [by apply succeeds_system_call|]. intros. apply Hk.
Qed.

Lemma succeeds_timed_out step l f started w :
  writable (files w) l f →
  succeeds (do* duration <- elapsed h started; timed_out h l f step duration) w.
Proof using Hq.
  intros H. apply succeeds_bind; [apply succeeds_elapsed|]. intros w1 d K1.
  apply succeeds_note; [by apply K1|]. intros. apply succeeds_ret.
Qed.

Lemma succeeds_execute_steps steps budget started l f w :
  writable (files w) l f → succeeds (execute_steps h steps budget started l f) w.
Proof using Hq Hc.
  revert w. induction steps as [|step steps IH]; intros w H; cbn [execute_steps].
  - apply succeeds_bind; [apply succeeds_elapsed|]. intros. apply succeeds_ret.
  - apply succeeds_bind; [by apply succeeds_append_text|]. intros w1 _ K1.
    apply succeeds_bind; [by apply succeeds_system_call|]. intros w2 _ K2.
    apply succeeds_bind; [apply succeeds_elapsed|]. intros w3 used K3.
    assert (writable (files w3) l f) as H3 by (by apply K3, K2, K1).
    destruct (budget <? used); [by apply succeeds_timed_out|].
    apply succeeds_bind; [by apply succeeds_run_step|]. intros w4 r K4.
    apply K4 in H3. destruct r; [by apply IH | | by apply succeeds_timed_out].
    apply succeeds_note; [done|]. intros. apply succeeds_bind; [apply succeeds_elapsed|].
    intros. apply succeeds_ret.
Qed.

Lemma succeeds_execute_segment steps budget l f w :
  writable (files w) l f → succeeds (execute_segment h steps budget l f) w.
Proof using Hq Hc.
  intros H. apply succeeds_bind; [by apply succeeds_create_file|]. intros w1 _ K1.
  apply succeeds_bind; [apply succeeds_ask|]. intros w2 started K2.
  by apply succeeds_execute_steps, K2, K1.
Qed.

End quiet.

(** ** Properties *)


(** A child that ends with an exit status after some polls. *)
Definition sample_child (polls : nat) (status : Z) (output : text) : Child.t :=
  Child.mk (λ n, Ok (if (n <? polls)%nat then None else Some (Exit (Some status))))
           (λ _, 0%N) (Ok tt) output.

(** A host without failures whose children end after two polls, the first with success and
    the others with a failure. *)
Definition sample_host : Host :=
  mk_host (λ _, None) (λ n, Z.of_nat n) (λ _, Some 1789430400)
    (λ n _ _ _, Ok (sample_child 2 (if (n <? 9)%nat then 0 else 3) (str "output"))) (λ _ _ _, true)
    (λ _ _ _, Ok (Output.mk (Exit (Some 0)) (str "out") [])).

Definition sample_location : location := At (str "dev") (str "2026-09-15-01-repository").
Definition sample_world : World :=
  mk_world 0 {[ str "dev" := {[ str "2026-09-15-01-repository" :=
    Directory (Dir.mk None None None (Some ∅)) ]} ]}.

Definition sample_steps : list Step.t :=
  [Step.mk (str "cargo") [str "build"]; Step.mk (str "cargo") [str "fmt"; str "--check"]].

Definition sample_run : World * Result Outcome.t :=
  execute_segment sample_host sample_steps 1000000000 sample_location
    (Evidence (str "build-01.txt")) sample_world.


(** Every attempt ends: on a host whose system calls succeed and whose processes answer, an
    attempt with any steps and any budget returns an outcome, even if a process never exits;
    the poll loop needs no more than one poll per interval of the budget. *)
Theorem attempt_ends (h : Host) (steps : list Step.t) (budget : Z) (l : location) (f : file)
  (w : World) (Hq : quiet h) (Hc : ∀ n fs p args c, spawn h n fs p args = Ok c → answers c)
  (Hw : writable (files w) l f) :
  (∃ w' o, execute_segment h steps budget l f w = (w', Ok o)) ∧
  (∀ c remaining fuel, 0 ≤ remaining → (poll_fuel remaining ≤ fuel)%nat →
     poll c remaining = poll_loop c remaining fuel 0).
Proof.
  split.
  - destruct (succeeds_execute_segment h Hq Hc steps budget l f w Hw) as (w' & o & E & _).
    by eexists _, _.
  - intros. by apply poll_any_fuel.
Qed.

Lemma attempt_ends_witness :
  (∃ w' o, execute_segment sample_host sample_steps 1000000000 sample_location
             (Evidence (str "build-01.txt")) sample_world = (w', Ok o)) ∧
  (∀ c remaining fuel, 0 ≤ remaining → (poll_fuel remaining ≤ fuel)%nat →
     poll c remaining = poll_loop c remaining fuel 0).
Proof.
  apply (attempt_ends sample_host sample_steps 1000000000 sample_location
           (Evidence (str "build-01.txt")) sample_world).
  - intros n. reflexivity.
  - intros n fs p args c E. injection E as <-. split; [intros k; eexists; reflexivity | reflexivity].
  - vm_compute. eexists. reflexivity.
Defined.
