(* ===== verification/Record.v ===== *)
(** * Run records

    [src/tools/validation-runner/src/record.rs]: record directories and their names, the
    append-only journal and its reader. A [RunRecord] is the place of its directory; the
    files of a record are the constructors of [file]. A topic is one path component. *)

From stdpp Require Import sorting.
From S2P Require Export Json.
Local Open Scope Z_scope.

Definition RECORDS_DIRECTORY : text := str "runs".
Definition SEGMENTS_DIRECTORY : text := str "segments".
Definition MAX_SEQUENCE : Z := 99.

(** ** Names *)

Definition record_identifier (date : text) (sequence : Z) (topic : text) : text :=
  date ++ str "-" ++ zero_pad 2 (decimal sequence) ++ str "-" ++ topic.

(** [evidence_name]. *)
Definition evidence_name (segment : text) (attempt : Z) : text :=
  segment ++ str "-" ++ zero_pad 2 (decimal attempt) ++ str ".txt".

(** ** Journal entries *)

Module JournalEntry.
Record t := mk {
  segment : text;
  attempt : Z;
  status : text;
  evidence_identity : text;
  evidence : text
}.

Definition parse (line : text) : Result t :=
  let! fields := parse_flat_object line in
  let? segment := string_field fields (str "segment")
    else failed (str "a journal entry must name its segment") in
  let? status := string_field fields (str "status")
    else failed (str "a journal entry must state its status") in
  let? identity := string_field fields (str "evidence_identity")
    else failed (str "a journal entry must state the identity it holds under") in
  let attempt := unwrap_or (number_field fields (str "attempt")) 0 in
  let? attempt := try_from U32_MAX attempt
    else failed (str "a journal entry states an attempt number it cannot hold") in
  Ok (mk segment attempt status identity (unwrap_or (string_field fields (str "evidence")) [])).
End JournalEntry.

(** The loop of [RunRecord::entries]. *)
Fixpoint parse_lines (ls : list text) : Result (list JournalEntry.t) :=
  match ls with
  | [] => Ok []
  | line :: ls' =>
      if is_empty (trim line) then parse_lines ls' else
      let! entry := JournalEntry.parse line in
      let! entries := parse_lines ls' in
      Ok (entry :: entries)
  end.

(** ** Records *)

(** A record is the place of its directory. *)
Module RunRecord.
Record t := mk { root : location }.
Definition identifier (r : t) : text := record_name (root r).
End RunRecord.

(** The sequence number of a name, as the loop of [next_sequence] reads it. *)
Definition sequence_of (prefix name : text) : option Z :=
  let? rest := strip_prefix prefix name in
  let? digits := str_get_to 2 rest in
  parse_unsigned U32_MAX digits.

(** Byte order of names, as [sort] uses it. *)
Definition str_le (a b : text) : Prop := str_lt b a = false.
#[global] Instance str_le_dec a b : Decision (str_le a b).
Proof. unfold str_le. apply _. Defined.

Section host.
Context (h : Host).

(** The names of a directory, each read with a call that may fail; [keep] selects. *)
Fixpoint read_names (keep : node → bool) (entries : list (text * node)) : M (list text) :=
  match entries with
  | [] => ret []
  | (name, n) :: entries' =>
      run* system_call h;
      do* names <- read_names keep entries';
      ret (if keep n then name :: names else names)
  end.

(** [fs::read_dir] of a tier directory. *)
Definition read_dir (tier : text) (keep : node → bool) : M (list text) :=
  run* system_call h;
  λ w, match files w !! tier with
       | None => (w, Err (Error.Io NOT_FOUND))
       | Some entries => read_names keep (map_to_list entries) w
       end.

Definition next_sequence (tier date : text) : M Z :=
  do* names <- read_dir tier (λ _, true);
  let prefix := date ++ str "-" in
  let highest := fold_left (λ highest name,
    match sequence_of prefix name with
    | Some sequence => Z.max highest sequence
    | None => highest
    end) names 0 in
  match checked_add U32_MAX highest 1 with
  | Some next =>
      if next <=? MAX_SEQUENCE then ret next
      else lift (failed (str "this date already holds " ++ decimal MAX_SEQUENCE ++
                         str " records for this tier"))
  | None => lift (failed (str "this date already holds " ++ decimal MAX_SEQUENCE ++
                          str " records for this tier"))
  end.

(** [fs::create_dir_all] of a tier directory. *)
Definition create_tier (tier : text) : M unit :=
  run* system_call h;
  λ w, (mk_world (tick w)
          (if bool_decide (files w !! tier = None) then <[tier := ∅]> (files w) else files w),
        Ok tt).

(** [fs::create_dir_all] of a record's segment directory. *)
Definition create_segments (l : location) : M unit :=
  run* system_call h;
  λ w, match default ∅ (files w !! tier_name l) !! record_name l with
       | None =>
           (mk_world (tick w) (insert_dir (files w) l (Dir.mk None None None (Some ∅))), Ok tt)
       | Some (Directory d) =>
           (mk_world (tick w) (insert_dir (files w) l
              (Dir.mk (Dir.manifest d) (Dir.journal d) (Dir.summary d)
                      (Some (unwrap_or (Dir.segments d) ∅)))), Ok tt)
       | Some PlainFile => (w, Err (Error.Io (str "File exists (os error 17)")))
       end.

(** [RunRecord::create]. *)
Definition create (tier date topic : text) : M RunRecord.t :=
  run* create_tier tier;
  do* sequence <- next_sequence tier date;
  let root := At tier (record_identifier date sequence topic) in
  run* create_segments root;
  ret (RunRecord.mk root).

(** [RunRecord::open]. *)
Definition open_record (l : location) : M RunRecord.t := λ w,
  (w, match lookup_dir (files w) l with
      | Some _ => Ok (RunRecord.mk l)
      | None => failed (str "`" ++ record_name l ++ str "` is not a record directory")
      end).

Definition is_directory (n : node) : bool :=
  match n with Directory _ => true | PlainFile => false end.

(** [RunRecord::latest]. *)
Definition latest (tier : text) : M (option RunRecord.t) := λ w,
  match files w !! tier with
  | None => (w, Ok None)
  | Some _ =>
      (do* names <- read_dir tier is_directory;
       match last (merge_sort str_le names) with
       | Some name => do* r <- open_record (At tier name); ret (Some r)
       | None => ret None
       end) w
  end.

(** [RunRecord::write_manifest], [append_journal] and [write_summary]. *)
Definition write_manifest (r : RunRecord.t) (manifest : Object.t) : M unit :=
  run* create_file h (RunRecord.root r) Manifest;
  run* append_text h (RunRecord.root r) Manifest (Object.encode manifest ++ [NEWLINE]);
  sync_all h.

Definition append_journal (r : RunRecord.t) (entry : Object.t) : M unit :=
  run* open_append h (RunRecord.root r) Journal;
  run* append_text h (RunRecord.root r) Journal (Object.encode entry ++ [NEWLINE]);
  sync_all h.

Definition write_summary (r : RunRecord.t) (body : text) : M unit :=
  run* create_file h (RunRecord.root r) Summary;
  run* append_text h (RunRecord.root r) Summary body;
  sync_all h.

(** [RunRecord::entries]. *)
Definition entries (r : RunRecord.t) : M (list JournalEntry.t) := λ w,
  match file_of (files w) (RunRecord.root r) Journal with
  | None => (w, Ok [])
  | Some _ =>
      (run* system_call h;
       λ w, (w, parse_lines (lines (unwrap_or (file_of (files w) (RunRecord.root r) Journal) [])))) w
  end.

Definition of_segment (segment : text) (e : JournalEntry.t) : bool :=
  bool_decide (JournalEntry.segment e = segment).

Definition attempts_for (r : RunRecord.t) (segment : text) : M Z :=
  do* es <- entries r;
  match try_from U32_MAX (len (List.filter (of_segment segment) es)) with
  | Some n => ret n
  | None => lift (failed (str "this record holds more attempts than it can count"))
  end.

(** [Iterator::rfind]: the last entry of the segment. *)
Definition last_entry_for (r : RunRecord.t) (segment : text) : M (option JournalEntry.t) :=
  do* es <- entries r; ret (last (List.filter (of_segment segment) es)).

Definition recorded_identity (r : RunRecord.t) : M (option text) :=
  do* es <- entries r; ret (option_map JournalEntry.evidence_identity (last es)).

(** [RunRecord::evidence_path] and [evidence_reference]. *)
Definition evidence_path (segment : text) (attempt : Z) : file :=
  Evidence (evidence_name segment attempt).
Definition evidence_reference (segment : text) (attempt : Z) : text :=
  SEGMENTS_DIRECTORY ++ str "/" ++ evidence_name segment attempt.

End host.
