(* ===== verification/RecordTheorems.v ===== *)
(** * Run records: lemmas and properties

    A created record has a name no other entry of its directory has
    ([create_fresh]) and is the one [latest] finds ([latest_finds_created]); the
    journal only grows, and an appended entry is the last one read back
    ([append_entries]); a journal that was cut off in the middle of a line swallows the
    next entry ([torn_entry_lost]). *)

From stdpp Require Import sorting.
From S2P Require Export JsonTheorems CalendarTheorems Record.
Local Open Scope Z_scope.

(** ** Names and sequence numbers *)

Section host.
Context (h : Host).

Lemma read_names_Ok keep es w w' names :
  read_names h keep es w = (w', Ok names) →
  names = map fst (List.filter (λ e, keep e.2) es) ∧ files w' = files w.
Proof.
  revert w w' names. induction es as [|[name n] es IH]; intros w w' names H; cbn [read_names] in H.
  - unfold ret in H. by simplify_eq.
  - do 2 inv_run H. apply system_call_Ok in E. apply IH in E0 as [-> E0].
    unfold ret in H. simplify_eq. split; [|congruence]. cbn. by destruct (keep n).
Qed.

Lemma read_dir_Ok tier keep w w' names :
  read_dir h tier keep w = (w', Ok names) →
  files w' = files w ∧ ∃ entries, files w !! tier = Some entries ∧
    ∀ name, name ∈ names ↔ ∃ n, entries !! name = Some n ∧ keep n = true.
Proof.
  unfold read_dir. intros H. inv_run H. apply system_call_Ok in E.
  rw E in H. destruct (files w !! tier) as [entries|] eqn:Et; [|done].
  apply read_names_Ok in H as [-> H]. split; [congruence|]. exists entries. split; [done|].
  intros name. rw list_elem_of_In in_map_iff. split.
  - intros ([k n] & <- & Hin). apply filter_In in Hin as [Hin Hk].
    apply list_elem_of_In, elem_of_map_to_list in Hin. by eexists.
  - intros (n & Hl & Hk). exists (name, n). split; [done|]. apply filter_In.
    split; [|done]. by apply list_elem_of_In, elem_of_map_to_list.
Qed.

Lemma fold_max_spec (g : text → option Z) names acc :
  0 ≤ acc →
  let m := fold_left (λ m name, match g name with Some k => Z.max m k | None => m end) names acc in
  acc ≤ m ∧ ∀ name k, name ∈ names → g name = Some k → k ≤ m.
Proof.
  revert acc. induction names as [|n names IH]; intros acc Hacc; simpl.
  - split; [lia|]. intros name k Hin. by apply elem_of_nil in Hin.
  - set (acc' := match g n with Some k => Z.max acc k | None => acc end).
    assert (acc ≤ acc') by (subst acc'; destruct (g n); lia).
    destruct (IH acc' ltac:(lia)) as [H1 H2]. cbv zeta in *. split; [etrans; eassumption|].
    intros name k [->|Hin]%elem_of_cons Hk; [|by eapply H2].
    subst acc'. rw Hk. rw Hk in H1. lia.
Qed.

Lemma next_sequence_Ok tier date w w' n :
  next_sequence h tier date w = (w', Ok n) →
  files w' = files w ∧ 1 ≤ n ≤ MAX_SEQUENCE ∧
  ∃ entries, files w !! tier = Some entries ∧
    ∀ name k, is_Some (entries !! name) → sequence_of (date ++ str "-") name = Some k → k < n.
Proof.
  unfold next_sequence. intros H. inv_run H. apply read_dir_Ok in E as (E & entries & Ht & Hn).
  pose proof (fold_max_spec (sequence_of (date ++ str "-")) a 0 ltac:(lia)) as F. cbv zeta in F.
  set (highest := fold_left _ a 0) in *. destruct F as [F1 F2].
  destruct (checked_add U32_MAX highest 1) as [next|] eqn:Ec; [|done].
  apply checked_add_Some in Ec as [-> _].
  destruct (highest + 1 <=? MAX_SEQUENCE) eqn:El; [|done]. unfold ret in H. simplify_eq.
  breflect. split; [done|]. split; [lia|]. exists entries. split; [done|].
  intros name k [nd Hl] Hk. assert (name ∈ a) as Hin by (apply Hn; by eexists).
  pose proof (F2 name k Hin Hk). lia.
Qed.

(** The sequence number of a record's name is read back. *)
Lemma sequence_of_identifier date n topic :
  0 ≤ n ≤ MAX_SEQUENCE →
  sequence_of (date ++ str "-") (record_identifier date n topic) = Some n.
Proof.
  intros Hn. unfold MAX_SEQUENCE in Hn. unfold sequence_of, record_identifier.
  rewrite -> app_assoc, strip_prefix_app.
  assert (length (zero_pad 2 (decimal n)) = 2%nat) as Hlen by (apply length_pad_decimal; lia).
  assert (Forall (λ c, 0 ≤ c < 0x80) (zero_pad 2 (decimal n))) as Ha.
  { apply Forall_app. split; [apply Forall_replicate; lia|].
    eapply Forall_impl; [apply decimal_digits; lia|]. intros c Hc. cbn in Hc.
    unfold is_ascii_digit in Hc. breflect. lia. }
  pose proof (str_get_to_ascii _ (str "-" ++ topic) Ha) as G. unfold len in G. rw Hlen in G.
  change (Z.of_nat 2) with 2 in G. rewrite -> G.
  apply parse_zero_pad. unfold U32_MAX. lia.
Qed.

(** ** Creating a record *)

(** The directory [create] found for the tier: empty when there was none. *)
Definition tier_entries (fs : disk) (tier : text) : gmap text node := default ∅ (fs !! tier).

Lemma create_tier_Ok tier w w' a :
  create_tier h tier w = (w', Ok a) →
  files w' !! tier = Some (tier_entries (files w) tier) ∧
  ∀ t, t ≠ tier → files w' !! t = files w !! t.
Proof.
  unfold create_tier. intros H. inv_run H. apply system_call_Ok in E. simplify_eq/=.
  rw E. unfold tier_entries. destruct (files w !! tier) as [es|] eqn:Et.
  - rw bool_decide_eq_false_2; [done|]. by rw Et.
  - rw bool_decide_eq_true_2; [done|]. split; [by rw lookup_insert_eq|].
    intros t Ht. by rw lookup_insert_ne.
Qed.

(** What a new record directory holds. *)
Definition new_dir : Dir.t := Dir.mk None None None (Some ∅).

Lemma create_segments_fresh l w w' a :
  create_segments h l w = (w', Ok a) →
  tier_entries (files w) (tier_name l) !! record_name l = None →
  files w' = insert_dir (files w) l new_dir.
Proof.
  unfold create_segments. intros H Hf. inv_run H. apply system_call_Ok in E. rw E in H.
  unfold tier_entries in Hf. rw Hf in H. by simplify_eq/=.
Qed.

Lemma create_Ok tier date topic w w' r :
  create h tier date topic w = (w', Ok r) →
  ∃ n fs, 1 ≤ n ≤ MAX_SEQUENCE ∧
    RunRecord.root r = At tier (record_identifier date n topic) ∧
    tier_entries (files w) tier !! record_identifier date n topic = None ∧
    (∀ name k, is_Some (tier_entries (files w) tier !! name) →
               sequence_of (date ++ str "-") name = Some k → k < n) ∧
    fs !! tier = Some (tier_entries (files w) tier) ∧
    (∀ t, t ≠ tier → fs !! t = files w !! t) ∧
    files w' = insert_dir fs (RunRecord.root r) new_dir.
Proof.
  unfold create. intros H. do 3 inv_run H. apply create_tier_Ok in E as [E Et].
  apply next_sequence_Ok in E0 as (E0 & Hn & entries & Hl & Hs).
  unfold ret in H. simplify_eq.
  assert (tier_entries (files w) tier !! record_identifier date a0 topic = None) as Hfresh.
  { destruct (tier_entries (files w) tier !! _) as [nd|] eqn:El; [|done]. exfalso.
    pose proof (Hs _ a0 (mk_is_Some _ _ El) (sequence_of_identifier date a0 topic ltac:(lia))). lia. }
  exists a0, (files w0). repeat (split; [done|]).
  apply create_segments_fresh in E1; [|cbn [tier_name record_name]; unfold tier_entries at 1; rw E0 E; done].
  by rw E1 E0.
Qed.

End host.

(** A new record changes no file of another one, and has none of its own yet. *)
Lemma file_of_insert_new fs l l' f :
  file_of (insert_dir fs l new_dir) l' f = if bool_decide (l' = l) then None else file_of fs l' f.
Proof.
  unfold file_of. rw lookup_insert_dir. destruct (bool_decide_reflect (l' = l)); [|done].
  by destruct f.
Qed.

Lemma file_of_tier fs fs' l f : fs !! tier_name l = fs' !! tier_name l → file_of fs l f = file_of fs' l f.
Proof. intros E. unfold file_of, lookup_dir. by rw E. Qed.

(** ** The latest record *)

#[global] Instance str_le_total : Total str_le.
Proof.
  intros a b. unfold str_le. destruct (str_lt b a) eqn:E; [|by left]. right.
  destruct (str_lt a b) eqn:E'; [|done]. exfalso.
  pose proof (str_lt_trans a b a E' E) as T. clear -T.
  induction a as [|c a IH]; [done|]. simpl in T. by rw Z.eqb_refl in T; apply IH.
Qed.

#[global] Instance str_le_trans : Transitive str_le.
Proof.
  intros a b c H1 H2. unfold str_le in *. destruct (str_lt c a) eqn:E; [|done].
  destruct (str_lt a b) eqn:E1.
  - pose proof (str_lt_trans _ _ _ E E1). congruence.
  - rw (str_lt_total a b E1 H1) in E. congruence.
Qed.

(** The last of the sorted names is a greatest one. *)
Lemma last_sorted names x :
  last (merge_sort str_le names) = Some x → x ∈ names ∧ ∀ y, y ∈ names → str_le y x.
Proof.
  pose proof (merge_sort_Permutation str_le names) as P.
  pose proof (Sorted_merge_sort str_le names) as S.
  apply Sorted_StronglySorted in S; [|apply _]. intros Hl.
  apply last_Some in Hl as [l Hl]. rw Hl in P S.
  assert (∀ y, y ∈ l → str_le y x) as Hmax.
  { clear -S. induction l as [|z l IH]; intros y Hy; [by apply elem_of_nil in Hy|].
    apply StronglySorted_inv in S as [S F]. apply elem_of_cons in Hy as [->|Hy].
    - rewrite -> Forall_forall in F. apply F. apply elem_of_app. right. by left.
    - by apply IH. }
  split; [rewrite <- P; apply elem_of_app; right; by left|].
  intros y Hy. rewrite <- P in Hy. apply elem_of_app in Hy as [Hy|Hy]; [by apply Hmax|].
  apply list_elem_of_singleton in Hy as ->. destruct (str_le_total x x); done.
Qed.

(** Every entry of the tier's directory is named for a day up to [today]. *)
Definition named (fs : disk) (tier : text) (today : nat) : Prop :=
  ∀ name, is_Some (tier_entries fs tier !! name) →
    ∃ day n topic, (day ≤ today)%nat ∧ 1 ≤ n ≤ MAX_SEQUENCE ∧
      name = record_identifier (Utc.date_text (calendar day)) n topic.

Lemma identifier_lt_day d1 d2 n1 n2 t1 t2 :
  (d1 < d2)%nat → Z.of_nat d2 ≤ LAST_DAY →
  str_lt (record_identifier (Utc.date_text (calendar d1)) n1 t1)
         (record_identifier (Utc.date_text (calendar d2)) n2 t2) = true.
Proof.
  intros Hd Hl. unfold record_identifier. apply date_text_lt.
  - apply calendar_valid.
  - apply calendar_valid.
  - by apply calendar_lt.
  - destruct (calendar d1) as [[y m] d] eqn:E. apply calendar_year_bound in E; cbn; lia.
  - destruct (calendar d2) as [[y m] d] eqn:E. apply calendar_year_bound in E; cbn; lia.
Qed.

Lemma identifier_lt_sequence date n1 n2 t1 t2 :
  0 ≤ n1 → n1 < n2 → n2 ≤ MAX_SEQUENCE →
  str_lt (record_identifier date n1 t1) (record_identifier date n2 t2) = true.
Proof.
  intros H1 H2 H3. unfold record_identifier, MAX_SEQUENCE in *. rw !str_lt_prefix.
  apply str_lt_pad; lia.
Qed.

Lemma tier_entries_insert fs l d name :
  tier_entries (insert_dir fs l d) (tier_name l) !! name =
    if bool_decide (name = record_name l) then Some (Directory d)
    else tier_entries fs (tier_name l) !! name.
Proof.
  unfold tier_entries, insert_dir. rw lookup_insert_eq. cbn [default].
  destruct (bool_decide_reflect (name = record_name l)) as [->|Hne].
  - by rw lookup_insert_eq.
  - by rw lookup_insert_ne.
Qed.

Section created.
Context (h : Host).

Lemma latest_Ok tier w w' r :
  latest h tier w = (w', Ok r) →
  match r with
  | Some r =>
      tier_name (RunRecord.root r) = tier ∧
      (∃ d, tier_entries (files w) tier !! RunRecord.identifier r = Some (Directory d)) ∧
      ∀ name d, tier_entries (files w) tier !! name = Some (Directory d) →
                str_le name (RunRecord.identifier r)
  | None => ∀ name d, tier_entries (files w) tier !! name ≠ Some (Directory d)
  end ∧ files w' = files w.
Proof.
  unfold latest, tier_entries. destruct (files w !! tier) as [es|] eqn:Et.
  - intros H. inv_run H. apply read_dir_Ok in E as (E & es' & Ht & Hn). simplify_eq. cbn [default].
    assert (∀ name d, es !! name = Some (Directory d) → name ∈ a) as Hd
      by (intros name d Hl; apply Hn; by eexists).
    destruct (last (merge_sort str_le a)) as [name|] eqn:El.
    + inv_run H. unfold ret in H. simplify_eq. unfold open_record in E0.
      destruct (lookup_dir _ _); [|done]. simplify_eq. split; [|done].
      apply last_sorted in El as [Hin Hmax]. apply Hn in Hin as ([d|] & Hl & Hk); [|done].
      split; [done|]. split; [by eexists|]. intros name' d' Hl'. apply Hmax. by eapply Hd.
    + unfold ret in H. simplify_eq. split; [|done]. intros name d Hl.
      apply Hd in Hl. apply last_None in El. pose proof (merge_sort_Permutation str_le a) as P.
      rw El in P. apply Permutation_nil in P. subst. by apply elem_of_nil in Hl.
  - intros [= <- <-]. split; [|done]. intros name d. cbn. by rw lookup_empty.
Qed.

Lemma create_named tier today topic w w' r :
  create h tier (Utc.date_text (calendar today)) topic w = (w', Ok r) →
  named (files w) tier today →
  named (files w') tier today ∧
  tier_entries (files w') tier !! RunRecord.identifier r = Some (Directory new_dir) ∧
  ∀ name, is_Some (tier_entries (files w') tier !! name) → Z.of_nat today ≤ LAST_DAY →
    name = RunRecord.identifier r ∨ str_lt name (RunRecord.identifier r) = true.
Proof.
  intros H Hnamed. apply create_Ok in H as (n & fs & Hn & Hr & Hfresh & Hs & Ht & _ & Ef).
  unfold RunRecord.identifier. rw Ef Hr. cbn [record_name].
  set (new := record_identifier (Utc.date_text (calendar today)) n topic).
  assert (∀ name, tier_entries (insert_dir fs (At tier new) new_dir) tier !! name =
    if bool_decide (name = new) then Some (Directory new_dir)
    else tier_entries (files w) tier !! name) as L.
  { intros name. etrans; [apply (tier_entries_insert fs (At tier _))|]. cbn [record_name tier_name].
    unfold tier_entries at 1. by rw Ht. }
  split; [|split].
  - intros name. rw L. destruct (bool_decide_reflect (name = new)) as [->|_].
    + intros _. by exists today, n, topic.
    + apply Hnamed.
  - rw L. by rw bool_decide_eq_true_2.
  - intros name. rw L. destruct (bool_decide_reflect (name = new)) as [->|_]; [by left|].
    intros Hl Hlast. right. destruct (Hnamed name Hl) as (day & k & t & Hday & Hk & ->).
    destruct (decide (day = today)) as [->|]; [|apply identifier_lt_day; lia].
    apply identifier_lt_sequence; [lia| |lia].
    apply (Hs _ k Hl). apply sequence_of_identifier. lia.
Qed.

End created.

(** ** The journal *)

Lemma parse_lines_app a b :
  parse_lines (a ++ b) = let! x := parse_lines a in let! y := parse_lines b in Ok (x ++ y).
Proof.
  induction a as [|line a IH]; simpl.
  - by destruct (parse_lines b).
  - destruct (is_empty (trim line)); [done|]. destruct (JournalEntry.parse line); [|done].
    rw IH. destruct (parse_lines a); [|done]. by destruct (parse_lines b).
Qed.

(** An encoded object and its line feed are one line, which is not blank. *)
Lemma encode_lines fs rest :
  Forall field_typed fs →
  lines (Object.encode (object_of fs) ++ NEWLINE :: rest) =
    Object.encode (object_of fs) :: lines rest.
Proof.
  intros H. unfold lines. rw lines_from_line; [by apply encode_line|]. cbn [app]. f_equal.
  unfold Object.encode. rw app_assoc. by apply strip_carriage_return_id.
Qed.

Lemma parse_lines_encode fs ls :
  parse_lines (Object.encode (object_of fs) :: ls) =
    let! e := JournalEntry.parse (Object.encode (object_of fs)) in
    let! es := parse_lines ls in Ok (e :: es).
Proof.
  cbn [parse_lines]. replace (is_empty (trim (Object.encode (object_of fs)))) with false; [done|].
  unfold Object.encode. cbn [app]. by rw trim_object.
Qed.

(** The entries of a journal file. *)
Definition journal_of (fs : disk) (r : RunRecord.t) : text :=
  unwrap_or (file_of fs (RunRecord.root r) Journal) [].
Definition recorded (fs : disk) (r : RunRecord.t) : Result (list JournalEntry.t) :=
  parse_lines (lines (journal_of fs r)).

Lemma recorded_append j fs :
  complete_lines j → Forall field_typed fs →
  parse_lines (lines (j ++ Object.encode (object_of fs) ++ [NEWLINE])) =
    let! es := parse_lines (lines j) in
    let! e := JournalEntry.parse (Object.encode (object_of fs)) in Ok (es ++ [e]).
Proof.
  intros Hj Hfs. rw lines_app; [done|]. rw encode_lines; [done|].
  rw parse_lines_app. destruct (parse_lines (lines j)); [|done]. rw parse_lines_encode.
  by destruct (JournalEntry.parse _).
Qed.

Lemma complete_append j s : complete_lines (j ++ s ++ [NEWLINE]).
Proof. right. exists (j ++ s). by rw app_assoc. Qed.

Section journal.
Context (h : Host).

Lemma entries_Ok r w w' es :
  entries h r w = (w', Ok es) → files w' = files w ∧ recorded (files w) r = Ok es.
Proof.
  unfold entries, recorded, journal_of. destruct (file_of _ _ Journal) as [j|] eqn:Ej.
  - intros H. inv_run H. apply system_call_Ok in E. rw E Ej in H. cbn [unwrap_or] in *.
    by simplify_eq.
  - intros. by simplify_eq.
Qed.

Lemma attempts_for_Ok r segment w w' n :
  attempts_for h r segment w = (w', Ok n) →
  files w' = files w ∧ ∃ es, recorded (files w) r = Ok es ∧
    n = len (List.filter (of_segment segment) es) ∧ n ≤ U32_MAX.
Proof.
  unfold attempts_for. intros H. inv_run H. apply entries_Ok in E as [E Er].
  destruct (try_from U32_MAX _) eqn:Et; [|done]. apply try_from_Some in Et as [-> Et].
  unfold ret in H. simplify_eq. split; [done|]. eexists. split; [done|]. split; [done | lia].
Qed.

Lemma last_entry_for_Ok r segment w w' e :
  last_entry_for h r segment w = (w', Ok e) →
  files w' = files w ∧ ∃ es, recorded (files w) r = Ok es ∧
    e = last (List.filter (of_segment segment) es).
Proof.
  unfold last_entry_for. intros H. inv_run H. apply entries_Ok in E as [E Er].
  unfold ret in H. simplify_eq. split; [done|]. by eexists.
Qed.

Lemma recorded_identity_Ok r w w' i :
  recorded_identity h r w = (w', Ok i) →
  files w' = files w ∧ ∃ es, recorded (files w) r = Ok es ∧
    i = option_map JournalEntry.evidence_identity (last es).
Proof.
  unfold recorded_identity. intros H. inv_run H. apply entries_Ok in E as [E Er].
  unfold ret in H. simplify_eq. split; [done|]. by eexists.
Qed.

Lemma append_journal_Ok r o w w' a :
  append_journal h r o w = (w', Ok a) →
  updated (files w) (files w') (RunRecord.root r) Journal
    (journal_of (files w) r ++ Object.encode o ++ [NEWLINE]).
Proof.
  unfold append_journal. intros H. do 2 inv_run H. apply system_call_Ok in H.
  unfold open_append in E. inv_run E. apply system_call_Ok in E1.
  apply write_file_spec in E as [(_ & E & _)|[? _]]; [|done]. rw E1 in E.
  apply append_text_Ok in E0. rw (updated_eq _ _ _ _ _ E) in E0. cbn [unwrap_or] in E0.
  rw H. by eapply updated_again.
Qed.

(** Files of one location that are written by another operation stay. *)
Lemma write_whole_Ok l f s w w' a :
  (run* create_file h l f; run* append_text h l f s; sync_all h) w = (w', Ok a) →
  updated (files w) (files w') l f s.
Proof.
  intros H. do 2 inv_run H. apply system_call_Ok in H.
  unfold create_file in E. inv_run E. apply system_call_Ok in E1.
  apply write_file_spec in E as [(_ & E & _)|[? _]]; [|done]. rw E1 in E.
  apply append_text_Ok in E0. rw (updated_eq _ _ _ _ _ E) in E0. cbn [unwrap_or] in E0.
  rw H. by eapply updated_again.
Qed.

End journal.

(** ** Every run only adds to journals *)

(** Each journal's old text is the beginning of its new text. *)
Definition journals_extend (fs fs' : disk) : Prop :=
  ∀ l j, file_of fs l Journal = Some j → ∃ tail, file_of fs' l Journal = Some (j ++ tail).

#[global] Instance journals_extend_preorder : PreOrder journals_extend.
Proof.
  split.
  - intros fs l j H. exists []. by rw app_nil_r.
  - intros fs fs1 fs2 H1 H2 l j H. apply H1 in H as [t1 H]. apply H2 in H as [t2 H].
    exists (t1 ++ t2). by rw app_assoc.
Qed.

Lemma respects_write_other l f change :
  f ≠ Journal → respects journals_extend (write_file l f change).
Proof.
  intros Hf w. destruct (write_file l f change w) as [w' r] eqn:E.
  apply write_file_spec in E as [(_ & E & _)|[_ ->]]; [|reflexivity].
  intros l' j Hj. exists []. cbn [fst]. rw (updated_ne _ _ _ _ _ _ _ E); [|by rw app_nil_r].
  by intros [_ ?].
Qed.

Lemma respects_write_append l f (s : text) :
  respects journals_extend (write_file l f (λ old, unwrap_or old [] ++ s)).
Proof.
  intros w. destruct (write_file _ _ _ w) as [w' r] eqn:E.
  apply write_file_spec in E as [(_ & E & _)|[_ ->]]; [|reflexivity].
  intros l' j Hj. cbn [fst]. destruct (decide (l' = l ∧ Journal = f)) as [[-> <-]|Hne].
  - rw (updated_eq _ _ _ _ _ E) Hj. by eexists.
  - exists []. rw (updated_ne _ _ _ _ _ _ _ E Hne). by rw app_nil_r.
Qed.

Section extend.
Context (h : Host).

Lemma respects_append_text l f s : respects journals_extend (append_text h l f s).
Proof.
  intros w. unfold append_text. destruct (fault h (tick w)) as [e|].
  - apply (respects_write_append l f (take (written e) s) (mk_world (S (tick w)) (files w))).
  - apply (respects_write_append l f s (mk_world (S (tick w)) (files w))).
Qed.

Lemma respects_open_append l f : respects journals_extend (open_append h l f).
Proof.
  unfold open_append. respects_tac.
  intros w. pose proof (respects_write_append l f [] w) as H.
  rw (write_file_ext _ _ _ (λ old, unwrap_or old [] ++ [])); [|done].
  intros old. by rw app_nil_r.
Qed.

Lemma respects_create_file l f : f ≠ Journal → respects journals_extend (create_file h l f).
Proof. intros. unfold create_file. respects_tac. by apply respects_write_other. Qed.

Lemma respects_sync_all : respects journals_extend (sync_all h).
Proof. apply respects_system_call, _. Qed.

End extend.

#[export] Hint Resolve respects_append_text respects_open_append respects_create_file
  respects_write_append respects_write_other respects_sync_all : respects.
#[export] Hint Extern 1 (_ ≠ _) => discriminate : respects.

Section records.
Context (h : Host).

Lemma respects_append_journal r o : respects journals_extend (append_journal h r o).
Proof. unfold append_journal. respects_tac. Qed.

Lemma respects_write_manifest r o : respects journals_extend (write_manifest h r o).
Proof. unfold write_manifest. respects_tac. Qed.

Lemma respects_write_summary r s : respects journals_extend (write_summary h r s).
Proof. unfold write_summary. respects_tac. Qed.

Lemma respects_entries r : respects journals_extend (entries h r).
Proof.
  intros w. unfold entries. destruct (file_of _ _ _); [|reflexivity].
  apply (respects_bind journals_extend); [apply respects_system_call, _|].
  intros ? ?. reflexivity.
Qed.

Lemma respects_attempts_for r s : respects journals_extend (attempts_for h r s).
Proof. unfold attempts_for. respects_tac. apply respects_entries. Qed.

Lemma respects_last_entry_for r s : respects journals_extend (last_entry_for h r s).
Proof. unfold last_entry_for. respects_tac. apply respects_entries. Qed.

End records.

#[export] Hint Resolve respects_append_journal respects_write_manifest respects_write_summary
  respects_entries respects_attempts_for respects_last_entry_for : respects.

(** ** Properties *)

(** A new record is new: when [RunRecord::create] succeeds, the sequence number is between
    1 and 99, no entry of the tier's directory had the record's name before, the record's
    directory exists and is empty, and no file of any other record has changed. *)
Theorem create_fresh (h : Host) (tier date topic : text) (w w' : World) (r : RunRecord.t)
  (H : create h tier date topic w = (w', Ok r)) :
  (∃ n, 1 ≤ n ≤ MAX_SEQUENCE ∧ RunRecord.root r = At tier (record_identifier date n topic)) ∧
  tier_entries (files w) tier !! RunRecord.identifier r = None ∧
  lookup_dir (files w') (RunRecord.root r) = Some (Dir.mk None None None (Some ∅)) ∧
  (∀ l f, l ≠ RunRecord.root r → file_of (files w') l f = file_of (files w) l f).
Proof.
  apply create_Ok in H as (n & fs & Hn & Hr & Hfresh & _ & Ht & Hother & Ef).
  split; [by eexists|]. split; [unfold RunRecord.identifier; by rw Hr|]. rw Ef. split.
  - rw lookup_insert_dir. by rw bool_decide_eq_true_2.
  - intros l f Hl. rw file_of_insert_new. rw bool_decide_eq_false_2; [done|].
    destruct (decide (tier_name l = tier)) as [E|E]; [|apply file_of_tier, (Hother _ E)].
    unfold file_of, lookup_dir. rw E Ht. unfold tier_entries.
    destruct (files w !! tier); [done|]. cbn. by rw lookup_empty.
Qed.

(** A host whose calls all succeed, and a directory with a record of the day. *)
Definition record_host : Host :=
  mk_host (λ _, None) (λ n, Z.of_nat n) (λ _, Some 1789430400) (λ _ _ _ _, Err []) (λ _ _ _, true)
    (λ _ _ _, Ok (Output.mk (Exit (Some 0)) [] [])).
Definition record_world : World :=
  mk_world 0 {[ str "dev" := {[ str "2026-09-15-01-repository" :=
    Directory (Dir.mk None (Some []) None (Some ∅)) ]} ]}.

Definition created : World * Result RunRecord.t :=
  create record_host (str "dev") (str "2026-09-15") (str "repository") record_world.
Definition created_record : RunRecord.t :=
  RunRecord.mk (At (str "dev") (str "2026-09-15-02-repository")).

Lemma create_fresh_witness :
  (∃ n, 1 ≤ n ≤ MAX_SEQUENCE ∧ RunRecord.root created_record =
     At (str "dev") (record_identifier (str "2026-09-15") n (str "repository"))) ∧
  tier_entries (files record_world) (str "dev") !! RunRecord.identifier created_record = None ∧
  lookup_dir (files created.1) (RunRecord.root created_record) =
    Some (Dir.mk None None None (Some ∅)) ∧
  (∀ l f, l ≠ RunRecord.root created_record →
     file_of (files created.1) l f = file_of (files record_world) l f).
Proof.
  apply (create_fresh record_host (str "dev") (str "2026-09-15") (str "repository") record_world).
  apply run_eq. vm_compute. reflexivity.
Defined.

(** Resuming finds the record made last: in a directory whose entries are records of days up
    to today, [RunRecord::latest] right after [RunRecord::create] returns the created record,
    and the directory still holds only records of days up to today. *)
Theorem latest_finds_created (h h' : Host) (tier topic : text) (today : nat) (w w' w'' : World)
  (r : RunRecord.t) (found : option RunRecord.t)
  (Hn : named (files w) tier today) (Hday : Z.of_nat today ≤ LAST_DAY)
  (Hc : create h tier (Utc.date_text (calendar today)) topic w = (w', Ok r))
  (Hl : latest h' tier w' = (w'', Ok found)) :
  found = Some r ∧ named (files w') tier today.
Proof.
  assert (tier_name (RunRecord.root r) = tier) as Ht.
  { pose proof Hc as H. by apply create_Ok in H as (? & ? & _ & -> & _). }
  apply create_named in Hc as (Hnamed & Hin & Hmax); [|done]. split; [|done].
  apply latest_Ok in Hl as [Hl _]. destruct found as [r'|]; [|by apply Hl in Hin].
  destruct Hl as (Ht' & (d & Hd) & Hle). pose proof (Hle _ _ Hin) as Hge. unfold str_le in Hge.
  destruct (Hmax _ (mk_is_Some _ _ Hd) Hday) as [E|E]; [|congruence].
  destruct r as [[t n]], r' as [[t' n']]. unfold RunRecord.identifier in E. cbn in *. by subst.
Qed.

Lemma latest_finds_created_witness :
  let c := create record_host (str "dev") (Utc.date_text (calendar 2)) (str "repository")
             (mk_world 0 ∅) in
  Some (RunRecord.mk (At (str "dev") (str "1970-01-03-01-repository"))) =
    Some (RunRecord.mk (At (str "dev") (str "1970-01-03-01-repository"))) ∧
  named (files c.1) (str "dev") 2.
Proof.
  intros c.
  apply (latest_finds_created record_host record_host (str "dev") (str "repository") 2
           (mk_world 0 ∅) c.1 (latest record_host (str "dev") c.1).1).
  - intros name Hs. vm_compute in Hs. by destruct Hs.
  - vm_compute. discriminate.
  - apply run_eq. vm_compute. reflexivity.
  - apply run_eq. vm_compute. reflexivity.
Defined.

(** The journal is append-only and read back in order: when [append_journal] succeeds on a
    journal whose last line is complete, [entries] afterwards reads the entries it read
    before and then the new one, the journal's last line is complete again, and no other
    file of any record has changed. *)
Theorem append_entries (h : Host) (r : RunRecord.t) (fs : list (text * Value.t)) (w w' : World)
  (es : list JournalEntry.t) (e : JournalEntry.t)
  (Hc : complete_lines (journal_of (files w) r)) (Hfs : Forall field_typed fs)
  (Hes : recorded (files w) r = Ok es)
  (He : JournalEntry.parse (Object.encode (object_of fs)) = Ok e)
  (H : append_journal h r (object_of fs) w = (w', Ok tt)) :
  recorded (files w') r = Ok (es ++ [e]) ∧
  complete_lines (journal_of (files w') r) ∧
  ∀ l f, ¬ (l = RunRecord.root r ∧ f = Journal) → file_of (files w') l f = file_of (files w) l f.
Proof.
  apply append_journal_Ok in H. unfold recorded. unfold journal_of at 1 2.
  rw (updated_eq _ _ _ _ _ H). cbn [unwrap_or]. split; [|split].
  - rw recorded_append; [done..|]. unfold recorded in Hes. by rw Hes He.
  - apply complete_append.
  - intros l f Hne. by apply (updated_ne _ _ _ _ _ _ _ H).
Qed.

(** An entry as a campaign writes it. *)
Definition entry_fields (segment : text) (attempt : Z) (status identity : text) :
  list (text * Value.t) :=
  [(str "segment", Value.String segment); (str "attempt", Value.Number attempt);
   (str "status", Value.String status); (str "evidence_identity", Value.String identity);
   (str "evidence", Value.String (str "segments/evidence.txt"))].

Lemma entry_fields_typed segment attempt status identity :
  0 ≤ attempt ≤ U64_MAX → Forall field_typed (entry_fields segment attempt status identity).
Proof. intros Ha. by repeat (apply Forall_cons_2; [done|]). Qed.

Definition first_fields := entry_fields (str "unit-tests") 1 (str "fail") (str "identity").
Definition second_fields := entry_fields (str "unit-tests") 2 (str "pass") (str "identity").

Lemma sample_entries_typed : Forall field_typed first_fields ∧ Forall field_typed second_fields.
Proof.
  split; apply entry_fields_typed; unfold U64_MAX; lia.
Qed.

Definition dev_record : RunRecord.t := RunRecord.mk (At (str "dev") (str "2026-09-15-01-repository")).

Definition appended : World * Result unit :=
  append_journal record_host dev_record (object_of first_fields) record_world.

Lemma append_entries_witness :
  recorded (files appended.1) dev_record =
    Ok ([] ++ [JournalEntry.mk (str "unit-tests") 1 (str "fail") (str "identity")
                 (str "segments/evidence.txt")]) ∧
  complete_lines (journal_of (files appended.1) dev_record) ∧
  ∀ l f, ¬ (l = RunRecord.root dev_record ∧ f = Journal) →
         file_of (files appended.1) l f = file_of (files record_world) l f.
Proof.
  apply (append_entries record_host dev_record first_fields record_world).
  - left. vm_compute. reflexivity.
  - apply sample_entries_typed.
  - vm_compute. reflexivity.
  - vm_compute. reflexivity.
  - apply run_eq. vm_compute. reflexivity.
Defined.

(** An entry that was written without its line feed swallows the next one: when the journal
    ends in a whole entry but no line feed (an interrupted write), a later [append_journal]
    succeeds and yet [entries] reads only the interrupted entry; the later one is lost. *)
Theorem torn_entry_lost (h : Host) (r : RunRecord.t) (j : text) (fs gs : list (text * Value.t))
  (w w' : World) (es : list JournalEntry.t) (e : JournalEntry.t)
  (Hj : file_of (files w) (RunRecord.root r) Journal = Some (j ++ Object.encode (object_of fs)))
  (Hc : complete_lines j) (Hfs : Forall field_typed fs) (Hgs : Forall field_typed gs)
  (Hes : parse_lines (lines j) = Ok es)
  (He : JournalEntry.parse (Object.encode (object_of fs)) = Ok e)
  (H : append_journal h r (object_of gs) w = (w', Ok tt)) :
  recorded (files w') r = Ok (es ++ [e]).
Proof.
  apply append_journal_Ok in H. unfold recorded, journal_of at 1.
  rw (updated_eq _ _ _ _ _ H). unfold journal_of. rw Hj. cbn [unwrap_or].
  rw -app_assoc lines_app; [done|]. rw parse_lines_app Hes.
  unfold lines. rw app_assoc lines_from_line.
  { apply Forall_app. split; by apply encode_line. }
  cbn [app]. unfold Object.encode at 2. rw app_assoc app_assoc.
  rw strip_carriage_return_id; [done|]. rw -app_assoc -app_assoc.
  fold (Object.encode (object_of gs)). cbn [parse_lines].
  replace (is_empty (trim (Object.encode (object_of fs) ++ Object.encode (object_of gs))))
    with false.
  - unfold JournalEntry.parse in *. rw parse_encoded; [done|].
    rw -(app_nil_r (Object.encode (object_of fs))) parse_encoded in He; [done|]. by rw He.
  - unfold Object.encode at 1. rw -!app_assoc. cbn [app]. by rw trim_object.
Qed.

(** The first append is cut off before the line feed, the second succeeds. *)
Definition torn_host : Host :=
  mk_host (λ n, if (n =? 1)%nat
                then Some (Fault (length (Object.encode (object_of first_fields))) (str "interrupted"))
                else None)
    (λ _, 0) (λ _, None) (λ _ _ _ _, Err []) (λ _ _ _, true) (λ _ _ _, Err []).

Definition torn_world : World :=
  (append_journal torn_host dev_record (object_of first_fields) record_world).1.

Lemma torn_entry_lost_witness :
  recorded (files (append_journal torn_host dev_record (object_of second_fields) torn_world).1)
    dev_record =
  Ok ([] ++ [JournalEntry.mk (str "unit-tests") 1 (str "fail") (str "identity")
               (str "segments/evidence.txt")]).
Proof.
  apply (torn_entry_lost torn_host dev_record [] first_fields second_fields torn_world).
  - vm_compute. reflexivity.
  - left. reflexivity.
  - apply sample_entries_typed.
  - apply sample_entries_typed.
  - reflexivity.
  - vm_compute. reflexivity.
  - apply run_eq. vm_compute. reflexivity.
Defined.
