(* ===== verification/Campaigns.v ===== *)
(** * Campaigns

    [src/tools/validation-runner/src/campaign.rs]: the segments and the tiers that require
    them, the execution of a campaign against a record, the reuse of earlier results, and
    the decision whether a record seals. *)

From S2P Require Export Identity Segment Record.
From Stdlib Require Floats.SpecFloat.
Local Open Scope Z_scope.

(** [Duration::from_secs(120)] in nanoseconds. *)
Definition NANOS_PER_SECOND : Z := 1000000000.
Definition SEGMENT_BUDGET : Z := 120 * NANOS_PER_SECOND.
Definition CAMPAIGN_TYPE : text := str "repository-validation".

Module Tier.
Inductive t := Dev | Gate.
#[global] Instance eq_dec : EqDecision t.
Proof. solve_decision. Defined.

Definition as_str (t : t) : text :=
  match t with Dev => str "dev" | Gate => str "gate" end.

Definition parse (value : text) : Result t :=
  if bool_decide (value = str "dev") then Ok Dev
  else if bool_decide (value = str "gate") then Ok Gate
  else failed (str "`" ++ value ++
               str "` is not a tier this runner executes. Use `dev` or `gate`.").
End Tier.

Module Prerequisite.
Record t := mk { probe : Step.t; remedy : text }.
End Prerequisite.

Module SegmentDefinition.
Record t := mk {
  id : text;
  purpose : text;
  tiers : list Tier.t;
  prerequisite : option Prerequisite.t;
  steps : list Step.t
}.

Definition definition_line (s : t) : text :=
  id s ++ str "::" ++ join (str " && ") (map Step.display (steps s)).
End SegmentDefinition.

(** ** The segments *)

(** The scripts; a tilde stands for a quotation mark. *)
Definition script (parts : list text) : text :=
  map (λ c, if c =? 126 then QUOTATION else c) (concat parts).

Definition CLEAN_CLONE_CHECK : text := script [
  str "dir=$(mktemp -d) || exit 1; ";
  str "trap 'rm -rf ~$dir~' EXIT; ";
  str "url=$(git remote get-url origin) || exit 1; ";
  str "revision=$(git rev-parse HEAD) || exit 1; ";
  str "git clone --quiet ~$url~ ~$dir/clone~ || exit 1; ";
  str "git -C ~$dir/clone~ checkout --quiet ~$revision~ || ";
  str "{ echo 'the revision under test is not on the remote'; exit 1; }; ";
  str "if [ -n ~$(git -C ~$dir/clone~ status --porcelain --ignored)~ ]; then ";
  str "echo 'the clone carries files that the repository does not track'; exit 1; fi; ";
  str "cd ~$dir/clone~ || exit 1; ";
  str "cargo build || exit 1; ";
  str "cargo fmt --all --check || exit 1; ";
  str "cargo clippy --workspace --all-targets || exit 1; ";
  str "cargo test --workspace || exit 1; ";
  str "cargo package --package rp1db || exit 1"].

Definition LINT_ALLOWANCE_CHECK : text := script [
  str "if git ls-files -z '*.rs' | xargs -0 grep -lnE '#!?\[(allow|expect)\('; then ";
  str "echo 'tracked source carries a lint allowance'; ";
  str "exit 1; fi"].

Definition LOCAL_PATH_CHECK : text := script [
  str "if git ls-files -z -- '*Cargo.toml' ':(exclude)fuzz/*' | xargs -0 grep -lE ";
  str "'path[[:space:]]*=[[:space:]]*~[^~]*[.][.]'; then ";
  str "echo 'a manifest declares a path dependency that leaves the repository'; ";
  str "exit 1; fi"].

Definition PACKAGE_CONTENTS_CHECK : text := script [
  str "list=$(cargo package --list --package rp1db) || exit 1; ";
  str "unexpected=$(printf '%s\n' ~$list~ | grep -vE ";
  str "'^([.]cargo_vcs_info[.]json|Cargo[.]toml|Cargo[.]toml[.]orig|Cargo[.]lock";
  str "|LICENSE-(MIT|APACHE)|README[.]md|CHANGELOG[.]md|src/.*[.]rs)$'); ";
  str "if [ -n ~$unexpected~ ]; then ";
  str "echo 'the package carries files the allowlist does not name:'; ";
  str "printf '%s\n' ~$unexpected~; exit 1; fi; ";
  str "for required in Cargo.toml README.md CHANGELOG.md LICENSE-MIT LICENSE-APACHE src/lib.rs; do ";
  str "if ! printf '%s\n' ~$list~ | grep -qx ~$required~; ";
  str "then echo ~the package is missing $required~; exit 1; fi; done"].

Definition INTERNAL_REFERENCE_SCAN : text := script [
  str "files=$(git ls-files | grep -vE ";
  str "'^([.]gitignore|tools/validation-runner/src/campaign[.]rs)$'); ";
  str "hits=$(printf '%s\n' ~$files~ | xargs grep -InE ";
  str "'(AGENTS[.]md|CLAUDE[.]md|[.]agents/|[.]claude/|probes/|runs/|foundation/|tmp/";
  str "|[Rr]ule [0-9]|/(investigate|plan-authoring|implement|definition-of-done";
  str "|pr-check|pr-review|pr-merge))' /dev/null); ";
  str "if [ -n ~$hits~ ]; then ";
  str "echo 'a tracked file cites internal working material:'; ";
  str "printf '%s\n' ~$hits~; exit 1; fi"].

Definition core_segments : list SegmentDefinition.t := [
  SegmentDefinition.mk (str "build-and-lint")
    (str "the workspace compiles, is formatted, and lints clean")
    [Tier.Dev; Tier.Gate] None
    [Step.mk (str "cargo") [str "build"; str "--workspace"; str "--all-targets"];
     Step.mk (str "cargo") [str "fmt"; str "--all"; str "--check"];
     Step.mk (str "cargo") [str "clippy"; str "--workspace"; str "--all-targets"];
     Step.mk (str "/bin/sh") [str "-c"; LINT_ALLOWANCE_CHECK]];
  SegmentDefinition.mk (str "unit-tests")
    (str "the crate and the runner pass their unit tests")
    [Tier.Dev; Tier.Gate] None
    [Step.mk (str "cargo") [str "test"; str "--workspace"]];
  SegmentDefinition.mk (str "spec-fixtures")
    (str "the vendored public specification fixture corpus passes")
    [Tier.Dev; Tier.Gate] None
    [Step.mk (str "cargo") [str "test"; str "--package"; str "rp1db"; str "--test"; str "spec_fixtures"]];
  SegmentDefinition.mk (str "connection")
    (str "the public connection surface completes the handshake")
    [Tier.Dev; Tier.Gate] None
    [Step.mk (str "cargo") [str "test"; str "--package"; str "rp1db"; str "--test"; str "connection"]];
  SegmentDefinition.mk (str "msrv")
    (str "the published crate compiles on its declared minimum Rust version")
    [Tier.Dev; Tier.Gate]
    (Some (Prerequisite.mk (Step.mk (str "cargo") [str "+1.85.0"; str "--version"])
             (str "install it with `rustup toolchain install 1.85.0`")))
    [Step.mk (str "cargo") [str "+1.85.0"; str "check"; str "--package"; str "rp1db"]];
  SegmentDefinition.mk (str "deps")
    (str "the dependency graph satisfies the committed supply-chain policy")
    [Tier.Dev; Tier.Gate]
    (Some (Prerequisite.mk (Step.mk (str "cargo") [str "deny"; str "--version"])
             (str "install it with `cargo install cargo-deny`")))
    [Step.mk (str "cargo") [str "deny"; str "check"];
     Step.mk (str "/bin/sh") [str "-c"; LOCAL_PATH_CHECK]]].

Definition evidence_segments : list SegmentDefinition.t := [
  SegmentDefinition.mk (str "package-contents")
    (str "the published package carries the intended files and nothing else")
    [Tier.Gate] None
    [Step.mk (str "/bin/sh") [str "-c"; PACKAGE_CONTENTS_CHECK];
     Step.mk (str "cargo") [str "package"; str "--package"; str "rp1db"]];
  SegmentDefinition.mk (str "no-internal-references")
    (str "no tracked file cites internal working material")
    [Tier.Dev; Tier.Gate] None
    [Step.mk (str "/bin/sh") [str "-c"; INTERNAL_REFERENCE_SCAN]];
  SegmentDefinition.mk (str "docs")
    (str "the documentation builds and its links resolve")
    [Tier.Dev; Tier.Gate] None
    [Step.mk (str "cargo") [str "doc"; str "--no-deps"; str "--workspace"]];
  SegmentDefinition.mk (str "fuzz-frame-decoder")
    (str "the frame decoder survives a bounded fuzzing run")
    [Tier.Dev; Tier.Gate]
    (Some (Prerequisite.mk (Step.mk (str "cargo") [str "fuzz"; str "--version"])
             (str "install it with `cargo install cargo-fuzz`")))
    [Step.mk (str "cargo") [str "+nightly"; str "fuzz"; str "run"; str "frame_decode"; str "--";
                            str "-runs=10000"; str "-max_total_time=45"]];
  SegmentDefinition.mk (str "clean-clone")
    (str "a clean clone builds, tests, lints, and packages on its own")
    [Tier.Gate] None
    [Step.mk (str "/bin/sh") [str "-c"; CLEAN_CLONE_CHECK]]].

Definition definition : list SegmentDefinition.t := core_segments ++ evidence_segments.

Definition required (tier : Tier.t) : list SegmentDefinition.t :=
  List.filter (λ s, bool_decide (tier ∈ SegmentDefinition.tiers s)) definition.

Definition definition_digest (segments : list SegmentDefinition.t) : text :=
  digest (join [NEWLINE] (map SegmentDefinition.definition_line segments)).

(** ** Results and sealing *)

Module SegmentResult.
Record t := mk {
  id : text;
  attempt : Z;
  status : Status.t;
  duration : Z;
  note : option text;
  evidence : text;
  identity : text
}.
End SegmentResult.

Module State.
Inductive t := Partial | Sealed | Failed.
#[global] Instance eq_dec : EqDecision t.
Proof. solve_decision. Defined.
Definition as_str (s : t) : text :=
  match s with Partial => str "partial" | Sealed => str "sealed" | Failed => str "failed" end.
End State.

Inductive TreeState := Clean | Modified (changes : list text).

Module FinalResult.
Record t := mk { id : text; status : Status.t; identity : text }.
End FinalResult.

(** The reasons [seal_state] states. *)
Definition blocked_reason (r : FinalResult.t) : text :=
  FinalResult.id r ++ str " is " ++ Status.as_str (FinalResult.status r).
Definition mismatch_reason (r : FinalResult.t) : text :=
  FinalResult.id r ++ str " holds under a different evidence identity".

Definition seal_state (required : list text) (finals : list FinalResult.t) (identity : text)
  (tree : TreeState) : State.t * list text :=
  let blocked := map blocked_reason
    (List.filter (λ r, negb (Status.holds (FinalResult.status r))) finals) in
  let missing := List.filter
    (λ id, negb (existsb (λ r, bool_decide (FinalResult.id r = id)) finals)) required in
  let mismatched := map mismatch_reason
    (List.filter (λ r, Status.holds (FinalResult.status r) &&
                       negb (bool_decide (FinalResult.identity r = identity))) finals) in
  if negb (is_empty blocked) then (State.Failed, blocked) else
  let reasons :=
    (if negb (is_empty missing) then [str "no result for " ++ join (str ", ") missing] else []) ++
    mismatched ++
    match tree with
    | Modified changes =>
        [str "the working tree carries " ++ decimal (len changes) ++
         str " change(s) that the recorded revision does not"]
    | Clean => []
    end in
  if is_empty reasons then (State.Sealed, reasons) else (State.Partial, reasons).

Module Report.
Record t := mk {
  results : list SegmentResult.t;
  state : State.t;
  reasons : list text
}.

Definition every_segment_holds (r : t) : bool :=
  forallb (λ result, Status.holds (SegmentResult.status result)) (results r).

Definition reused (r : t) : Z :=
  len (List.filter (λ result, negb (Status.executed (SegmentResult.status result))) (results r)).
End Report.

(** ** Formatting seconds *)

(** [Duration::as_secs_f64], in binary64. *)
Definition f64_of (z : Z) : SpecFloat.spec_float := SpecFloat.binary_normalize 53 1024 z 0 false.
Definition as_secs_f64 (duration : Z) : SpecFloat.spec_float :=
  SpecFloat.SFadd 53 1024 (f64_of (duration / NANOS_PER_SECOND))
    (SpecFloat.SFdiv 53 1024 (f64_of (duration mod NANOS_PER_SECOND)) (f64_of NANOS_PER_SECOND)).

(** [{:.1}] of a float that is not negative: the nearest tenth, ties to even. *)
Definition tenths (v : SpecFloat.spec_float) : Z :=
  match v with
  | SpecFloat.S754_finite _ m e =>
      if 0 <=? e then 10 * Z.pos m * 2 ^ e else
      let d := 2 ^ (- e) in
      let q := 10 * Z.pos m / d in
      let r := 10 * Z.pos m mod d in
      if 2 * r <? d then q else if d <? 2 * r then q + 1 else if Z.even q then q else q + 1
  | _ => 0
  end.
Definition seconds_text (duration : Z) : text :=
  let t := tenths (as_secs_f64 duration) in decimal (t / 10) ++ str "." ++ decimal (t mod 10).

(** [duration_millis]. *)
Definition duration_millis (duration : Z) : Z :=
  unwrap_or (try_from U64_MAX (duration / 1000000)) U64_MAX.

(** ** A campaign *)

Module Campaign.
Record t := mk {
  tier : Tier.t;
  topic : text;
  subject_revision : text;
  identity : EvidenceIdentity.t;
  segments : list SegmentDefinition.t;
  budget : Z;
  environment : Object.t;
  created : text;
  resume : bool;
  tree_state : TreeState
}.

(** [Campaign::reusable]. *)
Definition reusable (c : t) (prior : option JournalEntry.t) (identity : text) :
  option JournalEntry.t :=
  if negb (resume c) then None else
  let? prior := prior in
  let? status := Status.parse (JournalEntry.status prior) in
  if Status.holds status && bool_decide (JournalEntry.evidence_identity prior = identity)
  then Some prior else None.

Definition required_ids (c : t) : list text := map SegmentDefinition.id (segments c).

(** [Campaign::manifest]. *)
Definition manifest (c : t) (record : RunRecord.t) : Object.t :=
  let manifest := Object.new in
  let manifest := Object.string manifest (str "campaign") (RunRecord.identifier record) in
  let manifest := Object.string manifest (str "type") CAMPAIGN_TYPE in
  let manifest := Object.string manifest (str "topic") (topic c) in
  let manifest := Object.string manifest (str "tier") (Tier.as_str (tier c)) in
  let manifest := Object.string manifest (str "subject_revision") (subject_revision c) in
  let manifest := Object.strings manifest (str "required_segments") (required_ids c) in
  let manifest := Object.object manifest (str "evidence_identity")
                    (EvidenceIdentity.to_json (identity c)) in
  let manifest := Object.number manifest (str "segment_budget_seconds")
                    (budget c / NANOS_PER_SECOND) in
  let manifest := Object.object manifest (str "environment") (environment c) in
  Object.string manifest (str "created") (created c).

(** [Campaign::journal_entry]. *)
Definition journal_entry (c : t) (result : SegmentResult.t) (started : text) : Object.t :=
  let entry := Object.new in
  let entry := Object.string entry (str "segment") (SegmentResult.id result) in
  let entry := Object.number entry (str "attempt") (SegmentResult.attempt result) in
  let entry := Object.string entry (str "started") started in
  let entry := Object.number entry (str "duration_ms")
                 (duration_millis (SegmentResult.duration result)) in
  let entry := Object.string entry (str "status") (Status.as_str (SegmentResult.status result)) in
  let entry := Object.string entry (str "subject_revision") (subject_revision c) in
  let entry := Object.string entry (str "evidence_identity")
                 (EvidenceIdentity.digest_of (identity c)) in
  let entry := Object.string entry (str "evidence") (SegmentResult.evidence result) in
  match SegmentResult.note result with
  | Some note => Object.string entry (str "note") note
  | None => entry
  end.

(** [Campaign::summary]. *)
Definition summary_header (c : t) (record : RunRecord.t) (report : Report.t) : list text :=
  [str "# " ++ RunRecord.identifier record;
   [];
   str "Type: " ++ CAMPAIGN_TYPE;
   str "Tier: " ++ Tier.as_str (tier c);
   str "Revision: " ++ subject_revision c;
   str "Evidence identity: " ++ EvidenceIdentity.digest_of (identity c);
   str "State: " ++ State.as_str (Report.state report);
   [];
   str "| Segment | Attempt | Status | Seconds |";
   str "| --- | --- | --- | --- |"].

Definition result_row (r : SegmentResult.t) : text :=
  str "| " ++ SegmentResult.id r ++ str " | " ++ decimal (SegmentResult.attempt r) ++ str " | " ++
  Status.as_str (SegmentResult.status r) ++ str " | " ++
  seconds_text (SegmentResult.duration r) ++ str " |".

Definition note_row (r : SegmentResult.t) : list text :=
  match SegmentResult.note r with
  | Some note => [str "- " ++ SegmentResult.id r ++ str ": " ++ note]
  | None => []
  end.

Definition summary (c : t) (record : RunRecord.t) (report : Report.t) : text :=
  let notes := concat (map note_row (Report.results report)) in
  join [NEWLINE]
    (summary_header c record report ++
     map result_row (Report.results report) ++
     (if negb (is_empty (Report.reasons report)) then
        [[]; str "## Why this record does not seal"; []] ++
        map (λ reason, str "- " ++ reason) (Report.reasons report)
      else []) ++
     (if negb (is_empty notes) then [[]; str "## Notes"; []] ++ notes else []) ++
     [[]; str "## Segments"; []] ++
     map (λ s, str "- " ++ SegmentDefinition.id s ++ str ": " ++ SegmentDefinition.purpose s)
       (segments c) ++
     [[]; str "## Scope"; [];
      str "This record covers the segments listed above at the stated revision and";
      str "evidence identity. It states nothing about any other revision, any other";
      str "input, or any segment it does not list.";
      []]).
End Campaign.

(** [reuse]. *)
Definition reuse (id : text) (attempt : Z) (prior : JournalEntry.t) (identity : text) :
  SegmentResult.t :=
  SegmentResult.mk id attempt Status.Cached 0
    (Some (str "reused the result recorded by attempt " ++ decimal (JournalEntry.attempt prior)))
    (JournalEntry.evidence prior) identity.

(** The note of a segment whose prerequisite is missing. *)
Definition prerequisite_note (p : Prerequisite.t) : text :=
  str "`" ++ Step.display (Prerequisite.probe p) ++
  str "` is not available on this host, so this segment did not run. " ++ Prerequisite.remedy p.

Section host.
Context (h : Host).

(** [std::fs::write]. *)
Definition write_text (l : location) (f : file) (s : text) : M unit :=
  run* create_file h l f; append_text h l f s.

(** [Campaign::attempt]. *)
Definition attempt (c : Campaign.t) (definition : SegmentDefinition.t) (l : location) (f : file) :
  M Outcome.t :=
  do* missing <-
    match SegmentDefinition.prerequisite definition with
    | None => ret None
    | Some p =>
        do* available <- probe h (Prerequisite.probe p);
        ret (if negb available then Some p else None)
    end;
  match missing with
  | Some p =>
      let note := prerequisite_note p in
      run* write_text l f (str "[" ++ note ++ str "]" ++ [NEWLINE]);
      ret (Outcome.mk Status.Skipped 0 (Some note))
  | None => execute_segment h (SegmentDefinition.steps definition) (Campaign.budget c) l f
  end.

(** The loop body of [Campaign::execute]: one segment, run or reused, and its entry. *)
Definition execute_one (c : Campaign.t) (record : RunRecord.t) (now : M text) (identity : text)
  (definition : SegmentDefinition.t) : M SegmentResult.t :=
  let id := SegmentDefinition.id definition in
  do* prior_attempts <- attempts_for h record id;
  match checked_add U32_MAX prior_attempts 1 with
  | None => lift (failed (str "this record holds more attempts than it can count"))
  | Some attempt_number =>
      do* started <- now;
      do* prior <- last_entry_for h record id;
      do* result <-
        match Campaign.reusable c prior identity with
        | Some prior => ret (reuse id attempt_number prior identity)
        | None =>
            do* outcome <- attempt c definition (RunRecord.root record)
                             (evidence_path id attempt_number);
            ret (SegmentResult.mk id attempt_number (Outcome.status outcome)
                   (Outcome.duration outcome) (Outcome.note outcome)
                   (evidence_reference id attempt_number) identity)
        end;
      run* append_journal h record (Campaign.journal_entry c result started);
      ret result
  end.

Fixpoint execute_all (c : Campaign.t) (record : RunRecord.t) (now : M text) (identity : text)
  (definitions : list SegmentDefinition.t) : M (list SegmentResult.t) :=
  match definitions with
  | [] => ret []
  | d :: ds =>
      do* result <- execute_one c record now identity d;
      do* results <- execute_all c record now identity ds;
      ret (result :: results)
  end.

Definition final_of (r : SegmentResult.t) : FinalResult.t :=
  FinalResult.mk (SegmentResult.id r) (SegmentResult.status r) (SegmentResult.identity r).

(** [Campaign::execute]. *)
Definition execute_campaign (c : Campaign.t) (record : RunRecord.t) (now : M text) : M Report.t :=
  run* write_manifest h record (Campaign.manifest c record);
  let identity := EvidenceIdentity.digest_of (Campaign.identity c) in
  do* results <- execute_all c record now identity (Campaign.segments c);
  let (state, reasons) :=
    seal_state (Campaign.required_ids c) (map final_of results) identity (Campaign.tree_state c) in
  let report := Report.mk results state reasons in
  run* write_summary h record (Campaign.summary c record report);
  ret report.

End host.
