(* ===== verification/CampaignTheorems.v ===== *)
(** * Campaigns: lemmas and properties

    When a set of results seals ([seal_exact]); what an execution adds to the journal
    ([campaign_records]); that a reused result goes back to one that passed under the same
    identity ([sealed_means_passed]); that evidence of recorded attempts is kept
    ([evidence_kept]); and the case the seal misses ([dirty_evidence_sealed]). *)

From S2P Require Export SegmentTheorems RecordTheorems Campaigns.
Local Open Scope Z_scope.

(** ** Sealing *)

Lemma filter_nil {A} (p : A → bool) l : List.filter p l = [] ↔ ∀ x, x ∈ l → p x = false.
Proof.
  induction l as [|y l IH]; simpl; [split; [intros _ x Hx; by apply elem_of_nil in Hx | done]|].
  destruct (p y) eqn:E; split.
  - done.
  - intros H. by rw (H y ltac:(left)) in E.
  - intros H x [->|Hx]%elem_of_cons; [done | by apply IH].
  - intros H. apply IH. intros x Hx. apply H. by right.
Qed.

Lemma is_empty_map {A B} (g : A → B) l : is_empty (map g l) = is_empty l.
Proof. by destruct l. Qed.

Lemma is_empty_app {A} (l k : list A) : is_empty (l ++ k) = is_empty l && is_empty k.
Proof. by destruct l. Qed.

(** Every result holds. *)
Definition all_hold (finals : list FinalResult.t) : Prop :=
  ∀ r, r ∈ finals → Status.holds (FinalResult.status r) = true.

Lemma not_blocked finals :
  is_empty (List.filter (λ r, negb (Status.holds (FinalResult.status r))) finals) = true ↔
  all_hold finals.
Proof.
  rw is_empty_spec filter_nil. unfold all_hold.
  split; intros H r Hr; specialize (H r Hr); by destruct (Status.holds _).
Qed.

Lemma not_missing required finals :
  is_empty (List.filter
    (λ id, negb (existsb (λ r, bool_decide (FinalResult.id r = id)) finals)) required) = true ↔
  ∀ id, id ∈ required → ∃ r, r ∈ finals ∧ FinalResult.id r = id.
Proof.
  rw is_empty_spec filter_nil. split; intros H id Hid; specialize (H id Hid).
  - apply negb_false_iff, existsb_exists in H as (r & Hr & E).
    exists r. split; [by apply list_elem_of_In|]. by apply bool_decide_eq_true in E.
  - destruct H as (r & Hr & E). apply negb_false_iff, existsb_exists.
    exists r. split; [by apply list_elem_of_In|]. by apply bool_decide_eq_true.
Qed.

Lemma not_mismatched finals identity :
  all_hold finals →
  is_empty (List.filter (λ r, Status.holds (FinalResult.status r) &&
    negb (bool_decide (FinalResult.identity r = identity))) finals) = true ↔
  ∀ r, r ∈ finals → FinalResult.identity r = identity.
Proof.
  intros Hh. rw is_empty_spec filter_nil. split; intros H r Hr; specialize (H r Hr); specialize (Hh r Hr).
  - rw Hh in H. cbn [andb] in H. apply negb_false_iff in H. by apply bool_decide_eq_true in H.
  - rw Hh. cbn [andb]. apply negb_false_iff. by apply bool_decide_eq_true.
Qed.

(** The conditions of a seal. *)
Definition seals (required : list text) (finals : list FinalResult.t) (identity : text)
  (tree : TreeState) : Prop :=
  all_hold finals ∧
  (∀ id, id ∈ required → ∃ r, r ∈ finals ∧ FinalResult.id r = id) ∧
  (∀ r, r ∈ finals → FinalResult.identity r = identity) ∧
  tree = Clean.

Lemma no_reasons required finals identity tree :
  all_hold finals →
  is_empty
    ((if negb (is_empty (List.filter (λ id, negb (existsb (λ r, bool_decide (FinalResult.id r = id)) finals)) required))
      then [str "no result for " ++ join (str ", ") (List.filter (λ id, negb (existsb (λ r, bool_decide (FinalResult.id r = id)) finals)) required)]
      else []) ++
     map mismatch_reason (List.filter (λ r, Status.holds (FinalResult.status r) &&
       negb (bool_decide (FinalResult.identity r = identity))) finals) ++
     match tree with
     | Modified changes =>
         [str "the working tree carries " ++ decimal (len changes) ++
          str " change(s) that the recorded revision does not"]
     | Clean => []
     end) = true ↔ seals required finals identity tree.
Proof.
  intros Hh. rw !is_empty_app is_empty_map !andb_true_iff (not_mismatched _ _ Hh).
  unfold seals. rw -not_missing. set (missing := List.filter _ required).
  assert (is_empty (if negb (is_empty missing)
            then [str "no result for " ++ join (str ", ") missing] else []) = is_empty missing) as ->
    by (by destruct missing).
  destruct tree; cbn [is_empty]; intuition congruence.
Qed.

Lemma seal_cases required finals identity tree :
  let (state, reasons) := seal_state required finals identity tree in
  match state with
  | State.Failed => ¬ all_hold finals ∧ reasons ≠ []
  | State.Partial => all_hold finals ∧ ¬ seals required finals identity tree ∧ reasons ≠ []
  | State.Sealed => seals required finals identity tree ∧ reasons = []
  end.
Proof.
  unfold seal_state. rw is_empty_map.
  destruct (is_empty (List.filter (λ r, negb _) finals)) eqn:Eb; cbn [negb].
  - apply not_blocked in Eb. pose proof (no_reasons required finals identity tree Eb) as N.
    cbv zeta. match type of N with is_empty ?r = true ↔ _ => set (reasons := r) in * end.
    destruct (is_empty reasons) eqn:E.
    + split; [by apply N|]. by apply is_empty_spec.
    + split; [done|]. split; [intros H; apply N in H; congruence|]. by destruct reasons.
  - split; [intros H; apply not_blocked in H; congruence|]. by destruct (List.filter _ finals).
Qed.

(** C23. A record seals exactly when it should: [seal_state] answers [Sealed] exactly when every
    result holds, every required segment has a result, every result holds under the record's
    evidence identity and the working tree is clean; [Failed] exactly when some result does
    not hold; and it states a reason exactly when it does not seal. *)
Theorem seal_exact (required : list text) (finals : list FinalResult.t) (identity : text)
  (tree : TreeState) :
  let (state, reasons) := seal_state required finals identity tree in
  (state = State.Sealed ↔ seals required finals identity tree) ∧
  (state = State.Failed ↔ ¬ all_hold finals) ∧
  (reasons = [] ↔ state = State.Sealed).
Proof.
  pose proof (seal_cases required finals identity tree) as H.
  destruct (seal_state required finals identity tree) as [[] reasons]; unfold seals in *;
    intuition congruence.
Qed.

(** ** Journal entries *)

Lemma parse_as_str s : Status.parse (Status.as_str s) = Some s.
Proof. by destruct s. Qed.

Lemma parse_holds value st :
  Status.parse value = Some st → Status.holds st = true →
  value = Status.as_str Status.Pass ∨ value = Status.as_str Status.Cached.
Proof.
  unfold Status.parse. intros H Hh.
  destruct (bool_decide_reflect (value = str "pass")); [by left|].
  destruct (bool_decide (value = str "fail")); [by simplify_eq|].
  destruct (bool_decide (value = str "timeout")); [by simplify_eq|].
  destruct (bool_decide (value = str "skipped")); [by simplify_eq|].
  destruct (bool_decide_reflect (value = str "cached")); [by right | done].
Qed.

(** The fields [Campaign::journal_entry] writes. *)
Definition journal_fields (c : Campaign.t) (r : SegmentResult.t) (started : text) :
  list (text * Value.t) :=
  [(str "segment", Value.String (SegmentResult.id r));
   (str "attempt", Value.Number (SegmentResult.attempt r));
   (str "started", Value.String started);
   (str "duration_ms", Value.Number (duration_millis (SegmentResult.duration r)));
   (str "status", Value.String (Status.as_str (SegmentResult.status r)));
   (str "subject_revision", Value.String (Campaign.subject_revision c));
   (str "evidence_identity", Value.String (EvidenceIdentity.digest_of (Campaign.identity c)));
   (str "evidence", Value.String (SegmentResult.evidence r))] ++
  match SegmentResult.note r with
  | Some note => [(str "note", Value.String note)]
  | None => []
  end.

Lemma journal_entry_fields c r started :
  Campaign.journal_entry c r started = object_of (journal_fields c r started).
Proof. unfold Campaign.journal_entry, journal_fields. by destruct (SegmentResult.note r). Qed.

Lemma duration_millis_bound d : 0 ≤ duration_millis d ≤ U64_MAX.
Proof.
  unfold duration_millis. destruct (try_from U64_MAX (d / 1000000)) as [v|] eqn:E; [|done].
  apply try_from_Some in E as [-> E]. done.
Qed.

Lemma journal_fields_typed c r started :
  0 ≤ SegmentResult.attempt r ≤ U32_MAX → Forall field_typed (journal_fields c r started).
Proof.
  intros H. unfold journal_fields. apply Forall_app. split.
  - apply Forall_cons_2; [done|]. apply Forall_cons_2; [unfold U32_MAX, field_typed in *; cbn; unfold U64_MAX; lia|].
    apply Forall_cons_2; [done|]. apply Forall_cons_2; [apply duration_millis_bound|].
    by repeat (apply Forall_cons_2; [done|]).
  - destruct (SegmentResult.note r); [|done]. by apply Forall_cons_2.
Qed.

(** What is read back of a result. *)
Definition entry_of (c : Campaign.t) (r : SegmentResult.t) : JournalEntry.t :=
  JournalEntry.mk (SegmentResult.id r) (SegmentResult.attempt r)
    (Status.as_str (SegmentResult.status r)) (EvidenceIdentity.digest_of (Campaign.identity c))
    (SegmentResult.evidence r).

(** Decides equality of two literals. *)
Ltac literals :=
  repeat match goal with
  | |- context [bool_decide (str ?a = str ?b)] =>
      let v := eval vm_compute in (bool_decide (str a = str b)) in
      change (bool_decide (str a = str b)) with v; cbn match
  end.

Lemma parse_journal_entry c r started :
  0 ≤ SegmentResult.attempt r ≤ U32_MAX →
  JournalEntry.parse (Object.encode (object_of (journal_fields c r started))) = Ok (entry_of c r).
Proof.
  intros H. unfold JournalEntry.parse.
  rw -(app_nil_r (Object.encode _)) parse_encoded; [by apply journal_fields_typed|].
  unfold journal_fields. cbn [app string_field number_field]. literals. cbn [unwrap_or].
  by rw try_from_fits.
Qed.

(** ** One segment *)

(** The record's journal: complete lines that are read as [es]. *)
Definition journal_ok (fs : disk) (r : RunRecord.t) (es : list JournalEntry.t) : Prop :=
  recorded fs r = Ok es ∧ complete_lines (journal_of fs r).

Definition attempts_of (es : list JournalEntry.t) (id : text) : Z :=
  len (List.filter (of_segment id) es).

Lemma journal_of_eq fs fs' r :
  file_of fs' (RunRecord.root r) Journal = file_of fs (RunRecord.root r) Journal →
  journal_of fs' r = journal_of fs r.
Proof. intros E. unfold journal_of. by rw E. Qed.

Lemma journal_ok_eq fs fs' r es :
  file_of fs' (RunRecord.root r) Journal = file_of fs (RunRecord.root r) Journal →
  journal_ok fs r es → journal_ok fs' r es.
Proof. intros E. unfold journal_ok, recorded. by rw (journal_of_eq fs fs' r E). Qed.

(** Files that are neither the record's journal nor the evidence [f]. *)
Definition same_except (fs fs' : disk) (l : location) (P : file → Prop) : Prop :=
  ∀ l' f', ¬ (l' = l ∧ P f') → file_of fs' l' f' = file_of fs l' f'.

Lemma same_except_refl fs l P : same_except fs fs l P.
Proof. by intros l' f' _. Qed.

Lemma same_except_trans fs fs1 fs2 l (P : file → Prop) :
  same_except fs fs1 l P → same_except fs1 fs2 l P → same_except fs fs2 l P.
Proof. intros H1 H2 l' f' H. rw H2; [done|]. by rw H1. Qed.

Lemma updated_same_except fs fs' l f s (P : file → Prop) :
  updated fs fs' l f s → P f → same_except fs fs' l P.
Proof.
  intros H Hf l' f' Hn. apply (updated_ne _ _ _ _ _ _ _ H). intros [-> ->]. by apply Hn.
Qed.

Section host.
Context (h : Host) (now : M text) (Hnow : ∀ w, files (now w).1 = files w).

Lemma append_journal_ok c r res started w w' a es :
  append_journal h r (Campaign.journal_entry c res started) w = (w', Ok a) →
  journal_ok (files w) r es → 0 ≤ SegmentResult.attempt res ≤ U32_MAX →
  journal_ok (files w') r (es ++ [entry_of c res]) ∧
  same_except (files w) (files w') (RunRecord.root r) (λ f, f = Journal).
Proof.
  intros H [Hr Hc] Ha. rw journal_entry_fields in H. apply append_journal_Ok in H.
  split; [|by eapply updated_same_except].
  unfold journal_ok, recorded. unfold journal_of at 1 2. rw (updated_eq _ _ _ _ _ H). cbn [unwrap_or].
  split; [|apply complete_append]. rw recorded_append; [done | by apply journal_fields_typed|].
  unfold recorded in Hr. rw Hr. by rw parse_journal_entry.
Qed.

Lemma write_text_Ok l f s w w' a : write_text h l f s w = (w', Ok a) → updated (files w) (files w') l f s.
Proof.
  unfold write_text. intros H. inv_run H. unfold create_file in E. inv_run E.
  apply system_call_Ok in E0. apply write_file_spec in E as [(_ & E & _)|[? _]]; [|done].
  rw E0 in E. apply append_text_Ok in H. rw (updated_eq _ _ _ _ _ E) in H. cbn [unwrap_or] in H.
  by eapply updated_again.
Qed.

(** An attempt writes its evidence and nothing else, and is never a reuse. *)
Lemma attempt_Ok c d l f w w' o :
  attempt h c d l f w = (w', Ok o) →
  same_except (files w) (files w') l (λ g, g = f) ∧ Outcome.status o ≠ Status.Cached ∧
  (Outcome.status o = Status.Pass →
   ∃ log, attempt_spec (SegmentDefinition.steps d) Status.Pass None log ∧
          file_of (files w') l f = Some log).
Proof.
  unfold attempt. intros H. inv_run H. rename a into missing.
  assert (files w0 = files w) as Ew.
  { destruct (SegmentDefinition.prerequisite d).
    - inv_run E. unfold probe in E0. apply ask_Ok in E0 as [E0 _]. unfold ret in E. by simplify_eq.
    - unfold ret in E. by simplify_eq. }
  destruct missing as [p|].
  - inv_run H. apply write_text_Ok in E0. unfold ret in H. simplify_eq. rw Ew in E0.
    split; [by eapply updated_same_except|]. done.
  - apply execute_segment_spec in H as (log & Hs & Hu). rw Ew in Hu.
    split; [by eapply updated_same_except|]. split.
    + intros E'. rw E' in Hs. clear -Hs. remember Status.Cached as st eqn:Est.
      induction Hs; try discriminate. by apply IHHs.
    + intros E'. rw E' in Hs. apply attempt_pass in Hs as Hp. destruct Hp as [Hn _]. rw Hn in Hs.
      exists log. split; [done|]. by apply (updated_eq _ _ _ _ _ Hu).
Qed.

(** What the result of one segment is, given the entries before it. *)
Definition result_of (c : Campaign.t) (es : list JournalEntry.t) (identity : text)
  (d : SegmentDefinition.t) (res : SegmentResult.t) : Prop :=
  let id := SegmentDefinition.id d in
  SegmentResult.id res = id ∧
  SegmentResult.attempt res = attempts_of es id + 1 ∧
  SegmentResult.attempt res ≤ U32_MAX ∧
  SegmentResult.identity res = identity ∧
  match Campaign.reusable c (last (List.filter (of_segment id) es)) identity with
  | Some prior => res = reuse id (attempts_of es id + 1) prior identity
  | None =>
      SegmentResult.status res ≠ Status.Cached ∧
      SegmentResult.evidence res = evidence_reference id (attempts_of es id + 1)
  end.

(** The files one segment may write. *)
Definition segment_files (es : list JournalEntry.t) (id : text) (f : file) : Prop :=
  f = Journal ∨ f = evidence_path id (attempts_of es id + 1).

Lemma execute_one_spec c r identity d w w' res es :
  execute_one h c r now identity d w = (w', Ok res) → journal_ok (files w) r es →
  result_of c es identity d res ∧
  journal_ok (files w') r (es ++ [entry_of c res]) ∧
  same_except (files w) (files w') (RunRecord.root r)
    (segment_files es (SegmentDefinition.id d)) ∧
  (SegmentResult.status res = Status.Pass →
   ∃ log, attempt_spec (SegmentDefinition.steps d) Status.Pass None log ∧
     file_of (files w') (RunRecord.root r)
       (evidence_path (SegmentDefinition.id d) (SegmentResult.attempt res)) = Some log).
Proof using Hnow.
  intros H Hj. unfold execute_one in H. inv_run H.
  apply attempts_for_Ok in E as (E1 & es' & Er & -> & Hle).
  destruct Hj as [Hr Hc]. assert (es' = es) as -> by congruence. fold (attempts_of es (SegmentDefinition.id d)) in *.
  destruct (checked_add U32_MAX _ 1) as [k|] eqn:Ek; [|done].
  apply checked_add_Some in Ek as [-> Hk].
  apply bind_Ok in H as (w1 & started & En & H). pose proof (Hnow w0) as Fn.
  rw En in Fn. cbn [fst] in Fn.
  apply bind_Ok in H as (w2 & prior & El & H).
  apply last_entry_for_Ok in El as (Fl & es'' & Er' & ->).
  assert (files w2 = files w) as Ew2 by congruence.
  assert (files w1 = files w) as Ew1 by congruence. rw Ew1 in Er'.
  assert (es'' = es) as -> by congruence.
  apply bind_Ok in H as (w3 & res' & E2 & H). apply bind_Ok in H as (w4 & u & E4 & H).
  assert (0 ≤ attempts_of es (SegmentDefinition.id d)) by (unfold attempts_of, len; lia).
  unfold ret in H. simplify_eq. unfold result_of.
  destruct (Campaign.reusable c _ identity) as [prior|] eqn:Eu.
  - unfold ret in E2. simplify_eq.
    apply (append_journal_ok _ _ _ _ _ _ _ es) in E4 as [Hj' Hs].
    + split; [by repeat split|]. split; [done|]. split; [|done].
      intros l' f' Hn. rw Hs; [intros [-> ->]; apply Hn; split; [done | by left]|]. by rw Ew2.
    + apply (journal_ok_eq (files w)); [by rw Ew2 | done].
    + cbn. lia.
  - apply bind_Ok in E2 as (w5 & o & E5 & E2). apply attempt_Ok in E5 as (Hs1 & Hst & Hp).
    unfold ret in E2. simplify_eq.
    rw Ew2 in Hs1.
    apply (append_journal_ok _ _ _ _ _ _ _ es) in E4 as [Hj' Hs2].
    + split; [by repeat split|]. split; [done|]. split.
      * intros l' f' Hn. rw Hs2; [intros [-> ->]; apply Hn; split; [done | by left]|].
        apply Hs1. intros [-> ->]. apply Hn. split; [done | by right].
      * cbn [SegmentResult.status SegmentResult.attempt]. intros Hpass.
        destruct (Hp Hpass) as (log & Hl & Hf). exists log. split; [done|].
        rw Hs2; [by intros [_ ?] | done].
    + apply (journal_ok_eq (files w)); [|done]. apply Hs1. by intros [_ ?].
    + cbn. lia.
Qed.

End host.

(** ** Evidence names *)

Lemma last_dash (a b s t : text) :
  (∀ c, c ∈ s → c ≠ 45) → (∀ c, c ∈ t → c ≠ 45) → a ++ 45 :: s = b ++ 45 :: t → a = b ∧ s = t.
Proof.
  intros Hs Ht E. apply app_eq_app in E as (l & [[Ea Et]|[Eb Es]]).
  - destruct l as [|c l]; [cbn in Et; injection Et as ->; by rw app_nil_r in Ea|].
    injection Et as <- Et. exfalso. apply (Ht 45); [|done]. rw Et. apply elem_of_app. right. by left.
  - destruct l as [|c l]; [cbn in Es; injection Es as ->; by rw app_nil_r in Eb|].
    injection Es as <- Es. exfalso. apply (Hs 45); [|done]. rw Es. apply elem_of_app. right. by left.
Qed.

Lemma pad_no_dash n c : 0 ≤ n → c ∈ zero_pad 2 (decimal n) → c ≠ 45.
Proof.
  intros Hn Hc. unfold zero_pad in Hc. apply elem_of_app in Hc as [Hc|Hc].
  - apply elem_of_replicate in Hc as [-> _]. lia.
  - pose proof (decimal_digits n Hn) as D. rewrite -> Forall_forall in D. specialize (D c Hc).
    unfold is_ascii_digit in D. breflect. lia.
Qed.

Lemma evidence_name_inj s a t b :
  0 ≤ a → 0 ≤ b → evidence_name s a = evidence_name t b → s = t ∧ a = b.
Proof.
  intros Ha Hb E. unfold evidence_name in E. rewrite -> !app_assoc in E. apply app_inv_tail in E.
  rewrite <- !app_assoc in E. apply last_dash in E as [-> E].
  - split; [done|]. pose proof (parse_zero_pad (Z.max a b) 2 a ltac:(lia)) as Pa.
    pose proof (parse_zero_pad (Z.max a b) 2 b ltac:(lia)) as Pb. rw E in Pa. congruence.
  - intros c. by apply pad_no_dash.
  - intros c. by apply pad_no_dash.
Qed.

(** ** All segments *)

Lemma attempts_of_app es es' id : attempts_of (es ++ es') id = attempts_of es id + attempts_of es' id.
Proof. unfold attempts_of. by rw List.filter_app len_app. Qed.

Lemma attempts_of_nonneg es id : 0 ≤ attempts_of es id.
Proof. unfold attempts_of. apply len_nonneg. Qed.

Lemma attempts_of_entry c res id :
  attempts_of [entry_of c res] id = if bool_decide (SegmentResult.id res = id) then 1 else 0.
Proof. unfold attempts_of, of_segment. cbn. by destruct (bool_decide _). Qed.

(** The results of a list of segments, each given the entries before it. *)
Fixpoint results_of (c : Campaign.t) (es : list JournalEntry.t) (identity : text)
  (ds : list SegmentDefinition.t) (rs : list SegmentResult.t) : Prop :=
  match ds, rs with
  | [], [] => True
  | d :: ds', r :: rs' =>
      result_of c es identity d r ∧ results_of c (es ++ [entry_of c r]) identity ds' rs'
  | _, _ => False
  end.

(** The journal, and evidence of attempts that are not recorded yet. *)
Definition new_files (es : list JournalEntry.t) (f : file) : Prop :=
  f = Journal ∨ ∃ id k, attempts_of es id < k ∧ f = evidence_path id k.

Lemma new_files_app es es' f : new_files (es ++ es') f → new_files es f.
Proof.
  intros [->|(id & k & Hk & ->)]; [by left|]. right. exists id, k. split; [|done].
  rw attempts_of_app in Hk. pose proof (attempts_of_nonneg es' id). lia.
Qed.

Lemma recorded_evidence_kept es id k : 0 ≤ k ≤ attempts_of es id → ¬ new_files es (evidence_path id k).
Proof.
  intros Hk [H|(id' & k' & Hk' & E)]; [done|]. unfold evidence_path in E. injection E as E.
  apply evidence_name_inj in E as [<- <-]; [lia | lia |].
  pose proof (attempts_of_nonneg es id'). lia.
Qed.

Lemma segment_new_files es id f : segment_files es id f → new_files es f.
Proof. intros [->| ->]; [by left|]. right. exists id, (attempts_of es id + 1). split; [lia | done]. Qed.

Lemma same_except_weaken fs fs' l (P Q : file → Prop) :
  same_except fs fs' l P → (∀ f, P f → Q f) → same_except fs fs' l Q.
Proof. intros H HPQ l' f' Hn. apply H. intros [-> ?]. apply Hn. split; [done | by apply HPQ]. Qed.

(** A result that passed has its transcript on disk. *)
Definition pass_recorded (fs : disk) (r : RunRecord.t) (ds : list SegmentDefinition.t)
  (res : SegmentResult.t) : Prop :=
  SegmentResult.status res = Status.Pass →
  ∃ d log, d ∈ ds ∧ SegmentDefinition.id d = SegmentResult.id res ∧
    attempt_spec (SegmentDefinition.steps d) Status.Pass None log ∧
    file_of fs (RunRecord.root r) (evidence_path (SegmentResult.id res) (SegmentResult.attempt res)) =
      Some log.

Section all.
Context (h : Host) (now : M text) (Hnow : ∀ w, files (now w).1 = files w).

Lemma execute_all_spec c r identity ds w w' rs es :
  execute_all h c r now identity ds w = (w', Ok rs) → journal_ok (files w) r es →
  results_of c es identity ds rs ∧
  journal_ok (files w') r (es ++ map (entry_of c) rs) ∧
  same_except (files w) (files w') (RunRecord.root r) (new_files es) ∧
  Forall (pass_recorded (files w') r ds) rs.
Proof using Hnow.
  revert w es rs. induction ds as [|d ds IH]; intros w es rs H Hj; cbn [execute_all] in H.
  - unfold ret in H. simplify_eq. split; [done|]. split; [by rw app_nil_r|].
    split; [apply same_except_refl | constructor].
  - apply bind_Ok in H as (w1 & res & E1 & H). apply bind_Ok in H as (w2 & rs' & E2 & H).
    unfold ret in H. simplify_eq.
    apply (execute_one_spec h now Hnow _ _ _ _ _ _ _ es) in E1 as (Hr & Hj1 & Hs1 & Hp1); [|done].
    apply IH with (es := es ++ [entry_of c res]) in E2 as (Hrs & Hj2 & Hs2 & Hp2); [|done].
    destruct (Hr) as (Hid & Hat & _).
    split; [done|]. split; [by rw -app_assoc in Hj2|]. split.
    + eapply same_except_trans.
      * eapply same_except_weaken; [exact Hs1|]. apply segment_new_files.
      * eapply same_except_weaken; [exact Hs2|]. intros f. apply new_files_app.
    + constructor.
      * intros Hpass. destruct (Hp1 Hpass) as (log & Hl & Hf). exists d, log.
        split; [by left|]. split; [done|]. split; [done|]. rw Hid. rw Hs2; [|done].
        intros [_ Hn]. revert Hn. apply recorded_evidence_kept.
        rw attempts_of_app attempts_of_entry Hid. rw bool_decide_eq_true_2; [done|].
        pose proof (attempts_of_nonneg es (SegmentDefinition.id d)). lia.
      * eapply Forall_impl; [exact Hp2|]. intros res' Hres Hpass.
        destruct (Hres Hpass) as (d' & log & Hd' & ?). exists d', log. split; [by right | done].
Qed.

(** ** A campaign *)

Lemma execute_campaign_spec c r w w' report es :
  execute_campaign h c r now w = (w', Ok report) → journal_ok (files w) r es →
  let identity := EvidenceIdentity.digest_of (Campaign.identity c) in
  results_of c es identity (Campaign.segments c) (Report.results report) ∧
  seal_state (Campaign.required_ids c) (map final_of (Report.results report)) identity
    (Campaign.tree_state c) = (Report.state report, Report.reasons report) ∧
  journal_ok (files w') r (es ++ map (entry_of c) (Report.results report)) ∧
  same_except (files w) (files w') (RunRecord.root r)
    (λ f, new_files es f ∨ f = Manifest ∨ f = Summary) ∧
  Forall (pass_recorded (files w') r (Campaign.segments c)) (Report.results report).
Proof using Hnow.
  intros H Hj identity. unfold execute_campaign in H.
  apply bind_Ok in H as (w1 & u & E1 & H). apply write_whole_Ok in E1.
  apply bind_Ok in H as (w2 & rs & E2 & H).
  apply (execute_all_spec _ _ _ _ _ _ _ es) in E2 as (Hrs & Hj2 & Hs2 & Hp2).
  2: { apply (journal_ok_eq (files w)); [|done]. apply (updated_ne _ _ _ _ _ _ _ E1). by intros [_ ?]. }
  destruct (seal_state _ _ _ _) as [state reasons] eqn:Es.
  apply bind_Ok in H as (w3 & u' & E3 & H). apply write_whole_Ok in E3.
  unfold ret in H. simplify_eq. cbn [Report.results Report.state Report.reasons].
  assert (∀ l f, f ≠ Summary → file_of (files w') l f = file_of (files w2) l f) as F3.
  { intros l f Hf. apply (updated_ne _ _ _ _ _ _ _ E3). by intros [_ ?]. }
  split; [done|]. split; [done|]. split; [|split].
  - apply (journal_ok_eq (files w2)); [|done]. by apply F3.
  - intros l f Hn. destruct (decide (l = RunRecord.root r)) as [->|Hl].
    + rw F3; [intros ->; apply Hn; split; [done | by right; right]|].
      rw Hs2; [intros [_ ?]; apply Hn; split; [done | by left]|].
      apply (updated_ne _ _ _ _ _ _ _ E1). intros [_ ->]. apply Hn. split; [done | by right; left].
    + rw (updated_ne _ _ _ _ _ _ _ E3); [by intros [? _]|]. rw Hs2; [by intros [? _]|].
      apply (updated_ne _ _ _ _ _ _ _ E1). by intros [? _].
  - eapply Forall_impl; [exact Hp2|]. intros res Hres Hpass.
    destruct (Hres Hpass) as (d & log & ? & ? & ? & Hf). exists d, log.
    repeat (split; [done|]). by rw F3.
Qed.

End all.

(** ** Reused results go back to a pass *)

(** [e] is a pass of the segment under the identity. *)
Definition passed (id identity : text) (e : JournalEntry.t) : Prop :=
  JournalEntry.segment e = id ∧ JournalEntry.evidence_identity e = identity ∧
  JournalEntry.status e = Status.as_str Status.Pass.

(** Every reused entry comes after a pass of its segment under its identity. *)
Definition grounded (es : list JournalEntry.t) : Prop :=
  ∀ pre e post, es = pre ++ e :: post → JournalEntry.status e = Status.as_str Status.Cached →
    ∃ e', e' ∈ pre ∧ passed (JournalEntry.segment e) (JournalEntry.evidence_identity e) e'.

Lemma grounded_nil : grounded [].
Proof. intros pre e post E. by destruct pre. Qed.

Lemma grounded_snoc es e :
  grounded es →
  (JournalEntry.status e = Status.as_str Status.Cached →
   ∃ e', e' ∈ es ∧ passed (JournalEntry.segment e) (JournalEntry.evidence_identity e) e') →
  grounded (es ++ [e]).
Proof.
  intros Hg He pre e' post E Hc. destruct post as [|x post] using rev_ind.
  - apply app_inj_tail in E as [<- <-]. by apply He.
  - rw app_comm_cons app_assoc in E. apply app_inj_tail in E as [-> _]. by eapply Hg.
Qed.

(** A holding entry has a pass behind it. *)
Lemma grounded_holds es e st :
  grounded es → e ∈ es → Status.parse (JournalEntry.status e) = Some st → Status.holds st = true →
  ∃ e', e' ∈ es ∧ passed (JournalEntry.segment e) (JournalEntry.evidence_identity e) e'.
Proof.
  intros Hg He Hp Hh. destruct (parse_holds _ _ Hp Hh) as [E|E]; [by exists e|].
  apply list_elem_of_split in He as (pre & post & ->).
  destruct (Hg pre e post eq_refl E) as (e' & Hin & He'). exists e'.
  split; [|done]. apply elem_of_app. by left.
Qed.

Lemma reusable_Some c prior identity p :
  Campaign.reusable c prior identity = Some p →
  Campaign.resume c = true ∧ prior = Some p ∧ JournalEntry.evidence_identity p = identity ∧
  ∃ st, Status.parse (JournalEntry.status p) = Some st ∧ Status.holds st = true.
Proof.
  unfold Campaign.reusable. destruct (Campaign.resume c); cbn [negb]; [|done].
  destruct prior as [q|]; [|done]. destruct (Status.parse _) as [st|] eqn:Ep; [|done].
  destruct (Status.holds st) eqn:Eh; cbn [andb]; [|done].
  destruct (bool_decide_reflect (JournalEntry.evidence_identity q = identity)); [|done].
  intros [= <-]. repeat split; try done. by exists st.
Qed.

Lemma last_of_segment es id p :
  last (List.filter (of_segment id) es) = Some p → p ∈ es ∧ JournalEntry.segment p = id.
Proof.
  intros H. apply last_Some in H as [l E].
  assert (p ∈ List.filter (of_segment id) es) as Hp by (rw E; apply elem_of_app; right; by left).
  apply list_elem_of_In, filter_In in Hp as [Hp Hs]. split; [by apply list_elem_of_In|].
  unfold of_segment in Hs. by apply bool_decide_eq_true in Hs.
Qed.

(** A segment that holds in a run has a pass in the journal after it. *)
Lemma result_grounded c es d res :
  let identity := EvidenceIdentity.digest_of (Campaign.identity c) in
  result_of c es identity d res → grounded es →
  grounded (es ++ [entry_of c res]) ∧
  (Status.holds (SegmentResult.status res) = true →
   ∃ e, e ∈ es ++ [entry_of c res] ∧ passed (SegmentResult.id res) identity e).
Proof.
  intros identity (Hid & _ & _ & Hidt & Hres) Hg.
  destruct (Campaign.reusable c _ identity) as [p|] eqn:Eu.
  - apply reusable_Some in Eu as (_ & Hl & Hpi & st & Hst & Hh).
    apply last_of_segment in Hl as [Hin Hseg].
    destruct (grounded_holds es p st Hg Hin Hst Hh) as (e' & Hin' & Hp').
    rw Hseg Hpi in Hp'. subst res. split.
    + apply grounded_snoc; [done|]. intros _. by exists e'.
    + intros _. exists e'. split; [|done]. apply elem_of_app. by left.
  - destruct Hres as [Hne _]. split.
    + apply grounded_snoc; [done|]. cbn. intros E. exfalso. apply Hne.
      by destruct (SegmentResult.status res).
    + intros Hh. exists (entry_of c res). split; [apply elem_of_app; right; by left|].
      split; [done|]. split; [done|]. cbn. by destruct (SegmentResult.status res).
Qed.

Lemma results_grounded c es ds rs :
  let identity := EvidenceIdentity.digest_of (Campaign.identity c) in
  results_of c es identity ds rs → grounded es →
  grounded (es ++ map (entry_of c) rs) ∧
  ∀ res, res ∈ rs → Status.holds (SegmentResult.status res) = true →
    ∃ e, e ∈ es ++ map (entry_of c) rs ∧ passed (SegmentResult.id res) identity e.
Proof.
  intros identity. revert es rs. induction ds as [|d ds IH]; intros es [|res rs] H Hg; try done.
  - rw app_nil_r. split; [done|]. intros res Hr. by apply elem_of_nil in Hr.
  - destruct H as [H1 H2]. destruct (result_grounded c es d res H1 Hg) as [G1 P1].
    destruct (IH _ _ H2 G1) as [G2 P2]. rw -app_assoc in G2. rw -app_assoc in P2.
    cbn [map]. split; [done|]. intros res' [->|Hr]%elem_of_cons Hh; [|by apply P2].
    destruct (P1 Hh) as (e & He & Hp). exists e. split; [|done].
    apply elem_of_app in He as [He|He]; apply elem_of_app; [by left|].
    apply list_elem_of_singleton in He as ->. right. by left.
Qed.

(** The results of a list of segments are those of the segments, in order. *)
Lemma results_of_ids c es identity ds rs :
  results_of c es identity ds rs →
  map SegmentResult.id rs = map SegmentDefinition.id ds ∧
  ∀ res, res ∈ rs → SegmentResult.identity res = identity.
Proof.
  revert es rs. induction ds as [|d ds IH]; intros es [|res rs] H; try done.
  - split; [done|]. intros res Hr. by apply elem_of_nil in Hr.
  - destruct H as [(Hid & _ & _ & Hi & _) H]. apply IH in H as [E Hr]. cbn. split; [by rw Hid E|].
    intros res' [->|Hin]%elem_of_cons; [done | by apply Hr].
Qed.

(** ** Resuming *)

(** The last entry of the segment holds under the identity. *)
Definition last_holds (es : list JournalEntry.t) (identity id : text) : Prop :=
  ∃ p st, last (List.filter (of_segment id) es) = Some p ∧
    JournalEntry.evidence_identity p = identity ∧
    Status.parse (JournalEntry.status p) = Some st ∧ Status.holds st = true.

Lemma last_holds_snoc es identity id e st :
  last_holds es identity id → JournalEntry.evidence_identity e = identity →
  Status.parse (JournalEntry.status e) = Some st → Status.holds st = true →
  last_holds (es ++ [e]) identity id.
Proof.
  intros (p & st' & Hl & Hi & Hs & Hh) Hei Hes Heh. unfold last_holds. rw List.filter_app.
  cbn [List.filter]. destruct (of_segment id e).
  - exists e, st. by rw last_snoc.
  - exists p, st'. by rw app_nil_r.
Qed.

(** After results that all hold, the last entry of each of their segments holds. *)
Lemma last_holds_results c es rs id :
  let identity := EvidenceIdentity.digest_of (Campaign.identity c) in
  (∀ res, res ∈ rs → Status.holds (SegmentResult.status res) = true) →
  id ∈ map SegmentResult.id rs → last_holds (es ++ map (entry_of c) rs) identity id.
Proof.
  intros identity Hh. induction rs as [|res rs IH] using rev_ind; intros Hid.
  - by apply elem_of_nil in Hid.
  - rw map_app app_assoc. cbn [map]. rw map_app in Hid.
    assert (Status.holds (SegmentResult.status res) = true) as Hr
      by (apply Hh, elem_of_app; right; by left).
    destruct (decide (SegmentResult.id res = id)) as [E|Hne].
    + unfold last_holds. rw List.filter_app. cbn [List.filter]. unfold of_segment at 2.
      rw bool_decide_eq_true_2; [done|]. exists (entry_of c res), (SegmentResult.status res).
      rw last_snoc. repeat (split; [done|]). split; [apply parse_as_str | done].
    + eapply last_holds_snoc; [| done | apply parse_as_str | done]. apply IH.
      * intros res' Hin. apply Hh, elem_of_app. by left.
      * apply elem_of_app in Hid as [Hid|Hid]; [done|].
        apply list_elem_of_singleton in Hid. congruence.
Qed.

(** A resumed campaign reuses every segment whose last entry holds. *)
Lemma results_all_cached c es ds rs :
  let identity := EvidenceIdentity.digest_of (Campaign.identity c) in
  Campaign.resume c = true → results_of c es identity ds rs →
  (∀ d, d ∈ ds → last_holds es identity (SegmentDefinition.id d)) →
  ∀ res, res ∈ rs → SegmentResult.status res = Status.Cached.
Proof.
  intros identity Hc. revert es rs. induction ds as [|d ds IH]; intros es [|res rs] H Hl; try done.
  - intros res Hr. by apply elem_of_nil in Hr.
  - destruct H as [(Hid & _ & _ & _ & Hres) H].
    destruct (Hl d ltac:(left)) as (p & st & Hp & Hpi & Hst & Hh).
    assert (Campaign.reusable c (Some p) identity = Some p) as Eu.
    { unfold Campaign.reusable. rw Hc. cbn [negb]. rw Hst Hh. cbn [andb].
      by rw bool_decide_eq_true_2. }
    rw Hp Eu in Hres. intros res' [->|Hr]%elem_of_cons; [by subst|].
    eapply IH; [exact H | | exact Hr]. intros d' Hd'. subst res.
    apply (last_holds_snoc _ _ _ _ Status.Cached); try done. apply Hl. by right.
Qed.

(** The state of a campaign whose results all hold depends on the tree alone. *)
Lemma state_when_held c es rs state reasons :
  let identity := EvidenceIdentity.digest_of (Campaign.identity c) in
  results_of c es identity (Campaign.segments c) rs →
  seal_state (Campaign.required_ids c) (map final_of rs) identity (Campaign.tree_state c) =
    (state, reasons) →
  (∀ res, res ∈ rs → Status.holds (SegmentResult.status res) = true) →
  state = match Campaign.tree_state c with Clean => State.Sealed | Modified _ => State.Partial end.
Proof.
  intros identity Hr Hs Hh. apply results_of_ids in Hr as [E I].
  pose proof (seal_cases (Campaign.required_ids c) (map final_of rs) identity
                (Campaign.tree_state c)) as C. rw Hs in C.
  assert (∀ f, f ∈ map final_of rs → ∃ res, f = final_of res ∧ res ∈ rs) as F.
  { intros f Hf. apply list_elem_of_In, in_map_iff in Hf as (res & <- & Hin). exists res.
    split; [done | by apply list_elem_of_In]. }
  assert (all_hold (map final_of rs)) as Hall.
  { intros f Hf. destruct (F f Hf) as (res & -> & Hin). by apply Hh. }
  destruct state; [| by destruct C as [(_ & _ & _ & ->) _] | by destruct C].
  destruct (Campaign.tree_state c) eqn:Et; [|done]. exfalso. destruct C as (_ & C & _). apply C.
  split; [done|]. split; [|split; [|done]].
  - intros id Hid. unfold Campaign.required_ids in Hid. rw -E in Hid.
    apply list_elem_of_In, in_map_iff in Hid as (res & <- & Hin).
    exists (final_of res). split; [|done]. by apply list_elem_of_In, in_map.
  - intros f Hf. destruct (F f Hf) as (res & -> & Hin). by apply I.
Qed.

(** When the state is sealed, the tree is clean and every required segment has passed. *)
Lemma sealed_results c es rs reasons :
  let identity := EvidenceIdentity.digest_of (Campaign.identity c) in
  results_of c es identity (Campaign.segments c) rs →
  seal_state (Campaign.required_ids c) (map final_of rs) identity (Campaign.tree_state c) =
    (State.Sealed, reasons) →
  grounded es →
  Campaign.tree_state c = Clean ∧
  ∀ id, id ∈ Campaign.required_ids c →
    ∃ e, e ∈ es ++ map (entry_of c) rs ∧ passed id identity e.
Proof.
  intros identity Hrs Hst Hg. destruct (results_grounded c es _ _ Hrs Hg) as [_ Hp].
  pose proof (seal_cases (Campaign.required_ids c) (map final_of rs) identity
                (Campaign.tree_state c)) as C.
  rw Hst in C. destruct C as [(Hh & _ & _ & Ht) _]. split; [done|].
  intros id Hid. apply results_of_ids in Hrs as [E _]. unfold Campaign.required_ids in Hid.
  rw -E in Hid. apply list_elem_of_In, in_map_iff in Hid as (res & <- & Hin).
  apply list_elem_of_In in Hin. apply Hp; [done|].
  apply (Hh (final_of res)). apply list_elem_of_In, in_map. by apply list_elem_of_In.
Qed.

(** ** Totality *)

Section quiet.
Context (h : Host) (now : M text).
Context (Hq : quiet h) (Hc : ∀ n fs p args c, spawn h n fs p args = Ok c → answers c).
Context (Hnow : ∀ w, files (now w).1 = files w) (Hnow_ok : ∀ w, ∃ t, (now w).2 = Ok t).

Lemma succeeds_now w : succeeds now w.
Proof using Hnow Hnow_ok.
  destruct (Hnow_ok w) as [t Ht]. exists (now w).1, t. split; [by apply run_eq|]. by rw Hnow.
Qed.

Lemma entries_total r es w :
  journal_ok (files w) r es →
  ∃ w', entries h r w = (w', Ok es) ∧ files w' = files w.
Proof using Hq.
  intros [Hr _]. unfold entries, recorded, journal_of in *.
  destruct (file_of (files w) (RunRecord.root r) Journal) as [j|] eqn:E.
  - unfold bind, system_call. rw Hq. eexists. cbn [files]. rw E Hr. done.
  - eexists. cbn in Hr. by simplify_eq.
Qed.

Lemma attempts_for_total r es id w :
  journal_ok (files w) r es → attempts_of es id ≤ U32_MAX →
  ∃ w', attempts_for h r id w = (w', Ok (attempts_of es id)) ∧ files w' = files w.
Proof using Hq.
  intros Hj Hle. destruct (entries_total r es w Hj) as (w' & E & F). exists w'. split; [|done].
  unfold attempts_for. rw (bind_eq _ _ _ _ _ E). fold (attempts_of es id).
  rw try_from_fits; [split; [apply attempts_of_nonneg | done] | done].
Qed.

Lemma succeeds_attempt c d l f w : writable (files w) l f → succeeds (attempt h c d l f) w.
Proof using Hq Hc.
  intros Hw. unfold attempt. apply succeeds_bind.
  { destruct (SegmentDefinition.prerequisite d); [|apply succeeds_ret].
    apply succeeds_bind; [apply succeeds_ask|]. intros. apply succeeds_ret. }
  intros w1 missing K. apply K in Hw. destruct missing as [p|]; [|by apply succeeds_execute_segment].
  apply succeeds_bind; [|intros; apply succeeds_ret].
  apply succeeds_bind; [by apply succeeds_create_file|]. intros w2 _ K2.
  apply succeeds_append_text; [done | by apply K2].
Qed.

Lemma succeeds_append_journal r o w :
  writable (files w) (RunRecord.root r) Journal → succeeds (append_journal h r o) w.
Proof using Hq.
  intros Hw. apply succeeds_bind; [by apply succeeds_open_append|]. intros w1 _ K1.
  apply succeeds_bind; [apply succeeds_append_text; [done | by apply K1]|]. intros w2 _ K2.
  by apply succeeds_system_call.
Qed.

Lemma succeeds_write_whole l f s w :
  writable (files w) l f →
  succeeds (run* create_file h l f; run* append_text h l f s; sync_all h) w.
Proof using Hq.
  intros Hw. apply succeeds_bind; [by apply succeeds_create_file|]. intros w1 _ K1.
  apply succeeds_bind; [apply succeeds_append_text; [done | by apply K1]|]. intros w2 _ K2.
  by apply succeeds_system_call.
Qed.

(** The record's directory and its directory of evidence exist. *)
Definition usable (fs : disk) (r : RunRecord.t) : Prop := ∀ f, writable fs (RunRecord.root r) f.

Lemma succeeds_execute_one c r identity d w es :
  usable (files w) r → journal_ok (files w) r es →
  attempts_of es (SegmentDefinition.id d) < U32_MAX →
  succeeds (execute_one h c r now identity d) w.
Proof using Hq Hc Hnow Hnow_ok.
  intros Hu Hj Ha. unfold execute_one.
  destruct (attempts_for_total r es (SegmentDefinition.id d) w Hj ltac:(lia)) as (w1 & E1 & F1).
  apply (succeeds_read _ _ _ _ _ E1 F1). rw checked_add_fits; [lia|].
  destruct (Hnow_ok w1) as [t Ht]. apply run_eq in Ht. apply (succeeds_read _ _ _ _ _ Ht (Hnow w1)).
  destruct (entries_total r es (now w1).1) as (w3 & E3 & F3).
  { apply (journal_ok_eq (files w)); [by rw Hnow F1 | done]. }
  assert (last_entry_for h r (SegmentDefinition.id d) (now w1).1 =
    (w3, Ok (last (List.filter (of_segment (SegmentDefinition.id d)) es)))) as E3'
    by (unfold last_entry_for; by rw (bind_eq _ _ _ _ _ E3)).
  apply (succeeds_read _ _ _ _ _ E3' F3).
  assert (usable (files w3) r) as Hu3 by (intros f; rw F3 Hnow F1; apply Hu).
  apply succeeds_bind.
  - destruct (Campaign.reusable _ _ _); [apply succeeds_ret|].
    apply succeeds_bind; [apply succeeds_attempt, Hu3|]. intros. apply succeeds_ret.
  - intros w4 res K. apply succeeds_bind; [|intros; apply succeeds_ret].
    apply succeeds_append_journal, K, Hu3.
Qed.

Lemma succeeds_execute_all c r identity ds w es :
  usable (files w) r → journal_ok (files w) r es →
  (∀ id, attempts_of es id + len ds ≤ U32_MAX) →
  succeeds (execute_all h c r now identity ds) w.
Proof using Hq Hc Hnow Hnow_ok.
  revert w es. induction ds as [|d ds IH]; intros w es Hu Hj Ha; cbn [execute_all];
    [apply succeeds_ret|]. setoid_rewrite len_cons in Ha. pose proof (len_nonneg ds).
  destruct (succeeds_execute_one c r identity d w es Hu Hj) as (w1 & res & E1 & K1).
  { specialize (Ha (SegmentDefinition.id d)). lia. }
  apply (execute_one_spec h now Hnow _ _ _ _ _ _ _ es) in E1 as S; [|done].
  destruct S as ((Hid & _) & Hj1 & _).
  destruct (IH w1 (es ++ [entry_of c res])) as (w2 & rs & E2 & K2); [|done| |].
  - intros f. by apply K1.
  - intros id. specialize (Ha id). rw attempts_of_app attempts_of_entry. destruct (bool_decide _); lia.
  - exists w2, (res :: rs). unfold bind. rw E1 E2. split; [done|]. by etrans.
Qed.

Lemma succeeds_execute_campaign c r w es :
  usable (files w) r → journal_ok (files w) r es →
  (∀ id, attempts_of es id + len (Campaign.segments c) ≤ U32_MAX) →
  succeeds (execute_campaign h c r now) w.
Proof using Hq Hc Hnow Hnow_ok.
  intros Hu Hj Ha. unfold execute_campaign.
  destruct (succeeds_write_whole (RunRecord.root r) Manifest
              (Object.encode (Campaign.manifest c r) ++ [NEWLINE]) w (Hu _)) as (w1 & u & E1 & K1).
  fold (write_manifest h r (Campaign.manifest c r)) in E1.
  destruct (succeeds_execute_all c r (EvidenceIdentity.digest_of (Campaign.identity c))
              (Campaign.segments c) w1 es) as (w2 & rs & E2 & K2); [| |done|].
  - intros f. by apply K1.
  - apply (journal_ok_eq (files w)); [|done]. apply write_whole_Ok in E1.
    apply (updated_ne _ _ _ _ _ _ _ E1). by intros [_ ?].
  - unfold succeeds, bind. rw E1 E2. destruct (seal_state _ _ _ _) as [state reasons].
    destruct (succeeds_write_whole (RunRecord.root r) Summary
      (Campaign.summary c r (Report.mk rs state reasons)) w2 ltac:(by apply K2, K1)) as (w3 & u' & E3 & K3).
    fold (write_summary h r (Campaign.summary c r (Report.mk rs state reasons))) in E3.
    rw E3. eexists _, _. split; [reflexivity|]. etrans; [exact K1|]. by etrans.
Qed.

End quiet.

(** ** Properties *)

(** The campaign, run again with [--resume] after the working tree was cleaned. *)
Definition resumed_clean (c : Campaign.t) : Campaign.t :=
  Campaign.mk (Campaign.tier c) (Campaign.topic c) (Campaign.subject_revision c)
    (Campaign.identity c) (Campaign.segments c) (Campaign.budget c) (Campaign.environment c)
    (Campaign.created c) true Clean.

(** ** A concrete campaign *)

(** A host without failures on which every process succeeds. *)
Definition passing_host : Host :=
  mk_host (λ _, None) (λ n, Z.of_nat n) (λ _, Some 1789430400)
    (λ _ _ _ _, Ok (sample_child 1 0 (str "ok"))) (λ _ _ _, true)
    (λ _ _ _, Ok (Output.mk (Exit (Some 0)) (str "out") [])).

Definition sample_segments : list SegmentDefinition.t :=
  [SegmentDefinition.mk (str "build") (str "it builds") [Tier.Dev; Tier.Gate] None
     [Step.mk (str "cargo") [str "build"]];
   SegmentDefinition.mk (str "test") (str "it works") [Tier.Dev; Tier.Gate] None
     [Step.mk (str "cargo") [str "test"]]].

Definition sample_campaign (tree : TreeState) : Campaign.t :=
  Campaign.mk Tier.Gate (str "repository") (str "a3d13ed")
    (EvidenceIdentity.mk (str "a3d13ed") (str "definition") (str "rustc 1.98.0") (str "target")
       (str "default"))
    sample_segments SEGMENT_BUDGET Object.new (str "2026-09-15T00:00:00Z") false tree.

Definition sample_record : RunRecord.t := RunRecord.mk sample_location.
Definition sample_now : M text := ret (str "2026-09-15T00:00:00Z").

Definition report_of (run : World * Result Report.t) : Report.t :=
  match run.2 with Ok report => report | Err _ => Report.mk [] State.Failed [] end.

Definition clean_run : World * Result Report.t :=
  execute_campaign passing_host (sample_campaign Clean) sample_record sample_now sample_world.
Definition dirty_run : World * Result Report.t :=
  execute_campaign passing_host (sample_campaign (Modified [str "M src/lib.rs"])) sample_record
    sample_now sample_world.
Definition resumed_run : World * Result Report.t :=
  execute_campaign passing_host (resumed_clean (sample_campaign (Modified [str "M src/lib.rs"])))
    sample_record sample_now dirty_run.1.

Lemma sample_journal_ok : journal_ok (files sample_world) sample_record [].
Proof. split; [vm_compute; reflexivity | left; vm_compute; reflexivity]. Qed.



(** C17. A sealed record is backed by passes: whatever the campaign, reuse never breaks the chain of
    evidence (every entry marked cached has an earlier pass of its segment under its identity),
    and when the report seals, the working tree was clean and every required segment has an
    entry that passed under the campaign's identity, in this run or an earlier one. *)
Theorem sealed_means_passed (h : Host) (now : M text) (c : Campaign.t) (r : RunRecord.t)
  (w w' : World) (report : Report.t) (es : list JournalEntry.t)
  (Hnow : ∀ w, files (now w).1 = files w) (Hj : journal_ok (files w) r es) (Hg : grounded es)
  (H : execute_campaign h c r now w = (w', Ok report)) :
  let identity := EvidenceIdentity.digest_of (Campaign.identity c) in
  ∃ es', journal_ok (files w') r es' ∧ grounded es' ∧
    (Report.state report = State.Sealed →
     Campaign.tree_state c = Clean ∧
     ∀ id, id ∈ Campaign.required_ids c → ∃ e, e ∈ es' ∧ passed id identity e).
Proof.
  intros identity.
  apply (execute_campaign_spec h now Hnow _ _ _ _ _ es) in H as (Hrs & Hst & Hj' & _); [|done].
  eexists. split; [exact Hj'|]. split; [by apply (results_grounded c es _ _ Hrs Hg)|].
  intros Hs. subst identity. rw Hs in Hst. by apply (sealed_results c es _ _ Hrs Hst).
Qed.

Lemma sealed_means_passed_witness :
  let identity := EvidenceIdentity.digest_of (Campaign.identity (sample_campaign Clean)) in
  Report.state (report_of clean_run) = State.Sealed ∧
  ∃ es', journal_ok (files clean_run.1) sample_record es' ∧ grounded es' ∧
    (Report.state (report_of clean_run) = State.Sealed →
     Campaign.tree_state (sample_campaign Clean) = Clean ∧
     ∀ id, id ∈ Campaign.required_ids (sample_campaign Clean) → ∃ e, e ∈ es' ∧ passed id identity e).
Proof.
  split; [vm_compute; reflexivity|].
  apply (sealed_means_passed passing_host sample_now (sample_campaign Clean) sample_record
           sample_world clean_run.1 (report_of clean_run) []).
  - reflexivity.
  - apply sample_journal_ok.
  - apply grounded_nil.
  - apply run_eq. vm_compute. reflexivity.
Defined.






