(* ===== verification/Runner.v ===== *)
(** * The validation runner

    [src/tools/validation-runner/src/main.rs]: the command line, the choice of the record a
    run writes into, the whole run, and the exit code. *)

From S2P Require Export Calendar Campaigns.
Local Open Scope Z_scope.

Definition DEFAULT_TOPIC : text := str "repository".
Definition USAGE : text :=
  str "usage: validation-runner run --tier <dev|gate> [--topic <topic>] [--resume]".

(** ** The command line *)

Module Arguments.
Record t := mk { tier : Tier.t; topic : text; resume : bool }.
End Arguments.

(** The loop of [parse] over the arguments after the command. *)
Fixpoint parse_options (tier : option Tier.t) (topic : text) (resume : bool) (rest : list text) :
  Result (option Tier.t * text * bool) :=
  match rest with
  | [] => Ok (tier, topic, resume)
  | argument :: rest =>
      if bool_decide (argument = str "--tier") then
        match rest with
        | value :: rest => let! tier := Tier.parse value in parse_options (Some tier) topic resume rest
        | [] => failed (str "`--tier` needs a value. " ++ USAGE)
        end
      else if bool_decide (argument = str "--topic") then
        match rest with
        | value :: rest => parse_options tier value resume rest
        | [] => failed (str "`--topic` needs a value. " ++ USAGE)
        end
      else if bool_decide (argument = str "--resume") then parse_options tier topic true rest
      else failed (str "`" ++ argument ++ str "` is not an option. " ++ USAGE)
  end.

Definition parse (arguments : list text) : Result Arguments.t :=
  match arguments with
  | [] => failed USAGE
  | command :: rest =>
      if bool_decide (command = str "run") then
        let! (tier, topic, resume) := parse_options None DEFAULT_TOPIC false rest in
        let? tier := tier else failed (str "`--tier` is required. " ++ USAGE) in
        Ok (Arguments.mk tier topic resume)
      else failed (str "`" ++ command ++ str "` is not a command. " ++ USAGE)
  end.

(** ** The run *)

Definition closes (tier : Tier.t) (report : Report.t) : bool :=
  match tier with
  | Tier.Gate => bool_decide (Report.state report = State.Sealed)
  | Tier.Dev => Report.every_segment_holds report
  end.

(** The path of a record below the repository root. *)
Definition display_record (record : RunRecord.t) : text :=
  RECORDS_DIRECTORY ++ str "/" ++ tier_name (RunRecord.root record) ++ str "/" ++
  RunRecord.identifier record.

(** The lines [print_report] writes. *)
Definition print_report (c : Campaign.t) (record : RunRecord.t) (report : Report.t) (elapsed : Z) :
  list text :=
  let holds r := Status.holds (SegmentResult.status r) in
  let passed := len (List.filter holds (Report.results report)) in
  let blockers := map (λ r, SegmentResult.id r ++ str " (" ++
                            Status.as_str (SegmentResult.status r) ++ str ")")
                    (List.filter (λ r, negb (holds r)) (Report.results report)) in
  [str "Campaign: " ++ RunRecord.identifier record;
   str "Type: " ++ CAMPAIGN_TYPE;
   str "Tier: " ++ Tier.as_str (Campaign.tier c);
   str "Revision: " ++ Campaign.subject_revision c;
   str "Segments: " ++ decimal passed ++ str "/" ++ decimal (len (Report.results report)) ++
     str " valid, " ++ decimal (Report.reused report) ++ str " reused";
   str "Duration: " ++ seconds_text elapsed ++ str "s";
   str "Status: " ++ State.as_str (Report.state report);
   str "Blockers: " ++ (if is_empty blockers then str "none" else join (str ", ") blockers);
   str "Record: " ++ display_record record] ++
  map (λ reason, str "  does not seal: " ++ reason) (Report.reasons report) ++
  concat (map (λ r,
    if bool_decide (SegmentResult.status r = Status.Skipped) then
      match SegmentResult.note r with
      | Some note => [str "  " ++ SegmentResult.id r ++ str ": " ++ note]
      | None => []
      end
    else []) (Report.results report)).

Section host.
Context (h : Host).

(** [Utc::now] and the closure that stamps journal entries. *)
Definition read_clock : M Utc.t := do* s <- ask h utc; lift (Utc.now s).
Definition stamp : M text := do* now <- read_clock; lift (Utc.timestamp now).

(** [environment]; the operating system and the architecture are the host's. *)
Definition environment (os arch : text) : M Object.t :=
  let environment := Object.string Object.new (str "os") os in
  let environment := Object.string environment (str "arch") arch in
  do* rustc <- capture h (str "rustc") [str "--version"];
  let environment := Object.string environment (str "rustc") rustc in
  do* cargo <- capture h (str "cargo") [str "--version"];
  ret (Object.string environment (str "cargo") cargo).

(** [select_record]: the record, whether it is resumed, and the line printed. *)
Definition select_record (arguments : Arguments.t) (identity : text) (now : Utc.t) :
  M (RunRecord.t * bool * list text) :=
  let tier := Tier.as_str (Arguments.tier arguments) in
  let new_record (printed : list text) :=
    do* date <- lift (Utc.date now);
    do* record <- create h tier date (Arguments.topic arguments);
    ret (record, false, printed) in
  if negb (Arguments.resume arguments) then new_record [] else
  do* existing <- latest h tier;
  match existing with
  | None => new_record [str "No campaign to resume. Recording a new one."]
  | Some existing =>
      do* recorded <- recorded_identity h existing;
      match recorded with
      | Some recorded =>
          if negb (bool_decide (recorded = identity)) then
            new_record [str "The most recent campaign holds results under another evidence identity. Recording a new one."]
          else ret (existing, true, [])
      | None => ret (existing, true, [])
      end
  end.

(** What a run of the program leaves behind besides its files. *)
Record run_result := Ran {
  ran_record : RunRecord.t;
  ran_campaign : Campaign.t;
  ran_report : Report.t;
  ran_output : list text;
  ran_success : bool
}.

(** [execute], from the command line to the exit code. *)
Definition execute (os arch : text) (args : list text) : M run_result :=
  do* arguments <- lift (parse args);
  run* system_call h;
  do* root <- repository_root h;
  do* subject_revision <- subject_revision h;
  let segments := required (Arguments.tier arguments) in
  let definition := definition_digest segments in
  do* identity <- resolve h subject_revision definition;
  do* now <- read_clock;
  do* (record, resuming, printed) <-
    select_record arguments (EvidenceIdentity.digest_of identity) now;
  do* changes <- working_tree_changes h;
  let tree_state := if is_empty changes then Clean else Modified changes in
  do* environment <- environment os arch;
  do* created <- lift (Utc.timestamp now);
  let campaign := Campaign.mk (Arguments.tier arguments) (Arguments.topic arguments)
    subject_revision identity segments SEGMENT_BUDGET environment created resuming tree_state in
  do* started <- ask h instant;
  do* report <- execute_campaign h campaign record stamp;
  do* elapsed <- elapsed h started;
  ret (Ran record campaign report (printed ++ print_report campaign record report elapsed)
         (closes (Arguments.tier arguments) report)).

(** [main]: the exit code, success or failure. *)
Definition main (os arch : text) (args : list text) (w : World) : World * bool :=
  let (w', r) := execute os arch args w in
  (w', match r with Ok ran => ran_success ran | Err _ => false end).

End host.
