(* ===== verification/WireTests.v ===== *)
(** * Unit tests of the wire format and the command codecs

    The [tests] modules of [src/src/protocol.rs] and [src/src/command.rs], one definition per
    test function: a boolean that is true when every assertion of the test holds. The tests
    that decode take the decoder as an argument, so that the same test can be put to the
    library's decoder and to another one. The fuzz target of the decoder is at the end. *)

From stdpp Require Import strings.
From S2P Require Export Handshake FrameTheorems Command.
From Stdlib Require Import Strings.Byte.
Local Open Scope Z_scope.

(** ** Assertions *)

#[global] Instance result_eq_dec {A E} `{EqDecision A, EqDecision E} : EqDecision (result A E).
Proof. solve_decision. Defined.
#[global] Instance get_outcome_eq_dec : EqDecision GetOutcome.t.
Proof. solve_decision. Defined.
#[global] Instance command_failure_eq_dec : EqDecision CommandFailure.t.
Proof. solve_decision. Defined.

(** [assert_eq!]. *)
Definition assert_eq {A} `{EqDecision A} (a b : A) : bool := bool_decide (a = b).

(** A test passes when every assertion holds. *)
Definition asserts (l : list bool) : bool := forallb id l.

(** [result.unwrap_or_default()] of bytes. *)
Definition unwrap_or_default {E} (r : result (list byte) E) : list byte :=
  match r with Ok bytes => bytes | Err _ => [] end.

(** A byte string literal. *)
Definition bytes_of (s : string) : list byte := String.list_byte_of_string s.

(** [matches!(step, Step::Need(_))]. *)
Definition is_need (s : Step.t) : bool := match s with Step.Need _ => true | _ => false end.
Definition is_frame (s : Step.t) : bool := match s with Step.Frame _ => true | _ => false end.

Module ProtocolTests.

(** ** Helpers *)

Definition nibble (b : byte) : Z :=
  let byte := Z.of_N (Byte.to_N b) in
  if (48 <=? byte) && (byte <=? 57) then byte - 48 else
  if (97 <=? byte) && (byte <=? 102) then byte - 97 + 10 else
  if (65 <=? byte) && (byte <=? 70) then byte - 65 + 10 else 0.

Fixpoint from_hex_bytes (text : list byte) : list byte :=
  match text with
  | hi :: lo :: rest =>
      to_le_bytes 1 (Z.lor (Z.shiftl (nibble hi) 4) (nibble lo)) ++ from_hex_bytes rest
  | _ => []
  end.

Definition from_hex (text : string) : list byte := from_hex_bytes (bytes_of text).

Definition frame_with_metadata (entries : list (Z * list byte)) : list byte :=
  unwrap_or_default
    (encode (Outgoing.mk Kind.Response 0 1 entries (OutgoingPayload.Opaque_ []))).

Definition request_bytes (code : Z) : list byte :=
  let set_empty := [x00; x00; x00; x00] in
  let payload := if code =? SET_OPCODE then set_empty else [] in
  unwrap_or_default
    (encode (Outgoing.mk Kind.Request code 7 [] (OutgoingPayload.Opaque_ payload))).

(** ** Tests without the decoder *)

Definition assigned_kinds_convert_and_unassigned_kinds_refuse : bool := asserts [
  assert_eq (Kind.from_wire 1) (Some Kind.Request);
  assert_eq (Kind.from_wire 2) (Some Kind.Response);
  assert_eq (Kind.from_wire 3) (Some Kind.Error);
  assert_eq (Kind.from_wire 0) None;
  assert_eq (Kind.from_wire 4) None;
  assert_eq (Kind.from_wire 255) None;
  assert_eq (Kind.sender Kind.Request) Role.Client;
  assert_eq (Kind.sender Kind.Response) Role.Server;
  assert_eq (Kind.sender Kind.Error) Role.Server;
  Kind.names_a_request_for_scope Kind.Response FailureScope.ConnectionFatal;
  Kind.names_a_request_for_scope Kind.Error FailureScope.RequestScoped;
  negb (Kind.names_a_request_for_scope Kind.Error FailureScope.ConnectionFatal)].

Definition assigned_result_codes_convert_and_unassigned_refuse : bool := asserts ([
  assert_eq (ResultCode.from_wire 0) (Some ResultCode.Success);
  assert_eq (ResultCode.from_wire 1) (Some ResultCode.Absent);
  assert_eq (ResultCode.from_wire 4) (Some ResultCode.ValueHeldOutsideMemory);
  assert_eq (ResultCode.value ResultCode.Success) 0;
  assert_eq (ResultCode.value ResultCode.Absent) 1;
  assert_eq (ResultCode.value ResultCode.ValueHeldOutsideMemory) 4] ++
  ((λ value, assert_eq (ResultCode.from_wire value) None) <$> [2; 3; 5; U16_MAX])).

Definition assigned_error_classes_convert_and_unassigned_refuse : bool :=
  let assigned := [
    (ErrorClass.MalformedRequest, 0x0001, FailureScope.ConnectionFatal);
    (ErrorClass.UnsupportedProtocolVersion, 0x0002, FailureScope.ConnectionFatal);
    (ErrorClass.UnsupportedOperation, 0x0003, FailureScope.RequestScoped);
    (ErrorClass.InvalidArgument, 0x0004, FailureScope.RequestScoped);
    (ErrorClass.ResourceLimit, 0x0005, FailureScope.ConnectionFatal);
    (ErrorClass.Overloaded, 0x0008, FailureScope.RequestScoped);
    (ErrorClass.InternalError, 0x000B, FailureScope.RequestScoped);
    (ErrorClass.ProtocolViolation, 0x000C, FailureScope.ConnectionFatal);
    (ErrorClass.WrongType, 0x000E, FailureScope.RequestScoped)] in
  asserts (((λ e, let '(class, value, scope) := e in asserts [
      assert_eq (ErrorClass.from_wire value) (Some class);
      assert_eq (ErrorClass.value class) value;
      assert_eq (ErrorClass.scope class) scope;
      assert_eq (Failure.class (Failure.new class scope)) class;
      assert_eq (Failure.scope (Failure.new class scope)) scope]) <$> assigned) ++ [
    assert_eq (ErrorClass.name ErrorClass.MalformedRequest) "malformed request"%string;
    assert_eq (ErrorClass.name ErrorClass.UnsupportedOperation) "unsupported operation"%string;
    assert_eq (ErrorClass.name ErrorClass.WrongType) "wrong type"%string] ++
    ((λ value, assert_eq (ErrorClass.from_wire value) None) <$>
       [0; 0x0006; 0x0007; 0x0009; 0x000A; 0x000D; 0x000F; U16_MAX])).

Definition widest_length_arithmetic_fits_u64 : bool :=
  let expected := let? v := checked_add U64_MAX 20 U16_MAX in checked_add U64_MAX v U32_MAX in
  asserts [
    assert_eq (total_length U16_MAX U32_MAX) expected;
    match expected with Some total => MAX_FRAME_SIZE <? total | None => false end].

Definition handshake_request_encode_derives_the_capability_count : bool :=
  let entries := [CapabilityEntry.new 1 [xaa]; CapabilityEntry.new 4 []] in
  let request := HandshakeRequest.new 0 0 65536 (CapabilityEntries.new entries) in
  let payload := HandshakeRequest.encode request in
  assert_eq (slice_get payload 8 10) (Some [x02; x00]) &&
  match HandshakeRequest.decode payload with
  | Err _ => false
  | Ok decoded => asserts [
      assert_eq (HandshakeRequest.capability_count decoded) 2;
      assert_eq (CapabilityEntries.count (HandshakeRequest.capability_entries decoded)) 2;
      assert_eq (CapabilityEntry.identifier <$>
                   head (CapabilityEntries.entries (HandshakeRequest.capability_entries decoded)))
        (Some 1);
      assert_eq (HandshakeRequest.encode decoded) payload]
  end.

Definition handshake_response_encode_derives_the_accepted_capability_count : bool :=
  let payload := from_hex "0000000001000010010001000000" in
  let offer := HandshakeOffer.mk 0 0 [1] in
  match HandshakeResponse.decode payload offer with
  | Err _ => false
  | Ok response => asserts [
      assert_eq (HandshakeResponse.accepted_capability_count response) 1;
      assert_eq (HandshakeResponse.negotiated_protocol_version response) 0;
      assert_eq (HandshakeResponse.negotiated_maximum_frame_size response) 65536;
      assert_eq (HandshakeResponse.negotiated_maximum_metadata_size response) 4096;
      assert_eq (HandshakeResponse.encode response) payload]
  end.

(** ** Tests of a decoder *)

Section decoder.
Context (dec : list byte → Admission.t → Step.t).

Definition decode_at (input : list byte) (role : Role.t) (in_flight : list Z) : Step.t :=
  dec input (Admission.mk role ProtocolState.Negotiated Limits.PRE_NEGOTIATION in_flight).

Definition reserved_request_id_is_refused_on_a_frame_that_names_a_request : bool :=
  let bytes := from_hex "0002000000000000000000000000000000000000" in
  match decode_at bytes Role.Client [] with
  | Step.Failure failure _ => asserts [
      assert_eq (Failure.class failure) ErrorClass.ProtocolViolation;
      assert_eq (Failure.scope failure) FailureScope.ConnectionFatal]
  | other => is_need other
  end.

Definition fatal_class_error_frame_allows_the_reserved_request_id : bool :=
  let bytes := from_hex "000300000c0000000200000000000000000000000000" in
  match decode_at bytes Role.Client [] with
  | Step.Frame frame => asserts [
      assert_eq (Header.code (Frame.header frame)) 0x000C;
      assert_eq (RequestId.value (Frame.retires frame)) 0;
      assert_eq (Frame.payload frame) (Payload.Error [] [])]
  | _ => false
  end.

Definition metadata_ascending_entries_admit : bool :=
  let bytes := frame_with_metadata [(1, []); (2, [xff])] in
  match decode_at bytes Role.Client [1] with
  | Step.Frame frame =>
      let entries := MetadataRegion.entries (Frame.metadata frame) in asserts [
      assert_eq (len entries) 2;
      assert_eq (MetadataEntry.identifier <$> head entries) (Some 1)]
  | _ => false
  end.

Definition metadata_duplicate_and_descent_refuse : bool :=
  asserts ((λ text,
    let bytes := from_hex text in
    match decode_at bytes Role.Client [1] with
    | Step.Failure failure consumed => asserts [
        assert_eq (Failure.class failure) ErrorClass.InvalidArgument;
        assert_eq (Failure.scope failure) FailureScope.RequestScoped;
        assert_eq consumed (len bytes)]
    | other => is_need other
    end) <$> [
    "00020000000008000000000001000000000000000100000001000000"%string;
    "00020000000008000000000001000000000000000200000001000000"%string]).

Definition metadata_region_must_fill_exactly : bool :=
  let bytes := from_hex "0002000000000600000000000100000000000000010000000200" in
  match decode_at bytes Role.Client [1] with
  | Step.Failure failure _ => asserts [
      assert_eq (Failure.class failure) ErrorClass.MalformedRequest;
      assert_eq (Failure.scope failure) FailureScope.ConnectionFatal]
  | other => is_need other
  end.

Definition unassigned_optional_identifier_is_skipped : bool :=
  let bytes := from_hex "000200000000070000000000010000000000000001000300aabbcc" in
  is_frame (decode_at bytes Role.Client [1]).

Definition unassigned_required_identifier_is_refused : bool :=
  let bytes := from_hex "000200000000040000000000010000000000000000800000" in
  match decode_at bytes Role.Client [1] with
  | Step.Failure failure consumed => asserts [
      assert_eq (Failure.class failure) ErrorClass.InvalidArgument;
      assert_eq (Failure.scope failure) FailureScope.RequestScoped;
      assert_eq consumed 24]
  | other => is_need other
  end.

Definition minimal_response_decodes : bool :=
  let bytes := from_hex "0002000000000000000000000100000000000000" in
  match decode_at bytes Role.Client [1] with
  | Step.Frame frame => asserts [
      assert_eq (Header.kind (Frame.header frame)) Kind.Response;
      assert_eq (Header.code (Frame.header frame)) 0;
      assert_eq (RequestId.value (Header.request_id (Frame.header frame))) 1;
      assert_eq (RequestId.value (Frame.retires frame)) 1]
  | _ => false
  end.

Definition fragmented_input_returns_need : bool :=
  let bytes := from_hex "0002000000000000000000000100000000000000" in
  let short := unwrap_or (slice_get bytes 0 10) bytes in
  let body := from_hex "0002000000000300000000000100000000000000aabbcc" in
  let truncated := unwrap_or (slice_get body 0 (Z.max 0 (len body - 1))) body in
  asserts [
    match decode_at short Role.Client [1] with Step.Need n => n =? 20 | _ => false end;
    match decode_at truncated Role.Client [1] with Step.Need n => n =? 23 | _ => false end].

Definition encoder_round_trips_every_payload_shape : bool :=
  let cases := [
    Outgoing.mk Kind.Response 0 1 [] (OutgoingPayload.Opaque_ []);
    Outgoing.mk Kind.Response 1 1 [] (OutgoingPayload.Opaque_ []);
    Outgoing.mk Kind.Response 4 1 [] (OutgoingPayload.Warm 4096);
    Outgoing.mk Kind.Response 0 1 [(1, [x0a; x0b])] (OutgoingPayload.Opaque_ []);
    Outgoing.mk Kind.Error 3 1 [] (OutgoingPayload.Error [] (bytes_of "ok"));
    Outgoing.mk Kind.Error 14 1 [] (OutgoingPayload.Error [x01] [])] in
  asserts ((λ outgoing,
    match encode outgoing with
    | Ok bytes => is_frame (decode_at bytes Role.Client [1])
    | Err _ => false
    end) <$> cases).

Definition the_five_operation_opcodes_admit : bool :=
  asserts ([assert_eq SPEC_REVISION "v0.5.0"%string] ++
    ((λ code,
      match decode_at (request_bytes code) Role.Server [] with
      | Step.Frame frame => asserts [
          assert_eq (Header.code (Frame.header frame)) code;
          assert_eq (RequestId.value (Frame.retires frame)) 0]
      | other => is_need other
      end) <$> [PING_OPCODE; GET_OPCODE; SET_OPCODE; DEL_OPCODE; EXISTS_OPCODE]) ++ [
    Opcode.is_assigned PING_OPCODE;
    Opcode.is_assigned EXISTS_OPCODE;
    negb (Opcode.is_assigned 0x0000);
    negb (Opcode.is_assigned 0x0007)]).

Definition unassigned_opcodes_refuse_per_request_with_the_session_open : bool :=
  asserts ((λ code,
    let bytes := request_bytes code in
    match decode_at bytes Role.Server [] with
    | Step.Failure failure consumed => asserts [
        assert_eq (Failure.class failure) ErrorClass.UnsupportedOperation;
        assert_eq (Failure.scope failure) FailureScope.RequestScoped;
        assert_eq consumed (len bytes)]
    | other => is_need other
    end) <$> [0x0000; 0x0007]).

(** The tests a decoder that never decodes anything would fail. *)
Definition discriminating : list bool := [
  fatal_class_error_frame_allows_the_reserved_request_id; metadata_ascending_entries_admit;
  unassigned_optional_identifier_is_skipped; minimal_response_decodes;
  fragmented_input_returns_need; encoder_round_trips_every_payload_shape].

(** The tests whose fallback arm asserts [Need]. *)
Definition accepting_need : list bool := [
  reserved_request_id_is_refused_on_a_frame_that_names_a_request;
  metadata_duplicate_and_descent_refuse; metadata_region_must_fill_exactly;
  unassigned_required_identifier_is_refused; the_five_operation_opcodes_admit;
  unassigned_opcodes_refuse_per_request_with_the_session_open].
End decoder.

(** Every test of the module. *)
Definition tests (dec : list byte → Admission.t → Step.t) : list bool :=
  [assigned_kinds_convert_and_unassigned_kinds_refuse;
   assigned_result_codes_convert_and_unassigned_refuse;
   assigned_error_classes_convert_and_unassigned_refuse; widest_length_arithmetic_fits_u64;
   handshake_request_encode_derives_the_capability_count;
   handshake_response_encode_derives_the_accepted_capability_count] ++
  discriminating dec ++ accepting_need dec.
End ProtocolTests.

Module CommandTests.

(** ** Helpers *)

Definition response_bytes (kind : Kind.t) (code : Z) (payload : list byte) : list byte :=
  unwrap_or_default (encode (Outgoing.mk kind code 7 [] (OutgoingPayload.Opaque_ payload))).

Definition error_response_bytes (class : Z) : list byte :=
  unwrap_or_default (encode (Outgoing.mk Kind.Error class 7 []
    (OutgoingPayload.Error [] (bytes_of "diagnostic text is not contractual")))).

(** Fails on success, as the [Err] its caller propagates does. *)
Definition expect_command_failure (r : result unit CommandFailure.t) (class : ErrorClass.t)
    (scope : FailureScope.t) : bool :=
  match r with
  | Err failure => asserts [
      assert_eq (CommandFailure.class failure) class;
      assert_eq (ErrorClass.scope (CommandFailure.class failure)) scope]
  | Ok _ => false
  end.

(** ** Tests without the decoder *)

Definition set_encodes_once_and_splits : bool :=
  let payload := unwrap_or_default (encode_set (bytes_of "key") (bytes_of "value")) in
  let empty := unwrap_or_default (encode_set [] []) in
  asserts [
    assert_eq (len payload) 12;
    assert_eq (slice_get payload 0 4) (Some [x03; x00; x00; x00]);
    match split_set payload with
    | Ok (key, value) => asserts [
        assert_eq key (bytes_of "key"); assert_eq value (bytes_of "value")]
    | Err _ => false
    end;
    assert_eq empty [x00; x00; x00; x00];
    match split_set empty with
    | Ok (empty_key, empty_value) => asserts [is_empty empty_key; is_empty empty_value]
    | Err _ => false
    end].

Definition set_short_and_overrunning_payloads_are_malformed : bool := asserts [
  match split_set [x01; x02; x03] with
  | Err failure => assert_eq failure (CommandFailure.new ErrorClass.MalformedRequest)
  | Ok _ => false
  end;
  match split_set [x05; x00; x00; x00; x61] with
  | Err failure => assert_eq failure (CommandFailure.new ErrorClass.MalformedRequest)
  | Ok _ => false
  end].

Definition keys_are_binary_safe_end_to_end : bool :=
  let key := [x00; xff; x80; x61; x00] in
  let payload := unwrap_or_default (encode_set key key) in
  asserts [
    assert_eq (encode_key key) key;
    match split_set payload with
    | Ok (decoded_key, decoded_value) => asserts [
        assert_eq decoded_key key; assert_eq decoded_value key]
    | Err _ => false
    end].

(** ** Tests of a decoder *)

Section decoder.
Context (dec : list byte → Admission.t → Step.t).

Definition decode_client (bytes : list byte) (in_flight : list Z) : Step.t :=
  dec bytes (Admission.mk Role.Client ProtocolState.Negotiated Limits.PRE_NEGOTIATION in_flight).

(** [match decode_client(..) \{ Step::Frame(frame) => .., other => assert!(Need) \}]. *)
Definition on_frame (bytes : list byte) (check : Frame.t → bool) : bool :=
  match decode_client bytes [7] with
  | Step.Frame frame => check frame
  | other => is_need other
  end.

(** [match decode_client(..) \{ Step::Failure .. => .., other => assert!(Need) \}]. *)
Definition on_failure (bytes : list byte) (class : ErrorClass.t) (scope : FailureScope.t) : bool :=
  match decode_client bytes [7] with
  | Step.Failure failure _ => asserts [
      assert_eq (Failure.class failure) class; assert_eq (Failure.scope failure) scope]
  | other => is_need other
  end.

Definition ping_encodes_empty_and_maps_success : bool := asserts [
  is_empty encode_ping;
  on_frame (response_bytes Kind.Response 0x0000 [])
    (λ frame, assert_eq (interpret_ping frame) (Ok tt))].

Definition ping_maps_every_reachable_error_class_with_scope : bool :=
  let cases := [
    (ErrorClass.UnsupportedOperation, FailureScope.RequestScoped);
    (ErrorClass.InvalidArgument, FailureScope.RequestScoped);
    (ErrorClass.Overloaded, FailureScope.RequestScoped);
    (ErrorClass.InternalError, FailureScope.RequestScoped);
    (ErrorClass.MalformedRequest, FailureScope.ConnectionFatal);
    (ErrorClass.ResourceLimit, FailureScope.ConnectionFatal);
    (ErrorClass.ProtocolViolation, FailureScope.ConnectionFatal)] in
  asserts ((λ e, on_frame (error_response_bytes (ErrorClass.value e.1))
    (λ frame, expect_command_failure (interpret_ping frame) e.1 e.2)) <$> cases).

Definition get_maps_present_empty_absent_and_held : bool := asserts [
  on_frame (response_bytes Kind.Response 0x0000 (bytes_of "value"))
    (λ frame, assert_eq (interpret_get frame) (Ok (GetOutcome.Present (bytes_of "value"))));
  on_frame (response_bytes Kind.Response 0x0000 [])
    (λ frame, assert_eq (interpret_get frame) (Ok (GetOutcome.Present [])));
  on_frame (response_bytes Kind.Response 0x0001 [])
    (λ frame, assert_eq (interpret_get frame) (Ok GetOutcome.Absent));
  on_frame (response_bytes Kind.Response 0x0004 (to_le_bytes 8 42))
    (λ frame, assert_eq (interpret_get frame) (Ok (GetOutcome.HeldOutsideMemory 42)))].

Definition del_and_exists_map_presence_exactly : bool := asserts [
  on_frame (response_bytes Kind.Response 0x0000 []) (λ frame, asserts [
    assert_eq (interpret_del frame) (Ok true); assert_eq (interpret_exists frame) (Ok true)]);
  on_frame (response_bytes Kind.Response 0x0001 []) (λ frame, asserts [
    assert_eq (interpret_del frame) (Ok false); assert_eq (interpret_exists frame) (Ok false)])].

Definition set_maps_success_and_wrong_type_without_parsing_text : bool := asserts [
  on_frame (response_bytes Kind.Response 0x0000 [])
    (λ frame, assert_eq (interpret_set frame) (Ok tt));
  on_frame (error_response_bytes (ErrorClass.value ErrorClass.WrongType)) (λ frame,
    match interpret_set frame with
    | Err failure => asserts [
        assert_eq (CommandFailure.class failure) ErrorClass.WrongType;
        assert_eq (ErrorClass.scope (CommandFailure.class failure)) FailureScope.RequestScoped;
        negb (assert_eq (CommandFailure.class failure) ErrorClass.InternalError)]
    | Ok _ => false
    end)].

Definition internal_error_preserves_ambiguity : bool :=
  on_frame (error_response_bytes (ErrorClass.value ErrorClass.InternalError)) (λ frame, asserts [
    expect_command_failure (interpret_ping frame) ErrorClass.InternalError FailureScope.RequestScoped;
    expect_command_failure (interpret_set frame) ErrorClass.InternalError FailureScope.RequestScoped;
    match interpret_get frame with
    | Err failure => assert_eq (CommandFailure.class failure) ErrorClass.InternalError
    | Ok _ => false
    end;
    match interpret_del frame with
    | Err failure => assert_eq (CommandFailure.class failure) ErrorClass.InternalError
    | Ok _ => false
    end]).

Definition unexpected_result_shapes_are_protocol_violations : bool :=
  let failure_or_overloaded (r : result unit CommandFailure.t) :=
    match r with Err failure => failure | Ok _ => CommandFailure.new ErrorClass.Overloaded end in
  asserts [
    on_frame (response_bytes Kind.Response 0x0001 []) (λ frame, asserts [
      assert_eq (failure_or_overloaded (interpret_ping frame)) CommandFailure.protocol_violation;
      assert_eq (failure_or_overloaded (interpret_set frame)) CommandFailure.protocol_violation]);
    on_frame (response_bytes Kind.Response 0x0004 (to_le_bytes 8 1)) (λ frame,
      match interpret_del frame with
      | Err failure => assert_eq failure CommandFailure.protocol_violation
      | Ok _ => false
      end)].

Definition malformed_shapes_are_connection_fatal : bool := asserts [
  on_failure (unwrap_or_default
    (encode (Outgoing.mk Kind.Response 0x0001 7 [] (OutgoingPayload.Opaque_ [xff]))))
    ErrorClass.MalformedRequest FailureScope.ConnectionFatal;
  on_failure (unwrap_or_default
    (encode (Outgoing.mk Kind.Response 0x0004 7 [] (OutgoingPayload.Opaque_ [x01; x02; x03]))))
    ErrorClass.MalformedRequest FailureScope.ConnectionFatal].

Definition unassigned_codes_close_the_session : bool :=
  asserts ((λ e,
    let payload := if bool_decide (e.1 = Kind.Error) then [x00; x00] else [] in
    on_failure (unwrap_or_default
      (encode (Outgoing.mk e.1 e.2 7 [] (OutgoingPayload.Opaque_ payload))))
      ErrorClass.ProtocolViolation FailureScope.ConnectionFatal) <$>
    [(Kind.Response, 0x0002); (Kind.Error, 0x0006)]).

Definition required_unassigned_metadata_fails_locally_and_keeps_serving : bool :=
  let bytes := unwrap_or_default
    (encode (Outgoing.mk Kind.Response 0x0000 7 [(0x8000, [])] (OutgoingPayload.Opaque_ []))) in
  match decode_client bytes [7] with
  | Step.Failure failure consumed => asserts [
      assert_eq (Failure.class failure) ErrorClass.InvalidArgument;
      assert_eq (Failure.scope failure) FailureScope.RequestScoped;
      assert_eq consumed (len bytes)]
  | other => is_need other
  end.

(** The tests that decode: all of them have a fallback arm that asserts [Need]. *)
Definition accepting_need : list bool := [
  ping_encodes_empty_and_maps_success; ping_maps_every_reachable_error_class_with_scope;
  get_maps_present_empty_absent_and_held; del_and_exists_map_presence_exactly;
  set_maps_success_and_wrong_type_without_parsing_text; internal_error_preserves_ambiguity;
  unexpected_result_shapes_are_protocol_violations; malformed_shapes_are_connection_fatal;
  unassigned_codes_close_the_session;
  required_unassigned_metadata_fails_locally_and_keeps_serving].
End decoder.

(** Every test of the module. *)
Definition tests (dec : list byte → Admission.t → Step.t) : list bool :=
  [set_encodes_once_and_splits; set_short_and_overrunning_payloads_are_malformed;
   keys_are_binary_safe_end_to_end] ++ accepting_need dec.
End CommandTests.

(** ** Lemmas *)

Ltac head_of t := lazymatch t with ?f _ => head_of f | _ => t end.

(** Unfolds a test down to its calls of the decoder. *)
Ltac unfold_test :=
  lazymatch goal with |- ?t = true => let h := head_of t in unfold h end;
  unfold CommandTests.on_frame, CommandTests.on_failure, CommandTests.decode_client,
    ProtocolTests.decode_at, asserts;
  cbn [fmap list_fmap forallb id app andb].

(** Every call of the decoder asks for more. *)
Ltac ask_for_more :=
  repeat match goal with
  | Hn : ∀ i a, is_need (?dec i a) = true |- context [?dec ?i ?a] =>
      let Hc := fresh in pose proof (Hn i a) as Hc; destruct (dec i a); [clear Hc|done..]
  end; try reflexivity; vm_compute; reflexivity.

(** ** Properties *)

(** Sixteen of these tests cannot tell the decoder from one that never decodes anything: their
    fallback arm, meant for an unexpected outcome, accepts a request for more bytes, so every
    decoder that always asks for more passes them. *)
Theorem always_need_passes_tests (dec : list byte → Admission.t → Step.t) :
  (∀ input admission, is_need (dec input admission) = true) →
  Forall (λ b, b = true) (ProtocolTests.accepting_need dec ++ CommandTests.accepting_need dec).
Proof.
  intros Hn. unfold ProtocolTests.accepting_need, CommandTests.accepting_need.
  repeat (constructor; [|]); [..|constructor]; unfold_test; ask_for_more.
Qed.

(** ** Witness *)

Lemma always_need_passes_tests_witness :
  Forall (λ b, b = true)
    (ProtocolTests.accepting_need (λ _ _, Step.Need 20) ++
     CommandTests.accepting_need (λ _ _, Step.Need 20)).
Proof. apply (always_need_passes_tests (λ _ _, Step.Need 20)). reflexivity. Defined.

(** ** The fuzz target ([src/fuzz/fuzz_targets/frame_decode.rs]) *)

Module FuzzTarget.

Definition admission (role : Role.t) (in_flight : list Z) : Admission.t :=
  Admission.mk role ProtocolState.Negotiated Limits.PRE_NEGOTIATION in_flight.

(** What the two calls answer, which the target drops. *)
Definition fuzz_target (data : list byte) : list Step.t :=
  [decode data (admission Role.Client [1; 2; 3]); decode data (admission Role.Server [])].

(** What the target looks for: every input is answered by a frame inside the input, a classified
    failure that consumes no more than the input, or a request for a bounded number of bytes. *)
Theorem fuzz_target_bounded data :
  Forall (λ s, match s with
               | Step.Need n => len data < n ≤ MAX_FRAME_SIZE
               | Step.Frame f => len (frame_bytes f) ≤ len data
               | Step.Failure f c => classified f ∧ 0 ≤ c ≤ len data
               end) (fuzz_target data).
Proof.
  assert (∀ role ids, match decode data (admission role ids) with
                      | Step.Need n => len data < n ≤ MAX_FRAME_SIZE
                      | Step.Frame f => len (frame_bytes f) ≤ len data
                      | Step.Failure f c => classified f ∧ 0 ≤ c ≤ len data
                      end) as Hall.
  { intros role ids. pose proof (decode_extent data (admission role ids)) as He.
    pose proof (len_nonneg data).
    assert (20 ≤ MAX_FRAME_SIZE) by done. change HEADER_LENGTH with 20 in He.
    destruct (decode data (admission role ids)) as [n|f|f c];
      [change (Limits.frame_size _) with MAX_FRAME_SIZE in He; lia | lia |].
    destruct He as [Hc He]. split; [done|]. destruct (Failure.scope f); [|lia].
    destruct He as (h & _ & _ & He & _). lia. }
  constructor; [apply Hall|]. constructor; [apply Hall | constructor].
Qed.

End FuzzTarget.
