(* ===== verification/Fixtures.v ===== *)
(** * The specification's conformance fixtures: the checker

    [src/tests/spec_fixtures.rs]: how one fixture of the specification's corpus is put to the
    decoder and the encoder. A fixture's JSON document is a [fixture] here, its expected fields
    a list of [field]s, its hexadecimal strings bytes. The corpus is in [Corpus]. *)

From stdpp Require Import strings.
From S2P Require Export WireTests.
From Stdlib Require Import Strings.Byte.
Local Open Scope Z_scope.

Module Fixtures.

(** ** Fixtures *)

(** A field of [expect.fields]. *)
Inductive field :=
| Client_maximum_protocol_version (v : Z)
| Client_minimum_protocol_version (v : Z)
| Client_desired_maximum_frame_size (v : Z)
| Capability_count (v : Z)
| Negotiated_protocol_version (v : Z)
| Negotiated_maximum_frame_size (v : Z)
| Negotiated_maximum_metadata_size (v : Z)
| Accepted_capability_count (v : Z)
| Capability_entries (entries : list (Z * list byte))
| Key (bytes : list byte)
| Value (bytes : list byte)
| Key_length (v : Z)
| Version_ (v : Z)
| Kind_ (v : Z)
| Flags_ (v : Z)
| Code (v : Z)
| Metadata_length (v : Z)
| Payload_length (v : Z)
| Request_id (v : Z)
| Metadata (entries : list (Z * list byte))
| Logical_length (v : Z)
| Detail_length (v : Z)
| Detail_bytes (bytes : list byte)
| Text_ (bytes : list byte).

(** [expect]. *)
Inductive expectation :=
| Success (fields : list field) (bytes_consumed retires : option Z)
| Failed (class scope : string) (bytes_consumed : option Z)
| Incomplete (bytes_required : Z).

(** [input.fields], for the encoder; a missing [payload] is [None]. *)
Record outgoing_fields := mk_outgoing {
  out_kind : Z;
  out_code : Z;
  out_request_id : Z;
  out_metadata : list (Z * list byte);
  out_payload : option (list byte);
  out_logical_length : option Z;
  out_detail_bytes : option (list byte);
  out_text : option (list byte)
}.

(** [direction], with the bytes and fields it uses. *)
Inductive direction :=
| Decode (bytes : list byte)
| Encode (fields : outgoing_fields) (bytes : list byte)
| Both (fields : outgoing_fields) (bytes : list byte).

Record fixture := mk_fixture {
  id : string;
  role : option string;
  state : option string;
  limits : option (Z * Z);
  in_flight : option (list Z);
  shape : direction;
  expect : expectation
}.

(** ** The receiver a fixture describes *)

Definition state_of (f : fixture) : option ProtocolState.t :=
  match state f with
  | Some "pre-negotiation"%string => Some ProtocolState.PreNegotiation
  | Some "negotiated"%string | None => Some ProtocolState.Negotiated
  | Some _ => None
  end.

Definition limits_of (f : fixture) : option Limits.t :=
  match limits f with
  | None => Some Limits.PRE_NEGOTIATION
  | Some (frame_size, metadata_size) =>
      let? frame_size := try_from U64_MAX frame_size in
      let? metadata_size := try_from U16_MAX metadata_size in
      Some (Limits.mk frame_size metadata_size)
  end.

Definition role_of (f : fixture) : option Role.t :=
  match role f with
  | Some "client"%string => Some Role.Client
  | Some "server"%string | None => Some Role.Server
  | Some _ => None
  end.

Definition request_id_from (bytes : list byte) : option Z :=
  let? slice := slice_get bytes 12 20 in
  let? array := try_into_array 8 slice in
  Some (from_le_bytes array).

Definition default_in_flight (bytes : list byte) : list Z :=
  if bool_decide (get_at bytes 1 = Some x01) then [] else
  match request_id_from bytes with Some request_id => [request_id] | None => [] end.

(** ** Handshake payloads *)

(** The versions and the offer of this implementation ([OFFER]; the connection has its own). *)
Definition SUPPORTED_VERSIONS : list Z := [0].
Definition FIXTURE_OFFER : HandshakeOffer.t := HandshakeOffer.mk 0 0 [].

Inductive payload_view :=
| ViewRequest (request : HandshakeRequest.t)
| ViewResponse (response : HandshakeResponse.t)
| ViewOpaque.

Definition handshake_view (frame : Frame.t) (role : Role.t) (state : ProtocolState.t)
    : result payload_view Failure.t :=
  let header := Frame.header frame in
  match Frame.payload frame with
  | Payload.Opaque_ payload =>
      if bool_decide (Header.kind header = Kind.Request) && (Header.code header =? HANDSHAKE_OPCODE)
      then
        let! request := HandshakeRequest.decode payload in
        if bool_decide (role = Role.Server) &&
           bool_decide (HandshakeRequest.highest_mutual_version request SUPPORTED_VERSIONS = None)
        then Err Failure.unsupported_protocol_version
        else Ok (ViewRequest request)
      else if bool_decide (Header.kind header = Kind.Response) && (Header.code header =? 0) &&
              bool_decide (state = ProtocolState.PreNegotiation)
      then
        let! response := HandshakeResponse.decode payload FIXTURE_OFFER in Ok (ViewResponse response)
      else Ok ViewOpaque
  | _ => Ok ViewOpaque
  end.

(** ** Fields *)

Definition capability_entries (view : payload_view) : option (list CapabilityEntry.t) :=
  match view with
  | ViewRequest request =>
      Some (CapabilityEntries.entries (HandshakeRequest.capability_entries request))
  | ViewResponse response =>
      Some (CapabilityEntries.entries (HandshakeResponse.accepted_capability_entries response))
  | ViewOpaque => None
  end.

Definition set_key_length (payload : list byte) : option Z :=
  let? slice := slice_get payload 0 4 in
  let? head := try_into_array 4 slice in
  Some (from_le_bytes head).

Definition operation_key (code : Z) (payload : list byte) : option (list byte) :=
  if code =? 0x0004 then
    let? key_length := set_key_length payload in
    let? key_length := try_from USIZE_MAX key_length in
    let? key_end := checked_add USIZE_MAX 4 key_length in
    slice_get payload 4 key_end
  else Some payload.

Definition operation_value (code : Z) (payload : list byte) : option (list byte) :=
  if code =? 0x0004 then
    let? key_length := set_key_length payload in
    let? key_length := try_from USIZE_MAX key_length in
    let? value_start := checked_add USIZE_MAX 4 key_length in
    slice_from payload value_start
  else Some payload.

Definition on_request (view : payload_view) (get : HandshakeRequest.t → Z) (expected : Z) : bool :=
  match view with ViewRequest request => assert_eq (get request) expected | _ => false end.
Definition on_response (view : payload_view) (get : HandshakeResponse.t → Z) (expected : Z) : bool :=
  match view with ViewResponse response => assert_eq (get response) expected | _ => false end.
Definition on_opaque (frame : Frame.t) (check : list byte → bool) : bool :=
  match Frame.payload frame with Payload.Opaque_ payload => check payload | _ => false end.

(** [check_handshake_field], [check_operation_field] and [check_field]. *)
Definition check_field (frame : Frame.t) (view : payload_view) (f : field) : bool :=
  let header := Frame.header frame in
  match f with
  | Client_maximum_protocol_version v =>
      on_request view HandshakeRequest.client_maximum_protocol_version v
  | Client_minimum_protocol_version v =>
      on_request view HandshakeRequest.client_minimum_protocol_version v
  | Client_desired_maximum_frame_size v =>
      on_request view HandshakeRequest.client_desired_maximum_frame_size v
  | Capability_count v => on_request view HandshakeRequest.capability_count v
  | Negotiated_protocol_version v =>
      on_response view HandshakeResponse.negotiated_protocol_version v
  | Negotiated_maximum_frame_size v =>
      on_response view HandshakeResponse.negotiated_maximum_frame_size v
  | Negotiated_maximum_metadata_size v =>
      on_response view HandshakeResponse.negotiated_maximum_metadata_size v
  | Accepted_capability_count v => on_response view HandshakeResponse.accepted_capability_count v
  | Capability_entries entries =>
      match capability_entries view with
      | Some found =>
          assert_eq ((λ e, (CapabilityEntry.identifier e, CapabilityEntry.value e)) <$> found) entries
      | None => false
      end
  | Key bytes =>
      on_opaque frame (λ payload,
        assert_eq (operation_key (Header.code header) payload) (Some bytes))
  | Value bytes =>
      on_opaque frame (λ payload,
        assert_eq (operation_value (Header.code header) payload) (Some bytes))
  | Key_length v => on_opaque frame (λ payload, assert_eq (set_key_length payload) (Some v))
  | Version_ v => assert_eq (Version.value (Header.version header)) v
  | Kind_ v => assert_eq (Kind.value (Header.kind header)) v
  | Flags_ v => assert_eq (Flags.value (Header.flags header)) v
  | Code v => assert_eq (Header.code header) v
  | Metadata_length v => assert_eq (Header.metadata_length header) v
  | Payload_length v => assert_eq (Header.payload_length header) v
  | Request_id v => assert_eq (RequestId.value (Header.request_id header)) v
  | Metadata entries =>
      assert_eq ((λ e, (MetadataEntry.identifier e, MetadataEntry.value e)) <$>
                   MetadataRegion.entries (Frame.metadata frame)) entries
  | Logical_length v =>
      match Frame.payload frame with Payload.Warm n => assert_eq n v | _ => false end
  | Detail_length v =>
      match Frame.payload frame with Payload.Error detail _ => assert_eq (len detail) v | _ => false end
  | Detail_bytes bytes =>
      match Frame.payload frame with Payload.Error detail _ => assert_eq detail bytes | _ => false end
  | Text_ bytes =>
      match Frame.payload frame with Payload.Error _ text => assert_eq text bytes | _ => false end
  end.

Definition check_fields (frame : Frame.t) (view : payload_view) (fields : list field) : bool :=
  forallb (check_field frame view) fields.

(** An expectation the fixture may leave out. *)
Definition if_stated (expected : option Z) (found : Z) : bool :=
  match expected with Some v => assert_eq found v | None => true end.

(** ** One fixture *)

Definition run_decode (bytes : list byte) (role : Role.t) (state : ProtocolState.t)
    (limits : Limits.t) (in_flight : list Z) (expect : expectation) : bool :=
  let step := decode bytes (Admission.mk role state limits in_flight) in
  match expect with
  | Success fields consumed retires =>
      match step with
      | Step.Frame frame =>
          if_stated consumed (len bytes) &&
          if_stated retires (RequestId.value (Frame.retires frame)) &&
          match handshake_view frame role state with
          | Ok view => check_fields frame view fields
          | Err _ => false
          end
      | _ => false
      end
  | Failed class scope consumed_expected =>
      match
        match step with
        | Step.Failure failure consumed => Some (failure, consumed)
        | Step.Frame frame =>
            match handshake_view frame role state with
            | Err failure => Some (failure, len bytes)
            | Ok _ => None
            end
        | Step.Need _ => None
        end
      with
      | Some (failure, consumed) => asserts [
          assert_eq (ErrorClass.name (Failure.class failure)) class;
          assert_eq (FailureScope.name (Failure.scope failure)) scope;
          if_stated consumed_expected consumed]
      | None => false
      end
  | Incomplete required =>
      match step with Step.Need count => assert_eq count required | _ => false end
  end.

Definition run_encode (fields : outgoing_fields) (expected : list byte) : bool :=
  match
    let? kind := Kind.from_wire (out_kind fields) in
    let payload :=
      match out_payload fields, out_logical_length fields, out_detail_bytes fields, out_text fields
      with
      | Some bytes, _, _, _ => OutgoingPayload.Opaque_ bytes
      | None, Some logical_length, _, _ => OutgoingPayload.Warm logical_length
      | None, None, None, None => OutgoingPayload.Opaque_ []
      | None, None, detail, text => OutgoingPayload.Error (default [] detail) (default [] text)
      end in
    Some (Outgoing.mk kind (out_code fields) (out_request_id fields) (out_metadata fields) payload)
  with
  | Some outgoing =>
      match encode outgoing with Ok bytes => assert_eq bytes expected | Err _ => false end
  | None => false
  end.

Definition run_fixture (f : fixture) : bool :=
  match role_of f, state_of f, limits_of f with
  | Some role, Some state, Some limits =>
      let decodes bytes :=
        run_decode bytes role state limits (default (default_in_flight bytes) (in_flight f))
          (expect f) in
      match shape f with
      | Decode bytes => decodes bytes
      | Encode fields bytes => run_encode fields bytes
      | Both fields bytes => run_encode fields bytes && decodes bytes
      end
  | _, _, _ => false
  end.

End Fixtures.
