(* ===== verification/Corpus.v ===== *)
(** * The specification's conformance corpus

    The 107 fixtures of [src/tests/fixtures/rp1-spec-v0.5.0], one list per directory, written
    out as [Fixtures] reads them; runs of one byte are written with their length. *)

From stdpp Require Import strings.
From S2P Require Export Fixtures.
From Stdlib Require Import Strings.Byte.
Local Open Scope Z_scope.

Import Fixtures.

#[local] Abbreviation hex := ProtocolTests.from_hex.

(** The payload of the widest frame: 00 to ff, again and again, 65516 bytes. *)
Definition counting : list byte :=
  take (Z.to_nat 65516)
    (concat (replicate (Z.to_nat 256) (seqZ 0 256 ≫= to_le_bytes 1))).

Definition correlation_fixtures : list fixture := [
  mk_fixture "correlation/duplicate-in-flight-id"%string (Some "server"%string) None None (Some [2])
    (Decode (hex "0001000000000000000000000200000000000000"))
    (Failed "protocol violation"%string "connection-fatal"%string None);
  mk_fixture "correlation/error-frame-with-the-reserved-id-and-a-fatal-class"%string (Some "client"%string) None None (Some [])
    (Decode (hex "000300000c0000000200000000000000000000000000"))
    (Success [Version_ 0;
        Kind_ 3;
        Flags_ 0;
        Code 12;
        Metadata_length 0;
        Payload_length 2;
        Request_id 0;
        Detail_length 0;
        Detail_bytes [];
        Text_ []]
      (Some 22) (Some 0));
  mk_fixture "correlation/error-frame-with-the-reserved-id-and-a-request-scoped-class"%string (Some "client"%string) None None None
    (Decode (hex "00030000040000000200000000000000000000000000"))
    (Failed "protocol violation"%string "connection-fatal"%string None);
  mk_fixture "correlation/partial-frame-retires-no-request"%string (Some "client"%string) None None (Some [11])
    (Decode (hex "0002000000000000000000000b000000000000"))
    (Incomplete 20);
  mk_fixture "correlation/request-frame-reusing-a-retired-id"%string (Some "server"%string) None None (Some [])
    (Decode (hex "0001000000000000000000000200000000000000"))
    (Failed "unsupported operation"%string "request-scoped"%string (Some 20));
  mk_fixture "correlation/request-frame-with-the-reserved-id"%string (Some "server"%string) None None None
    (Decode (hex "0001000000000000000000000000000000000000"))
    (Failed "protocol violation"%string "connection-fatal"%string None);
  mk_fixture "correlation/response-frame-with-the-reserved-id"%string (Some "client"%string) None None None
    (Decode (hex "0002000000000000000000000000000000000000"))
    (Failed "protocol violation"%string "connection-fatal"%string None);
  mk_fixture "correlation/response-matched-by-id-not-by-order"%string (Some "client"%string) None None (Some [6; 11])
    (Decode (hex "0002000000000000000000000b00000000000000"))
    (Success [Version_ 0;
        Kind_ 2;
        Flags_ 0;
        Code 0;
        Metadata_length 0;
        Payload_length 0;
        Request_id 11]
      (Some 20) (Some 11));
  mk_fixture "correlation/response-naming-an-id-not-in-flight"%string (Some "client"%string) None None (Some [1])
    (Decode (hex "0002000000000000000000000300000000000000"))
    (Failed "protocol violation"%string "connection-fatal"%string None);
  mk_fixture "correlation/second-terminal-frame-for-a-retired-id"%string (Some "client"%string) None None (Some [])
    (Decode (hex "0002000000000000000000000500000000000000"))
    (Failed "protocol violation"%string "connection-fatal"%string None)].

Definition errors_fixtures : list fixture := [
  mk_fixture "errors/detail-length-exceeds-the-payload"%string (Some "client"%string) None None None
    (Decode (hex "00030000030000000300000001000000000000000400aa"))
    (Failed "malformed request"%string "connection-fatal"%string None);
  mk_fixture "errors/detail-length-zero-with-text"%string (Some "client"%string) None None None
    (Decode (hex "00030000030000000d00000001000000000000000000756e737570706f72746564"))
    (Success [Version_ 0;
        Kind_ 3;
        Flags_ 0;
        Code 3;
        Metadata_length 0;
        Payload_length 13;
        Request_id 1;
        Detail_length 0;
        Detail_bytes [];
        Text_ (hex "756e737570706f72746564")]
      (Some 33) None);
  mk_fixture "errors/detail-length-zero-without-text"%string (Some "client"%string) None None None
    (Decode (hex "00030000030000000200000001000000000000000000"))
    (Success [Version_ 0;
        Kind_ 3;
        Flags_ 0;
        Code 3;
        Metadata_length 0;
        Payload_length 2;
        Request_id 1;
        Detail_length 0;
        Detail_bytes [];
        Text_ []]
      (Some 22) None);
  mk_fixture "errors/error-class-zero-refused"%string (Some "client"%string) None None None
    (Decode (hex "00030000000000000200000001000000000000000000"))
    (Failed "protocol violation"%string "connection-fatal"%string None);
  mk_fixture "errors/payload-shorter-than-the-detail-length-field"%string (Some "client"%string) None None None
    (Decode (hex "000300000300000001000000010000000000000000"))
    (Failed "malformed request"%string "connection-fatal"%string None);
  mk_fixture "errors/text-that-contradicts-the-class"%string (Some "client"%string) None None None
    (Decode (hex "000300000300000004000000010000000000000000006f6b"))
    (Success [Version_ 0;
        Kind_ 3;
        Flags_ 0;
        Code 3;
        Metadata_length 0;
        Payload_length 4;
        Request_id 1;
        Detail_length 0;
        Detail_bytes [];
        Text_ (hex "6f6b")]
      (Some 24) None);
  mk_fixture "errors/text-that-is-not-valid-utf8"%string (Some "client"%string) None None None
    (Decode (hex "00030000030000000500000001000000000000000000fffefd"))
    (Success [Version_ 0;
        Kind_ 3;
        Flags_ 0;
        Code 3;
        Metadata_length 0;
        Payload_length 5;
        Request_id 1;
        Detail_length 0;
        Detail_bytes [];
        Text_ (hex "fffefd")]
      (Some 25) None);
  mk_fixture "errors/the-highest-assigned-error-class"%string (Some "client"%string) None None None
    (Both (mk_outgoing 3 14 1 [] None None (Some []) (Some [])) (hex "000300000e0000000200000001000000000000000000"))
    (Success [Version_ 0;
        Kind_ 3;
        Flags_ 0;
        Code 14;
        Metadata_length 0;
        Payload_length 2;
        Request_id 1;
        Detail_length 0;
        Detail_bytes [];
        Text_ []]
      (Some 22) None);
  mk_fixture "errors/the-lowest-assigned-error-class"%string (Some "client"%string) None None None
    (Both (mk_outgoing 3 1 0 [] None None (Some []) (Some [])) (hex "00030000010000000200000000000000000000000000"))
    (Success [Version_ 0;
        Kind_ 3;
        Flags_ 0;
        Code 1;
        Metadata_length 0;
        Payload_length 2;
        Request_id 0;
        Detail_length 0;
        Detail_bytes [];
        Text_ []]
      (Some 22) None);
  mk_fixture "errors/unassigned-error-class-at-the-maximum-refused"%string (Some "client"%string) None None None
    (Decode (hex "00030000ffff00000200000001000000000000000000"))
    (Failed "protocol violation"%string "connection-fatal"%string None);
  mk_fixture "errors/unassigned-error-class-refused"%string (Some "client"%string) None None None
    (Decode (hex "00030000060000000200000001000000000000000000"))
    (Failed "protocol violation"%string "connection-fatal"%string None)].

Definition framing_fixtures : list fixture := [
  mk_fixture "framing/admission-order-direction-before-request-id"%string (Some "server"%string) None None None
    (Decode (hex "0002000000000000000000000000000000000000"))
    (Failed "protocol violation"%string "connection-fatal"%string None);
  mk_fixture "framing/admission-order-flags-before-metadata-size"%string (Some "server"%string) None None None
    (Decode (hex "0001010000008813000000000100000000000000"))
    (Failed "protocol violation"%string "connection-fatal"%string None);
  mk_fixture "framing/admission-order-size-before-flags"%string (Some "server"%string) None None None
    (Decode (hex "000101000000000040420f000100000000000000"))
    (Failed "resource limit"%string "connection-fatal"%string None);
  mk_fixture "framing/admission-order-version-before-size"%string (Some "server"%string) None None None
    (Decode (hex "010100000000000040420f000100000000000000"))
    (Failed "unsupported protocol version"%string "connection-fatal"%string None);
  mk_fixture "framing/incomplete-body-one-byte-short"%string (Some "server"%string) None None None
    (Decode (hex "0001000000000000040000000100000000000000aabbcc"))
    (Incomplete 24);
  mk_fixture "framing/incomplete-header-empty-buffer"%string None None None None
    (Decode [])
    (Incomplete 20);
  mk_fixture "framing/incomplete-header-one-byte-short"%string None None None None
    (Decode (hex "00010000000000000000000001000000000000"))
    (Incomplete 20);
  mk_fixture "framing/oversize-frame-refused-before-the-body-arrives"%string (Some "server"%string) None None None
    (Decode (hex "000100000000000040420f000100000000000000"))
    (Failed "resource limit"%string "connection-fatal"%string None);
  mk_fixture "framing/total-length-that-wraps-a-32-bit-computation"%string (Some "server"%string) None None None
    (Decode (hex "0001000000000000ffffffff0100000000000000"))
    (Failed "resource limit"%string "connection-fatal"%string None)].

Definition handshake_fixtures : list fixture := [
  mk_fixture "handshake/acceptance-names-unoffered-capability"%string (Some "client"%string) (Some "pre-negotiation"%string) None None
    (Decode (hex "00020000000000000e00000001000000000000000000000001000010010001000000"))
    (Failed "protocol violation"%string "connection-fatal"%string None);
  mk_fixture "handshake/capability-entry-with-a-value-ignored"%string (Some "server"%string) (Some "pre-negotiation"%string) None None
    (Decode (hex "00010000010000001000000001000000000000000000000000000100010007000200aabb"))
    (Success [Version_ 0;
        Kind_ 1;
        Flags_ 0;
        Code 1;
        Metadata_length 0;
        Payload_length 16;
        Request_id 1;
        Client_maximum_protocol_version 0;
        Client_minimum_protocol_version 0;
        Client_desired_maximum_frame_size 65536;
        Capability_count 1;
        Capability_entries [(7, (hex "aabb"))]]
      (Some 36) None);
  mk_fixture "handshake/duplicate-capability-id"%string (Some "server"%string) (Some "pre-negotiation"%string) None None
    (Decode (hex "0001000001000000120000000100000000000000000000000000010002000700000007000000"))
    (Failed "malformed request"%string "connection-fatal"%string None);
  mk_fixture "handshake/entries-do-not-fill-the-payload"%string (Some "server"%string) (Some "pre-negotiation"%string) None None
    (Decode (hex "00010000010000000a000000010000000000000000000000000001000100"))
    (Failed "malformed request"%string "connection-fatal"%string None);
  mk_fixture "handshake/negotiated-metadata-below-the-floor"%string (Some "client"%string) (Some "pre-negotiation"%string) None None
    (Decode (hex "00020000000000000a0000000100000000000000000000000100ff0f0000"))
    (Failed "malformed request"%string "connection-fatal"%string None);
  mk_fixture "handshake/negotiated-size-below-the-floor"%string (Some "client"%string) (Some "pre-negotiation"%string) None None
    (Decode (hex "00020000000000000a000000010000000000000000000004000000100000"))
    (Failed "malformed request"%string "connection-fatal"%string None);
  mk_fixture "handshake/negotiated-version-above-header-width"%string (Some "client"%string) (Some "pre-negotiation"%string) None None
    (Decode (hex "00020000000000000a000000010000000000000000010000010000100000"))
    (Failed "malformed request"%string "connection-fatal"%string None);
  mk_fixture "handshake/no-mutual-version"%string (Some "server"%string) (Some "pre-negotiation"%string) None None
    (Decode (hex "00010000010000000a000000010000000000000001000100000001000000"))
    (Failed "unsupported protocol version"%string "connection-fatal"%string None);
  mk_fixture "handshake/request-payload-shorter-than-its-head"%string (Some "server"%string) (Some "pre-negotiation"%string) None None
    (Decode (hex "0001000001000000090000000100000000000000000000000000010000"))
    (Failed "malformed request"%string "connection-fatal"%string None);
  mk_fixture "handshake/response-payload-shorter-than-its-head"%string (Some "client"%string) (Some "pre-negotiation"%string) None None
    (Decode (hex "0002000000000000090000000100000000000000000000000100001000"))
    (Failed "malformed request"%string "connection-fatal"%string None);
  mk_fixture "handshake/unassigned-capability-id-ignored"%string (Some "server"%string) (Some "pre-negotiation"%string) None None
    (Decode (hex "00010000010000000e00000001000000000000000000000000000100010007000000"))
    (Success [Version_ 0;
        Kind_ 1;
        Flags_ 0;
        Code 1;
        Metadata_length 0;
        Payload_length 14;
        Request_id 1;
        Client_maximum_protocol_version 0;
        Client_minimum_protocol_version 0;
        Client_desired_maximum_frame_size 65536;
        Capability_count 1;
        Capability_entries [(7, [])]]
      (Some 34) None);
  mk_fixture "handshake/valid-exchange-no-capabilities"%string (Some "client"%string) (Some "pre-negotiation"%string) None None
    (Decode (hex "00020000000000000a000000010000000000000000000000010000100000"))
    (Success [Version_ 0;
        Kind_ 2;
        Flags_ 0;
        Code 0;
        Metadata_length 0;
        Payload_length 10;
        Request_id 1;
        Negotiated_protocol_version 0;
        Negotiated_maximum_frame_size 65536;
        Negotiated_maximum_metadata_size 4096;
        Accepted_capability_count 0;
        Capability_entries []]
      (Some 30) None);
  mk_fixture "handshake/valid-exchange"%string (Some "server"%string) (Some "pre-negotiation"%string) None None
    (Decode (hex "00010000010000000a000000010000000000000000000000000001000000"))
    (Success [Version_ 0;
        Kind_ 1;
        Flags_ 0;
        Code 1;
        Metadata_length 0;
        Payload_length 10;
        Request_id 1;
        Client_maximum_protocol_version 0;
        Client_minimum_protocol_version 0;
        Client_desired_maximum_frame_size 65536;
        Capability_count 0;
        Capability_entries []]
      (Some 30) None);
  mk_fixture "handshake/version-range-maximum-below-minimum"%string (Some "server"%string) (Some "pre-negotiation"%string) None None
    (Decode (hex "00010000010000000a000000010000000000000000000100000001000000"))
    (Failed "malformed request"%string "connection-fatal"%string None)].

Definition header_fixtures : list fixture := [
  mk_fixture "header/flags-all-bits-set"%string (Some "server"%string) None None None
    (Decode (hex "0001ffff00000000000000000100000000000000"))
    (Failed "protocol violation"%string "connection-fatal"%string None);
  mk_fixture "header/flags-single-reserved-bit-set"%string (Some "server"%string) None None None
    (Decode (hex "0001010000000000000000000100000000000000"))
    (Failed "protocol violation"%string "connection-fatal"%string None);
  mk_fixture "header/frame-kind-from-the-wrong-direction-request-at-a-client"%string (Some "client"%string) None None None
    (Decode (hex "0001000000000000000000000100000000000000"))
    (Failed "protocol violation"%string "connection-fatal"%string None);
  mk_fixture "header/frame-kind-from-the-wrong-direction-response-at-a-server"%string (Some "server"%string) None None None
    (Decode (hex "0002000000000000000000000100000000000000"))
    (Failed "protocol violation"%string "connection-fatal"%string None);
  mk_fixture "header/frame-kind-reserved-zero"%string (Some "server"%string) None None None
    (Decode (hex "0000000000000000000000000100000000000000"))
    (Failed "protocol violation"%string "connection-fatal"%string None);
  mk_fixture "header/minimum-legal-frame"%string (Some "client"%string) None None None
    (Both (mk_outgoing 2 0 1 [] (Some []) None None None) (hex "0002000000000000000000000100000000000000"))
    (Success [Version_ 0;
        Kind_ 2;
        Flags_ 0;
        Code 0;
        Metadata_length 0;
        Payload_length 0;
        Request_id 1]
      (Some 20) None);
  mk_fixture "header/request-id-at-the-maximum"%string (Some "client"%string) None None None
    (Both (mk_outgoing 2 0 18446744073709551615 [] (Some []) None None None) (hex "000200000000000000000000ffffffffffffffff"))
    (Success [Version_ 0;
        Kind_ 2;
        Flags_ 0;
        Code 0;
        Metadata_length 0;
        Payload_length 0;
        Request_id 18446744073709551615]
      (Some 20) None);
  mk_fixture "header/unassigned-frame-kind"%string (Some "server"%string) None None None
    (Decode (hex "0004000000000000000000000100000000000000"))
    (Failed "protocol violation"%string "connection-fatal"%string None);
  mk_fixture "header/version-field-at-maximum"%string (Some "server"%string) None None None
    (Decode (hex "ff01000000000000000000000100000000000000"))
    (Failed "unsupported protocol version"%string "connection-fatal"%string None);
  mk_fixture "header/version-field-is-one"%string (Some "server"%string) None None None
    (Decode (hex "0101000000000000000000000100000000000000"))
    (Failed "unsupported protocol version"%string "connection-fatal"%string None)].

Definition lifecycle_fixtures : list fixture := [
  mk_fixture "lifecycle/frame-before-handshake"%string (Some "server"%string) (Some "pre-negotiation"%string) None None
    (Decode (hex "0001000002000000000000000100000000000000"))
    (Failed "protocol violation"%string "connection-fatal"%string None);
  mk_fixture "lifecycle/repeated-handshake"%string (Some "server"%string) (Some "negotiated"%string) None None
    (Decode (hex "00010000010000000a000000010000000000000000000000000001000000"))
    (Failed "protocol violation"%string "connection-fatal"%string None)].

Definition limits_fixtures : list fixture := [
  mk_fixture "limits/frame-above-negotiated"%string (Some "client"%string) (Some "negotiated"%string) (Some (65536, 4096)) None
    (Decode (hex "0002000000000000edff000001" ++ replicate (Z.to_nat 65524) x00))
    (Failed "resource limit"%string "connection-fatal"%string None);
  mk_fixture "limits/frame-at-the-maximum"%string (Some "server"%string) None None None
    (Decode (hex "0001000000000000ecff00000100000000000000"))
    (Incomplete 65536);
  mk_fixture "limits/frame-one-byte-past-the-maximum"%string (Some "server"%string) None None None
    (Decode (hex "0001000000000000edff00000100000000000000"))
    (Failed "resource limit"%string "connection-fatal"%string None);
  mk_fixture "limits/metadata-length-exceeds-the-frame"%string (Some "server"%string) None None None
    (Decode (hex "000100000000ffff000000000100000000000000"))
    (Failed "resource limit"%string "connection-fatal"%string None);
  mk_fixture "limits/metadata-region-above-negotiated"%string (Some "client"%string) (Some "negotiated"%string) (Some (65536, 8192)) None
    (Decode (hex "00020000000001200000000001" ++ replicate (Z.to_nat 8200) x00))
    (Failed "malformed request"%string "connection-fatal"%string None);
  mk_fixture "limits/metadata-region-at-the-maximum"%string (Some "server"%string) None None None
    (Decode (hex "0001000000000010000000000100000000000000"))
    (Incomplete 4116);
  mk_fixture "limits/metadata-region-one-byte-past-the-maximum"%string (Some "server"%string) None None None
    (Decode (hex "0001000000000110000000000100000000000000"))
    (Failed "malformed request"%string "connection-fatal"%string None);
  mk_fixture "limits/the-widest-legal-frame"%string (Some "client"%string) None None None
    (Both (mk_outgoing 2 0 1 [] (Some counting) None None None) (hex "0002000000000000ecff00000100000000000000" ++ counting))
    (Success [Version_ 0;
        Kind_ 2;
        Flags_ 0;
        Code 0;
        Metadata_length 0;
        Payload_length 65516;
        Request_id 1]
      (Some 65536) None)].

Definition metadata_fixtures : list fixture := [
  mk_fixture "metadata/absent-region"%string (Some "client"%string) None None None
    (Decode (hex "0002000000000000000000000900000000000000"))
    (Success [Version_ 0;
        Kind_ 2;
        Flags_ 0;
        Code 0;
        Metadata_length 0;
        Payload_length 0;
        Request_id 9;
        Metadata []]
      (Some 20) None);
  mk_fixture "metadata/admission-order-code-before-required-identifier"%string (Some "server"%string) None None None
    (Decode (hex "000100000700040000000000010000000000000000800000"))
    (Failed "unsupported operation"%string "request-scoped"%string (Some 24));
  mk_fixture "metadata/duplicate-identifier"%string (Some "client"%string) None None None
    (Decode (hex "00020000000008000000000001000000000000000100000001000000"))
    (Failed "invalid argument"%string "request-scoped"%string (Some 28));
  mk_fixture "metadata/entries-out-of-order"%string (Some "client"%string) None None None
    (Decode (hex "00020000000008000000000001000000000000000200000001000000"))
    (Failed "invalid argument"%string "request-scoped"%string (Some 28));
  mk_fixture "metadata/entry-claims-more-than-the-region-holds"%string (Some "client"%string) None None None
    (Decode (hex "00020000000008000000000001000000000000000100100000000000"))
    (Failed "malformed request"%string "connection-fatal"%string None);
  mk_fixture "metadata/region-ends-mid-entry"%string (Some "client"%string) None None None
    (Decode (hex "0002000000000600000000000100000000000000010000000200"))
    (Failed "malformed request"%string "connection-fatal"%string None);
  mk_fixture "metadata/region-on-a-response"%string (Some "client"%string) None None None
    (Decode (hex "00020000000005000000000004000000000000001000010001"))
    (Success [Version_ 0;
        Kind_ 2;
        Flags_ 0;
        Code 0;
        Metadata_length 5;
        Payload_length 0;
        Request_id 4;
        Metadata [(16, (hex "01"))]]
      (Some 25) None);
  mk_fixture "metadata/region-on-an-error"%string (Some "client"%string) None None None
    (Decode (hex "0003000004000400020000000400000000000000110000000000"))
    (Success [Version_ 0;
        Kind_ 3;
        Flags_ 0;
        Code 4;
        Metadata_length 4;
        Payload_length 2;
        Request_id 4;
        Metadata [(17, [])];
        Detail_length 0;
        Detail_bytes [];
        Text_ []]
      (Some 26) None);
  mk_fixture "metadata/single-entry"%string (Some "client"%string) None None None
    (Decode (hex "0002000000000600000000000100000000000000010002000a0b"))
    (Success [Version_ 0;
        Kind_ 2;
        Flags_ 0;
        Code 0;
        Metadata_length 6;
        Payload_length 0;
        Request_id 1;
        Metadata [(1, (hex "0a0b"))]]
      (Some 26) None);
  mk_fixture "metadata/two-entries-ascending"%string (Some "client"%string) None None None
    (Decode (hex "00020000000009000000000001000000000000000100000002000100ff"))
    (Success [Version_ 0;
        Kind_ 2;
        Flags_ 0;
        Code 0;
        Metadata_length 9;
        Payload_length 0;
        Request_id 1;
        Metadata [(1, []); (2, (hex "ff"))]]
      (Some 29) None);
  mk_fixture "metadata/unassigned-optional-identifier-skipped"%string (Some "client"%string) None None None
    (Decode (hex "000200000000070000000000010000000000000001000300aabbcc"))
    (Success [Version_ 0;
        Kind_ 2;
        Flags_ 0;
        Code 0;
        Metadata_length 7;
        Payload_length 0;
        Request_id 1;
        Metadata [(1, (hex "aabbcc"))]]
      (Some 27) None);
  mk_fixture "metadata/unassigned-required-identifier-refused"%string (Some "client"%string) None None None
    (Decode (hex "000200000000040000000000010000000000000000800000"))
    (Failed "invalid argument"%string "request-scoped"%string (Some 24))].

Definition operations_fixtures : list fixture := [
  mk_fixture "operations/declared-key-length-overruns-the-payload"%string (Some "server"%string) None None None
    (Decode (hex "000100000400000007000000010000000000000005000000616263"))
    (Failed "malformed request"%string "connection-fatal"%string None);
  mk_fixture "operations/del-absent-key"%string (Some "client"%string) None None None
    (Decode (hex "0002000001000000000000000100000000000000"))
    (Success [Version_ 0;
        Kind_ 2;
        Flags_ 0;
        Code 1;
        Metadata_length 0;
        Payload_length 0;
        Request_id 1]
      (Some 20) None);
  mk_fixture "operations/del-request"%string (Some "server"%string) None None None
    (Decode (hex "00010000050000000300000001000000000000006b6579"))
    (Success [Version_ 0;
        Kind_ 1;
        Flags_ 0;
        Code 5;
        Metadata_length 0;
        Payload_length 3;
        Request_id 1;
        Key (hex "6b6579")]
      (Some 23) None);
  mk_fixture "operations/del-response"%string (Some "client"%string) None None None
    (Decode (hex "0002000000000000000000000100000000000000"))
    (Success [Version_ 0;
        Kind_ 2;
        Flags_ 0;
        Code 0;
        Metadata_length 0;
        Payload_length 0;
        Request_id 1]
      (Some 20) None);
  mk_fixture "operations/empty-key"%string (Some "server"%string) None None None
    (Decode (hex "0001000003000000000000000100000000000000"))
    (Success [Version_ 0;
        Kind_ 1;
        Flags_ 0;
        Code 3;
        Metadata_length 0;
        Payload_length 0;
        Request_id 1;
        Key []]
      (Some 20) None);
  mk_fixture "operations/exists-request"%string (Some "server"%string) None None None
    (Decode (hex "00010000060000000300000001000000000000006b6579"))
    (Success [Version_ 0;
        Kind_ 1;
        Flags_ 0;
        Code 6;
        Metadata_length 0;
        Payload_length 3;
        Request_id 1;
        Key (hex "6b6579")]
      (Some 23) None);
  mk_fixture "operations/exists-response"%string (Some "client"%string) None None None
    (Decode (hex "0002000000000000000000000100000000000000"))
    (Success [Version_ 0;
        Kind_ 2;
        Flags_ 0;
        Code 0;
        Metadata_length 0;
        Payload_length 0;
        Request_id 1]
      (Some 20) None);
  mk_fixture "operations/get-request"%string (Some "server"%string) None None None
    (Decode (hex "00010000030000000300000001000000000000006b6579"))
    (Success [Version_ 0;
        Kind_ 1;
        Flags_ 0;
        Code 3;
        Metadata_length 0;
        Payload_length 3;
        Request_id 1;
        Key (hex "6b6579")]
      (Some 23) None);
  mk_fixture "operations/get-response-absent"%string (Some "client"%string) None None None
    (Decode (hex "0002000001000000000000000100000000000000"))
    (Success [Version_ 0;
        Kind_ 2;
        Flags_ 0;
        Code 1;
        Metadata_length 0;
        Payload_length 0;
        Request_id 1]
      (Some 20) None);
  mk_fixture "operations/get-response-empty-value"%string (Some "client"%string) None None None
    (Decode (hex "0002000000000000000000000100000000000000"))
    (Success [Version_ 0;
        Kind_ 2;
        Flags_ 0;
        Code 0;
        Metadata_length 0;
        Payload_length 0;
        Request_id 1;
        Value []]
      (Some 20) None);
  mk_fixture "operations/get-response-present"%string (Some "client"%string) None None None
    (Decode (hex "000200000000000005000000010000000000000076616c7565"))
    (Success [Version_ 0;
        Kind_ 2;
        Flags_ 0;
        Code 0;
        Metadata_length 0;
        Payload_length 5;
        Request_id 1;
        Value (hex "76616c7565")]
      (Some 25) None);
  mk_fixture "operations/key-containing-a-nul-byte"%string (Some "server"%string) None None None
    (Decode (hex "000100000300000001000000010000000000000000"))
    (Success [Version_ 0;
        Kind_ 1;
        Flags_ 0;
        Code 3;
        Metadata_length 0;
        Payload_length 1;
        Request_id 1;
        Key (hex "00")]
      (Some 21) None);
  mk_fixture "operations/opcode-at-the-maximum-refused"%string (Some "server"%string) None None None
    (Decode (hex "00010000ffff0000000000000100000000000000"))
    (Failed "unsupported operation"%string "request-scoped"%string (Some 20));
  mk_fixture "operations/opcode-zero-refused"%string (Some "server"%string) None None None
    (Decode (hex "0001000000000000000000000100000000000000"))
    (Failed "unsupported operation"%string "request-scoped"%string (Some 20));
  mk_fixture "operations/payload-shorter-than-its-head"%string (Some "server"%string) None None None
    (Decode (hex "00010000040000000200000001000000000000000300"))
    (Failed "malformed request"%string "connection-fatal"%string None);
  mk_fixture "operations/ping-payload-refused"%string (Some "server"%string) None None None
    (Decode (hex "000100000200000001000000010000000000000000"))
    (Failed "malformed request"%string "connection-fatal"%string None);
  mk_fixture "operations/ping-request"%string (Some "server"%string) None None None
    (Decode (hex "0001000002000000000000000100000000000000"))
    (Success [Version_ 0;
        Kind_ 1;
        Flags_ 0;
        Code 2;
        Metadata_length 0;
        Payload_length 0;
        Request_id 1]
      (Some 20) None);
  mk_fixture "operations/ping-response"%string (Some "client"%string) None None None
    (Decode (hex "0002000000000000000000000100000000000000"))
    (Success [Version_ 0;
        Kind_ 2;
        Flags_ 0;
        Code 0;
        Metadata_length 0;
        Payload_length 0;
        Request_id 1]
      (Some 20) None);
  mk_fixture "operations/set-request"%string (Some "server"%string) None None None
    (Decode (hex "00010000040000000a0000000100000000000000030000006b657976616c"))
    (Success [Version_ 0;
        Kind_ 1;
        Flags_ 0;
        Code 4;
        Metadata_length 0;
        Payload_length 10;
        Request_id 1;
        Key_length 3;
        Key (hex "6b6579");
        Value (hex "76616c")]
      (Some 30) None);
  mk_fixture "operations/set-response"%string (Some "client"%string) None None None
    (Decode (hex "0002000000000000000000000100000000000000"))
    (Success [Version_ 0;
        Kind_ 2;
        Flags_ 0;
        Code 0;
        Metadata_length 0;
        Payload_length 0;
        Request_id 1]
      (Some 20) None);
  mk_fixture "operations/unassigned-opcode-refused"%string (Some "server"%string) None None None
    (Decode (hex "0001000007000000000000000100000000000000"))
    (Failed "unsupported operation"%string "request-scoped"%string (Some 20));
  mk_fixture "operations/unassigned-opcode-with-a-payload-refused"%string (Some "server"%string) None None None
    (Decode (hex "00010000070000000400000001000000000000000a0b0c0d"))
    (Failed "unsupported operation"%string "request-scoped"%string (Some 24))].

Definition results_fixtures : list fixture := [
  mk_fixture "results/absent-with-a-payload-refused"%string (Some "client"%string) None None None
    (Decode (hex "000200000100000001000000010000000000000000"))
    (Failed "malformed request"%string "connection-fatal"%string None);
  mk_fixture "results/absent"%string (Some "client"%string) None None None
    (Decode (hex "0002000001000000000000000100000000000000"))
    (Success [Version_ 0;
        Kind_ 2;
        Flags_ 0;
        Code 1;
        Metadata_length 0;
        Payload_length 0;
        Request_id 1]
      (Some 20) None);
  mk_fixture "results/success-with-a-payload"%string (Some "client"%string) None None None
    (Decode (hex "00020000000000000300000001000000000000000a0b0c"))
    (Success [Version_ 0;
        Kind_ 2;
        Flags_ 0;
        Code 0;
        Metadata_length 0;
        Payload_length 3;
        Request_id 1]
      (Some 23) None);
  mk_fixture "results/success-with-a-zero-byte-payload"%string (Some "client"%string) None None None
    (Decode (hex "0002000000000000000000000100000000000000"))
    (Success [Version_ 0;
        Kind_ 2;
        Flags_ 0;
        Code 0;
        Metadata_length 0;
        Payload_length 0;
        Request_id 1]
      (Some 20) None);
  mk_fixture "results/the-highest-assigned-result-code"%string (Some "client"%string) None None None
    (Both (mk_outgoing 2 4 1 [] None (Some 18446744073709551615) None None) (hex "0002000004000000080000000100000000000000ffffffffffffffff"))
    (Success [Version_ 0;
        Kind_ 2;
        Flags_ 0;
        Code 4;
        Metadata_length 0;
        Payload_length 8;
        Request_id 1;
        Logical_length 18446744073709551615]
      (Some 28) None);
  mk_fixture "results/unassigned-result-code-at-the-maximum-refused"%string (Some "client"%string) None None None
    (Decode (hex "00020000ffff0000000000000100000000000000"))
    (Failed "protocol violation"%string "connection-fatal"%string None);
  mk_fixture "results/unassigned-result-code-refused"%string (Some "client"%string) None None None
    (Decode (hex "0002000002000000000000000100000000000000"))
    (Failed "protocol violation"%string "connection-fatal"%string None);
  mk_fixture "results/value-held-outside-memory-with-a-short-payload-refused"%string (Some "client"%string) None None None
    (Decode (hex "000200000400000007000000010000000000000000000000000000"))
    (Failed "malformed request"%string "connection-fatal"%string None);
  mk_fixture "results/value-held-outside-memory"%string (Some "client"%string) None None None
    (Decode (hex "00020000040000000800000001000000000000000010000000000000"))
    (Success [Version_ 0;
        Kind_ 2;
        Flags_ 0;
        Code 4;
        Metadata_length 0;
        Payload_length 8;
        Request_id 1;
        Logical_length 4096]
      (Some 28) None)].

Definition corpus : list fixture :=
  correlation_fixtures ++ errors_fixtures ++ framing_fixtures ++ handshake_fixtures ++ header_fixtures ++ lifecycle_fixtures ++ limits_fixtures ++ metadata_fixtures ++ operations_fixtures ++ results_fixtures.

