(* ===== verification/ConnectionTests.v ===== *)
(** * Unit tests of the connection

    The [tests] module of [src/src/connection/mod.rs], one definition per test function. A
    connection under test is what [establish] leaves: its negotiated values, its lifecycle and the permits of its
    admission semaphore. A test that spawns a waiter lets it look at the semaphore before and
    after the rest of the test acts on it. *)

From stdpp Require Import strings sorting.
From S2P Require Export WireTests Client Lifecycle.
From Stdlib Require Import Strings.Byte.
Local Open Scope Z_scope.

Module ConnectionTests.

(** ** Helpers *)

Definition response_payload (version frame_size metadata_size : Z) (entries : list (Z * list byte))
    : list byte :=
  to_le_bytes 2 version ++ to_le_bytes 4 frame_size ++ to_le_bytes 2 metadata_size ++
  to_le_bytes 2 (unwrap_or (try_from U16_MAX (len entries)) U16_MAX) ++
  (entries ≫= λ e,
     to_le_bytes 2 e.1 ++ to_le_bytes 2 (unwrap_or (try_from U16_MAX (len e.2)) U16_MAX) ++ e.2).

Definition response_frame (version frame_size metadata_size : Z) (entries : list (Z * list byte))
    : list byte :=
  let payload := response_payload version frame_size metadata_size entries in
  unwrap_or_default
    (encode (Outgoing.mk Kind.Response 0 HANDSHAKE_REQUEST_ID [] (OutgoingPayload.Opaque_ payload))).

(** No test opens a TCP stream. *)
#[local] Abbreviation stream := InMemoryTransport.t.

Definition memory (inbound : list byte) (read_step write_step : N) : AnyTransport.t stream :=
  AnyTransport.Memory (InMemoryTransport.new inbound read_step write_step).

Definition memory_failing (inbound : list byte) (read_step write_step : N)
    : AnyTransport.t stream :=
  AnyTransport.Memory
    (InMemoryTransport.fail_on_shutdown (InMemoryTransport.new inbound read_step write_step)).

(** ** A connection under test *)

Record connection := mk_connection {
  values : Negotiated.t;
  bound : Z;
  lifecycle_of : lifecycle;
  available : Z
}.

(** What [establish] shares between the handles. *)
Definition of_shared (c : Shared stream) : connection :=
  mk_connection (negotiated c) (maximum_in_flight c)
    (mk_lifecycle (shared_state c) (negb (Semaphore.closed (admission c))) (shutdown_tx c) false
       (bool_decide (is_Some (driver_task c)))
       (if bool_decide (is_Some (driver_task c)) then Running else Exited DriverExit.Closed)
       ((λ t, (shutdown t).2) <$> shared_transport c))
    (Semaphore.permits (admission c)).

(** [Connection::establish(transport, &config).await?] and the rest of the test. *)
Definition established (transport : AnyTransport.t stream) (config : ConnectionConfig.t)
    (rest : connection → bool) : bool :=
  match establish transport config with
  | Some (_, Ok c) => rest (of_shared c)
  | _ => false
  end.

(** [match Connection::establish(..) \{ Err(error) => .. \}]. *)
Definition refused (transport : AnyTransport.t stream) (config : ConnectionConfig.t)
    (check : ConnectError.t → bool) : bool :=
  match establish transport config with
  | Some (_, Err error) => check error
  | _ => false
  end.

Definition with_lifecycle (c : connection) (l : lifecycle) : connection :=
  mk_connection (values c) (bound c) l (available c).

(** [close] with nobody else acting: its ten points are enough fuel. *)
Fixpoint close_from (fuel : nat) (l : lifecycle) (p : point)
    : lifecycle * option (result unit IoError.t) :=
  match p, fuel with
  | Returned r, _ => (l, Some r)
  | _, O => (l, None)
  | _, S fuel =>
      match close_step l p with
      | Some (l', p') => close_from fuel l' p'
      | None => (l, None)
      end
  end.

Definition close (c : connection) : connection * option (result unit IoError.t) :=
  let '(l, r) := close_from 10 (lifecycle_of c) AtTerminalCheck in (with_lifecycle c l, r).

(** [connection.close().await?], and [assert!(connection.close().await.is_err())]. *)
Definition close_ok (c : connection) (rest : connection → bool) : bool :=
  match close c with (c', Some (Ok _)) => rest c' | _ => false end.
Definition close_err (c : connection) (rest : connection → bool) : bool :=
  match close c with (c', Some (Err _)) => rest c' | _ => false end.

Definition conn_state (c : connection) : ConnectionState.t := life (lifecycle_of c).
Definition usable (c : connection) : bool := ConnectionState.is_usable (conn_state c).

(** [acquire_owned]: a permit, an error once the semaphore is closed, or a wait. *)
Inductive acquisition := Acquired (c : connection) | Refused | Waits.

Definition with_available (c : connection) (n : Z) : connection :=
  mk_connection (values c) (bound c) (lifecycle_of c) n.

Definition acquire_admission_for_test (c : connection) : acquisition :=
  if negb (admission_open (lifecycle_of c)) then Refused else
  if 1 <=? available c then Acquired (with_available c (available c - 1)) else Waits.

Definition admission_permits_for_test (c : connection) : Z := available c.

(** [acquire_admission_for_test().await?] and the rest of the test. *)
Definition acquired (c : connection) (rest : connection → bool) : bool :=
  match acquire_admission_for_test c with Acquired c' => rest c' | _ => false end.

(** [drop] of a permit. *)
Definition released (c : connection) : connection := with_available c (available c + 1).

(** The outcome of a spawned waiter that is polled at [before] and again at [after]. *)
Definition waited (before after : connection) : acquisition :=
  match acquire_admission_for_test before with
  | Waits => acquire_admission_for_test after
  | outcome => outcome
  end.

Definition is_refused (a : acquisition) : bool := match a with Refused => true | _ => false end.
Definition is_acquired (a : acquisition) : bool := match a with Acquired _ => true | _ => false end.

Definition mark_unusable (c : connection) : connection :=
  with_lifecycle c (Lifecycle.mark_unusable_for_test (lifecycle_of c)).

Definition in_memory : ConnectionConfig.t := ConnectionConfig.new (str "in-memory").
Definition local_host : ConnectionConfig.t := ConnectionConfig.new (str "127.0.0.1:6379").
Definition plain : list byte := response_frame 0 65536 4096 [].

(** ** Tests *)

Definition the_lifecycle_states_map_onto_the_protocol_states : bool := asserts [
  assert_eq (ConnectionState.protocol_state ConnectionState.Usable) ProtocolState.Negotiated;
  assert_eq (ConnectionState.protocol_state ConnectionState.Closing) ProtocolState.Negotiated;
  assert_eq (ConnectionState.protocol_state ConnectionState.Closed) ProtocolState.Terminal;
  assert_eq (ConnectionState.protocol_state ConnectionState.Failed) ProtocolState.Terminal;
  assert_eq (ConnectionState.protocol_state ConnectionState.Unusable) ProtocolState.Terminal;
  ConnectionState.is_usable ConnectionState.Usable;
  negb (ConnectionState.is_usable ConnectionState.Closing);
  negb (ConnectionState.is_usable ConnectionState.Closed);
  negb (ConnectionState.is_usable ConnectionState.Failed);
  negb (ConnectionState.is_usable ConnectionState.Unusable)].

Definition close_moves_a_usable_connection_to_closed : bool :=
  established (memory plain 4096 4096) in_memory (λ c,
    assert_eq (conn_state c) ConnectionState.Usable &&
    close_ok c (λ c, asserts [assert_eq (conn_state c) ConnectionState.Closed; negb (usable c)])).

Definition a_second_close_succeeds_without_touching_the_transport : bool :=
  established (memory plain 4096 4096) in_memory (λ c,
    close_ok c (λ c, close_ok c (λ c, assert_eq (conn_state c) ConnectionState.Closed))).

Definition a_failed_shutdown_moves_the_connection_to_failed : bool :=
  established (memory_failing plain 4096 4096) in_memory (λ c,
    close_err c (λ c, asserts [assert_eq (conn_state c) ConnectionState.Failed; negb (usable c)])).

Definition an_empty_endpoint_is_refused : bool :=
  assert_eq (ConnectionConfig.validate (ConnectionConfig.new (str "   ")))
    (Err ConnectionConfigError.EmptyEndpoint).

Definition a_frame_size_below_the_floor_is_refused : bool :=
  assert_eq (ConnectionConfig.validate
               (ConnectionConfig.with_desired_maximum_frame_size local_host 1000))
    (Err (ConnectionConfigError.FrameSizeBelowFloor 1000)).

Definition a_local_frame_size_below_the_floor_is_refused : bool :=
  assert_eq (ConnectionConfig.validate
               (ConnectionConfig.with_local_maximum_frame_size local_host 1000))
    (Err (ConnectionConfigError.LocalFrameSizeBelowFloor 1000)).

Definition a_local_metadata_size_below_the_floor_is_refused : bool :=
  assert_eq (ConnectionConfig.validate
               (ConnectionConfig.with_local_maximum_metadata_size local_host 1000))
    (Err (ConnectionConfigError.LocalMetadataSizeBelowFloor 1000)).

Definition the_default_local_caps_are_the_protocol_floors : bool := asserts [
  assert_eq (ConnectionConfig.local_maximum_frame_size local_host) 65536;
  assert_eq (ConnectionConfig.local_maximum_metadata_size local_host) 4096;
  assert_eq (ConnectionConfig.validate local_host) (Ok tt)].

Definition the_default_configuration_is_valid : bool :=
  assert_eq (ConnectionConfig.validate local_host) (Ok tt).

Definition the_first_frame_is_the_handshake_request : bool :=
  match build_handshake_request local_host HANDSHAKE_REQUEST_ID with
  | Ok frame => asserts [
      assert_eq (head frame) (Some x00);
      assert_eq (get_at frame 1) (Some x01);
      assert_eq (slice_get frame 4 6) (Some (to_le_bytes 2 HANDSHAKE_OPCODE))]
  | Err _ => false
  end.

Definition a_valid_handshake_yields_a_usable_connection : bool :=
  established (memory plain 4096 4096) in_memory (λ c, asserts [
    assert_eq (Negotiated.protocol_version (values c)) 0;
    assert_eq (Negotiated.maximum_frame_size (values c)) 65536;
    assert_eq (Negotiated.maximum_metadata_size (values c)) 4096;
    is_empty (Negotiated.accepted_capabilities (values c));
    assert_eq (conn_state c) ConnectionState.Usable;
    usable c]).

Definition a_fragmented_and_partially_written_handshake_completes : bool :=
  established (memory plain 1 1) in_memory (λ c,
    assert_eq (Negotiated.protocol_version (values c)) 0).

Definition a_response_below_the_frame_floor_is_malformed : bool :=
  refused (memory (response_frame 0 1000 4096 []) 4096 4096) in_memory (λ error,
    match error with
    | ConnectError.HandshakeFailure failure => asserts [
        assert_eq (Failure.class failure) ErrorClass.MalformedRequest;
        assert_eq (Failure.scope failure) FailureScope.ConnectionFatal]
    | _ => false
    end).

Definition a_version_outside_the_offer_is_malformed : bool :=
  refused (memory (response_frame 1 65536 4096 []) 4096 4096) in_memory (λ error,
    match error with
    | ConnectError.HandshakeFailure failure =>
        assert_eq (Failure.class failure) ErrorClass.MalformedRequest
    | _ => false
    end).

Definition an_accepted_unoffered_capability_is_a_protocol_violation : bool :=
  refused (memory (response_frame 0 65536 4096 [(1, [])]) 4096 4096) in_memory (λ error,
    match error with
    | ConnectError.HandshakeFailure failure => asserts [
        assert_eq (Failure.class failure) ErrorClass.ProtocolViolation;
        assert_eq (Failure.scope failure) FailureScope.ConnectionFatal]
    | _ => false
    end).

Definition a_usable_connection_exposes_local_and_effective_limits : bool :=
  let config :=
    ConnectionConfig.with_local_maximum_metadata_size
      (ConnectionConfig.with_local_maximum_frame_size
         (ConnectionConfig.with_desired_maximum_frame_size in_memory 131072) 131072) 8192 in
  established (memory (response_frame 0 131072 8192 []) 4096 4096) config (λ c, asserts [
    assert_eq (Negotiated.maximum_frame_size (values c)) 131072;
    assert_eq (Negotiated.maximum_metadata_size (values c)) 8192;
    assert_eq (Negotiated.local_maximum_frame_size (values c)) 131072;
    assert_eq (Negotiated.local_maximum_metadata_size (values c)) 8192;
    assert_eq (Negotiated.effective_maximum_frame_size (values c)) 131072;
    assert_eq (Negotiated.effective_maximum_metadata_size (values c)) 8192]).

Definition a_negotiated_frame_size_above_the_local_cap_is_refused : bool :=
  let config := ConnectionConfig.with_desired_maximum_frame_size in_memory 131072 in
  assert_eq (ConnectionConfig.local_maximum_frame_size config) 65536 &&
  refused (memory (response_frame 0 131072 4096 []) 4096 4096) config (λ error,
    match error with
    | ConnectError.NegotiatedFrameSizeAboveLocal negotiated local => asserts [
        assert_eq negotiated 131072; assert_eq local 65536]
    | _ => false
    end).

Definition a_negotiated_metadata_size_above_the_local_cap_is_refused : bool :=
  refused (memory (response_frame 0 65536 8192 []) 4096 4096) in_memory (λ error,
    match error with
    | ConnectError.NegotiatedMetadataSizeAboveLocal negotiated local => asserts [
        assert_eq negotiated 8192; assert_eq local 4096]
    | _ => false
    end).

Definition a_transport_that_closes_during_the_handshake_is_reported : bool :=
  refused (memory [] 4096 4096) in_memory (λ error,
    match error with ConnectError.ClosedDuringHandshake => true | _ => false end).

Definition a_partial_write_moves_every_byte : bool :=
  match write_all (memory [] 1 1) (bytes_of "handshake") with
  | Some (AnyTransport.Memory m, Ok _) =>
      assert_eq (InMemoryTransport.written m) (bytes_of "handshake")
  | _ => false
  end.

Definition an_in_flight_bound_below_one_is_refused : bool :=
  assert_eq (ConnectionConfig.validate (ConnectionConfig.with_maximum_in_flight local_host 0))
    (Err (ConnectionConfigError.InFlightBoundBelowMinimum 0)).

Definition the_default_in_flight_bound_is_sixty_four : bool := asserts [
  assert_eq (ConnectionConfig.maximum_in_flight local_host) 64;
  assert_eq (ConnectionConfig.validate local_host) (Ok tt)].

(** A clone shares the session: both handles are the same value here. *)
Definition clones_share_one_session : bool :=
  established (memory plain 4096 4096) in_memory (λ c,
    let peer := c in
    asserts [
      assert_eq (Negotiated.protocol_version (values peer))
        (Negotiated.protocol_version (values c));
      assert_eq (bound peer) 64] &&
    close_ok c (λ c,
      let peer := c in
      asserts [
        assert_eq (conn_state c) ConnectionState.Closed;
        assert_eq (conn_state peer) ConnectionState.Closed;
        negb (usable peer)] &&
      close_ok peer (λ peer, assert_eq (conn_state peer) ConnectionState.Closed))).

Definition concurrent_tasks_use_clones_without_an_exclusive_borrow : bool :=
  established (memory plain 4096 4096) in_memory (λ c,
    let first := c in
    let second := c in
    asserts [
      assert_eq (Negotiated.protocol_version (values first)) 0;
      assert_eq (Negotiated.maximum_frame_size (values second)) 65536;
      usable c]).

Definition admission_waits_at_the_bound_and_close_wakes_waiters : bool :=
  established (memory plain 4096 4096) (ConnectionConfig.with_maximum_in_flight in_memory 2) (λ c,
    asserts [assert_eq (bound c) 2; assert_eq (admission_permits_for_test c) 2] &&
    acquired c (λ c, acquired c (λ c,
      assert_eq (admission_permits_for_test c) 0 &&
      close_ok c (λ closed, asserts [
        is_refused (waited c closed);
        assert_eq (conn_state (released (released closed))) ConnectionState.Closed])))).

Definition a_bound_of_one_serializes_without_deadlock : bool :=
  established (memory plain 4096 4096) (ConnectionConfig.with_maximum_in_flight in_memory 1) (λ c,
    assert_eq (admission_permits_for_test c) 1 &&
    acquired c (λ held,
      assert_eq (admission_permits_for_test held) 0 &&
      match waited held (released held) with
      | Acquired waiter =>
          assert_eq (admission_permits_for_test (released waiter)) 1 &&
          close_ok (released waiter) (λ _, true)
      | _ => false
      end)).

Definition permits_return_to_baseline_after_release : bool :=
  established (memory plain 4096 4096) (ConnectionConfig.with_maximum_in_flight in_memory 3) (λ c,
    acquired c (λ c, acquired c (λ c,
      assert_eq (admission_permits_for_test c) 1 &&
      assert_eq (admission_permits_for_test (released (released c))) 3 &&
      close_ok (released (released c)) (λ _, true)))).

Definition close_with_no_requests_is_orderly_and_idempotent : bool :=
  established (memory plain 4096 4096) in_memory (λ c,
    assert_eq (admission_permits_for_test c) 64 &&
    close_ok c (λ c,
      asserts [assert_eq (conn_state c) ConnectionState.Closed; negb (usable c)] &&
      close_ok c (λ c, assert_eq (conn_state c) ConnectionState.Closed))).

Definition a_failed_close_leaves_no_waiter_and_stays_terminal : bool :=
  established (memory_failing plain 4096 4096) (ConnectionConfig.with_maximum_in_flight in_memory 1)
    (λ c, acquired c (λ held,
      close_err held (λ c,
        asserts [
          assert_eq (conn_state c) ConnectionState.Failed;
          is_refused (waited held c)] &&
        close_ok (released c) (λ c, assert_eq (conn_state c) ConnectionState.Failed)))).

Definition a_fatal_dispatch_lands_unusable_and_wakes_every_waiter : bool :=
  established (memory plain 4096 4096) (ConnectionConfig.with_maximum_in_flight in_memory 1)
    (λ c, acquired c (λ held,
      let c := mark_unusable held in
      asserts [
        assert_eq (conn_state c) ConnectionState.Unusable;
        negb (usable c);
        is_refused (waited held c);
        is_refused (acquire_admission_for_test (released c))] &&
      close_ok (released c) (λ c, assert_eq (conn_state c) ConnectionState.Unusable))).

Definition repeated_failure_cycles_leave_no_residue : bool :=
  let cycle :=
    established (memory_failing plain 4096 4096)
      (ConnectionConfig.with_maximum_in_flight in_memory 2) (λ c,
      assert_eq (admission_permits_for_test c) 2 &&
      close_err c (λ c, assert_eq (conn_state c) ConnectionState.Failed)) in
  asserts [cycle; cycle; cycle;
    established (memory plain 4096 4096) in_memory (λ c,
      assert_eq (conn_state c) ConnectionState.Usable &&
      close_ok c (λ c, assert_eq (conn_state c) ConnectionState.Closed))].

(** Every test of the module. *)
Definition tests : list bool := [
  the_lifecycle_states_map_onto_the_protocol_states; close_moves_a_usable_connection_to_closed;
  a_second_close_succeeds_without_touching_the_transport;
  a_failed_shutdown_moves_the_connection_to_failed; an_empty_endpoint_is_refused;
  a_frame_size_below_the_floor_is_refused; a_local_frame_size_below_the_floor_is_refused;
  a_local_metadata_size_below_the_floor_is_refused;
  the_default_local_caps_are_the_protocol_floors; the_default_configuration_is_valid;
  the_first_frame_is_the_handshake_request; a_valid_handshake_yields_a_usable_connection;
  a_fragmented_and_partially_written_handshake_completes;
  a_response_below_the_frame_floor_is_malformed; a_version_outside_the_offer_is_malformed;
  an_accepted_unoffered_capability_is_a_protocol_violation;
  a_usable_connection_exposes_local_and_effective_limits;
  a_negotiated_frame_size_above_the_local_cap_is_refused;
  a_negotiated_metadata_size_above_the_local_cap_is_refused;
  a_transport_that_closes_during_the_handshake_is_reported; a_partial_write_moves_every_byte;
  an_in_flight_bound_below_one_is_refused; the_default_in_flight_bound_is_sixty_four;
  clones_share_one_session; concurrent_tasks_use_clones_without_an_exclusive_borrow;
  admission_waits_at_the_bound_and_close_wakes_waiters;
  a_bound_of_one_serializes_without_deadlock; permits_return_to_baseline_after_release;
  close_with_no_requests_is_orderly_and_idempotent;
  a_failed_close_leaves_no_waiter_and_stays_terminal;
  a_fatal_dispatch_lands_unusable_and_wakes_every_waiter;
  repeated_failure_cycles_leave_no_residue].
End ConnectionTests.
