(* ===== verification/DispatchTests.v ===== *)
(** * Unit tests of the request identity and the multiplexing tests

    The [tests] module of [src/src/connection/dispatch.rs], one definition per test function.
    The multiplexing tests run the test dispatcher of [Harness] against a peer; here they run
    under one schedule: every caller submits, the driver writes every submission, the peer reads
    the requests and answers as the test scripts, and the callers collect their outcomes. *)

From stdpp Require Import strings sorting.
From S2P Require Export WireTests HarnessTheorems.
From Stdlib Require Import Strings.Byte.
Local Open Scope Z_scope.

#[global] Instance terminal_eq_dec : EqDecision Terminal.t.
Proof. solve_decision. Defined.
#[global] Instance registry_error_eq_dec : EqDecision RegistryError.t.
Proof. solve_decision. Defined.

Module DispatchTests.

(** ** The allocator and the registry *)

(** [allocator.allocate()] [n] times gives these ids. *)
Definition allocates (a : RequestIdAllocator.t) (ids : list Z) : bool :=
  assert_eq (allocate_many (length ids) a) ids.

Definition allocation_starts_at_one_and_advances : bool :=
  allocates RequestIdAllocator.new [1; 2; 3].

Definition a_live_identifier_is_refused : bool :=
  let registry := InFlightRegistry.new in
  let '(first, registry) := InFlightRegistry.insert registry 7 in
  let '(second, registry) := InFlightRegistry.insert registry 7 in
  asserts [
    assert_eq first (Ok tt);
    assert_eq second (Err RegistryError.LiveReuse);
    InFlightRegistry.contains registry 7].

Definition the_reserved_identifier_is_refused : bool :=
  let '(refused, registry) := InFlightRegistry.insert InFlightRegistry.new 0 in
  asserts [
    assert_eq refused (Err RegistryError.Reserved);
    negb (InFlightRegistry.contains registry 0)].

Definition a_retired_identifier_is_reusable_and_releases_once : bool :=
  let '(inserted, registry) := InFlightRegistry.insert InFlightRegistry.new 9 in
  let '(retired, after) := InFlightRegistry.retire registry 9 in
  let '(again, registry) := InFlightRegistry.insert after 9 in
  let '(retired_again, registry) := InFlightRegistry.retire registry 9 in
  let '(third, _) := InFlightRegistry.retire registry 9 in
  asserts [
    assert_eq inserted (Ok tt);
    retired;
    negb (InFlightRegistry.contains after 9);
    assert_eq again (Ok tt);
    retired_again;
    negb third].

Definition a_second_retire_changes_nothing : bool :=
  let '(unknown, registry) := InFlightRegistry.retire InFlightRegistry.new 42 in
  let '(inserted, registry) := InFlightRegistry.insert registry 42 in
  let '(retired, registry) := InFlightRegistry.retire registry 42 in
  let '(second, registry) := InFlightRegistry.retire registry 42 in
  asserts [
    negb unknown;
    assert_eq inserted (Ok tt);
    retired;
    negb second;
    InFlightRegistry.is_empty registry].

Definition wrap_skips_the_reserved_identifier : bool :=
  allocates (RequestIdAllocator.with_start U64_MAX) [U64_MAX; 1; 2].

Definition a_zero_start_allocates_from_one : bool :=
  allocates (RequestIdAllocator.with_start 0) [1; 2].

Definition allocated_identifiers_admit_until_retired : bool :=
  let '(first, allocator) := RequestIdAllocator.allocate RequestIdAllocator.new in
  let '(second, _) := RequestIdAllocator.allocate allocator in
  let '(inserted_first, registry) := InFlightRegistry.insert InFlightRegistry.new first in
  let '(inserted_second, both) := InFlightRegistry.insert registry second in
  let '(retired, registry) := InFlightRegistry.retire both first in
  let '(again, registry) := InFlightRegistry.insert registry first in
  asserts [
    assert_eq inserted_first (Ok tt);
    assert_eq inserted_second (Ok tt);
    assert_eq (InFlightRegistry.len both) 2;
    assert_eq (merge_sort Z.le (InFlightRegistry.live_ids both)) [first; second];
    retired;
    assert_eq again (Ok tt);
    assert_eq (InFlightRegistry.len registry) 2].

(** ** The scripted peer *)

(** [read_requests]: the first [count] requests in the bytes the dispatcher wrote; every round
    removes a frame, so [count] is enough fuel. [None] when the bytes end too early. *)
Fixpoint read_requests (count : nat) (buffer : list byte) : option (list (Z * list byte)) :=
  match count with
  | O => Some []
  | S count =>
      let? (id, total) := TD.header_request_id buffer in
      if len buffer <? total then None else
      let payload := unwrap_or (slice_get buffer HEADER_LENGTH total) [] in
      let? rest := read_requests count (drain_front total buffer) in
      Some ((id, payload) :: rest)
  end.

(** [respond_in_order]: what the peer writes. *)
Fixpoint respond_in_order (requests : list (Z * list byte)) (order : list nat) (bytewise : bool)
    : option (list (list byte)) :=
  match order with
  | [] => Some []
  | position :: order =>
      let? (id, payload) := requests !! position in
      let frame := TD.encode_test_response id payload in
      let? rest := respond_in_order requests order bytewise in
      Some (TD.write_peer_bytes frame bytewise ++ rest)
  end.

(** ** The schedule *)

(** Caller [i] runs [n] sections. *)
Fixpoint sections (n : nat) (i : nat) (w : TD.world) : option TD.world :=
  match n with
  | O => Some w
  | S n =>
      let? c := TD.callers w !! i in
      let? (t, c') := TD.execute (TD.dispatcher w) i c in
      sections n i (TD.mk_world t (<[i := c']> (TD.callers w)))
  end.

(** The driver takes these turns; those after the task ended do not happen. *)
Fixpoint turns (evs : list TD.event) (w : TD.world) : TD.world :=
  match evs with
  | [] => w
  | ev :: evs =>
      match TD.run_driver (TD.dispatcher w) ev with
      | Some t => turns evs (TD.mk_world t (TD.callers w))
      | None => w
      end
  end.

(** Every caller submits and the driver writes every submission: the world, and what the peer
    can read. *)
Definition submitted (calls : list (list byte * bool)) : option (TD.world * list byte) :=
  let? w := foldl (λ w i, let? w := w in sections 4 i w) (Some (TD.started calls))
              (seq 0 (length calls)) in
  let wire := concat (Submit.bytes <$> TD.queue (TD.dispatcher w)) in
  Some (turns (replicate (length calls) (TD.Received true)) w, wire).

(** The driver reads what the peer wrote, and the callers collect their outcomes. *)
Definition answered (w : TD.world) (chunks : list (list byte)) (hang_up : bool)
    : option TD.world :=
  let w := turns (((λ chunk, TD.ReadReady (Ok chunk)) <$> chunks) ++
                  (if hang_up then [TD.ReadReady (Ok [])] else [])) w in
  foldl (λ w i, let? w := w in
           match TD.callers w !! i with
           | Some (TD.Awaiting _) => sections 1 i w
           | _ => Some w
           end) (Some w) (seq 0 (length (TD.callers w))).

Definition finished_with (w : TD.world) (i : nat) (outcome : answer_of_test) : bool :=
  match TD.callers w !! i with
  | Some (TD.Finished r) => assert_eq r outcome
  | _ => false
  end.

Definition live_and_state (w : TD.world) (live : Z) (state : SessionState.t) : bool := asserts [
  assert_eq (TD.live_len (TD.dispatcher w)) live;
  assert_eq (TD.state (TD.session (TD.dispatcher w))) state].

(** [join] returns: the peer is gone, so the driver's next read ends it. *)
Definition joins (w : TD.world) : bool :=
  (TD.join (TD.dispatcher (turns [TD.ReadReady (Ok [])] w))).2.

(** [execute(payload.to_vec())]. *)
Definition call (payload : string) : list byte * bool := (bytes_of payload, false).

(** ** The multiplexing tests *)

Definition run_permutation (order : list nat) (bytewise : bool) : bool :=
  match
    let? (w, wire) := submitted [call "A"; call "B"; call "C"] in
    let? requests := read_requests 3 wire in
    let? chunks := respond_in_order requests order bytewise in
    answered w chunks false
  with
  | Some w => asserts [
      finished_with w 0 (Ok (Terminal.mk (bytes_of "A")));
      finished_with w 1 (Ok (Terminal.mk (bytes_of "B")));
      finished_with w 2 (Ok (Terminal.mk (bytes_of "C")));
      live_and_state w 0 SessionState.Usable;
      joins w]
  | None => false
  end.

Definition submit_a_b_c_complete_a_b_c : bool := run_permutation [0; 1; 2]%nat false.
Definition submit_a_b_c_complete_c_b_a : bool := run_permutation [2; 1; 0]%nat false.
Definition submit_a_b_c_complete_b_c_a : bool := run_permutation [1; 2; 0]%nat false.
Definition submit_a_b_c_complete_b_a_c : bool := run_permutation [1; 0; 2]%nat false.
Definition fragmented_responses_still_dispatch_by_id : bool := run_permutation [2; 0; 1]%nat true.

Definition an_unknown_id_ends_the_session : bool :=
  match
    let? (w, wire) := submitted [call "A"; call "B"] in
    let? _ := read_requests 2 wire in
    answered w (TD.write_peer_bytes (TD.encode_test_response 9999 (bytes_of "X")) false) false
  with
  | Some w => asserts [
      finished_with w 0 (Err RequestError.Unusable);
      finished_with w 1 (Err RequestError.Unusable);
      live_and_state w 0 SessionState.Unusable;
      match sections 2 2
              (TD.mk_world (TD.dispatcher w) (TD.callers w ++ [TD.Calling (bytes_of "C") false]))
      with
      | Some w => finished_with w 2 (Err RequestError.Unusable)
      | None => false
      end;
      joins w]
  | None => false
  end.

Definition a_duplicate_terminal_ends_the_session : bool :=
  match
    let? (w, wire) := submitted [call "A"; call "B"] in
    let? requests := read_requests 2 wire in
    let? (first_id, first_payload) := head requests in
    let frame := TD.encode_test_response first_id first_payload in
    answered w (TD.write_peer_bytes frame false ++ TD.write_peer_bytes frame false) false
  with
  | Some w => asserts [
      finished_with w 0 (Ok (Terminal.mk (bytes_of "A")));
      finished_with w 1 (Err RequestError.Unusable);
      live_and_state w 0 SessionState.Unusable;
      joins w]
  | None => false
  end.

Definition an_abandoned_waiter_keeps_its_id_live_until_its_terminal : bool :=
  match submitted [(bytes_of "A", true)] with
  | Some (w, wire) =>
      match TD.callers w !! 0%nat, read_requests 1 wire with
      | Some (TD.Abandoned (Ok abandoned)), Some [(id, payload)] =>
          asserts [assert_eq (TD.live_len (TD.dispatcher w)) 1; assert_eq id abandoned] &&
          match answered w (TD.write_peer_bytes (TD.encode_test_response id payload) false) false with
          | Some w => asserts [live_and_state w 0 SessionState.Usable; joins w]
          | None => false
          end
      | _, _ => false
      end
  | None => false
  end.

Definition a_peer_close_with_open_requests_resolves_every_caller : bool :=
  match
    let? (w, wire) := submitted [call "A"; call "B"] in
    let? _ := read_requests 2 wire in
    answered w [] true
  with
  | Some w => asserts [
      finished_with w 0 (Err RequestError.Transport);
      finished_with w 1 (Err RequestError.Transport);
      assert_eq (TD.live_len (TD.dispatcher w)) 0;
      joins w]
  | None => false
  end.

Definition repeated_fatal_cycles_leave_no_residue : bool :=
  let cycle :=
    match
      let? (w, wire) := submitted [call "A"] in
      let? _ := read_requests 1 wire in
      answered w (TD.write_peer_bytes (TD.encode_test_response 9999 (bytes_of "X")) false) false
    with
    | Some w => asserts [
        finished_with w 0 (Err RequestError.Unusable);
        live_and_state w 0 SessionState.Unusable;
        joins w]
    | None => false
    end in
  asserts [cycle; cycle; cycle].

(** Every test of the module. *)
Definition tests : list bool := [
  allocation_starts_at_one_and_advances; a_live_identifier_is_refused;
  the_reserved_identifier_is_refused; a_retired_identifier_is_reusable_and_releases_once;
  a_second_retire_changes_nothing; wrap_skips_the_reserved_identifier;
  a_zero_start_allocates_from_one; allocated_identifiers_admit_until_retired;
  submit_a_b_c_complete_a_b_c; submit_a_b_c_complete_c_b_a; submit_a_b_c_complete_b_c_a;
  submit_a_b_c_complete_b_a_c; fragmented_responses_still_dispatch_by_id;
  an_unknown_id_ends_the_session; a_duplicate_terminal_ends_the_session;
  an_abandoned_waiter_keeps_its_id_live_until_its_terminal;
  a_peer_close_with_open_requests_resolves_every_caller;
  repeated_fatal_cycles_leave_no_residue].
End DispatchTests.
