(* ===== verification/RunnerTests.v ===== *)
(** * Unit tests of the validation runner

    The [tests] modules of the runner's sources, one definition per test function. What the
    started programs do is the host's: its shell knows the commands the tests run ([shell_runs]),
    two of which look at the record on disk, and its [git] answers for the repository of the
    tests. Tests whose programs change files (the counting marker) or check a source tree have no
    counterpart here. *)

From S2P Require Export WireTests Runner.
Local Open Scope Z_scope.

(** ** Helpers *)

(** [text.contains(part)]. *)
Fixpoint contains (s part : text) : bool :=
  match strip_prefix part s with
  | Some _ => true
  | None => match s with [] => false | _ :: s => contains s part end
  end.

(** A literal in which a tilde stands for a quotation mark and a bar for a backslash. *)
Definition quoted (s : String.string) : text :=
  map (λ c, if c =? 126 then QUOTATION else if c =? 124 then BACKSLASH else c) (str s).

(** A child that ends at its first poll, and one that does not end. *)
Definition ends (code : Z) (output : text) : Child.t :=
  Child.mk (λ _, Ok (Some (Exit (Some code)))) (λ _, 0%N) (Ok tt) output.
Definition sleeps : Child.t := Child.mk (λ _, Ok None) (λ _, 0%N) (Ok tt) [].

(** [test -f] of the record's manifest, and [grep -q] for the first segment in its journal. *)
Definition manifest_probe : text := str "test -f manifest".
Definition journal_probe : text := quoted "grep -q '~segment~:~first~' journal".

(** What the shell does with a command while a record is at [l]. *)
Definition shell_runs (l : location) (fs : disk) (command : text) : Child.t :=
  let exits (b : bool) := ends (if b then 0 else 1) [] in
  if bool_decide (command = str "sleep 30") then sleeps else
  if bool_decide (command = str "true") then exits true else
  if bool_decide (command = str "exit 1") then exits false else
  if bool_decide (command = str "echo before; exit 3") then ends 3 (str "before" ++ [NEWLINE]) else
  if bool_decide (command = manifest_probe) then exits (bool_decide (is_Some (file_of fs l Manifest)))
  else if bool_decide (command = journal_probe) then
    exits match file_of fs l Journal with
          | Some journal => contains journal (quoted "~segment~:~first~")
          | None => false
          end
  else
    match strip_prefix (str "echo ") command with
    | Some words => ends 0 (words ++ [NEWLINE])
    | None => ends 127 []
    end.

(** A host without failures that has a shell, and [git] in a repository whose status is
    [porcelain] and whose revision is [revision]; no other program exists. *)
Definition host_at (l : location) (porcelain revision : text) : Host :=
  mk_host (λ _, None) (λ n, Z.of_nat n) (λ _, Some 1789430400)
    (λ _ fs program args,
       if bool_decide (program = str "/bin/sh") then
         Ok (shell_runs l fs (default [] (args !! 1%nat)))
       else Err NOT_FOUND)
    (λ _ program _, bool_decide (program = str "/bin/sh"))
    (λ _ program args,
       if bool_decide (program = str "git") then
         Ok (Output.mk (Exit (Some 0))
               (if bool_decide (head args = Some (str "status")) then porcelain else revision) [])
       else Err NOT_FOUND).
Definition shell (l : location) : Host := host_at l [] [].

(** The temporary directories of the tests ([testing.rs]): the directories that exist, with the
    names in them, and the counter of the process. What the system's temporary directory is
    called, the process id and the failures of the two calls are arguments. *)
Module TempDir.

Record t := mk { path : text }.

Record system := mk_system { SEQUENCE : Z; directories : gmap text (gset text) }.

Definition named (temp label : text) (process sequence : Z) : text :=
  temp ++ str "/rp1-validation-runner-" ++ label ++ str "-" ++ decimal process ++ str "-" ++
  decimal sequence.

(** [TempDir::new]: a directory of that name left by another process is removed first. *)
Definition new (temp : text) (process : Z) (removal creation : result unit text) (label : text)
    (s : system) : system * Result t :=
  let sequence := SEQUENCE s in
  let s := mk_system (wrapping_add U32_MAX sequence 1) (directories s) in
  let path := named temp label process sequence in
  match
    match directories s !! path, removal with
    | None, _ => Ok s
    | Some _, Ok _ => Ok (mk_system (SEQUENCE s) (delete path (directories s)))
    | Some _, Err e => Err e
    end
  with
  | Err e => (s, Err (Error.Io e))
  | Ok s =>
      match creation with
      | Err e => (s, Err (Error.Io e))
      | Ok _ => (mk_system (SEQUENCE s) (<[path := ∅]> (directories s)), Ok (mk path))
      end
  end.

(** [Drop]: a failed removal is ignored. *)
Definition drop (dir : t) (removal : result unit text) (s : system) : system :=
  match removal with
  | Ok _ => mk_system (SEQUENCE s) (delete (path dir) (directories s))
  | Err _ => s
  end.

(** A new directory is empty, no other directory changes, and the counter goes on. *)
Theorem new_empty temp process removal creation label s s' dir :
  new temp process removal creation label s = (s', Ok dir) →
  directories s' = <[path dir := ∅]> (directories s) ∧
  SEQUENCE s' = wrapping_add U32_MAX (SEQUENCE s) 1.
Proof.
  unfold new. cbn. repeat case_match; intros E; simplify_eq/=; split; try done.
  by rw insert_delete_eq.
Qed.

(** Dropping it leaves the directories as they were before, but for one it replaced. *)
Theorem drop_restores temp process removal creation label s s' dir :
  new temp process removal creation label s = (s', Ok dir) →
  directories (drop dir (Ok tt) s') = delete (path dir) (directories s).
Proof. intros [E _]%new_empty. cbn. rw E. by rw delete_insert_eq. Qed.

End TempDir.

(** An empty directory of records. *)
Definition temp_dir : World := Host.mk_world 0 ∅.

(** [m?] and the rest of the test. *)
Definition runs_to {A} (m : M A) (w : World) (rest : World → A → bool) : bool :=
  match m w with (w', Ok a) => rest w' a | (_, Err _) => false end.

Definition is_ok_eq {A} `{EqDecision A} (r : Result A) (a : A) : bool :=
  match r with Ok b => assert_eq b a | Err _ => false end.

(** ** [json.rs] *)
Module JsonTests.
Definition quotes_control_characters_and_delimiters : bool := asserts [
  assert_eq (quote (quoted "a~b|c")) (quoted "~a|~b||c~");
  assert_eq (quote (str "line" ++ [NEWLINE] ++ str "break")) (quoted "~line|nbreak~");
  assert_eq (quote [1]) (quoted "~|u0001~")].

Definition reads_back_every_field_it_wrote : bool :=
  let note := quoted "a ~quoted~ note" ++ [NEWLINE] ++ str "with a break" in
  let object := Object.new in
  let object := Object.string object (str "segment") (str "unit-tests") in
  let object := Object.number object (str "attempt") 2 in
  let object := Object.string object (str "note") note in
  match parse_flat_object (Object.encode object) with
  | Ok fields => asserts [
      assert_eq (string_field fields (str "segment")) (Some (str "unit-tests"));
      assert_eq (number_field fields (str "attempt")) (Some 2);
      assert_eq (string_field fields (str "note")) (Some note);
      assert_eq (string_field fields (str "absent")) None]
  | Err _ => false
  end.

Definition refuses_text_that_is_not_a_flat_object : bool := asserts [
  is_err (parse_flat_object (str "not json"));
  is_err (parse_flat_object (quoted "{~key~:"));
  is_err (parse_flat_object (quoted "{~key~:{}}"))].

Definition encodes_objects_in_insertion_order : bool :=
  let inner := Object.number Object.new (str "attempt") 2 in
  let outer := Object.string Object.new (str "segment") (str "unit-tests") in
  let outer := Object.object outer (str "detail") inner in
  let outer := Object.strings outer (str "required") [str "a"; str "b"] in
  assert_eq (Object.encode outer)
    (quoted "{~segment~:~unit-tests~,~detail~:{~attempt~:2},~required~:[~a~,~b~]}").

Definition tests : list bool := [
  quotes_control_characters_and_delimiters; reads_back_every_field_it_wrote;
  refuses_text_that_is_not_a_flat_object; encodes_objects_in_insertion_order].
End JsonTests.

(** ** [time.rs] *)
Module TimeTests.
Definition formats_the_unix_epoch : bool :=
  let instant := Utc.from_unix_seconds 0 in asserts [
  is_ok_eq (Utc.date instant) (str "1970-01-01");
  is_ok_eq (Utc.timestamp instant) (str "1970-01-01T00:00:00Z")].

Definition formats_a_leap_day : bool :=
  let instant := Utc.from_unix_seconds 1709210096 in asserts [
  is_ok_eq (Utc.date instant) (str "2024-02-29");
  is_ok_eq (Utc.timestamp instant) (str "2024-02-29T12:34:56Z")].

Definition formats_a_date_after_a_century_boundary : bool :=
  is_ok_eq (Utc.date (Utc.from_unix_seconds 1789430400)) (str "2026-09-15").

Definition tests : list bool := [
  formats_the_unix_epoch; formats_a_leap_day; formats_a_date_after_a_century_boundary].
End TimeTests.

(** ** [identity.rs] and [repo.rs] *)
Module IdentityTests.
Definition identity : EvidenceIdentity.t :=
  EvidenceIdentity.mk (str "a3d13ed3c3a74f34ec9799a163c5f68887b724fc") (str "0123456789abcdef")
    (str "rustc 1.98.0") (str "aarch64-apple-darwin") (str "default").

Definition digests_differ_for_different_inputs : bool := asserts [
  negb (assert_eq (digest (str "a")) (digest (str "b")));
  assert_eq (digest (str "a")) (digest (str "a"))].

Definition a_changed_toolchain_changes_the_identity_digest : bool :=
  let upgraded := EvidenceIdentity.mk (EvidenceIdentity.subject_revision identity)
    (EvidenceIdentity.campaign_definition identity) (str "rustc 1.99.0")
    (EvidenceIdentity.target identity) (EvidenceIdentity.features identity) in
  negb (assert_eq (EvidenceIdentity.digest_of identity) (EvidenceIdentity.digest_of upgraded)).

Definition a_changed_revision_changes_the_identity_digest : bool :=
  let moved := EvidenceIdentity.mk (str "3635f71000000000000000000000000000000000")
    (EvidenceIdentity.campaign_definition identity) (EvidenceIdentity.toolchain identity)
    (EvidenceIdentity.target identity) (EvidenceIdentity.features identity) in
  negb (assert_eq (EvidenceIdentity.digest_of identity) (EvidenceIdentity.digest_of moved)).

(** The repository of the tests, and what its [git] reports after they changed it. *)
Definition repository (porcelain : text) : Host :=
  host_at (At [] []) porcelain (str "3635f71000000000000000000000000000000000" ++ [NEWLINE]).

(** [git] does not report ignored files. *)
Definition an_ignored_file_does_not_make_the_tree_dirty : bool :=
  runs_to (working_tree_changes (repository [])) temp_dir (λ _ changes, is_empty changes).

Definition a_modified_tracked_file_makes_the_tree_dirty : bool :=
  runs_to (working_tree_changes (repository (str " M tracked.txt" ++ [NEWLINE]))) temp_dir
    (λ _ changes, asserts [
      assert_eq (len changes) 1;
      match head changes with
      | Some change => contains change (str "tracked.txt")
      | None => false
      end]).

Definition the_recorded_revision_is_a_commit_identity : bool :=
  runs_to (subject_revision (repository [])) temp_dir (λ _ revision, asserts [
    is_commit_identity revision; negb (assert_eq revision (str "HEAD"))]).

Definition rejects_moving_revision_names : bool := asserts [
  negb (is_commit_identity (str "HEAD")); negb (is_commit_identity (str "master"));
  negb (is_commit_identity (str "working tree")); negb (is_commit_identity (str "latest"))].

Definition rejects_abbreviated_and_malformed_identities : bool := asserts [
  negb (is_commit_identity (str "3635f71"));
  negb (is_commit_identity (concat (replicate 40 (str "z"))));
  negb (is_commit_identity [])].

Definition accepts_a_full_commit_identity : bool :=
  is_commit_identity (str "a3d13ed3c3a74f34ec9799a163c5f68887b724fc").

Definition tests : list bool := [
  digests_differ_for_different_inputs; a_changed_toolchain_changes_the_identity_digest;
  a_changed_revision_changes_the_identity_digest; an_ignored_file_does_not_make_the_tree_dirty;
  a_modified_tracked_file_makes_the_tree_dirty; the_recorded_revision_is_a_commit_identity;
  rejects_moving_revision_names;
  rejects_abbreviated_and_malformed_identities; accepts_a_full_commit_identity].
End IdentityTests.

(** ** [main.rs] *)
Module MainTests.
Definition parses_a_tier_and_the_default_topic : bool :=
  match parse [str "run"; str "--tier"; str "gate"] with
  | Ok parsed => asserts [
      assert_eq (Arguments.tier parsed) Tier.Gate;
      assert_eq (Arguments.topic parsed) (str "repository");
      negb (Arguments.resume parsed)]
  | Err _ => false
  end.

Definition rejects_an_unknown_tier : bool :=
  is_err (parse [str "run"; str "--tier"; str "publication"]).

Definition requires_a_tier : bool := is_err (parse [str "run"]).

Definition accepts_a_resume_request : bool :=
  match parse [str "run"; str "--tier"; str "gate"; str "--resume"] with
  | Ok parsed => Arguments.resume parsed
  | Err _ => false
  end.

Definition tests : list bool := [
  parses_a_tier_and_the_default_topic; rejects_an_unknown_tier; requires_a_tier;
  accepts_a_resume_request].
End MainTests.

(** ** [record.rs] *)
Module RecordTests.
Definition entry (segment : text) (attempt : Z) : Object.t :=
  let object := Object.new in
  let object := Object.string object (str "segment") segment in
  let object := Object.number object (str "attempt") attempt in
  let object := Object.string object (str "status") (str "pass") in
  let object := Object.string object (str "evidence_identity") (str "identity") in
  Object.string object (str "evidence") (str "segments/evidence.txt").

Definition idle_host : Host := shell (At (str "dev") []).
Definition create_here : M RunRecord.t :=
  create idle_host (str "dev") (str "2026-09-15") (str "repository").

Definition records_for_one_date_take_successive_sequence_numbers : bool :=
  runs_to create_here temp_dir (λ w first, runs_to create_here w (λ _ second, asserts [
    assert_eq (RunRecord.identifier first) (str "2026-09-15-01-repository");
    assert_eq (RunRecord.identifier second) (str "2026-09-15-02-repository")])).

Definition journal_entries_are_only_ever_appended : bool :=
  runs_to create_here temp_dir (λ w record,
    runs_to (run* append_journal idle_host record (entry (str "unit-tests") 1);
             run* append_journal idle_host record (entry (str "msrv") 1);
             append_journal idle_host record (entry (str "unit-tests") 2)) w (λ w _,
    match file_of (files w) (RunRecord.root record) Journal with
    | Some journal => assert_eq (len (lines journal)) 3
    | None => false
    end &&
    runs_to (entries idle_host record) w (λ _ found, asserts [
      assert_eq (JournalEntry.segment <$> head found) (Some (str "unit-tests"));
      assert_eq (JournalEntry.segment <$> found !! 1%nat) (Some (str "msrv"))]) &&
    runs_to (last_entry_for idle_host record (str "unit-tests")) w (λ _ last,
      assert_eq (JournalEntry.attempt <$> last) (Some 2)) &&
    runs_to (recorded_identity idle_host record) w (λ _ identity,
      assert_eq identity (Some (str "identity"))) &&
    runs_to (attempts_for idle_host record (str "unit-tests")) w (λ _ n, assert_eq n 2) &&
    runs_to (attempts_for idle_host record (str "msrv")) w (λ _ n, assert_eq n 1) &&
    runs_to (attempts_for idle_host record (str "deps")) w (λ _ n, assert_eq n 0))).

Definition tests : list bool := [
  records_for_one_date_take_successive_sequence_numbers; journal_entries_are_only_ever_appended].
End RecordTests.

(** ** [segment.rs] *)
Module SegmentTests.
Definition sh (command : String.string) : Step.t := Step.mk (str "/bin/sh") [str "-c"; str command].
Definition SECONDS : Z := NANOS_PER_SECOND.
Definition place : location := At (str "dev") (str "temp").
Definition evidence : file := Evidence (str "evidence.txt").
Definition directory : World :=
  Host.mk_world 0 {[ str "dev" := {[ str "temp" := Directory (Dir.mk None None None (Some ∅)) ]} ]}.

(** [execute(&steps, budget, ..)?] and the evidence it leaves. *)
Definition executes (h : Host) (steps : list Step.t) (budget : Z)
    (check : Outcome.t → text → bool) : bool :=
  runs_to (execute_segment h steps budget place evidence) directory (λ w outcome,
    match file_of (files w) place evidence with
    | Some raw => check outcome raw
    | None => false
    end).

Definition a_passing_segment_records_every_step : bool :=
  executes (shell place) [sh "echo first"; sh "echo second"] (30 * SECONDS) (λ outcome raw, asserts [
    assert_eq (Outcome.status outcome) Status.Pass;
    contains raw (str "first");
    contains raw (str "second")]).

Definition a_failing_step_stops_the_segment_and_keeps_its_output : bool :=
  executes (shell place) [sh "echo before; exit 3"; sh "echo unreachable"] (30 * SECONDS) (λ outcome raw, asserts [
    assert_eq (Outcome.status outcome) Status.Fail;
    contains raw (str "before");
    negb (contains raw (str "unreachable"))]).

Definition a_segment_over_its_budget_records_timeout_rather_than_failure : bool :=
  executes (shell place) [sh "sleep 30"] 200000000 (λ outcome _, asserts [
    assert_eq (Outcome.status outcome) Status.Timeout;
    negb (assert_eq (Outcome.status outcome) Status.Fail);
    Outcome.duration outcome <? 5 * SECONDS]).

Definition a_missing_program_fails_the_segment_with_the_reason : bool :=
  executes (shell place) [Step.mk (str "rp1-no-such-program") []]
    (30 * SECONDS) (λ outcome _, asserts [
    assert_eq (Outcome.status outcome) Status.Fail;
    match Outcome.note outcome with
    | Some note => contains note (str "could not start")
    | None => false
    end]).

Definition tests : list bool := [
  a_passing_segment_records_every_step; a_failing_step_stops_the_segment_and_keeps_its_output;
  a_segment_over_its_budget_records_timeout_rather_than_failure;
  a_missing_program_fails_the_segment_with_the_reason].
End SegmentTests.

(** ** [campaign.rs] *)
Module CampaignTests.
Definition REVISION : text := str "a3d13ed3c3a74f34ec9799a163c5f68887b724fc".
Definition OTHER_REVISION : text := str "3635f71000000000000000000000000000000000".

Definition segment (id : String.string) (steps : list Step.t) : SegmentDefinition.t :=
  SegmentDefinition.mk (str id) (str "test segment") [Tier.Dev; Tier.Gate] None steps.

Definition identity (revision toolchain : text) : EvidenceIdentity.t :=
  EvidenceIdentity.mk revision (str "definition") toolchain (str "aarch64-apple-darwin")
    (str "default").

(** The campaign of the tests; the working directory is the host's. *)
Definition campaign_with (segments : list SegmentDefinition.t) (budget : Z) (resume : bool)
    : Campaign.t :=
  Campaign.mk Tier.Dev (str "repository") REVISION (identity REVISION (str "rustc 1.98.0")) segments
    budget Object.new (str "2026-09-15T00:00:00Z") resume Clean.
Definition campaign (segments : list SegmentDefinition.t) : Campaign.t :=
  campaign_with segments (30 * NANOS_PER_SECOND) false.

Definition clock : M text := ret (str "2026-09-15T00:00:00Z").

Definition finals (entries : list (String.string * Status.t * String.string))
    : list FinalResult.t :=
  (λ e, FinalResult.mk (str e.1.1) e.1.2 (str e.2)) <$> entries.

Definition ids (values : list String.string) : list text := str <$> values.

Definition record_in (tier : String.string) : M RunRecord.t :=
  create RecordTests.idle_host (str tier) (str "2026-09-15") (str "repository").

(** [campaign.execute(&record, &clock())]. *)
Definition execute_in (record : RunRecord.t) (c : Campaign.t) : M Report.t :=
  execute_campaign (shell (RunRecord.root record)) c record clock.

Definition journal_of (w : World) (record : RunRecord.t) : text :=
  default [] (file_of (files w) (RunRecord.root record) Journal).

Definition first_status (report : Report.t) : option Status.t :=
  SegmentResult.status <$> head (Report.results report).

Definition line_contains (ls : list text) (n : nat) (part : String.string) : bool :=
  match ls !! n with Some line => contains line (quoted part) | None => false end.

Definition the_manifest_exists_before_the_first_segment_runs : bool :=
  let probe := Step.mk (str "/bin/sh") [str "-c"; manifest_probe] in
  runs_to (record_in "dev") temp_dir (λ w record,
    runs_to (execute_in record (campaign [segment "manifest-probe" [probe]])) w (λ w report, asserts [
      Report.every_segment_holds report;
      bool_decide (is_Some (file_of (files w) (RunRecord.root record) Manifest))])).

Definition each_segment_is_recorded_before_the_next_one_runs : bool :=
  let first := segment "first" [SegmentTests.sh "true"] in
  let second := segment "second" [Step.mk (str "/bin/sh") [str "-c"; journal_probe]] in
  runs_to (record_in "dev") temp_dir (λ w record,
    runs_to (execute_in record (campaign [first; second])) w (λ _ report,
      Report.every_segment_holds report)).

Definition a_failed_attempt_and_a_later_passing_attempt_both_stay_in_the_journal : bool :=
  let failing := [segment "flaky" [SegmentTests.sh "exit 1"]] in
  let passing := [segment "flaky" [SegmentTests.sh "true"]] in
  runs_to (record_in "dev") temp_dir (λ w record,
    runs_to (execute_in record (campaign failing)) w (λ w first,
      runs_to (execute_in record (campaign passing)) w (λ w second,
        let journal := lines (journal_of w record) in asserts [
        assert_eq (Report.state first) State.Failed;
        assert_eq (Report.state second) State.Sealed;
        runs_to (attempts_for RecordTests.idle_host record (str "flaky")) w (λ _ n, assert_eq n 2);
        assert_eq (len journal) 2;
        line_contains journal 0 "~status~:~fail~";
        line_contains journal 1 "~status~:~pass~";
        line_contains journal 0 "~attempt~:1";
        line_contains journal 1 "~attempt~:2"]))).

Definition a_segment_over_its_budget_is_recorded_as_a_timeout : bool :=
  let slow := campaign_with [segment "slow" [SegmentTests.sh "sleep 30"]] 200000000 false in
  runs_to (record_in "dev") temp_dir (λ w record,
    runs_to (execute_in record slow) w (λ w report, asserts [
      assert_eq (Report.state report) State.Failed;
      assert_eq (first_status report) (Some Status.Timeout);
      contains (journal_of w record) (quoted "~status~:~timeout~");
      negb (contains (journal_of w record) (quoted "~status~:~fail~"))])).

Definition an_interrupted_campaign_keeps_every_completed_attempt : bool :=
  let segments := [segment "completed" [SegmentTests.sh "true"];
                   segment "interrupted" [SegmentTests.sh "sleep 30"]] in
  runs_to (record_in "dev") temp_dir (λ w record,
    runs_to (execute_in record (campaign_with segments 200000000 false)) w (λ w report, asserts [
      assert_eq (Report.state report) State.Failed;
      contains (journal_of w record) (quoted "~segment~:~completed~");
      contains (journal_of w record) (quoted "~status~:~pass~");
      bool_decide (is_Some (file_of (files w) (RunRecord.root record)
                              (evidence_path (str "completed") 1)))])).

Definition a_missing_host_prerequisite_is_recorded_as_skipped : bool :=
  let definition :=
    SegmentDefinition.mk (str "needs-tool") (str "test segment") [Tier.Dev; Tier.Gate]
      (Some (Prerequisite.mk (Step.mk (str "rp1-no-such-program") []) (str "install the tool")))
      [SegmentTests.sh "true"] in
  runs_to (record_in "dev") temp_dir (λ w record,
    runs_to (execute_in record (campaign [definition])) w (λ _ report, asserts [
      assert_eq (first_status report) (Some Status.Skipped);
      negb (Report.every_segment_holds report);
      assert_eq (Report.state report) State.Failed])).

Definition a_changed_command_changes_the_definition_digest : bool :=
  negb (assert_eq (definition_digest [segment "one" [SegmentTests.sh "true"]])
          (definition_digest [segment "one" [SegmentTests.sh "false"]])).

Definition every_defined_tier_requires_the_declared_segments : bool := asserts [
  assert_eq (map SegmentDefinition.id (required Tier.Dev)) (ids [
    "build-and-lint"; "unit-tests"; "spec-fixtures"; "connection"; "msrv"; "deps";
    "no-internal-references"; "docs"; "fuzz-frame-decoder"]);
  assert_eq (map SegmentDefinition.id (required Tier.Gate)) (ids [
    "build-and-lint"; "unit-tests"; "spec-fixtures"; "connection"; "msrv"; "deps";
    "package-contents"; "no-internal-references"; "docs"; "fuzz-frame-decoder";
    "clean-clone"])]%string.

Definition a_failed_or_timed_out_result_is_never_reused : bool :=
  let counted (command : String.string) := [segment "counted" [SegmentTests.sh command]] in
  runs_to (record_in "gate") temp_dir (λ w record,
    runs_to (execute_in record (campaign (counted "exit 1"%string))) w (λ w failing,
      runs_to (execute_in record
                 (campaign_with (counted "true"%string) (30 * NANOS_PER_SECOND) true)) w (λ _ report, asserts [
        assert_eq (Report.state failing) State.Failed;
        assert_eq (first_status report) (Some Status.Pass)]))).

Definition a_working_tree_that_carries_changes_refuses_to_seal : bool :=
  let '(state, reasons) := seal_state (ids ["one"%string])
    (finals [("one"%string, Status.Pass, "identity"%string)]) (str "identity")
    (Modified [str " M src/lib.rs"]) in
  asserts [
    assert_eq state State.Partial;
    existsb (λ reason, contains reason (str "working tree")) reasons].

Definition a_clean_working_tree_with_every_segment_holding_seals : bool :=
  let '(state, reasons) := seal_state (ids ["one"; "two"]%string)
    (finals [("one", Status.Pass, "identity"); ("two", Status.Cached, "identity")]%string)
    (str "identity") Clean in
  asserts [assert_eq state State.Sealed; is_empty reasons].

Definition a_missing_required_segment_refuses_to_seal : bool :=
  let '(state, reasons) := seal_state (ids ["one"; "two"]%string)
    (finals [("one"%string, Status.Pass, "identity"%string)]) (str "identity") Clean in
  asserts [
    assert_eq state State.Partial;
    existsb (λ reason, contains reason (str "two")) reasons].

Definition a_failed_segment_refuses_to_seal : bool :=
  let '(state, reasons) := seal_state (ids ["one"%string])
    (finals [("one"%string, Status.Fail, "identity"%string)]) (str "identity") Clean in
  asserts [
    assert_eq state State.Failed;
    existsb (λ reason, contains reason (str "fail")) reasons].

Definition a_timed_out_segment_refuses_to_seal : bool :=
  let '(state, _) := seal_state (ids ["one"%string])
    (finals [("one"%string, Status.Timeout, "identity"%string)]) (str "identity") Clean in
  assert_eq state State.Failed.

Definition a_skipped_segment_refuses_to_seal : bool :=
  let '(state, _) := seal_state (ids ["one"%string])
    (finals [("one"%string, Status.Skipped, "identity"%string)]) (str "identity") Clean in
  assert_eq state State.Failed.

Definition results_under_more_than_one_evidence_identity_refuse_to_seal : bool :=
  let '(state, reasons) := seal_state (ids ["one"; "two"]%string)
    (finals [("one", Status.Pass, "identity"); ("two", Status.Cached, "another identity")]%string)
    (str "identity") Clean in
  asserts [
    assert_eq state State.Partial;
    existsb (λ reason, contains reason (str "different evidence identity")) reasons].

Definition tests : list bool := [
  the_manifest_exists_before_the_first_segment_runs;
  each_segment_is_recorded_before_the_next_one_runs;
  a_failed_attempt_and_a_later_passing_attempt_both_stay_in_the_journal;
  a_segment_over_its_budget_is_recorded_as_a_timeout;
  an_interrupted_campaign_keeps_every_completed_attempt;
  a_missing_host_prerequisite_is_recorded_as_skipped;
  a_changed_command_changes_the_definition_digest;
  every_defined_tier_requires_the_declared_segments;
  a_failed_or_timed_out_result_is_never_reused;
  a_working_tree_that_carries_changes_refuses_to_seal;
  a_clean_working_tree_with_every_segment_holding_seals;
  a_missing_required_segment_refuses_to_seal; a_failed_segment_refuses_to_seal;
  a_timed_out_segment_refuses_to_seal; a_skipped_segment_refuses_to_seal;
  results_under_more_than_one_evidence_identity_refuse_to_seal].
End CampaignTests.
