(* ===== verification/UnitTests.v ===== *)
(** * The unit tests of the repository

    Every unit test modelled in [WireTests], [ConnectionTests], [DispatchTests] and
    [RunnerTests], run on the model: where the model and the code disagreed on something a test
    looks at, this would not compile. *)

From S2P Require Export WireTests ConnectionTests DispatchTests RunnerTests.

Definition unit_tests : list bool :=
  ProtocolTests.tests Frame.decode ++ CommandTests.tests Frame.decode ++ ConnectionTests.tests ++
  DispatchTests.tests ++ JsonTests.tests ++ TimeTests.tests ++ IdentityTests.tests ++
  MainTests.tests ++ RecordTests.tests ++ SegmentTests.tests ++ CampaignTests.tests.

